(* ===== verification/_CoqProject ===== *)
-Q . S2P
Prelude.v
Errors.v
Stream.v
Encoder.v
Codec.v
Text.v
Config.v
ConfigProps.v
Effects.v
Usb.v
Ch341.v
Ch341Prog.v
Ch341Own.v
Ch341Facts.v
Ch341Ops.v
Ch341Link.v
Bus.v
Bridge.v
BridgeLaws.v
BridgeFacts.v
Ch341Props.v
Ch341Steps.v
Ch341Inter.v
Ch341Conc.v
BridgeProps.v
Nack.v
Driver.v
DriverProg.v
DriverSim.v
DriverErrors.v
DriverLive.v
Ch341Errors.v
DriverFacts.v
DriverScript.v
Service.v
ServiceInv.v
ServiceProps.v
Recent.v
SignRequest.v
Health.v
Http.v
HttpInv.v
HttpProps.v
Stack.v
Engine.v
EngineInv.v
Machine.v
Site.v
SiteInv.v
SiteProps.v
SiteClaims.v
EndToEnd.v
Main.v
Process.v
ProcessInv.v
ProcessProps.v
ProcessLive.v
ProcessClaims.v
