(* ===== verification/Prelude.v ===== *)
(** * remote-mfi-for-xcertplay: a verification development

    The program is an HTTP service (Go, under [src/]) that lets a remote client
    use an Apple MFi authentication coprocessor: it reads the chip's certificate
    and has challenges signed.  The chip sits on an I2C bus behind a CH341
    USB-to-I2C bridge.  This library models the program from the flags to the USB
    packets, as executable functions, and proves what makes each part correct.
    This file is the root: its header documents the whole development, its
    contents are the notions all files share.

    ** How the program is put together

    A request goes down through these layers, each behind an interface:

    - HTTP handlers ([internal/httpapi]): authentication, decoding, error mapping,
      the list of recent requests;
    - the service ([internal/biz/service.go]): one chip operation at a time (the
      gate), a signature cache that makes signing idempotent, a certificate cache;
    - the chip driver ([internal/chip/driver.go]): registers, retries, the
      certificate in windows, the signature with its polling;
    - the CH341 transport ([internal/transport]): a transaction is encoded as a
      stream of bridge commands ([ch341_encoder.go]) and executed by bulk
      transfers in a session on the USB device ([ch341.go]);
    - [internal/config/config.go] turns flags into a configuration, and
      [cmd/remote-mfi-for-xcertplay/main.go] builds the parts from it.

    ** The files

    Foundations.  [Prelude]: integers, slices, text formatting, the hint database
    [mfi].  [Errors]: Go error values with their chains, [errors.Is], [errors.As]
    and the program's two error types.  [Effects]: the type [IO] of effectful
    code with its bind notation, the interfaces [Clock] and [I2CTransport] with
    their laws, and the rules for termination ([live]), for results ([returns])
    and for total correctness ([wp]).  [Codec] and [Text]: the functions of the
    Go standard library the program calls (base64, hex, SHA-256; strings, strconv,
    net.SplitHostPort).

    Encoder.  [Stream]: the constants and commands of the bridge's stream, their
    printer and parser, the bus events they cause, and the program's own stream
    reader [instructionLengths].  [Encoder]: [ch341_encoder.go], function by
    function.

    Transport.  [Usb]: the library gousb as the class [Gousb], what its
    documentation promises as [GousbLaws], and Go's unspecified map order as
    [MapOrder].  [Ch341]: [ch341.go] with its state [Ch341Transport].
    [Ch341Facts] and [Ch341Ops]: each operation ends and keeps the invariant
    [transport_inv].  [Ch341Link]: the transport is an instance of
    [I2CTransport].  [Ch341Errors]: which errors a transaction can have.  [Bus]:
    the specification, an I2C bus with a device on it. [Bridge]: a simulated USB
    host, an instance of [Gousb] with injected faults and ideal bridges;
    [BridgeLaws] shows that it satisfies [GousbLaws]. [BridgeFacts] and
    [BridgeProps]: the transport on that host refines [Bus], also for devices that
    refuse bytes.  [Nack]: what a NACK error says.  [Ch341Props]: handles,
    endpoints, timeouts, the device list.

    Transport, concurrently.  [Ch341Prog]: the operations that call the USB library
    without holding [sessionMu], as trees of calls ([usb_prog]), equal to the
    functions of [Ch341] when run without interruption.  [Ch341Own]: which handles
    such a tree may touch.  [Ch341Steps]: goroutines that call [Transaction],
    [InspectUSB] and [Close] over the two mutexes, interleaved at every lock and
    at every USB call outside [sessionMu].  [Ch341Inter]: who owns which handle in
    every reachable state.  [Ch341Conc]: the theorems.

    Driver.  [Driver]: [driver.go] over any transport, with termination.
    [DriverErrors]: its errors.  [DriverFacts]: results and retries.  [DriverProg]:
    its functions as trees of calls of the transport and the clock; [DriverLive]:
    such a tree, run without interruption, is the function, and taken call by call
    it ends whatever the answers and the time in between.  [DriverScript]: the
    register traffic of each operation, over the scripted transport of
    [driver_test.go]. [DriverSim]: the driver cannot tell apart two transports
    related by a simulation, hence the driver on the CH341 is the driver on the bus.

    Service.  [Service]: [service.go] as a step relation, one step per atomic
    action of a goroutine.  [ServiceInv]: its invariants.  [ServiceProps]: the
    theorems.  [Health]: the device status, over the class [USBInspector].

    HTTP.  [Recent]: the ring buffer of [recent.go].  [SignRequest]: the JSON
    decoder for a sign request.  [Http]: [handlers.go] and [server.go] over the
    class [BizService].  [HttpInv]: what every operation of the service keeps,
    every request keeps.  [HttpProps]: the theorems.

    The whole.  [Stack]: the service on its driver and transport, as an instance
    of [BizService]; a call is a schedule of [Service] with the driver's answers.
    [Engine]: the same under concurrent calls, the goroutines of [Service] going
    through the trees of [DriverProg] and the steps of [Ch341Steps]; [EngineInv]:
    its invariant.  [Machine]: the stack stands on the CH341 transport.
    [EndToEnd]: a sign request from HTTP to the registers.  [Config] and
    [ConfigProps]: [config.go] with the flag parsing it relies on.

    The server.  [Site]: requests in goroutines of their own over one engine, as a
    step relation; the handlers of [Http] run on an [oracle] that records what they
    ask the service.  [SiteInv]: what a request asks and how it answers.
    [SiteProps]: the invariant of all interleavings, and that requests end.
    [SiteClaims]: the theorems.

    The process.  [Main]: [main.go] from the command line to the parts, and the
    program serving requests one at a time.  [Process]: [run] from there to the
    exit, with its goroutines, channel, signal context and deferred calls.
    [ProcessInv] and [ProcessProps]: their invariant.  [ProcessLive]: that the
    process comes to its end.  [ProcessClaims]: the theorems.

    Definitions have the names of the source; a prefix is added where two types
    of the source have a field of the same name.

    ** What the theorems show

    - Service ([ServiceProps]): mutual exclusion on the chip, at most one
      signature per request identifier while its cache entry is fresh, no
      response without the chip operation that justifies it, one certificate per
      process, release of the gate, progress, and the outcome of a sign call and
      of its retry.
    - Refinement ([BridgeProps], [DriverSim]): a transaction on the CH341 has the
      effect and the result of its packets on the bus, whatever bytes the device
      refuses; with it, what holds of the driver on the bus holds on the CH341.
      [Nack]: what the device has seen after a success and after a NACK error.
    - Encoder ([Encoder]): which requests are accepted, the bus events of an
      encoded stream, its packets, agreement with the reader, equivalence of the
      two encoders.
    - Driver ([DriverScript]): exact register traffic of reading the certificate
      and of signing, the time-out path, retries, which errors are final, bounds
      of results, termination on every transport.
    - Transport ([Ch341Props], [Ch341Conc]): the open USB handles are exactly
      those of the current session after every operation on every path; a session
      in use is never closed by another goroutine, and no handle is lost, however
      calls interleave; concurrent calls end, the two mutexes never locking each
      other out; the endpoints a session uses exist and are found whenever there are
      any; the device list is independent of the map order.
    - HTTP ([HttpProps]): no request without the token reaches the service, every
      business request is answered once and recorded, sign requests arrive
      unchanged, hardware errors are mapped as documented, but for an error that
      wraps [context.DeadlineExceeded], which is reported as a cancellation.
    - Concurrent requests ([SiteClaims]): whatever the interleaving, a signature is
      only answered when [SignChallenge] has made it from the transport's answers,
      a certificate only when it is the one read from the chip, the recent list has
      each answered request once, and every request is answered, no mutex and no
      gate being kept.
    - Configuration and recent list ([ConfigProps], [Recent]): flags round trip,
      the ring buffer keeps the newest entries.
    - The whole program ([EndToEnd], [Main]): signing end to end, with its bus
      traffic and its repetition; every command line ends the program or makes it
      serve, and then, one request at a time and the device changing between them, it
      answers every request and keeps the invariants of the service and of the
      transport; what the flags accept is
      well typed and every constructor takes it.
    - The process ([ProcessClaims]): no misuse of the channel, what an exit status
      means, no USB handle is open at the end; a signal ends the program, and once
      the ten seconds of the shutdown are over it needs nothing of the requests but
      that a transfer which holds a mutex goes on.

    ** Modelling decisions

    Bytes and integers are [Z]; conversions to [uint8] and [uint16] are written
    out, and the only 64-bit arithmetic that depends on an input has a theorem
    that it stays in range.  Durations and times are nanoseconds.  [None] in [IO]
    and in the handlers stands for a panic or for an exhausted loop bound; the
    theorems exclude both.  Loop bounds: [bulkReadAtMost] has one round more than
    bytes requested, as each round but the last adds a byte; [execute] one round
    more than stream bytes; [retryIO] and the polling loop are bounded by their
    time-out divided by their delay, as each round sleeps that long; the
    certificate loop by the certificate's length.

    In [Service] each critical section, channel operation and driver call
    boundary is one step; what the code does not decide (the [select] branch,
    cancellation, the chip's answers, time) is the step's label.  In [Ch341Steps]
    to lock and to unlock a mutex are steps; what is done under [sessionMu] (to open,
    drop or close the session, to look at it) is one step of its holder, and every
    USB call outside [sessionMu] is one.  [Engine], [Site] and [Process] have these steps, too: a chip operation
    goes through the driver's code call by call and through each transaction step
    by step.  There an inspection of the devices is one step, which waits for
    [sessionMu] (its calls are apart in [Ch341Steps]), a pause is one step that
    moves the clock on, and the deferred [Close] is one step that waits for both
    mutexes.  [wire] and [EvSigned] are ghosts that tie a signature to the
    transport's answers.  Writing the log line of a request and adding its recent
    entry are one step.  Requests that end ([SiteProps]): each action of a goroutine
    brings it forward in the service's code, or in the driver's, or in the
    transport's.  In [Process] the network decides the outcome of listening and
    accepting, requests come on any connection that was accepted, and [Shutdown]
    waits for the serving loop to return and then until no request is in progress,
    as [net/http] does; a request's context may be cancelled at any time, the
    probe's by a signal or after four seconds.  [Stack] serves one request at a time.  The laws of [GousbLaws] hold of the simulated host, and every
    theorem with hypotheses has an example at concrete inputs beside it.

    ** What is not modelled

    The text of JSON and HTML responses and of log lines (values are kept, their
    printing is [encoding/json], [html/template] and [log/slog]); the usage text
    of the flags; the time-outs of [http.Server] for reading and writing, which end
    connections and not handlers; signals before [signal.NotifyContext]; the
    parsing of the embedded page templates; the version variables of
    [internal/ver]; the location of times, whose text is a parameter; paths that
    are only known ones after unescaping; a failure of [gousb.NewContext].
    [github.com/google/gousb] and [github.com/google/uuid] are parameters, and so
    are the texts of their errors. *)

From Stdlib Require Export ZArith Lia Ascii String.
From stdpp Require Export base list sorting strings gmap pretty.

#[global] Open Scope Z_scope.

Declare Scope go_scope.
Delimit Scope go_scope with go.

Create HintDb mfi.

(** ** Go integers and slices *)

(** [byte(x)] / [uint8(x)]: conversion keeps the low eight bits. *)
Definition u8 (z : Z) : Z := z mod 256.

(** [len(s)] of a slice or string. *)
Definition len {A} (l : list A) : Z := Z.of_nat (length l).

(** [s[i]], [None] where Go panics. *)
Definition at_index {A} (l : list A) (i : Z) : option A :=
  if i <? 0 then None else l !! Z.to_nat i.

(** [s[a:b]] for [0 <= a <= b <= len(s)]. *)
Definition slice {A} (a b : Z) (l : list A) : list A :=
  take (Z.to_nat (b - a)) (drop (Z.to_nat a) l).

(** A list of values of type [byte]. *)
Definition bytes_ok (l : list Z) : Prop := Forall (fun b => 0 <= b < 256) l.

Lemma u8_range z : 0 <= u8 z < 256.
Proof. apply Z.mod_pos_bound. lia. Qed.

Lemma u8_small z : 0 <= z < 256 -> u8 z = z.
Proof. apply Z.mod_small. Qed.

Section Len.
Context {A : Type}.
Implicit Types l k : list A.

Lemma len_nonneg l : 0 <= len l.
Proof. unfold len. lia. Qed.

Lemma len_nil : len (@nil A) = 0.
Proof. done. Qed.

Lemma len_cons x l : len (x :: l) = 1 + len l.
Proof. unfold len. simpl. lia. Qed.

Lemma len_app l k : len (l ++ k) = len l + len k.
Proof. unfold len. rewrite length_app. lia. Qed.

Lemma len_replicate n (x : A) : len (replicate n x) = Z.of_nat n.
Proof. unfold len. by rewrite length_replicate. Qed.

Lemma len_take n l : len (take n l) = Z.min (Z.of_nat n) (len l).
Proof. unfold len. rewrite length_take. lia. Qed.

Lemma len_drop n l : len (drop n l) = Z.max 0 (len l - Z.of_nat n).
Proof. unfold len. rewrite length_drop. lia. Qed.

Lemma len_zero l : len l = 0 -> l = [].
Proof. destruct l; [done|]. unfold len. simpl. lia. Qed.

Lemma len_slice a b l :
  0 <= a <= b -> b <= len l -> len (slice a b l) = b - a.
Proof. intros. unfold slice. rewrite len_take, len_drop. lia. Qed.

Lemma at_index_cons x l i : 0 < i -> at_index (x :: l) i = at_index l (i - 1).
Proof.
  intros. unfold at_index.
  destruct (Z.ltb_spec i 0), (Z.ltb_spec (i - 1) 0); try lia.
  replace (Z.to_nat i) with (S (Z.to_nat (i - 1))) by lia. done.
Qed.

Lemma at_index_app_r l k i :
  len l <= i -> at_index (l ++ k) i = at_index k (i - len l).
Proof.
  intros. pose proof (len_nonneg l). unfold at_index, len in *.
  destruct (Z.ltb_spec i 0), (Z.ltb_spec (i - Z.of_nat (length l)) 0); try lia.
  rewrite lookup_app_r by lia. f_equal. lia.
Qed.

Lemma at_index_ge l i : len l <= i -> at_index l i = None.
Proof.
  intros. unfold at_index, len in *. destruct (i <? 0); [done|].
  apply lookup_ge_None. lia.
Qed.

Lemma at_index_Some l i : 0 <= i < len l -> exists x, at_index l i = Some x.
Proof.
  intros. unfold at_index, len in *. destruct (Z.ltb_spec i 0); [lia|].
  apply lookup_lt_is_Some. lia.
Qed.
End Len.

Create Rewrite HintDb len.
#[export] Hint Rewrite @len_nil @len_cons @len_app @len_replicate @len_take @len_drop : len.
#[export] Hint Resolve len_nonneg u8_range : mfi.

(** ** The development's tactics *)

(** Turn one boolean comparison of the goal or context into an inequality. *)
Ltac zcase :=
  match goal with
  | |- context [Z.ltb ?a ?b] => destruct (Z.ltb_spec a b)
  | |- context [Z.leb ?a ?b] => destruct (Z.leb_spec a b)
  | |- context [Z.eqb ?a ?b] => destruct (Z.eqb_spec a b)
  | H : context [Z.ltb ?a ?b] |- _ => destruct (Z.ltb_spec a b)
  | H : context [Z.leb ?a ?b] |- _ => destruct (Z.leb_spec a b)
  | H : context [Z.eqb ?a ?b] |- _ => destruct (Z.eqb_spec a b)
  end; simpl negb in *; simpl andb in *; simpl orb in *.

(** Decide every comparison, dropping the impossible branches. *)
Ltac zcases := repeat (zcase; try lia).

(** Normalise lengths and close linear goals about them. *)
Ltac len_lia :=
  autorewrite with len in *;
  repeat match goal with
  | |- context [len ?l] => lazymatch goal with
      | H : 0 <= len l |- _ => fail | _ => pose proof (len_nonneg l) end
  | H : context [len ?l] |- _ => lazymatch goal with
      | H : 0 <= len l |- _ => fail | _ => pose proof (len_nonneg l) end
  end; lia.

Lemma bytes_ok_app l k : bytes_ok (l ++ k) <-> bytes_ok l /\ bytes_ok k.
Proof. unfold bytes_ok. by rewrite Forall_app. Qed.

Lemma bytes_ok_cons x l : bytes_ok (x :: l) <-> (0 <= x < 256) /\ bytes_ok l.
Proof. unfold bytes_ok. by rewrite Forall_cons. Qed.

Lemma slice_all {A} (l : list A) : slice 0 (len l) l = l.
Proof. unfold slice, len. rewrite drop_0. apply take_ge. lia. Qed.

Lemma slice_app_l {A} (l k : list A) : slice 0 (len l) (l ++ k) = l.
Proof.
  unfold slice, len. rewrite drop_0, take_app_le by lia. apply take_ge. lia.
Qed.

Lemma slice_shift {A} (l k : list A) a b :
  0 <= a -> slice (len l + a) (len l + b) (l ++ k) = slice a b k.
Proof.
  intros. unfold slice, len.
  rewrite drop_app_ge by lia. f_equal; [lia|]. f_equal. lia.
Qed.

(** ** Integer sums over lists *)

Definition sumZ {A} (f : A -> Z) (l : list A) : Z := foldr (fun x s => f x + s) 0 l.

Lemma sumZ_app {A} (f : A -> Z) l k : sumZ f (l ++ k) = sumZ f l + sumZ f k.
Proof. induction l; simpl; lia. Qed.

Lemma sumZ_nonneg {A} (f : A -> Z) l : (forall x, 0 <= f x) -> 0 <= sumZ f l.
Proof. intros Hf. induction l as [|x l IH]; simpl; [lia|]. specialize (Hf x). lia. Qed.

(** ** Threads

    Threads in a map that each come closer to their end, one at a time, all end:
    a step at one key that goes down in a well-founded relation is well-founded
    on the whole map. *)
Definition at_key {K : Type} `{Countable K} {A} (R : A -> A -> Prop) (m' m : gmap K A) : Prop :=
  exists k a a', m !! k = Some a /\ R a' a /\ m' = <[k := a']> m.

Lemma at_key_wf {K : Type} `{Countable K} {A} (R : A -> A -> Prop) (m : gmap K A) :
  (forall a, Acc R a) -> Acc (at_key R) m.
Proof.
  intros Hwf. induction m as [|k a m Hnew IHm] using map_ind.
  { constructor. intros m' (k & a & a' & Ha & _). by rewrite lookup_empty in Ha. }
  revert m IHm Hnew. induction (Hwf a) as [a _ IHa]. intros m IHm Hnew.
  induction IHm as [m Hm IHm]. constructor. intros m' (j & b & b' & Hb & HR & ->).
  apply lookup_insert_Some in Hb as [[<- <-]|[Hne Hb]].
  - rewrite insert_insert_eq. apply IHa; [done|by constructor|done].
  - rewrite insert_insert_ne by done. apply IHm; [by exists j, b, b'|].
    by rewrite lookup_insert_ne.
Qed.

(** ** Formatting, as the [fmt] verbs the program uses *)

Definition hex_digit (d : Z) : ascii :=
  if d <? 10 then ascii_of_nat (Z.to_nat (48 + d)) else ascii_of_nat (Z.to_nat (87 + d)).

(** [%0<w>x] for [0 <= z < 16^w]. *)
Fixpoint fmt_hex (w : nat) (z : Z) : string :=
  match w with
  | O => EmptyString
  | S w => fmt_hex w (z / 16) +:+ String (hex_digit (z mod 16)) EmptyString
  end.

(** [%d]. *)
Definition fmt_d (z : Z) : string := pretty z.
