(* ===== verification/Errors.v ===== *)
(** * Go error values, error chains and the two [Error] types

    Models [internal/transport/transport.go] (the [Error] type, [ErrorKind],
    [IsKind]), the error part of [internal/chip/driver.go] and the sentinels of
    [internal/biz/service.go], with the parts of the standard [errors] package
    they rely on ([Is], [As], [Unwrap]). *)

From S2P Require Import Prelude.

Open Scope string_scope.

(** ** Kinds *)

Inductive TransportErrorKind :=
  | ErrorInvalidRequest | ErrorDeviceMissing | ErrorPermission | ErrorBusy
  | ErrorTimeout | ErrorNACK | ErrorProtocol | ErrorIO.

Inductive ChipErrorKind := ErrorInvalidData | ErrorAuthFailed.

#[export] Instance TransportErrorKind_eq_dec : EqDecision TransportErrorKind.
Proof. solve_decision. Defined.
#[export] Instance ChipErrorKind_eq_dec : EqDecision ChipErrorKind.
Proof. solve_decision. Defined.

(** The package-level error variables, compared by identity. *)
Inductive sentinel :=
  | ErrChipBusy | ErrChipMissing | ErrRequestIDReuse | ErrChallengeSize
  | ErrRequestIDFormat | Canceled | DeadlineExceeded.

#[export] Instance sentinel_eq_dec : EqDecision sentinel.
Proof. solve_decision. Defined.

(** The [gousb] constants the program names; every other code is [Other]. *)
Inductive usb_error :=
  | UsbErrorAccess | UsbErrorBusy | UsbErrorNoDevice | UsbErrorNotFound
  | UsbErrorTimeout | UsbErrorInvalidParam | UsbErrorPipe | UsbErrorOverflow
  | UsbErrorOther (code : Z).

Inductive transfer_status :=
  | TransferTimedOut | TransferCancelled | TransferNoDevice | TransferStall
  | TransferOverflow | TransferOther (code : Z).

(** ** Error values

    [WrapError pre e post] is [fmt.Errorf] with one [%w] verb applied to [e]. *)
Inductive goerror :=
  | ErrorString (msg : string)
  | SentinelError (s : sentinel)
  | WrapError (pre : string) (inner : goerror) (post : string)
  | TransportError (Kind : TransportErrorKind) (Operation : string) (Err : option goerror)
  | ChipError (Kind : ChipErrorKind) (Operation : string) (Code : option Z) (Err : option goerror)
  | GousbError (e : usb_error)
  | GousbTransferStatus (t : transfer_status).

(** A Go [(value, error)] pair of which exactly one is meaningful. *)
Inductive result (A : Type) :=
  | Ok (a : A)
  | Err (e : goerror).
Arguments Ok {A} _.
Arguments Err {A} _.

Definition result_bind {A B} (m : result A) (f : A -> result B) : result B :=
  match m with Ok a => f a | Err e => Err e end.

Notation "x <-! m ;; k" := (result_bind m (fun x => k))
  (at level 20, m at level 99, k at level 200) : go_scope.

Definition is_ok {A} (r : result A) : bool := match r with Ok _ => true | Err _ => false end.

(** ** [errors.Unwrap], [errors.As], [errors.Is] *)

Definition Unwrap (e : goerror) : option goerror :=
  match e with
  | WrapError _ inner _ => Some inner
  | TransportError _ _ err => err
  | ChipError _ _ _ err => err
  | _ => None
  end.

(** [errors.As(err, &target)]: the first error of the chain that [pick]
    accepts, [pick] being the type assertion to the target's type. *)
Fixpoint errors_As {A} (pick : goerror -> option A) (e : goerror) : option A :=
  match pick e with
  | Some a => Some a
  | None =>
      match e with
      | WrapError _ inner _ => errors_As pick inner
      | TransportError _ _ (Some err) => errors_As pick err
      | ChipError _ _ _ (Some err) => errors_As pick err
      | _ => None
      end
  end.

Definition as_transport (e : goerror) : option TransportErrorKind :=
  match e with TransportError k _ _ => Some k | _ => None end.

Definition as_chip (e : goerror) : option (ChipErrorKind * option Z) :=
  match e with ChipError k _ code _ => Some (k, code) | _ => None end.

Definition as_usb (e : goerror) : option usb_error :=
  match e with GousbError u => Some u | _ => None end.

Definition as_status (e : goerror) : option transfer_status :=
  match e with GousbTransferStatus t => Some t | _ => None end.

Definition as_sentinel (target : sentinel) (e : goerror) : option unit :=
  match e with SentinelError s => if decide (s = target) then Some () else None | _ => None end.

(** [errors.Is(err, target)] for a sentinel target. *)
Definition errors_Is (e : goerror) (target : sentinel) : bool :=
  match errors_As (as_sentinel target) e with Some _ => true | None => false end.

(** [transport.IsKind]. *)
Definition transport_IsKind (e : goerror) (kind : TransportErrorKind) : bool :=
  match errors_As as_transport e with Some k => bool_decide (k = kind) | None => false end.

(** [chip.IsKind]. *)
Definition chip_IsKind (e : goerror) (kind : ChipErrorKind) : bool :=
  match errors_As as_chip e with Some (k, _) => bool_decide (k = kind) | None => false end.

(** The sentinels of [internal/biz/service.go].  An error of the packages below
    carries none of them. *)
Definition service_sentinels : list sentinel :=
  [ErrChipBusy; ErrChipMissing; ErrRequestIDReuse; ErrChallengeSize; ErrRequestIDFormat].

Definition hardware_error (e : goerror) : bool :=
  forallb (fun s => negb (errors_Is e s)) service_sentinels.

(** [hardware r]: [r] is no error, or an error of those packages. *)
Definition hardware {A} (r : result A) : Prop :=
  match r with Ok _ => True | Err e => hardware_error e = true end.

(** ** Messages: the [Error() string] methods

    The texts of [gousb]'s own errors are that library's. *)
Class GousbText := {
  usb_error_text : usb_error -> string;
  transfer_status_text : transfer_status -> string;
}.

Definition kind_text (k : TransportErrorKind) : string :=
  match k with
  | ErrorInvalidRequest => "invalid_request"
  | ErrorDeviceMissing => "device_missing"
  | ErrorPermission => "permission_denied"
  | ErrorBusy => "device_busy"
  | ErrorTimeout => "timeout"
  | ErrorNACK => "nack"
  | ErrorProtocol => "protocol"
  | ErrorIO => "io"
  end.

Definition chip_kind_text (k : ChipErrorKind) : string :=
  match k with
  | ErrorInvalidData => "invalid_data"
  | ErrorAuthFailed => "auth_failed"
  end.

Definition sentinel_text (s : sentinel) : string :=
  match s with
  | ErrChipBusy => "chip busy, retry"
  | ErrChipMissing => "chip missing"
  | ErrRequestIDReuse => "requestId reuse with different challenge"
  | ErrChallengeSize => "challenge must be 1..128 bytes"
  | ErrRequestIDFormat => "requestId must be a UUID"
  | Canceled => "context canceled"
  | DeadlineExceeded => "context deadline exceeded"
  end.

(** [Error()] of the two types, [inner] being the text of the wrapped error. *)
Definition transport_error_text (kind : TransportErrorKind) (op : string) (inner : option string) : string :=
  match inner with
  | Some text => op +:+ ": " +:+ text
  | None => op +:+ ": " +:+ kind_text kind
  end.

Definition chip_error_text (kind : ChipErrorKind) (op : string) (code : option Z) (inner : option string) : string :=
  match code, inner with
  | Some code, _ => op +:+ " failed with MFi error 0x" +:+ fmt_hex 2 code
  | None, Some text => op +:+ ": " +:+ text
  | None, None => op +:+ ": " +:+ chip_kind_text kind
  end.

Fixpoint error_text `{GousbText} (e : goerror) : string :=
  match e with
  | ErrorString msg => msg
  | SentinelError s => sentinel_text s
  | WrapError pre inner post => pre +:+ error_text inner +:+ post
  | TransportError kind op None => transport_error_text kind op None
  | TransportError kind op (Some err) => transport_error_text kind op (Some (error_text err))
  | ChipError kind op code None => chip_error_text kind op code None
  | ChipError kind op code (Some err) => chip_error_text kind op code (Some (error_text err))
  | GousbError u => usb_error_text u
  | GousbTransferStatus t => transfer_status_text t
  end.

(** ** Facts shared by the components *)

Lemma errors_As_hit {A} (pick : goerror -> option A) e a :
  pick e = Some a -> errors_As pick e = Some a.
Proof. destruct e; simpl; intros ->; done. Qed.

Lemma errors_As_wrap {A} (pick : goerror -> option A) pre e post :
  pick (WrapError pre e post) = None ->
  errors_As pick (WrapError pre e post) = errors_As pick e.
Proof. simpl. intros ->. done. Qed.

(** Wrapping with [%w] is transparent for both [IsKind] functions and for [Is]. *)
Lemma transport_IsKind_wrap pre e post k :
  transport_IsKind (WrapError pre e post) k = transport_IsKind e k.
Proof. done. Qed.

Lemma chip_IsKind_wrap pre e post k :
  chip_IsKind (WrapError pre e post) k = chip_IsKind e k.
Proof. done. Qed.

Lemma errors_Is_wrap pre e post s :
  errors_Is (WrapError pre e post) s = errors_Is e s.
Proof. done. Qed.

(** An outermost [*transport.Error] decides [IsKind], whatever it wraps. *)
Lemma transport_IsKind_outer k op err k' :
  transport_IsKind (TransportError k op err) k' = bool_decide (k = k').
Proof. done. Qed.

Create Rewrite HintDb errors.
#[export] Hint Rewrite transport_IsKind_wrap chip_IsKind_wrap errors_Is_wrap transport_IsKind_outer : errors.
