(* ===== verification/Stream.v ===== *)
(** * The CH341 I2C command stream

    The stream constants of [internal/transport/ch341_encoder.go] and the stream
    reader of [internal/transport/ch341.go] ([instructionLengths],
    [encodedLength], [checkStatusBytes]), with the grammar both the encoder and
    the reader follow: commands, their printing to bytes, a parser, and the I2C
    bus events a command stands for. *)

From S2P Require Import Prelude Errors.

Open Scope string_scope.
Open Scope list_scope.
Open Scope Z_scope.

(** ** Constants *)

Definition maxStreamPacketBytes : Z := 32.
Definition maxTransactionBytes : Z := 0xffff.
Definition maxReadBlockBytes : Z := 32.
Definition maxWriteCommandBytes : Z := 0x3f.
Definition streamStart : Z := 0xaa.
Definition streamEnd : Z := 0x00.
Definition streamI2CStart : Z := 0x74.
Definition streamI2CStop : Z := 0x75.
Definition streamWrite : Z := 0x80.
Definition streamRead : Z := 0xc0.
Definition streamEndBytes : Z := 1.
Definition streamStopAndEndBytes : Z := 2.
Definition streamStartAddressBytes : Z := 3.
Definition lengthMask : Z := 0x3f.
Definition ackBit : Z := 0x80.

(** ** [instructionLengths] *)

Definition encodedLength (command : Z) : Z :=
  let encoded := Z.land command lengthMask in
  if encoded =? 0 then 1 else encoded.

Definition decode_error (msg : string) : goerror :=
  TransportError ErrorProtocol "decode CH341 stream" (Some (ErrorString msg)).

(** The loop, from [index] with the two running totals.  Every iteration moves
    [index] forward, so [len(segment)] iterations reach its end. *)
Fixpoint instruction_loop (fuel : nat) (segment : list Z) (index writtenBytes dataBytes : Z)
    : result (Z * Z) :=
  match fuel with
  | O => Ok (writtenBytes, dataBytes)
  | S fuel =>
      match at_index segment index with
      | None => Ok (writtenBytes, dataBytes)
      | Some command =>
          let index := index + 1 in
          let continue index writtenBytes dataBytes :=
            if len segment <? index then Err (decode_error "truncated command")
            else instruction_loop fuel segment index writtenBytes dataBytes in
          if command =? streamEnd then Ok (writtenBytes, dataBytes)
          else if (command =? streamI2CStart) || (command =? streamI2CStop) then
            continue index writtenBytes dataBytes
          else if (0x80 <=? command) && (command <=? 0xbf) then
            let written := encodedLength command in
            let writtenBytes :=
              if Z.land command lengthMask =? 0 then writtenBytes + written else writtenBytes in
            continue (index + written) writtenBytes dataBytes
          else if (0xc0 <=? command) && (command <=? 0xff) then
            continue index writtenBytes (dataBytes + encodedLength command)
          else if (0x60 <=? command) && (command <=? 0x63) then
            continue index writtenBytes dataBytes
          else Err (decode_error ("unexpected command 0x" +:+ fmt_hex 2 command))
      end
  end.

Definition instructionLengths (segment : list Z) : result (Z * Z) :=
  instruction_loop (length segment) segment 1 0 0.

Lemma encodedLength_min c : 0 <= c -> 1 <= encodedLength c.
Proof.
  intros Hc. unfold encodedLength. assert (0 <= Z.land c lengthMask) by (apply Z.land_nonneg; by left).
  destruct (Z.eqb_spec (Z.land c lengthMask) 0); lia.
Qed.

Lemma instruction_loop_nonneg fuel segment : forall index w d w' d',
  0 <= w -> 0 <= d -> instruction_loop fuel segment index w d = Ok (w', d') -> 0 <= w' /\ 0 <= d'.
Proof.
  induction fuel as [|fuel IH]; intros index w d w' d' Hw Hd; cbn [instruction_loop]; [by intros [= <- <-]|].
  destruct (at_index segment index) as [c|]; [|by intros [= <- <-]]. cbv zeta.
  destruct (c =? streamEnd); [by intros [= <- <-]|].
  destruct ((c =? streamI2CStart) || (c =? streamI2CStop)); [destruct (_ <? _); [done|by apply IH]|].
  destruct (Z.leb_spec 0x80 c), (Z.leb_spec c 0xbf), (Z.leb_spec 0xc0 c), (Z.leb_spec c 0xff),
    (Z.leb_spec 0x60 c), (Z.leb_spec c 0x63); cbn [andb]; try lia; try done.
  all: destruct (_ <? _); [done|]; apply IH; try done.
  all: pose proof (encodedLength_min c ltac:(lia)); try destruct (_ =? 0); lia.
Qed.

Lemma instructionLengths_nonneg segment w d :
  instructionLengths segment = Ok (w, d) -> 0 <= w /\ 0 <= d.
Proof. by apply instruction_loop_nonneg. Qed.

(** ** [checkStatusBytes] *)

Fixpoint check_status_from (offset : Z) (status : list Z) : option goerror :=
  match status with
  | [] => None
  | value :: rest =>
      if negb (Z.land value ackBit =? 0) then
        Some (TransportError ErrorNACK "CH341 I2C"
                (Some (ErrorString ("NACK on byte " +:+ fmt_d offset))))
      else check_status_from (offset + 1) rest
  end.

Definition checkStatusBytes (status : list Z) : option goerror := check_status_from 0 status.

(** ** The grammar *)

(** What happens on the I2C bus. *)
Inductive bus_event :=
  | BusStart
  | BusStop
  | BusWrite (value : Z)
  | BusRead (ack : bool).

(** A command of the stream.  [CmdWrite1 v] writes one byte and reports its
    acknowledge bit; [CmdWriteN vs] writes 1..63 bytes without reporting;
    [CmdReadN n] reads 1..63 bytes and acknowledges them all; [CmdRead1] reads
    the last byte and does not acknowledge it; [CmdSpeed] selects the clock. *)
Inductive stream_cmd :=
  | CmdStart
  | CmdStop
  | CmdWrite1 (value : Z)
  | CmdWriteN (values : list Z)
  | CmdReadN (n : Z)
  | CmdRead1
  | CmdSpeed (code : Z).

Definition cmd_ok (c : stream_cmd) : Prop :=
  match c with
  | CmdWriteN vs => 1 <= len vs <= 63
  | CmdReadN n => 1 <= n <= 63
  | CmdSpeed c => 0x60 <= c <= 0x63
  | _ => True
  end.

Definition cmd_bytes (c : stream_cmd) : list Z :=
  match c with
  | CmdStart => [streamI2CStart]
  | CmdStop => [streamI2CStop]
  | CmdWrite1 v => [streamWrite; v]
  | CmdWriteN vs => streamWrite + len vs :: vs
  | CmdReadN n => [streamRead + n]
  | CmdRead1 => [streamRead]
  | CmdSpeed c => [c]
  end.

Definition cmd_events (c : stream_cmd) : list bus_event :=
  match c with
  | CmdStart => [BusStart]
  | CmdStop => [BusStop]
  | CmdWrite1 v => [BusWrite v]
  | CmdWriteN vs => map BusWrite vs
  | CmdReadN n => replicate (Z.to_nat n) (BusRead true)
  | CmdRead1 => [BusRead false]
  | CmdSpeed _ => []
  end.

(** Bytes the bridge answers for a command: acknowledge bits and data. *)
Definition cmd_status_count (c : stream_cmd) : Z :=
  match c with CmdWrite1 _ => 1 | _ => 0 end.

Definition cmd_data_count (c : stream_cmd) : Z :=
  match c with CmdReadN n => n | CmdRead1 => 1 | _ => 0 end.

Definition cmds_bytes (cs : list stream_cmd) : list Z := concat (map cmd_bytes cs).
Definition cmds_events (cs : list stream_cmd) : list bus_event := concat (map cmd_events cs).
Definition status_count (cs : list stream_cmd) : Z := sumZ cmd_status_count cs.
Definition data_count (cs : list stream_cmd) : Z := sumZ cmd_data_count cs.

(** The parser, the inverse of [cmds_bytes]. *)
Fixpoint parse_cmds (fuel : nat) (bytes : list Z) : option (list stream_cmd) :=
  match fuel with
  | O => Some []
  | S fuel =>
      match bytes with
      | [] => Some []
      | command :: rest =>
          let n := Z.land command lengthMask in
          if command =? streamEnd then Some []
          else if command =? streamI2CStart then cons CmdStart <$> parse_cmds fuel rest
          else if command =? streamI2CStop then cons CmdStop <$> parse_cmds fuel rest
          else if (0x80 <=? command) && (command <=? 0xbf) then
            if n =? 0 then
              match rest with
              | v :: rest => cons (CmdWrite1 v) <$> parse_cmds fuel rest
              | [] => None
              end
            else if len rest <? n then None
            else cons (CmdWriteN (slice 0 n rest)) <$> parse_cmds fuel (drop (Z.to_nat n) rest)
          else if (0xc0 <=? command) && (command <=? 0xff) then
            if n =? 0 then cons CmdRead1 <$> parse_cmds fuel rest
            else cons (CmdReadN n) <$> parse_cmds fuel rest
          else if (0x60 <=? command) && (command <=? 0x63) then
            cons (CmdSpeed command) <$> parse_cmds fuel rest
          else None
      end
  end.

(** A packet is the start marker followed by commands up to the end marker. *)
Definition parse_packet (packet : list Z) : option (list stream_cmd) :=
  match packet with
  | [] => None
  | m :: body => if m =? streamStart then parse_cmds (length body) body else None
  end.

(** ** Facts about the grammar *)

Create Rewrite HintDb stream.

Lemma cmds_bytes_app a b : cmds_bytes (a ++ b) = cmds_bytes a ++ cmds_bytes b.
Proof. unfold cmds_bytes. by rewrite map_app, concat_app. Qed.

Lemma cmds_events_app a b : cmds_events (a ++ b) = cmds_events a ++ cmds_events b.
Proof. unfold cmds_events. by rewrite map_app, concat_app. Qed.

Lemma status_count_app a b : status_count (a ++ b) = status_count a + status_count b.
Proof. apply sumZ_app. Qed.

Lemma data_count_app a b : data_count (a ++ b) = data_count a + data_count b.
Proof. apply sumZ_app. Qed.

#[export] Hint Rewrite cmds_bytes_app cmds_events_app status_count_app data_count_app : stream.

Lemma land_low6 k n : 0 <= n < 64 -> Z.land (64 * k + n) lengthMask = n.
Proof.
  intros. change lengthMask with (Z.ones 6). rewrite Z.land_ones by lia.
  change (2 ^ 6) with 64. rewrite Z.mul_comm, Z.add_comm, Z.mod_add by lia. by apply Z.mod_small.
Qed.

Lemma low6_write n : 0 <= n < 64 -> Z.land (streamWrite + n) lengthMask = n.
Proof. apply (land_low6 2). Qed.

Lemma low6_read n : 0 <= n < 64 -> Z.land (streamRead + n) lengthMask = n.
Proof. apply (land_low6 3). Qed.

(** The commands, one at a time, as both readers consume them. *)

Definition parse_outcome (w d : Z) (parsed : option (list stream_cmd)) (r : result (Z * Z)) : Prop :=
  match parsed with
  | Some cs => r = Ok (w + status_count cs, d + data_count cs)
  | None => exists e, r = Err e /\ transport_IsKind e ErrorProtocol = true
  end.

Lemma parse_outcome_cons w' d' w d c parsed r :
  parse_outcome w' d' parsed r -> w' = w + cmd_status_count c -> d' = d + cmd_data_count c ->
  parse_outcome w d (cons c <$> parsed) r.
Proof.
  intros Hr -> ->. destruct parsed as [cs|]; simpl in *; [|done].
  rewrite Hr. unfold status_count, data_count. simpl. do 2 f_equal; lia.
Qed.

Lemma parse_outcome_nil w d : parse_outcome w d (Some []) (Ok (w, d)).
Proof. simpl. unfold status_count, data_count. simpl. by rewrite !Z.add_0_r. Qed.

Lemma encodedLength_pos c : encodedLength c = if Z.land c lengthMask =? 0 then 1 else Z.land c lengthMask.
Proof. unfold encodedLength. by destruct (_ =? 0). Qed.

Lemma low6_range c : 0 <= Z.land c lengthMask < 64.
Proof.
  change lengthMask with (Z.ones 6). rewrite Z.land_ones by lia. apply Z.mod_pos_bound. lia.
Qed.

Lemma at_index_here {A} (pre : list A) body : at_index (pre ++ body) (len pre) = head body.
Proof. rewrite at_index_app_r, Z.sub_diag by lia. by destruct body. Qed.

(** What both readers do after a command that takes [k] more bytes. *)
Section Readers.
Context (fuel1 fuel2 : nat).

Definition readers_agree (body : list Z) : Prop := forall pre w d,
  parse_outcome w d (parse_cmds fuel2 body) (instruction_loop fuel1 (pre ++ body) (len pre) w d).

Definition loop_continue (segment : list Z) (index w d : Z) : result (Z * Z) :=
  if len segment <? index then Err (decode_error "truncated command")
  else instruction_loop fuel1 segment index w d.

Lemma loop_continue_skip k pre c rest w d :
  0 <= k -> readers_agree (drop (Z.to_nat k) rest) ->
  parse_outcome w d
    (if len rest <? k then None else parse_cmds fuel2 (drop (Z.to_nat k) rest))
    (loop_continue (pre ++ c :: rest) (len pre + 1 + k) w d).
Proof.
  intros Hk Hagree. unfold loop_continue. autorewrite with len.
  destruct (Z.ltb_spec (len rest) k), (Z.ltb_spec (len pre + (1 + len rest)) (len pre + 1 + k));
    try lia.
  - simpl. by eexists.
  - specialize (Hagree (pre ++ c :: take (Z.to_nat k) rest) w d).
    rewrite <- app_assoc in Hagree. simpl in Hagree. rewrite take_drop in Hagree.
    replace (len pre + 1 + k) with (len (pre ++ c :: take (Z.to_nat k) rest)) by len_lia.
    done.
Qed.

Lemma loop_continue_next pre c rest w d :
  readers_agree rest ->
  parse_outcome w d (parse_cmds fuel2 rest) (loop_continue (pre ++ c :: rest) (len pre + 1) w d).
Proof.
  intros Hagree. pose proof (loop_continue_skip 0 pre c rest w d ltac:(lia)) as Hskip.
  rewrite Z.add_0_r in Hskip. pose proof (len_nonneg rest).
  destruct (Z.ltb_spec (len rest) 0); [lia|]. by apply Hskip.
Qed.
End Readers.

(** One command. *)
Lemma readers_agree_cons fuel1 fuel2 c rest :
  (forall k, readers_agree fuel1 fuel2 (drop k rest)) ->
  readers_agree (S fuel1) (S fuel2) (c :: rest).
Proof.
  intros Hagree pre w d. pose proof (low6_range c) as Hlow.
  pose proof (Hagree 0%nat) as Hnext. rewrite drop_0 in Hnext.
  cbn [instruction_loop parse_cmds]. rewrite at_index_here. cbn [head]. cbv zeta.
  rewrite encodedLength_pos.
  repeat match goal with
  | |- context [if len (pre ++ c :: rest) <? ?i then _ else instruction_loop _ _ ?i ?w ?d] =>
      change (if len (pre ++ c :: rest) <? i then _ else instruction_loop _ _ i w d)
        with (loop_continue fuel1 (pre ++ c :: rest) i w d)
  end.
  assert (Hone : forall cmd w' d', w' = w + cmd_status_count cmd -> d' = d + cmd_data_count cmd ->
    parse_outcome w d (cons cmd <$> parse_cmds fuel2 rest)
      (loop_continue fuel1 (pre ++ c :: rest) (len pre + 1) w' d')).
  { intros cmd w' d'. apply parse_outcome_cons. by apply loop_continue_next. }
  destruct (c =? streamEnd); [apply parse_outcome_nil|].
  destruct (c =? streamI2CStart); [apply Hone; simpl; lia|].
  destruct (c =? streamI2CStop); [apply Hone; simpl; lia|]. cbn [orb].
  destruct ((0x80 <=? c) && (c <=? 0xbf)).
  { destruct (Z.eqb_spec (Z.land c lengthMask) 0) as [_|Hn].
    - pose proof (loop_continue_skip fuel1 fuel2 1 pre c rest (w + 1) d ltac:(lia) (Hagree _)) as Hs.
      destruct rest as [|v rest]; [done|].
      apply (parse_outcome_cons (w + 1) d); [|simpl; lia..].
      simpl in Hs. rewrite drop_0 in Hs. autorewrite with len in Hs.
      destruct (Z.ltb_spec (1 + len rest) 1); [len_lia|done].
    - pose proof (loop_continue_skip fuel1 fuel2 (Z.land c lengthMask) pre c rest w d
        ltac:(lia) (Hagree _)) as Hs.
      destruct (len rest <? _); [done|].
      apply (parse_outcome_cons w d); [done|simpl; lia..]. }
  destruct ((0xc0 <=? c) && (c <=? 0xff)).
  { destruct (_ =? 0); apply Hone; simpl; lia. }
  destruct ((0x60 <=? c) && (c <=? 0x63)); [apply Hone; simpl; lia|].
  simpl. by eexists.
Qed.

Lemma readers_agree_enough n : forall fuel1 fuel2 body,
  (length body <= n <= fuel1)%nat -> (n <= fuel2)%nat -> readers_agree fuel1 fuel2 body.
Proof.
  induction n as [|n IH]; intros fuel1 fuel2 [|c rest] ? ? pre w d; simpl in *; try lia.
  1,2: destruct fuel1, fuel2; cbn [instruction_loop parse_cmds];
    rewrite ?at_index_here; apply parse_outcome_nil.
  destruct fuel1 as [|fuel1], fuel2 as [|fuel2]; try lia.
  apply readers_agree_cons. intros k. apply IH; rewrite ?length_drop; lia.
Qed.

(** [instructionLengths] computes exactly the number of status bytes and of
    data bytes of the commands of a packet, and fails exactly on packets that
    do not parse. *)
Theorem instructionLengths_parse body :
  parse_outcome 0 0 (parse_packet (streamStart :: body)) (instructionLengths (streamStart :: body)).
Proof.
  unfold instructionLengths, parse_packet. rewrite Z.eqb_refl.
  pose proof (readers_agree_enough (length body) (length (streamStart :: body)) (length body) body) as H.
  apply (H ltac:(simpl; lia) ltac:(lia) [streamStart]).
Qed.

(** ** Printing and parsing are inverse *)

(** What may follow the commands of a packet: nothing, or the end marker. *)
Definition ends_stream (tail : list Z) : Prop := head tail = None \/ head tail = Some streamEnd.

Lemma parse_cmds_end fuel tail : ends_stream tail -> parse_cmds fuel tail = Some [].
Proof. destruct fuel, tail; simpl; [done..|]. by intros [[=]|[= ->]]. Qed.

Lemma cmds_bytes_length c cs : (1 <= length (cmd_bytes c))%nat /\
  cmds_bytes (c :: cs) = cmd_bytes c ++ cmds_bytes cs.
Proof. split; [destruct c; simpl; lia|done]. Qed.

(** One printed command is read back. *)
Lemma parse_cmds_cmd fuel c rest :
  cmd_ok c -> parse_cmds (S fuel) (cmd_bytes c ++ rest) = cons c <$> parse_cmds fuel rest.
Proof.
  destruct c; simpl cmd_ok; simpl cmd_bytes; intros Hok;
    cbn [app parse_cmds]; try reflexivity.
  - rewrite low6_write by lia. unfold streamWrite, streamEnd, streamI2CStart, streamI2CStop in *.
    zcases; try len_lia.
    pose proof (slice_app_l values rest) as ->. unfold len. rewrite Nat2Z.id, drop_app_length. done.
  - rewrite low6_read by lia. unfold streamRead, streamEnd, streamI2CStart, streamI2CStop in *.
    by zcases.
  - unfold streamEnd, streamI2CStart, streamI2CStop in *. by zcases.
Qed.

Lemma parse_cmds_print cs : forall fuel tail,
  Forall cmd_ok cs -> ends_stream tail -> (length (cmds_bytes cs ++ tail) <= fuel)%nat ->
  parse_cmds fuel (cmds_bytes cs ++ tail) = Some cs.
Proof.
  induction cs as [|c cs IH]; intros fuel tail Hok Htail Hfuel; [by apply parse_cmds_end|].
  apply Forall_cons in Hok as [Hc Hcs].
  destruct (cmds_bytes_length c cs) as [Hlen Heq]. rewrite Heq, <- app_assoc in *.
  rewrite length_app in Hfuel. destruct fuel as [|fuel]; [lia|].
  rewrite parse_cmds_cmd by done. rewrite IH; [done..|]. lia.
Qed.

(** Round trip: the commands of a packet are recovered from its bytes, whatever
    padding follows the end marker. *)
Theorem parse_packet_print cs tail :
  Forall cmd_ok cs -> ends_stream tail ->
  parse_packet (streamStart :: cmds_bytes cs ++ tail) = Some cs.
Proof. intros. unfold parse_packet. rewrite Z.eqb_refl. by apply parse_cmds_print. Qed.

(** [instructionLengths] on a printed packet. *)
Theorem instructionLengths_print cs tail :
  Forall cmd_ok cs -> ends_stream tail ->
  instructionLengths (streamStart :: cmds_bytes cs ++ tail) = Ok (status_count cs, data_count cs).
Proof.
  intros. pose proof (instructionLengths_parse (cmds_bytes cs ++ tail)) as H1.
  rewrite parse_packet_print in H1 by done. done.
Qed.
