(* ===== verification/Encoder.v ===== *)
(** * The transaction encoder

    [internal/transport/ch341_encoder.go]: the I2C speed command, the legacy
    single-packet encoder, the segmented encoder and [encodeTransaction], which
    chooses between them.  The theorems relate both encoders to one list of I2C
    bus events. *)

From S2P Require Import Prelude Errors Stream.

Open Scope string_scope.
Open Scope list_scope.
Open Scope Z_scope.

(** ** Speed configuration *)

(** [I2CSpeed] is an [int]; four values are named. *)
Definition I2CSpeed20KHz : Z := 20.
Definition I2CSpeed100KHz : Z := 100.
Definition I2CSpeed400KHz : Z := 400.
Definition I2CSpeed750KHz : Z := 750.

Definition speed_command (s : Z) : result Z :=
  if s =? I2CSpeed20KHz then Ok 0x60
  else if s =? I2CSpeed100KHz then Ok 0x61
  else if s =? I2CSpeed400KHz then Ok 0x62
  else if s =? I2CSpeed750KHz then Ok 0x63
  else Err (ErrorString ("unsupported CH341 I2C speed " +:+ fmt_d s +:+ " kHz")).

Definition encodeConfiguration (speed : Z) : result (list Z) :=
  match speed_command speed with
  | Err err => Err err
  | Ok command => Ok [streamStart; command; streamEnd]
  end.

(** ** Addresses *)

(** [address7Bit << 1] in eight bits, with the read bit. *)
Definition addressByte (address7Bit : Z) (read : bool) : Z :=
  let value := u8 (Z.shiftl address7Bit 1) in
  if read then Z.lor value 1 else value.

(** ** The legacy encoder: one packet *)

Definition legacy_write (bytes : list Z) (address : Z) (data : list Z) : list Z :=
  foldl (fun bytes value => bytes ++ [streamWrite; value]) (bytes ++ [streamWrite; address]) data.

Definition encodeLegacyTransaction (address7Bit : Z) (writeData : list Z) (readLength : Z)
    : option (list Z) :=
  if (maxReadBlockBytes <? readLength) || (maxWriteCommandBytes <? len writeData + 1) then None
  else
    let bytes := [streamStart] in
    let bytes :=
      if 0 <? len writeData then
        legacy_write (bytes ++ [streamI2CStart]) (addressByte address7Bit false) writeData
      else bytes in
    let bytes :=
      if 0 <? readLength then
        let bytes := legacy_write (bytes ++ [streamI2CStart]) (addressByte address7Bit true) [] in
        let bytes :=
          if 1 <? readLength then bytes ++ [u8 (streamRead + readLength - 1)] else bytes in
        bytes ++ [streamRead]
      else bytes in
    let bytes := bytes ++ [streamI2CStop; streamEnd] in
    if maxStreamPacketBytes <? len bytes then None else Some bytes.

(** ** The segmented encoder *)

Record segmentedStream := SegmentedStream { stream_result : list Z; segment : list Z }.

Definition newSegmentedStream : segmentedStream := SegmentedStream [] [streamStart].

(** [for len(s.segment) < maxStreamPacketBytes { append 0 }]; a packet needs at
    most [maxStreamPacketBytes] rounds. *)
Fixpoint pad_loop (fuel : nat) (segment : list Z) : list Z :=
  match fuel with
  | O => segment
  | S fuel => if len segment <? maxStreamPacketBytes then pad_loop fuel (segment ++ [0]) else segment
  end.

Definition finishIntermediate (s : segmentedStream) : segmentedStream :=
  let segment := segment s ++ [streamEnd] in
  let segment := pad_loop (Z.to_nat maxStreamPacketBytes) segment in
  SegmentedStream (stream_result s ++ segment) [streamStart].

Definition command (s : segmentedStream) (command : list Z) : segmentedStream :=
  let s :=
    if maxStreamPacketBytes <? len (segment s) + len command + streamEndBytes
    then finishIntermediate s else s in
  SegmentedStream (stream_result s) (segment s ++ command).

Definition stream_write (s : segmentedStream) (address : Z) (data : list Z) : segmentedStream :=
  if len data =? 0 then command s [streamWrite + 1; address]
  else
    let s := command s [streamWrite; address] in
    foldl (fun s value => command s [streamWrite; value]) s data.

Definition startAndWrite (s : segmentedStream) (address : Z) (data : list Z) : segmentedStream :=
  let s :=
    if maxStreamPacketBytes <? len (segment s) + streamStartAddressBytes + streamEndBytes
    then finishIntermediate s else s in
  let s := SegmentedStream (stream_result s) (segment s ++ [streamI2CStart]) in
  stream_write s address data.

(** [for remaining > maxReadBlockBytes]: each round takes [maxReadBlockBytes]
    off, so [length] rounds are enough. *)
Fixpoint read_loop (fuel : nat) (s : segmentedStream) (remaining : Z) : segmentedStream * Z :=
  match fuel with
  | O => (s, remaining)
  | S fuel =>
      if maxReadBlockBytes <? remaining then
        let s := command s [streamRead + maxReadBlockBytes] in
        let s := finishIntermediate s in
        read_loop fuel s (remaining - maxReadBlockBytes)
      else (s, remaining)
  end.

Definition stream_read (s : segmentedStream) (length : Z) : segmentedStream :=
  let '(s, remaining) := read_loop (Z.to_nat length) s length in
  let s := if 1 <? remaining then command s [u8 (streamRead + remaining - 1)] else s in
  command s [streamRead].

Definition finish (s : segmentedStream) : list Z :=
  let s :=
    if maxStreamPacketBytes <? len (segment s) + streamStopAndEndBytes
    then finishIntermediate s else s in
  stream_result s ++ (segment s ++ [streamI2CStop; streamEnd]).

(** ** [encodeTransaction] *)

Definition invalid_request (msg : string) : goerror :=
  TransportError ErrorInvalidRequest "encode transaction" (Some (ErrorString msg)).

Definition encodeTransaction (address7Bit : Z) (writeData : list Z) (readLength : Z)
    : result (list Z) :=
  if 0x7f <? address7Bit then
    Err (invalid_request "I2C address must be a 7-bit value")
  else if readLength <? 0 then
    Err (invalid_request "read length must not be negative")
  else if (len writeData =? 0) && (readLength =? 0) then
    Err (invalid_request "transaction must read or write data")
  else if (maxTransactionBytes <? len writeData) || (maxTransactionBytes <? readLength) then
    Err (invalid_request
           ("transaction supports at most " +:+ fmt_d maxTransactionBytes +:+ " bytes per read or write"))
  else
    match encodeLegacyTransaction address7Bit writeData readLength with
    | Some legacy => Ok legacy
    | None =>
        let stream := newSegmentedStream in
        let stream :=
          if 0 <? len writeData
          then startAndWrite stream (addressByte address7Bit false) writeData else stream in
        let stream :=
          if 0 <? readLength then
            stream_read (startAndWrite stream (addressByte address7Bit true) []) readLength
          else stream in
        Ok (finish stream)
    end.

Lemma encode_error_kind a w n err :
  encodeTransaction a w n = Err err -> exists op e, err = TransportError ErrorInvalidRequest op e.
Proof.
  unfold encodeTransaction, invalid_request.
  repeat match goal with
  | |- (if ?b then _ else _) = _ -> _ => destruct b; [intros [= <-]; by eexists _, _|]
  end.
  by destruct (encodeLegacyTransaction a w n).
Qed.

(** ** Splitting the stream into USB packets

    [execute] of [ch341.go] sends [stream[offset:offset+32]] for successive
    offsets; each round takes at least one byte, so [len(stream)] rounds are
    enough. *)
Fixpoint packets_loop (fuel : nat) (stream : list Z) (offset : Z) : list (list Z) :=
  match fuel with
  | O => []
  | S fuel =>
      if offset <? len stream then
        let stop := Z.min (offset + maxStreamPacketBytes) (len stream) in
        slice offset stop stream :: packets_loop fuel stream stop
      else []
  end.

Definition packets (stream : list Z) : list (list Z) := packets_loop (length stream) stream 0.

(** ** What the encoder promises: the bus events of a transaction *)

Definition read_events (n : Z) : list bus_event :=
  replicate (Z.to_nat (n - 1)) (BusRead true) ++ [BusRead false].

Definition transaction_events (address7Bit : Z) (writeData : list Z) (readLength : Z)
    : list bus_event :=
  (if 0 <? len writeData then BusStart :: BusWrite (2 * address7Bit) :: map BusWrite writeData else [])
  ++ (if 0 <? readLength then BusStart :: BusWrite (2 * address7Bit + 1) :: read_events readLength else [])
  ++ [BusStop].

(** The events a stream causes, read packet by packet as [execute] sends it. *)
Definition stream_cmds (stream : list Z) : option (list (list stream_cmd)) :=
  mapM parse_packet (packets stream).

Definition stream_events (stream : list Z) : option (list bus_event) :=
  (fun css => concat (map cmds_events css)) <$> stream_cmds stream.

(** ** Packets *)

Lemma slice_empty {A} a (l : list A) : slice a a l = [].
Proof. unfold slice. by rewrite Z.sub_diag. Qed.

(** Splitting a stream already made of whole packets gives them back. *)
Lemma packets_loop_concat pkts : forall fuel pre last,
  Forall (fun p => len p = maxStreamPacketBytes) pkts -> 0 < len last <= maxStreamPacketBytes ->
  (length pkts < fuel)%nat ->
  packets_loop fuel (pre ++ concat pkts ++ last) (len pre) = pkts ++ [last].
Proof.
  unfold maxStreamPacketBytes. induction pkts as [|p pkts IH]; intros fuel pre last Hpkts Hlast Hfuel;
    (destruct fuel as [|fuel]; [simpl in Hfuel; lia|]); cbn [packets_loop concat app];
    unfold maxStreamPacketBytes.
  - autorewrite with len. pose proof (len_nonneg pre).
    destruct (Z.ltb_spec (len pre) (len pre + len last)); [|lia].
    rewrite Z.min_r by lia.
    replace (slice _ _ _) with last.
    2: { rewrite <- (Z.add_0_r (len pre)) at 1. rewrite slice_shift by lia. by rewrite slice_all. }
    f_equal. destruct fuel; [done|]. cbn [packets_loop]. autorewrite with len. zcases. done.
  - apply Forall_cons in Hpkts as [Hp Hpkts]. rewrite <- app_assoc.
    assert (0 <= len (concat pkts)) by apply len_nonneg. pose proof (len_nonneg pre).
    destruct (Z.ltb_spec (len pre) (len (pre ++ p ++ concat pkts ++ last))) as [_|]; [|len_lia].
    rewrite Z.min_l by (autorewrite with len; lia).
    f_equal.
    + rewrite <- (Z.add_0_r (len pre)) at 1. rewrite slice_shift by lia.
      rewrite <- Hp at 1. by rewrite slice_app_l.
    + replace (len pre + 32) with (len (pre ++ p)) by len_lia. rewrite app_assoc.
      apply IH; [done..|simpl in Hfuel; lia].
Qed.

Lemma packets_concat pkts last :
  Forall (fun p => len p = maxStreamPacketBytes) pkts -> 0 < len last <= maxStreamPacketBytes ->
  packets (concat pkts ++ last) = pkts ++ [last].
Proof.
  intros Hpkts Hlast. unfold packets. apply (packets_loop_concat pkts _ []); [done..|].
  assert (Hlen : (length pkts <= length (concat pkts))%nat).
  { clear Hlast. induction pkts as [|p pkts IH]; simpl; [lia|].
    apply Forall_cons in Hpkts as [Hp Hpkts]. specialize (IH Hpkts).
    rewrite length_app. unfold len, maxStreamPacketBytes in Hp. lia. }
  rewrite length_app. unfold len in Hlast. lia.
Qed.

Lemma pad_loop_spec fuel : forall segment,
  0 <= maxStreamPacketBytes - len segment <= Z.of_nat fuel ->
  pad_loop fuel segment =
  segment ++ replicate (Z.to_nat (maxStreamPacketBytes - len segment)) 0.
Proof.
  induction fuel as [|fuel IH]; intros segment Hlen; cbn [pad_loop].
  - replace (Z.to_nat _) with 0%nat by lia. by rewrite app_nil_r.
  - zcase.
    + rewrite IH by (autorewrite with len; lia). autorewrite with len. rewrite <- app_assoc.
      f_equal. replace (Z.to_nat (maxStreamPacketBytes - len segment))
        with (S (Z.to_nat (maxStreamPacketBytes - (len segment + (1 + 0))))) by lia. done.
    + replace (Z.to_nat _) with 0%nat by lia. by rewrite app_nil_r.
Qed.

(** ** The segmented encoder's invariant

    A whole packet is its commands, the end marker and zero padding. *)
Definition full_packet (cs : list stream_cmd) : list Z :=
  streamStart :: cmds_bytes cs ++ streamEnd :: replicate (30 - length (cmds_bytes cs)) 0.

Definition last_packet (cs : list stream_cmd) : list Z :=
  streamStart :: cmds_bytes cs ++ [streamEnd].

Definition packet_ok (cs : list stream_cmd) : Prop :=
  Forall cmd_ok cs /\ len (cmds_bytes cs) <= 30.

(** [s] has sent the packets of [sent], is building a packet with the commands
    [current], and all of them together cause the events [evs]. *)
Record stream_rep (s : segmentedStream) (sent : list (list stream_cmd)) (current : list stream_cmd)
    (evs : list bus_event) : Prop := {
  rep_result : stream_result s = concat (map full_packet sent);
  rep_segment : segment s = streamStart :: cmds_bytes current;
  rep_sent : Forall packet_ok sent;
  rep_current : packet_ok current;
  rep_events : concat (map cmds_events sent) ++ cmds_events current = evs
}.

Definition stream_inv (s : segmentedStream) (evs : list bus_event) : Prop :=
  exists sent current, stream_rep s sent current evs.

Lemma full_packet_len cs : packet_ok cs -> len (full_packet cs) = maxStreamPacketBytes.
Proof.
  intros [_ H]. unfold full_packet. autorewrite with len. unfold len, maxStreamPacketBytes in *. lia.
Qed.

Lemma new_stream_inv : stream_inv newSegmentedStream [].
Proof. exists [], []. constructor; try done. Qed.

Lemma finishIntermediate_rep s sent current evs :
  stream_rep s sent current evs ->
  stream_rep (finishIntermediate s) (sent ++ [current]) [] evs.
Proof.
  intros [Hr Hs Hsent [Hok Hlen] Hev]. unfold finishIntermediate.
  rewrite Hs, Hr, pad_loop_spec by (unfold maxStreamPacketBytes; len_lia).
  constructor; cbn [stream_result segment]; [|done| |by split|].
  - rewrite map_app, concat_app. simpl. rewrite app_nil_r. f_equal. unfold full_packet.
    simpl. rewrite <- app_assoc. do 3 f_equal.
    autorewrite with len. unfold len, maxStreamPacketBytes in *. f_equal. lia.
  - apply Forall_app; split; [done|]. by repeat constructor.
  - rewrite map_app, concat_app. simpl. by rewrite !app_nil_r.
Qed.

Lemma append_rep s sent current evs c :
  stream_rep s sent current evs -> cmd_ok c ->
  len (segment s) + len (cmd_bytes c) + streamEndBytes <= maxStreamPacketBytes ->
  stream_rep (SegmentedStream (stream_result s) (segment s ++ cmd_bytes c))
    sent (current ++ [c]) (evs ++ cmd_events c).
Proof.
  intros [Hr Hs Hsent [Hok Hlen] Hev] Hc Hfit. rewrite Hs in Hfit.
  constructor; cbn [stream_result segment]; [done| |done| |].
  - rewrite Hs, cmds_bytes_app. unfold cmds_bytes at 3. simpl. by rewrite app_nil_r.
  - split; [apply Forall_app; by repeat constructor|].
    rewrite cmds_bytes_app. unfold cmds_bytes at 2. simpl. rewrite app_nil_r.
    unfold maxStreamPacketBytes, streamEndBytes in *. len_lia.
  - rewrite cmds_events_app, <- Hev. unfold cmds_events at 3. simpl. by rewrite app_nil_r, app_assoc.
Qed.

Lemma command_inv s evs c :
  stream_inv s evs -> cmd_ok c -> len (cmd_bytes c) <= 30 ->
  stream_inv (command s (cmd_bytes c)) (evs ++ cmd_events c).
Proof.
  intros (sent & current & Hrep) Hc Hlen. unfold command.
  destruct (Z.ltb_spec maxStreamPacketBytes (len (segment s) + len (cmd_bytes c) + streamEndBytes)).
  - exists (sent ++ [current]), ([] ++ [c]). apply finishIntermediate_rep in Hrep.
    apply append_rep; [done..|]. rewrite (rep_segment _ _ _ _ Hrep).
    change (len (streamStart :: cmds_bytes [])) with 1. unfold maxStreamPacketBytes, streamEndBytes. lia.
  - exists sent, (current ++ [c]). by apply append_rep.
Qed.

Lemma write_bytes_inv data : forall s evs,
  stream_inv s evs ->
  stream_inv (foldl (fun s value => command s [streamWrite; value]) s data) (evs ++ map BusWrite data).
Proof.
  induction data as [|v data IH]; intros s evs Hs; simpl; [by rewrite app_nil_r|].
  change (evs ++ BusWrite v :: ?k) with (evs ++ [BusWrite v] ++ k). rewrite app_assoc.
  apply IH. apply (command_inv s evs (CmdWrite1 v)); [done..|]. simpl. len_lia.
Qed.

Lemma stream_write_inv s evs address data :
  stream_inv s evs -> stream_inv (stream_write s address data) (evs ++ map BusWrite (address :: data)).
Proof.
  intros Hs. unfold stream_write. destruct (Z.eqb_spec (len data) 0) as [Hd|_].
  - apply len_zero in Hd as ->.
    apply (command_inv s evs (CmdWriteN [address])); [done|simpl; len_lia..].
  - change (map BusWrite (address :: data)) with ([BusWrite address] ++ map BusWrite data).
    rewrite app_assoc. apply write_bytes_inv.
    apply (command_inv s evs (CmdWrite1 address)); [done..|]. simpl. len_lia.
Qed.

(** The start condition and the address that follows share a packet. *)
Lemma startAndWrite_inv s evs address data :
  stream_inv s evs ->
  stream_inv (startAndWrite s address data) (evs ++ BusStart :: map BusWrite (address :: data)).
Proof.
  intros (sent & current & Hrep). unfold startAndWrite.
  change (evs ++ BusStart :: ?k) with (evs ++ [BusStart] ++ k). rewrite app_assoc.
  destruct (Z.ltb_spec maxStreamPacketBytes
    (len (segment s) + streamStartAddressBytes + streamEndBytes)) as [_|Hfit];
    apply stream_write_inv.
  - exists (sent ++ [current]), ([] ++ [CmdStart]). apply finishIntermediate_rep in Hrep.
    apply (append_rep _ _ _ _ CmdStart); [done..|]. rewrite (rep_segment _ _ _ _ Hrep).
    vm_compute. discriminate.
  - exists sent, (current ++ [CmdStart]). apply (append_rep _ _ _ _ CmdStart); [done..|].
    unfold streamStartAddressBytes, streamEndBytes in *. simpl. len_lia.
Qed.

Lemma finishIntermediate_inv s evs : stream_inv s evs -> stream_inv (finishIntermediate s) evs.
Proof. intros (sent & current & Hrep). eexists _, _. by apply finishIntermediate_rep. Qed.

Lemma replicate_app_Z {A} (x : A) a b :
  0 <= a -> 0 <= b ->
  replicate (Z.to_nat a) x ++ replicate (Z.to_nat b) x = replicate (Z.to_nat (a + b)) x.
Proof. intros. rewrite <- replicate_add. f_equal. lia. Qed.

(** The loop ends with 1..32 bytes left to read and the others read. *)
Lemma read_loop_inv fuel : forall s evs remaining,
  stream_inv s evs -> 1 <= remaining <= Z.of_nat fuel ->
  exists s' left, read_loop fuel s remaining = (s', left) /\ 1 <= left <= maxReadBlockBytes /\
    left <= remaining /\
    stream_inv s' (evs ++ replicate (Z.to_nat (remaining - left)) (BusRead true)).
Proof.
  induction fuel as [|fuel IH]; intros s evs remaining Hs Hrem; [lia|].
  cbn [read_loop]. destruct (Z.ltb_spec maxReadBlockBytes remaining) as [Hmore|Hlast];
    unfold maxReadBlockBytes in *.
  - apply (command_inv s evs (CmdReadN 32)) in Hs; [|simpl; lia|simpl; len_lia].
    apply finishIntermediate_inv in Hs.
    destruct (IH _ _ (remaining - 32) Hs ltac:(lia)) as (s' & left & Heq & Hleft & Hle & Hs').
    exists s', left. split_and!; [done|lia..|].
    rewrite <- app_assoc in Hs'. cbn [cmd_events] in Hs'.
    rewrite replicate_app_Z in Hs' by lia.
    replace (remaining - left) with (32 + (remaining - 32 - left)) by lia. done.
  - exists s, remaining. split_and!; [done|lia..|].
    rewrite Z.sub_diag. simpl. by rewrite app_nil_r.
Qed.

Lemma stream_read_inv s evs n :
  stream_inv s evs -> 1 <= n -> stream_inv (stream_read s n) (evs ++ read_events n).
Proof.
  intros Hs Hn. unfold stream_read, read_events.
  destruct (read_loop_inv (Z.to_nat n) s evs n Hs ltac:(lia)) as (s' & left & -> & Hleft & Hle & Hs').
  unfold maxReadBlockBytes in *. rewrite app_assoc.
  apply (command_inv _ _ CmdRead1); [|done|simpl; len_lia].
  destruct (Z.ltb_spec 1 left).
  - replace (u8 (streamRead + left - 1)) with (streamRead + (left - 1))
      by (rewrite u8_small; unfold streamRead; lia).
    replace (n - 1) with ((n - left) + (left - 1)) by lia.
    rewrite <- replicate_app_Z, app_assoc by lia.
    apply (command_inv s' _ (CmdReadN (left - 1))); [done|simpl; lia|simpl; len_lia].
  - by replace left with 1 in Hs' by lia.
Qed.

(** The finished stream: whole packets and a last one ending in a stop. *)
Lemma finish_packets s evs :
  stream_inv s evs ->
  exists sent current, finish s = concat (map full_packet sent) ++ last_packet (current ++ [CmdStop]) /\
    Forall packet_ok sent /\ packet_ok (current ++ [CmdStop]) /\
    concat (map cmds_events sent) ++ cmds_events (current ++ [CmdStop]) = evs ++ [BusStop].
Proof.
  assert (Hgo : forall s sent current, stream_rep s sent current evs ->
    len (segment s) + streamStopAndEndBytes <= maxStreamPacketBytes ->
    stream_result s ++ (segment s ++ [streamI2CStop; streamEnd])
      = concat (map full_packet sent) ++ last_packet (current ++ [CmdStop]) /\
    Forall packet_ok sent /\ packet_ok (current ++ [CmdStop]) /\
    concat (map cmds_events sent) ++ cmds_events (current ++ [CmdStop]) = evs ++ [BusStop]).
  { clear s. intros s sent current Hrep Hfit.
    pose proof (append_rep _ _ _ _ CmdStop Hrep I) as [_ Hs Hsent Hcur Hev];
      [unfold streamStopAndEndBytes, streamEndBytes in *; simpl; len_lia|].
    cbn [segment cmd_bytes] in Hs. split_and!; [|done..].
    rewrite (rep_result _ _ _ _ Hrep). f_equal. unfold last_packet.
    change [streamI2CStop; streamEnd] with ([streamI2CStop] ++ [streamEnd]).
    by rewrite app_assoc, Hs. }
  intros (sent & current & Hrep). unfold finish.
  destruct (Z.ltb_spec maxStreamPacketBytes (len (segment s) + streamStopAndEndBytes)).
  - exists (sent ++ [current]), []. apply finishIntermediate_rep in Hrep.
    apply Hgo; [done|]. rewrite (rep_segment _ _ _ _ Hrep). vm_compute. discriminate.
  - exists sent, current. by apply Hgo.
Qed.

(** ** Both encoders produce well-packed streams *)

(** [stream] is the packets of [css], the last one unpadded. *)
Definition packed (stream : list Z) (css : list (list stream_cmd)) : Prop :=
  exists sent current, css = sent ++ [current] /\
    stream = concat (map full_packet sent) ++ last_packet current /\
    Forall packet_ok sent /\ packet_ok current.

Definition css_events (css : list (list stream_cmd)) : list bus_event := concat (map cmds_events css).

(** The requests [encodeTransaction] accepts. *)
Definition valid_request (address7Bit : Z) (writeData : list Z) (readLength : Z) : bool :=
  (address7Bit <=? 0x7f) && (0 <=? readLength) && (0 <? len writeData + readLength)
  && (len writeData <=? maxTransactionBytes) && (readLength <=? maxTransactionBytes).

Lemma addressByte_spec a read :
  0 <= a <= 0x7f -> addressByte a read = 2 * a + (if read then 1 else 0).
Proof.
  intros Ha. unfold addressByte. rewrite Z.shiftl_mul_pow2 by lia.
  rewrite u8_small by lia. change (2 ^ 1) with 2. destruct read; [|lia].
  rewrite Z.lor_comm. replace (a * 2) with (2 * a) by lia.
  destruct a; [done..|lia].
Qed.

Lemma last_packet_len cs : packet_ok cs -> 0 < len (last_packet cs) <= maxStreamPacketBytes.
Proof. intros [_ H]. unfold last_packet, maxStreamPacketBytes. len_lia. Qed.

Lemma parse_full_packet cs : packet_ok cs -> parse_packet (full_packet cs) = Some cs.
Proof. intros [Hok _]. apply parse_packet_print; [done|]. by right. Qed.

Lemma parse_last_packet cs : packet_ok cs -> parse_packet (last_packet cs) = Some cs.
Proof. intros [Hok _]. apply parse_packet_print; [done|]. by right. Qed.

Lemma packed_packets stream css :
  packed stream css ->
  exists sent current, css = sent ++ [current] /\ Forall packet_ok css /\
    packets stream = map full_packet sent ++ [last_packet current].
Proof.
  intros (sent & current & -> & -> & Hsent & Hcur). exists sent, current. split_and!; [done| |].
  - apply Forall_app. split; [done|]. by constructor.
  - apply packets_concat; [|by apply last_packet_len]. apply Forall_fmap.
    eapply Forall_impl; [done|]. intros cs. apply full_packet_len.
Qed.

Lemma packed_cmds stream css : packed stream css -> stream_cmds stream = Some css.
Proof.
  intros (sent & current & -> & Hok & Hpk)%packed_packets. unfold stream_cmds. rewrite Hpk.
  apply mapM_Some. apply Forall_app in Hok as [Hsent Hcur]. apply Forall2_app.
  - apply Forall2_fmap_l. apply Forall_Forall2_diag.
    eapply Forall_impl; [done|]. intros cs. apply parse_full_packet.
  - constructor; [|done]. apply parse_last_packet. by inversion Hcur.
Qed.

Lemma concat_singles data : concat (map (fun v => cmd_bytes (CmdWrite1 v)) data)
  = cmds_bytes (map CmdWrite1 data).
Proof. unfold cmds_bytes. by rewrite map_map. Qed.

Lemma legacy_write_spec data : forall bytes address,
  legacy_write bytes address data = bytes ++ cmds_bytes (map CmdWrite1 (address :: data)).
Proof.
  intros bytes address. unfold legacy_write.
  change (cmds_bytes (map CmdWrite1 (address :: data)))
    with ([streamWrite; address] ++ cmds_bytes (map CmdWrite1 data)).
  rewrite app_assoc. generalize (bytes ++ [streamWrite; address]). clear.
  induction data as [|v data IH]; intros bytes; simpl; [by rewrite app_nil_r|].
  rewrite IH, <- app_assoc. done.
Qed.

(** The commands of a legacy stream. *)
Definition legacy_cmds (address7Bit : Z) (writeData : list Z) (readLength : Z) : list stream_cmd :=
  (if 0 <? len writeData
   then CmdStart :: map CmdWrite1 (addressByte address7Bit false :: writeData) else [])
  ++ (if 0 <? readLength
      then CmdStart :: CmdWrite1 (addressByte address7Bit true)
           :: (if 1 <? readLength then [CmdReadN (readLength - 1)] else []) ++ [CmdRead1]
      else [])
  ++ [CmdStop].

Lemma legacy_cmds_ok a w n : n <= maxReadBlockBytes -> Forall cmd_ok (legacy_cmds a w n).
Proof.
  intros Hn. unfold legacy_cmds, maxReadBlockBytes in *.
  assert (Hw : forall l, Forall cmd_ok (map CmdWrite1 l)) by (induction l; by constructor).
  repeat (apply Forall_app; split); [destruct (0 <? len w)|zcases|]; repeat (constructor; try done).
  all: simpl; try apply Hw; lia.
Qed.

Lemma encodeLegacyTransaction_spec a w n stream :
  encodeLegacyTransaction a w n = Some stream ->
  stream = last_packet (legacy_cmds a w n) /\ packet_ok (legacy_cmds a w n).
Proof.
  unfold encodeLegacyTransaction.
  destruct ((maxReadBlockBytes <? n) || _) eqn:Hsize; [done|].
  apply orb_false_iff in Hsize as [Hn%Z.ltb_ge _].
  match goal with |- (if maxStreamPacketBytes <? len ?b then _ else _) = _ -> _ =>
    assert (Hb : b = last_packet (legacy_cmds a w n)) end.
  { unfold last_packet, legacy_cmds.
    destruct (0 <? len w), (Z.ltb_spec 0 n) as [Hp|Hp], (Z.ltb_spec 1 n) as [H1|H1]; try lia;
      rewrite ?legacy_write_spec; autorewrite with stream;
      cbn [cmds_bytes map concat cmd_bytes app]; rewrite ?u8_small by (unfold maxReadBlockBytes, streamRead in *; lia);
      rewrite <- ?app_assoc; cbn [app]; repeat f_equal; try (unfold streamRead; lia). }
  rewrite Hb. destruct (Z.ltb_spec maxStreamPacketBytes (len (last_packet (legacy_cmds a w n))))
    as [|Hlen]; [done|].
  intros [= <-]. split; [done|]. split; [by apply legacy_cmds_ok|].
  unfold last_packet, maxStreamPacketBytes in *. len_lia.
Qed.

Lemma legacy_cmds_events a w n :
  0 <= a <= 0x7f -> cmds_events (legacy_cmds a w n) = transaction_events a w n.
Proof.
  intros Ha. unfold legacy_cmds, transaction_events, read_events.
  rewrite !addressByte_spec by done. rewrite Z.add_0_r.
  assert (Hw : forall l, cmds_events (map CmdWrite1 l) = map BusWrite l).
  { induction l as [|v l IH]; [done|]. cbn. by f_equal. }
  rewrite !cmds_events_app. f_equal; [|f_equal].
  - destruct (0 <? len w); [|done].
    change (cmds_events (CmdStart :: ?l)) with (BusStart :: cmds_events l). by rewrite Hw.
  - destruct (Z.ltb_spec 0 n); [|done].
    change (cmds_events (CmdStart :: CmdWrite1 ?v :: ?l)) with (BusStart :: BusWrite v :: cmds_events l).
    do 2 f_equal. rewrite cmds_events_app. f_equal.
    destruct (Z.ltb_spec 1 n).
    + cbn. by rewrite app_nil_r.
    + by replace (Z.to_nat (n - 1)) with 0%nat by lia.
Qed.

Lemma legacy_packed a w n stream :
  encodeLegacyTransaction a w n = Some stream ->
  packed stream [legacy_cmds a w n].
Proof. intros [-> Hok]%encodeLegacyTransaction_spec. exists [], (legacy_cmds a w n). by split_and!. Qed.

(** The segmented stream built for a request. *)
Definition segmented (a : Z) (w : list Z) (n : Z) : segmentedStream :=
  let stream := newSegmentedStream in
  let stream :=
    if 0 <? len w then startAndWrite stream (addressByte a false) w else stream in
  if 0 <? n then stream_read (startAndWrite stream (addressByte a true) []) n else stream.

Lemma segmented_inv a w n :
  0 <= a <= 0x7f ->
  exists evs, stream_inv (segmented a w n) evs /\ evs ++ [BusStop] = transaction_events a w n.
Proof.
  intros Ha. unfold segmented, transaction_events. rewrite !addressByte_spec, Z.add_0_r by done.
  assert (Hw : stream_inv
      (if 0 <? len w then startAndWrite newSegmentedStream (2 * a) w else newSegmentedStream)
      (if 0 <? len w then BusStart :: BusWrite (2 * a) :: map BusWrite w else [])).
  { destruct (0 <? len w); [|apply new_stream_inv]. apply (startAndWrite_inv _ []), new_stream_inv. }
  exists ((if 0 <? len w then BusStart :: BusWrite (2 * a) :: map BusWrite w else [])
    ++ (if 0 <? n then BusStart :: BusWrite (2 * a + 1) :: read_events n else [])).
  split; [|by rewrite <- app_assoc].
  destruct (Z.ltb_spec 0 n); [|by rewrite app_nil_r].
  change (BusStart :: BusWrite (2 * a + 1) :: read_events n)
    with ((BusStart :: map BusWrite [2 * a + 1]) ++ read_events n).
  rewrite app_assoc. apply stream_read_inv; [|lia]. apply startAndWrite_inv, Hw.
Qed.

Lemma segmented_packed a w n :
  0 <= a <= 0x7f ->
  exists css, packed (finish (segmented a w n)) css /\ css_events css = transaction_events a w n.
Proof.
  intros Ha. destruct (segmented_inv a w n Ha) as (evs & Hinv & <-).
  apply finish_packets in Hinv as (sent & current & -> & Hsent & Hcur & <-).
  exists (sent ++ [current ++ [CmdStop]]). split; [by eexists _, _|].
  unfold css_events. rewrite map_app, concat_app. simpl. by rewrite app_nil_r.
Qed.

Lemma valid_request_guards a w n :
  valid_request a w n = true <->
  ((0x7f <? a) = false /\ (n <? 0) = false /\ ((len w =? 0) && (n =? 0)) = false /\
   ((maxTransactionBytes <? len w) || (maxTransactionBytes <? n)) = false).
Proof.
  unfold valid_request, maxTransactionBytes. pose proof (len_nonneg w).
  rewrite !andb_true_iff, orb_false_iff, andb_false_iff, !Z.ltb_lt, !Z.leb_le, !Z.eqb_neq, !Z.ltb_ge.
  lia.
Qed.

(** Every accepted request is encoded as a well-packed stream for its events. *)
Lemma encodeTransaction_packed a w n :
  0 <= a -> valid_request a w n = true ->
  exists stream css, encodeTransaction a w n = Ok stream /\ packed stream css /\
    css_events css = transaction_events a w n.
Proof.
  intros Ha Hv. pose proof Hv as (E1 & E2 & E3 & E4)%valid_request_guards.
  apply Z.ltb_ge in E1 as Ha'. unfold encodeTransaction. rewrite E1, E2, E3, E4.
  destruct (encodeLegacyTransaction a w n) as [stream|] eqn:El.
  - exists stream, [legacy_cmds a w n]. split_and!; [done|by apply legacy_packed|].
    unfold css_events. simpl. rewrite app_nil_r. by apply legacy_cmds_events.
  - destruct (segmented_packed a w n) as (css & Hp & Hev); [lia|].
    by exists (finish (segmented a w n)), css.
Qed.

(** ** Counting *)

Definition read_count (evs : list bus_event) : Z :=
  sumZ (fun e => match e with BusRead _ => 1 | _ => 0 end) evs.

Lemma cmd_data_events c : cmd_ok c -> read_count (cmd_events c) = cmd_data_count c.
Proof.
  destruct c as [| | |vs|n| |]; simpl; intros Hok; try done.
  - unfold read_count. clear Hok. by induction vs.
  - replace n with (Z.of_nat (Z.to_nat n)) at 2 by lia. generalize (Z.to_nat n). clear.
    unfold read_count. induction n as [|n IH]; simpl; [done|]. lia.
Qed.

Lemma data_count_events cs : Forall cmd_ok cs -> data_count cs = read_count (cmds_events cs).
Proof.
  induction cs as [|c cs IH]; intros Hok; [done|]. apply Forall_cons in Hok as [Hc Hcs].
  change (cmds_events (c :: cs)) with (cmd_events c ++ cmds_events cs).
  change (data_count (c :: cs)) with (cmd_data_count c + data_count cs).
  unfold read_count in *. rewrite sumZ_app, <- IH by done. f_equal. by rewrite <- cmd_data_events.
Qed.

Lemma read_count_transaction a w n : 0 <= n -> read_count (transaction_events a w n) = n.
Proof.
  intros Hn. unfold transaction_events, read_count. rewrite !sumZ_app.
  assert (Hw : forall l, sumZ (fun e => match e with BusRead _ => 1 | _ => 0 end) (map BusWrite l) = 0).
  { induction l; simpl; lia. }
  assert (Hr : forall k, sumZ (fun e => match e with BusRead _ => 1 | _ => 0 end)
    (replicate k (BusRead true)) = Z.of_nat k).
  { induction k; simpl; lia. }
  destruct (0 <? len w), (Z.ltb_spec 0 n); simpl; rewrite ?Hw; unfold read_events;
    rewrite ?sumZ_app, ?Hr; simpl; lia.
Qed.

Lemma css_data_count css :
  Forall (fun cs => Forall cmd_ok cs) css -> sumZ data_count css = read_count (css_events css).
Proof.
  induction css as [|cs css IH]; intros Hok; [done|]. apply Forall_cons in Hok as [Hc Hcs].
  unfold css_events, read_count in *. simpl. rewrite sumZ_app, IH by done. f_equal.
  by apply data_count_events.
Qed.

Lemma encodeTransaction_invalid a w n :
  valid_request a w n = false ->
  exists e, encodeTransaction a w n = Err e /\ transport_IsKind e ErrorInvalidRequest = true.
Proof.
  intros Hv. unfold encodeTransaction.
  destruct (0x7f <? a) eqn:E1; [by eexists|].
  destruct (n <? 0) eqn:E2; [by eexists|].
  destruct ((len w =? 0) && (n =? 0)) eqn:E3; [by eexists|].
  destruct ((maxTransactionBytes <? len w) || (maxTransactionBytes <? n)) eqn:E4; [by eexists|].
  exfalso. apply not_true_iff_false in Hv. apply Hv, valid_request_guards. done.
Qed.

Lemma packed_ok stream css : packed stream css -> Forall packet_ok css.
Proof. intros (? & ? & ? & ? & _)%packed_packets. done. Qed.

(** What [execute] learns from [instructionLengths] about the packets it sends. *)
Lemma packed_lengths stream css :
  packed stream css ->
  mapM (fun p => match instructionLengths p with Ok l => Some l | Err _ => None end) (packets stream)
  = Some (map (fun cs => (status_count cs, data_count cs)) css).
Proof.
  intros (sent & current & -> & Hok & Hpk)%packed_packets. rewrite Hpk.
  assert (Hfull : forall cs, packet_ok cs ->
    instructionLengths (full_packet cs) = Ok (status_count cs, data_count cs) /\
    instructionLengths (last_packet cs) = Ok (status_count cs, data_count cs)).
  { intros cs [Hcs _]. split; apply instructionLengths_print; try done; by right. }
  apply mapM_Some. rewrite map_app. apply Forall_app in Hok as [Hsent Hcur].
  apply Forall2_app.
  - apply Forall2_fmap_l, Forall2_fmap_r, Forall_Forall2_diag.
    eapply Forall_impl; [done|]. intros cs Hcs. unfold compose. pose proof (proj1 (Hfull cs Hcs)) as ->. done.
  - constructor; [|done]. apply Forall_cons in Hcur as [Hcur _]. by pose proof (proj2 (Hfull current Hcur)) as ->.
Qed.

Lemma packed_segments stream css :
  packed stream css ->
  Forall2 (fun p cs => parse_packet p = Some cs /\
    instructionLengths p = Ok (status_count cs, data_count cs) /\ Forall cmd_ok cs) (packets stream) css.
Proof.
  intros (sent & current & -> & Hok & Hpk)%packed_packets. rewrite Hpk.
  apply Forall_app in Hok as [Hsent Hcur]. apply Forall_cons in Hcur as [Hcur _].
  apply Forall2_app.
  - apply Forall2_fmap_l, Forall_Forall2_diag. eapply Forall_impl; [done|]. intros cs Hcs.
    split_and!; [by apply parse_full_packet| |apply Hcs].
    apply instructionLengths_print; [apply Hcs|by right].
  - constructor; [|done]. split_and!; [by apply parse_last_packet| |apply Hcur].
    apply instructionLengths_print; [apply Hcur|by right].
Qed.

Lemma packed_shape stream css :
  packed stream css ->
  exists sent last, packets stream = sent ++ [last] /\ concat (packets stream) = stream /\
    Forall (fun p => len p = maxStreamPacketBytes /\ head p = Some streamStart) sent /\
    0 < len last <= maxStreamPacketBytes /\ head last = Some streamStart.
Proof.
  intros Hp. pose proof Hp as (sent' & current' & -> & Hok & Hpk)%packed_packets.
  destruct Hp as (sent & current & [-> ->]%app_inj_tail & -> & Hsent & Hcur).
  exists (map full_packet sent), (last_packet current). split_and!; [done| | | | |done].
  - rewrite Hpk, concat_app. simpl. by rewrite app_nil_r.
  - apply Forall_fmap. eapply Forall_impl; [done|].
    intros cs Hcs. split; [by apply full_packet_len|done].
  - by apply last_packet_len.
  - by apply last_packet_len.
Qed.

(** ** Properties *)

(** C17: a request the encoder accepts becomes a stream that makes the bridge
    perform exactly the requested transaction: start, write address and data,
    (repeated) start, read address, the requested number of reads with only the
    last one not acknowledged, and one stop at the end.  This holds for the
    single-packet and for the segmented encoder alike. *)
Theorem encode_transaction_bus_events a w n :
  0 <= a < 256 -> valid_request a w n = true ->
  exists stream, encodeTransaction a w n = Ok stream /\
    stream_events stream = Some (transaction_events a w n).
Proof.
  intros Ha Hv. destruct (encodeTransaction_packed a w n) as (stream & css & Heq & Hp & Hev);
    [lia|done|].
  exists stream. split; [done|]. unfold stream_events. rewrite (packed_cmds _ _ Hp). simpl.
  by rewrite <- Hev.
Qed.

Example encode_transaction_bus_events_witness :
  exists stream, encodeTransaction 0x11 (replicate 40 5) 70 = Ok stream /\
    stream_events stream = Some (transaction_events 0x11 (replicate 40 5) 70).
Proof. apply (encode_transaction_bus_events 0x11 (replicate 40 5) 70); [lia|reflexivity]. Defined.

(** C33: [encodeTransaction] succeeds exactly on the valid requests (seven-bit
    address, something to transfer, at most 65535 bytes either way), and every
    refusal is an [invalid_request] error. *)
Theorem encode_transaction_validates a w n :
  0 <= a ->
  match encodeTransaction a w n with
  | Ok _ => valid_request a w n = true
  | Err e => valid_request a w n = false /\ transport_IsKind e ErrorInvalidRequest = true
  end.
Proof.
  intros Ha. destruct (valid_request a w n) eqn:Hv.
  - by destruct (encodeTransaction_packed a w n Ha Hv) as (? & ? & -> & _).
  - by destruct (encodeTransaction_invalid a w n Hv) as (e & -> & ?).
Qed.

Example encode_transaction_validates_witness :
  match encodeTransaction 0x80 [1] 0 with
  | Ok _ => valid_request 0x80 [1] 0 = true
  | Err e => valid_request 0x80 [1] 0 = false /\ transport_IsKind e ErrorInvalidRequest = true
  end.
Proof. apply (encode_transaction_validates 0x80 [1] 0). lia. Defined.

(** An encoded stream splits into USB packets of exactly 32 bytes, but for
    the last one, which has 1 to 32; each packet starts with the stream marker
    and the packets concatenated are the stream. *)
Theorem encode_transaction_packets a w n stream :
  0 <= a -> encodeTransaction a w n = Ok stream ->
  exists sent last, packets stream = sent ++ [last] /\ concat (packets stream) = stream /\
    Forall (fun p => len p = maxStreamPacketBytes /\ head p = Some streamStart) sent /\
    0 < len last <= maxStreamPacketBytes /\ head last = Some streamStart.
Proof.
  intros Ha Heq. destruct (valid_request a w n) eqn:Hv.
  - destruct (encodeTransaction_packed a w n Ha Hv) as (stream' & css & Heq' & Hp & _).
    rewrite Heq in Heq'. injection Heq' as ->. by eapply packed_shape.
  - destruct (encodeTransaction_invalid a w n Hv) as (e & Heq' & _). congruence.
Qed.

Example encode_transaction_packets_witness :
  let stream := finish (segmented 0x11 [] 40) in
  exists sent last, packets stream = sent ++ [last] /\ concat (packets stream) = stream /\
    Forall (fun p => len p = maxStreamPacketBytes /\ head p = Some streamStart) sent /\
    0 < len last <= maxStreamPacketBytes /\ head last = Some streamStart.
Proof. apply (encode_transaction_packets 0x11 [] 40); [lia|reflexivity]. Defined.

(** C9: [instructionLengths] accepts every packet of an encoded stream, and the
    data bytes it announces for them add up to the requested read length, which
    is what [execute] relies on to collect the response. *)
Theorem encode_transaction_read_length a w n stream :
  0 <= a -> encodeTransaction a w n = Ok stream ->
  exists lengths,
    mapM (fun p => match instructionLengths p with Ok l => Some l | Err _ => None end)
      (packets stream) = Some lengths /\
    sumZ snd lengths = n.
Proof.
  intros Ha Heq. destruct (valid_request a w n) eqn:Hv.
  - destruct (encodeTransaction_packed a w n Ha Hv) as (stream' & css & Heq' & Hp & Hev).
    rewrite Heq in Heq'. injection Heq' as ->.
    eexists. split; [by apply packed_lengths|].
    transitivity (sumZ data_count css).
    { clear. induction css as [|cs css IH]; simpl; [done|]. by rewrite IH. }
    rewrite css_data_count, Hev.
    + apply read_count_transaction. unfold valid_request in Hv. zcases.
    + apply packed_ok in Hp. eapply Forall_impl; [done|]. by intros cs [Hcs _].
  - destruct (encodeTransaction_invalid a w n Hv) as (e & Heq' & _). congruence.
Qed.

Example encode_transaction_read_length_witness :
  exists lengths,
    mapM (fun p => match instructionLengths p with Ok l => Some l | Err _ => None end)
      (packets (finish (segmented 0x11 [7] 100))) = Some lengths /\
    sumZ snd lengths = 100.
Proof. apply (encode_transaction_read_length 0x11 [7] 100); [lia|reflexivity]. Defined.

(** C34: where the legacy encoder applies, its one packet causes the same bus
    events as the segmented stream for the same request. *)
Theorem legacy_segmented_equivalent a w n legacy :
  0 <= a <= 0x7f -> encodeLegacyTransaction a w n = Some legacy ->
  stream_events legacy = stream_events (finish (segmented a w n)).
Proof.
  intros Ha Hl. destruct (segmented_packed a w n Ha) as (css & Hp & Hev).
  apply legacy_packed in Hl. unfold stream_events.
  rewrite (packed_cmds _ _ Hl), (packed_cmds _ _ Hp). simpl.
  unfold css_events in Hev. rewrite app_nil_r, Hev. f_equal. by apply legacy_cmds_events.
Qed.

Example legacy_segmented_equivalent_witness :
  stream_events [0xaa; 0x74; 0x80; 0x22; 0x80; 0x30; 0x74; 0x80; 0x23; 0xc1; 0xc0; 0x75; 0x00]
  = stream_events (finish (segmented 0x11 [0x30] 2)).
Proof. apply (legacy_segmented_equivalent 0x11 [0x30] 2); [lia|reflexivity]. Defined.
