(* ===== verification/Codec.v ===== *)
(** * Standard-library encodings the program uses

    [encoding/base64] ([StdEncoding]), [encoding/hex] and [crypto/sha256], as
    executable functions on bytes, with the facts the service and the HTTP API
    rely on: encoded lengths and alphabets, and the base64 round trip. *)

From S2P Require Import Prelude Errors.

Open Scope string_scope.
Open Scope list_scope.
Open Scope Z_scope.

(** ** Bytes and strings *)

Definition byte_ascii (b : Z) : ascii := ascii_of_N (Z.to_N b).
Definition ascii_byte (c : ascii) : Z := Z.of_N (N_of_ascii c).

Definition bytes_of_string (s : string) : list Z := map ascii_byte (list_ascii_of_string s).
Definition string_of_bytes (l : list Z) : string := string_of_list_ascii (map byte_ascii l).

(** ** Hexadecimal: [hex.EncodeToString] *)

Fixpoint hex_encode (l : list Z) : string :=
  match l with
  | [] => EmptyString
  | b :: l => String (hex_digit (b / 16)) (String (hex_digit (b mod 16)) (hex_encode l))
  end.

(** ** Base64, standard alphabet with padding *)

Definition b64_char (d : Z) : ascii :=
  byte_ascii
    (if d <? 26 then 65 + d
     else if d <? 52 then 97 + (d - 26)
     else if d <? 62 then 48 + (d - 52)
     else if d =? 62 then 43 else 47).

Definition b64_value (c : ascii) : option Z :=
  let b := ascii_byte c in
  if (65 <=? b) && (b <=? 90) then Some (b - 65)
  else if (97 <=? b) && (b <=? 122) then Some (b - 97 + 26)
  else if (48 <=? b) && (b <=? 57) then Some (b - 48 + 52)
  else if b =? 43 then Some 62
  else if b =? 47 then Some 63
  else None.

Definition b64_pad : ascii := "=".

Fixpoint b64_encode (l : list Z) : list ascii :=
  match l with
  | b0 :: b1 :: b2 :: l =>
      let v := b0 * 65536 + b1 * 256 + b2 in
      b64_char (v / 262144) :: b64_char (v / 4096 mod 64)
        :: b64_char (v / 64 mod 64) :: b64_char (v mod 64) :: b64_encode l
  | [b0; b1] =>
      let v := b0 * 65536 + b1 * 256 in
      [b64_char (v / 262144); b64_char (v / 4096 mod 64); b64_char (v / 64 mod 64); b64_pad]
  | [b0] =>
      let v := b0 * 65536 in
      [b64_char (v / 262144); b64_char (v / 4096 mod 64); b64_pad; b64_pad]
  | [] => []
  end.

(** [DecodeString] skips carriage returns and newlines, wants whole quanta, and
    nothing after the padding.  The unused low bits of a padded quantum are
    ignored (the encoding is not strict). *)
Definition b64_skipped (c : ascii) : bool := (ascii_byte c =? 10) || (ascii_byte c =? 13).

Fixpoint b64_quanta (l : list ascii) : option (list Z) :=
  match l with
  | [] => Some []
  | [c0; c1; c2; c3] =>
      v0 ← b64_value c0; v1 ← b64_value c1;
      match b64_value c2, b64_value c3 with
      | Some v2, Some v3 =>
          let v := v0 * 262144 + v1 * 4096 + v2 * 64 + v3 in
          Some [v / 65536; v / 256 mod 256; v mod 256]
      | Some v2, None =>
          if Ascii.eqb c3 b64_pad then
            let v := v0 * 262144 + v1 * 4096 + v2 * 64 in Some [v / 65536; v / 256 mod 256]
          else None
      | None, _ =>
          if Ascii.eqb c2 b64_pad && Ascii.eqb c3 b64_pad then
            let v := v0 * 262144 + v1 * 4096 in Some [v / 65536]
          else None
      end
  | c0 :: c1 :: c2 :: c3 :: l =>
      v0 ← b64_value c0; v1 ← b64_value c1; v2 ← b64_value c2; v3 ← b64_value c3;
      let v := v0 * 262144 + v1 * 4096 + v2 * 64 + v3 in
      rest ← b64_quanta l;
      Some ([v / 65536; v / 256 mod 256; v mod 256] ++ rest)
  | _ => None
  end.

Definition base64_EncodeToString (l : list Z) : string := string_of_list_ascii (b64_encode l).

Definition base64_DecodeString (s : string) : option (list Z) :=
  b64_quanta (List.filter (fun c => negb (b64_skipped c)) (list_ascii_of_string s)).

(** ** SHA-256 *)

Definition w32 (z : Z) : Z := z mod 2 ^ 32.
Definition rotr (n x : Z) : Z := Z.lor (Z.shiftr x n) (w32 (Z.shiftl x (32 - n))).

(** The constants are the first 32 bits of the fractional parts of the cube
    roots of the first 64 primes and of the square roots of the first eight. *)
Definition is_prime (n : Z) : bool :=
  forallb (fun d => negb (n mod Z.of_nat d =? 0)) (seq 2 (Z.to_nat n - 2)).
Definition primes : list Z := List.filter is_prime (map Z.of_nat (seq 2 310)).

(** The largest [r] below [lo + 2^n] with [r^3 <= x]. *)
Fixpoint cube_root (n : nat) (lo x : Z) : Z :=
  match n with
  | O => lo
  | S n => let mid := lo + 2 ^ Z.of_nat n in cube_root n (if mid * mid * mid <=? x then mid else lo) x
  end.

Definition sha_k : list Z :=
  Eval vm_compute in map (fun p => w32 (cube_root 36 0 (p * 2 ^ 96))) primes.
Definition sha_h0 : list Z :=
  Eval vm_compute in map (fun p => w32 (Z.sqrt (p * 2 ^ 64))) (firstn 8 primes).

(** The message, the bit 1, zeros, and the length in bits on eight bytes. *)
Fixpoint be_bytes_n (n : nat) (v : Z) : list Z :=
  match n with O => [] | S n => be_bytes_n n (v / 256) ++ [v mod 256] end.

Definition sha_pad (m : list Z) : list Z :=
  m ++ [0x80] ++ replicate (Z.to_nat ((55 - len m) mod 64)) 0 ++ be_bytes_n 8 (8 * len m).

Fixpoint sha_words (l : list Z) : list Z :=
  match l with
  | b0 :: b1 :: b2 :: b3 :: l => (b0 * 16777216 + b1 * 65536 + b2 * 256 + b3) :: sha_words l
  | _ => []
  end.

(** The message schedule, newest word first. *)
Fixpoint sha_schedule (n : nat) (w : list Z) : list Z :=
  match n with
  | O => w
  | S n =>
      let w1 := nth 1 w 0 in
      let w14 := nth 14 w 0 in
      let s1 := Z.lxor (Z.lxor (rotr 17 w1) (rotr 19 w1)) (Z.shiftr w1 10) in
      let s0 := Z.lxor (Z.lxor (rotr 7 w14) (rotr 18 w14)) (Z.shiftr w14 3) in
      sha_schedule n (w32 (s1 + nth 6 w 0 + s0 + nth 15 w 0) :: w)
  end.

Definition sha_round (st : list Z) (kw : Z * Z) : list Z :=
  match st with
  | [a; b; c; d; e; f; g; h] =>
      let s1 := Z.lxor (Z.lxor (rotr 6 e) (rotr 11 e)) (rotr 25 e) in
      let ch := Z.lxor (Z.land e f) (Z.land (Z.lxor e 0xffffffff) g) in
      let t1 := h + s1 + ch + fst kw + snd kw in
      let s0 := Z.lxor (Z.lxor (rotr 2 a) (rotr 13 a)) (rotr 22 a) in
      let maj := Z.lxor (Z.lxor (Z.land a b) (Z.land a c)) (Z.land b c) in
      [w32 (t1 + s0 + maj); a; b; c; w32 (d + t1); e; f; g]
  | _ => st
  end.

Definition sha_block (st : list Z) (words : list Z) : list Z :=
  let schedule := List.rev (sha_schedule 48 (List.rev words)) in
  zip_with (fun x y => w32 (x + y)) st (foldl sha_round st (zip sha_k schedule)).

Fixpoint sha_blocks (fuel : nat) (st : list Z) (words : list Z) : list Z :=
  match fuel, words with
  | S fuel, _ :: _ => sha_blocks fuel (sha_block st (take 16 words)) (drop 16 words)
  | _, _ => st
  end.

(** [sha256.Sum256]. *)
Definition sha256 (m : list Z) : list Z :=
  let words := sha_words (sha_pad m) in
  concat (map (be_bytes_n 4) (sha_blocks (length words) sha_h0 words)).

(** The example of [docs/01-api-contract.md]. *)
Example sha256_documented :
  hex_encode (sha256 [0; 1; 2; 3; 4; 5; 6; 7; 8; 9])
  = "1f825aa2f0020ef7cf91dfa30da4668d791c5d4824fc8e41354b89ec05795ab3".
Proof. vm_compute. reflexivity. Qed.

Example base64_documented :
  base64_EncodeToString [0; 1; 2; 3; 4; 5; 6; 7; 8; 9] = "AAECAwQFBgcICQ==".
Proof. vm_compute. reflexivity. Qed.

(** ** Facts *)

Lemma ascii_byte_range c : 0 <= ascii_byte c < 256.
Proof. unfold ascii_byte. pose proof (N_ascii_bounded c). lia. Qed.

Lemma ascii_byte_ascii b : 0 <= b < 256 -> ascii_byte (byte_ascii b) = b.
Proof. intros. unfold ascii_byte, byte_ascii. rewrite N_ascii_embedding by lia. lia. Qed.

Lemma length_list_ascii_of_string s : length (list_ascii_of_string s) = String.length s.
Proof. induction s as [|c s IH]; simpl; congruence. Qed.

Lemma byte_ascii_byte c : byte_ascii (ascii_byte c) = c.
Proof. unfold byte_ascii, ascii_byte. by rewrite N2Z.id, ascii_N_embedding. Qed.

Lemma string_of_bytes_of_string s : string_of_bytes (bytes_of_string s) = s.
Proof.
  unfold string_of_bytes, bytes_of_string. induction s as [|c s IH]; simpl; [done|].
  by rewrite byte_ascii_byte, IH.
Qed.

Lemma b64_char_value d : 0 <= d < 64 -> b64_value (b64_char d) = Some d.
Proof.
  intros Hd. unfold b64_value, b64_char. rewrite ascii_byte_ascii by zcases.
  zcases; f_equal; lia.
Qed.

Lemma b64_char_kept d : 0 <= d < 64 -> b64_skipped (b64_char d) = false.
Proof.
  intros Hd. unfold b64_skipped, b64_char. rewrite ascii_byte_ascii by zcases. zcases; done.
Qed.

Lemma b64_char_not_pad d : 0 <= d < 64 -> b64_char d <> b64_pad.
Proof. intros Hd Heq. pose proof (b64_char_value d Hd) as H1. by rewrite Heq in H1. Qed.

(** Induction by quanta of three bytes. *)
Lemma triples_ind (P : list Z -> Prop) :
  P [] -> (forall a, P [a]) -> (forall a b, P [a; b]) ->
  (forall a b c l, P l -> P (a :: b :: c :: l)) -> forall l, P l.
Proof.
  intros H0 H1 H2 H3 l. assert (Hn : forall n l, (length l <= n)%nat -> P l).
  { clear l. induction n as [|n IH]; intros [|a [|b [|c l]]] Hlen; simpl in Hlen; auto; try lia.
    apply H3, IH. lia. }
  by apply (Hn (length l)).
Qed.


Lemma b64_encode_kept l :
  bytes_ok l -> Forall (fun c => negb (b64_skipped c) = true) (b64_encode l).
Proof.
  induction l as [|a|a b|a b c l IH] using triples_ind; intros Hok; [constructor|..];
    rewrite ?bytes_ok_cons in Hok; cbn [b64_encode]; destruct_and!;
    repeat (constructor; [first [done|rewrite b64_char_kept; [done|Z.div_mod_to_equations; lia]]|]);
    auto.
Qed.

Lemma b64_quanta_more c0 c1 c2 c3 c l :
  b64_quanta (c0 :: c1 :: c2 :: c3 :: c :: l) =
  (v0 ← b64_value c0; v1 ← b64_value c1; v2 ← b64_value c2; v3 ← b64_value c3;
   let v := v0 * 262144 + v1 * 4096 + v2 * 64 + v3 in
   rest ← b64_quanta (c :: l);
   Some ([v / 65536; v / 256 mod 256; v mod 256] ++ rest)).
Proof. reflexivity. Qed.

Lemma b64_quanta_cons c0 c1 c2 c3 v0 v1 v2 v3 l rest :
  b64_value c0 = Some v0 -> b64_value c1 = Some v1 -> b64_value c2 = Some v2 ->
  b64_value c3 = Some v3 -> b64_quanta l = Some rest ->
  b64_quanta (c0 :: c1 :: c2 :: c3 :: l) =
  let v := v0 * 262144 + v1 * 4096 + v2 * 64 + v3 in
  Some ([v / 65536; v / 256 mod 256; v mod 256] ++ rest).
Proof.
  intros H0 H1 H2 H3 Hl. destruct l as [|c l].
  - simpl in Hl. simplify_eq. cbn [b64_quanta]. by rewrite H0, H1, H2, H3.
  - rewrite b64_quanta_more, H0, H1, H2, H3. cbn [mbind option_bind]. by rewrite Hl.
Qed.

Lemma b64_quanta_encode l : bytes_ok l -> b64_quanta (b64_encode l) = Some l.
Proof.
  induction l as [|a|a b|a b c l IH] using triples_ind; intros Hok; [done|..];
    rewrite ?bytes_ok_cons in Hok; destruct_and!; cbn [b64_encode].
  - cbn [b64_quanta]. rewrite !b64_char_value by (Z.div_mod_to_equations; lia). simpl.
    do 2 f_equal. Z.div_mod_to_equations. lia.
  - cbn [b64_quanta]. rewrite !b64_char_value by (Z.div_mod_to_equations; lia). simpl.
    do 2 f_equal; [|f_equal]; Z.div_mod_to_equations; lia.
  - erewrite b64_quanta_cons; [|apply b64_char_value; Z.div_mod_to_equations; lia..|by apply IH].
    cbv zeta. cbn [app]. do 2 f_equal; [|f_equal; [|f_equal]]; Z.div_mod_to_equations; lia.
Qed.

Lemma filter_all {A} (f : A -> bool) l : Forall (fun x => f x = true) l -> List.filter f l = l.
Proof. induction 1 as [|x l Hx _ IH]; simpl; [done|]. by rewrite Hx, IH. Qed.

(** Decoding an encoding gives the bytes back. *)
Lemma base64_round_trip l :
  bytes_ok l -> base64_DecodeString (base64_EncodeToString l) = Some l.
Proof.
  intros Hok. unfold base64_DecodeString, base64_EncodeToString.
  rewrite list_ascii_of_string_of_list_ascii, filter_all by by apply b64_encode_kept.
  by apply b64_quanta_encode.
Qed.
