(* ===== verification/Text.v ===== *)
(** * The standard library's text functions the program uses

    [strings] (Split, Join, TrimSpace, ToLower, Contains, HasPrefix,
    TrimPrefix), [strconv] (ParseUint, ParseInt, ParseBool) and
    [net.SplitHostPort], on Go strings, which are byte sequences.  Unicode only
    matters where it can turn into ASCII or be trimmed, and there it is exact:
    two code points have an ASCII lower-case letter, and every white-space code
    point is listed with its UTF-8 bytes. *)

From S2P Require Import Prelude Codec.

Open Scope string_scope.
Open Scope list_scope.
Open Scope Z_scope.

(** ** [strings] *)

(** [strings.Split(s, sep)] for a one-byte separator: the first field and the
    others. *)
Fixpoint split_fields (sep : ascii) (s : string) : string * list string :=
  match s with
  | EmptyString => ("", [])
  | String c s =>
      let '(field, fields) := split_fields sep s in
      if Ascii.eqb c sep then ("", field :: fields) else (String c field, fields)
  end.

Definition Split (sep : ascii) (s : string) : list string :=
  let '(field, fields) := split_fields sep s in field :: fields.

Fixpoint Join (sep : string) (l : list string) : string :=
  match l with
  | [] => ""
  | [s] => s
  | s :: l => s +:+ sep +:+ Join sep l
  end.

(** [strings.HasPrefix] and [strings.TrimPrefix]. *)
Fixpoint cut_prefix (prefix s : string) : option string :=
  match prefix, s with
  | EmptyString, _ => Some s
  | String a prefix, String b s => if Ascii.eqb a b then cut_prefix prefix s else None
  | _, EmptyString => None
  end.

Definition HasPrefix (s prefix : string) : bool :=
  match cut_prefix prefix s with Some _ => true | None => false end.

Definition TrimPrefix (s prefix : string) : string :=
  match cut_prefix prefix s with Some rest => rest | None => s end.

Fixpoint Contains (s sub : string) : bool :=
  HasPrefix s sub || match s with EmptyString => false | String _ s => Contains s sub end.

Definition to_lower_ascii (c : ascii) : ascii :=
  let b := ascii_byte c in if (65 <=? b) && (b <=? 90) then byte_ascii (b + 32) else c.

(** [strings.ToLower], up to the non-ASCII letters that stay non-ASCII.  The
    capital I with dot (C4 B0) becomes [i], the Kelvin sign (E2 84 AA) [k]. *)
Fixpoint ToLower (s : string) : string :=
  match s with
  | EmptyString => ""
  | String c s' =>
      match ascii_byte c, s' with
      | 0xc4, String d s'' => if ascii_byte d =? 0xb0 then String "i" (ToLower s'') else String c (ToLower s')
      | 0xe2, String d (String e s'') =>
          if (ascii_byte d =? 0x84) && (ascii_byte e =? 0xaa) then String "k" (ToLower s'')
          else String c (ToLower s')
      | _, _ => String (to_lower_ascii c) (ToLower s')
      end
  end.

(** White space: the ASCII characters and the UTF-8 bytes of the others. *)
Definition spaces : list (list Z) :=
  [[9]; [10]; [11]; [12]; [13]; [32]; [0xc2; 0x85]; [0xc2; 0xa0]; [0xe1; 0x9a; 0x80]]
  ++ map (fun i => [0xe2; 0x80; 0x80 + Z.of_nat i]) (seq 0 11)
  ++ [[0xe2; 0x80; 0xa8]; [0xe2; 0x80; 0xa9]; [0xe2; 0x80; 0xaf]; [0xe2; 0x81; 0x9f]; [0xe3; 0x80; 0x80]].

Fixpoint strip (p l : list Z) : option (list Z) :=
  match p, l with
  | [], _ => Some l
  | a :: p, b :: l => if a =? b then strip p l else None
  | _, [] => None
  end.

(** Removes the white space at the front; [len(s)] rounds are enough. *)
Fixpoint trim_front (fuel : nat) (sp : list (list Z)) (l : list Z) : list Z :=
  match fuel with
  | O => l
  | S fuel => match omap (fun p => strip p l) sp with
              | l :: _ => trim_front fuel sp l
              | [] => l
              end
  end.

Definition trim_bytes (l : list Z) : list Z :=
  let l := trim_front (length l) spaces l in
  rev (trim_front (length l) (map (fun p => rev p) spaces) (rev l)).

(** [strings.TrimSpace]. *)
Definition TrimSpace (s : string) : string := string_of_bytes (trim_bytes (bytes_of_string s)).

(** ** [strconv] *)

Inductive num_error := ErrSyntax | ErrRange.

Definition digit_value (c : ascii) : option Z :=
  let b := ascii_byte c in
  let l := ascii_byte (to_lower_ascii c) in
  if (48 <=? b) && (b <=? 57) then Some (b - 48)
  else if (97 <=? l) && (l <=? 122) then Some (l - 97 + 10)
  else None.

Definition underscore (c : ascii) : bool := Ascii.eqb c "_".

(** The digits loop; the result tells whether an underscore was seen. *)
Fixpoint digits_loop (base0 : bool) (base maxVal : Z) (s : string) (underscores : bool) (n : Z)
    : num_error + (Z * bool) :=
  match s with
  | EmptyString => inr (n, underscores)
  | String c s =>
      if underscore c && base0 then digits_loop base0 base maxVal s true n
      else
        match digit_value c with
        | None => inl ErrSyntax
        | Some d =>
            if base <=? d then inl ErrSyntax
            else if (2 ^ 64 - 1) / base + 1 <=? n then inl ErrRange
            else
              let n := n * base in
              let n1 := (n + d) mod 2 ^ 64 in
              if (n1 <? n) || (maxVal <? n1) then inl ErrRange
              else digits_loop base0 base maxVal s underscores n1
        end
  end.

(** [underscoreOK]: what the previous character was. *)
Inductive saw := SawStart | SawDigit | SawUnderscore | SawOther.

Fixpoint underscore_loop (hex : bool) (s : string) (last : saw) : bool :=
  match s with
  | EmptyString => match last with SawUnderscore => false | _ => true end
  | String c s =>
      let b := ascii_byte c in
      let l := ascii_byte (to_lower_ascii c) in
      if ((48 <=? b) && (b <=? 57)) || (hex && (97 <=? l) && (l <=? 102))
      then underscore_loop hex s SawDigit
      else if underscore c then
        match last with SawDigit => underscore_loop hex s SawUnderscore | _ => false end
      else match last with SawUnderscore => false | _ => underscore_loop hex s SawOther end
  end.

(** A base prefix [0b], [0o] or [0x] and what follows it. *)
Definition base_prefix (s : string) : option (Z * string) :=
  match s with
  | String z (String p rest) =>
      if Ascii.eqb z "0" then
        let p := to_lower_ascii p in
        if Ascii.eqb p "b" then Some (2, rest)
        else if Ascii.eqb p "o" then Some (8, rest)
        else if Ascii.eqb p "x" then Some (16, rest)
        else None
      else None
  | _ => None
  end.

Definition underscoreOK (s : string) : bool :=
  let s := match s with
           | String c rest => if Ascii.eqb c "-" || Ascii.eqb c "+" then rest else s
           | _ => s end in
  match base_prefix s with
  | Some (base, rest) => underscore_loop (base =? 16) rest SawDigit
  | None => underscore_loop false s SawStart
  end.

(** [strconv.ParseUint(s, base, bitSize)] for [base] 0 or 2..36 and [bitSize]
    1..64. *)
Definition ParseUint (s : string) (base bitSize : Z) : num_error + Z :=
  match s with
  | EmptyString => inl ErrSyntax
  | String c rest =>
      let base0 := base =? 0 in
      let '(base, digits) :=
        if base0 then
          if Ascii.eqb c "0" then
            match base_prefix s with
            | Some (b, String d digits) => (b, String d digits)
            | _ => (8, rest)
            end
          else (10, s)
        else (base, s) in
      match digits_loop base0 base (2 ^ bitSize - 1) digits false 0 with
      | inl err => inl err
      | inr (n, underscores) => if underscores && negb (underscoreOK s) then inl ErrSyntax else inr n
      end
  end.

(** [strconv.ParseInt(s, 0, 64)]. *)
Definition ParseInt (s : string) : num_error + Z :=
  match s with
  | EmptyString => inl ErrSyntax
  | String c rest =>
      let '(neg, digits) :=
        if Ascii.eqb c "+" then (false, rest)
        else if Ascii.eqb c "-" then (true, rest) else (false, s) in
      match ParseUint digits 0 64 with
      | inl err => inl err
      | inr un =>
          let cutoff := 2 ^ 63 in
          if negb neg && (cutoff <=? un) then inl ErrRange
          else if neg && (cutoff <? un) then inl ErrRange
          else inr (if neg then - un else un)
      end
  end.

Definition mem_string (s : string) (l : list string) : bool := existsb (String.eqb s) l.

(** [strconv.ParseBool]. *)
Definition ParseBool (s : string) : option bool :=
  if mem_string s ["1"; "t"; "T"; "true"; "TRUE"; "True"] then Some true
  else if mem_string s ["0"; "f"; "F"; "false"; "FALSE"; "False"] then Some false
  else None.

(** ** [net.SplitHostPort] *)

Inductive addr_error := MissingPort | TooManyColons | MissingBracket | UnexpectedOpen | UnexpectedClose.

(** [strings.IndexByte] and [strings.LastIndexByte]. *)
Fixpoint index_byte (c : ascii) (l : list ascii) : option nat :=
  match l with
  | [] => None
  | d :: l => if Ascii.eqb d c then Some 0%nat else S <$> index_byte c l
  end.

Fixpoint last_index_byte (c : ascii) (l : list ascii) : option nat :=
  match l with
  | [] => None
  | d :: l =>
      match last_index_byte c l with
      | Some i => Some (S i)
      | None => if Ascii.eqb d c then Some 0%nat else None
      end
  end.

Definition has_byte (c : ascii) (l : list ascii) : bool := existsb (Ascii.eqb c) l.

Definition SplitHostPort (hostport : string) : addr_error + (string * string) :=
  let hp := list_ascii_of_string hostport in
  let finish (i j k : nat) (host : list ascii) : addr_error + (string * string) :=
    if has_byte "[" (drop j hp) then inl UnexpectedOpen
    else if has_byte "]" (drop k hp) then inl UnexpectedClose
    else inr (string_of_list_ascii host, string_of_list_ascii (drop (S i) hp)) in
  match last_index_byte ":" hp with
  | None => inl MissingPort
  | Some i =>
      if bool_decide (head hp = Some "["%char) then
        match index_byte "]" hp with
        | None => inl MissingBracket
        | Some close =>
            if Nat.eqb (S close) (length hp) then inl MissingPort
            else if Nat.eqb (S close) i then finish i 1%nat (S close) (take (close - 1) (drop 1 hp))
            else if bool_decide (hp !! S close = Some ":"%char) then inl TooManyColons
            else inl MissingPort
        end
      else
        let host := take i hp in
        if has_byte ":" host then inl TooManyColons else finish i 0%nat 0%nat host
  end.

(** ** The documented behaviour, on examples *)

Example parse_examples :
  [ParseUint "0x11" 0 7; ParseUint "17" 0 7; ParseUint "021" 0 7; ParseUint "0b1_0001" 0 7;
   ParseUint "0x_11" 0 7; ParseUint "_17" 0 7; ParseUint "128" 0 7; ParseUint "0x" 0 7;
   ParseUint "1A86" 16 16; ParseUint "12345" 16 16; ParseUint "" 16 16; ParseUint "1_0" 16 16; ParseUint "0" 0 7]
  = [inr 17; inr 17; inr 17; inr 17; inr 17; inl ErrSyntax; inl ErrRange; inl ErrSyntax;
     inr 0x1a86; inl ErrRange; inl ErrSyntax; inl ErrSyntax; inr 0].
Proof. vm_compute. reflexivity. Qed.

Example host_examples :
  [SplitHostPort ":8972"; SplitHostPort "[::1]:80"; SplitHostPort "::1:80"; SplitHostPort "host";
   SplitHostPort "[::1]80:"]
  = [inr ("", "8972"); inr ("::1", "80"); inl TooManyColons; inl MissingPort; inl MissingPort].
Proof. vm_compute. reflexivity. Qed.

Example trim_examples :
  [TrimSpace " 1a86:5512	 "; ToLower "JSON"] = ["1a86:5512"; "json"].
Proof. vm_compute. reflexivity. Qed.

(** ** Facts *)

Fixpoint all_chars (p : ascii -> bool) (s : string) : bool :=
  match s with EmptyString => true | String c s => p c && all_chars p s end.

Lemma all_chars_app p a b : all_chars p (a +:+ b) = all_chars p a && all_chars p b.
Proof. induction a as [|c a IH]; simpl; [done|]. by rewrite IH, andb_assoc. Qed.

Lemma all_chars_impl (p q : ascii -> bool) s :
  (forall c, p c = true -> q c = true) -> all_chars p s = true -> all_chars q s = true.
Proof.
  intros Hpq. induction s as [|c s IH]; simpl; [done|].
  intros [Hc Hs]%andb_true_iff. by rewrite (Hpq _ Hc), IH.
Qed.

Definition other_than (sep c : ascii) : bool := negb (Ascii.eqb c sep).

Lemma Split_single sep s : all_chars (other_than sep) s = true -> split_fields sep s = (s, []).
Proof.
  induction s as [|c s IH]; simpl; [done|]. intros [Hc Hs]%andb_true_iff.
  rewrite IH by done. unfold other_than in Hc. by destruct (Ascii.eqb c sep).
Qed.

Lemma Split_app sep a b :
  all_chars (other_than sep) a = true -> Split sep (a +:+ String sep b) = a :: Split sep b.
Proof.
  unfold Split. induction a as [|c a IH]; simpl.
  - intros _. destruct (split_fields sep b). by rewrite Ascii.eqb_refl.
  - intros [Hc Ha]%andb_true_iff. specialize (IH Ha).
    destruct (split_fields sep (a +:+ String sep b)) as [f fs].
    unfold other_than in Hc. destruct (Ascii.eqb c sep); [done|]. by injection IH as -> ->.
Qed.

(** [strings.Split] undoes [strings.Join]. *)
Lemma Split_Join sep l :
  l <> [] -> Forall (fun s => all_chars (other_than sep) s = true) l ->
  Split sep (Join (String sep "") l) = l.
Proof.
  induction l as [|a [|b l] IH]; intros Hne Hl; [done| |].
  - apply Forall_cons in Hl as [Ha _]. simpl. unfold Split. by rewrite Split_single.
  - apply Forall_cons in Hl as [Ha Hl].
    change (Join _ (a :: b :: l)) with (a +:+ String sep (Join (String sep "") (b :: l))).
    rewrite Split_app by done. f_equal. by apply IH.
Qed.

(** *** Numbers *)

Lemma digits_loop_app base0 base maxVal a b : forall u n,
  digits_loop base0 base maxVal (a +:+ b) u n =
  match digits_loop base0 base maxVal a u n with
  | inl err => inl err
  | inr (n, u) => digits_loop base0 base maxVal b u n
  end.
Proof.
  induction a as [|c a IH]; intros u n; simpl; [done|].
  destruct (underscore c && base0); [apply IH|]. destruct (digit_value c); [|done].
  destruct (base <=? z); [done|]. destruct (_ <=? n); [done|]. destruct (_ || _); [done|apply IH].
Qed.

Lemma hex_digit_value d : 0 <= d < 16 ->
  digit_value (hex_digit d) = Some d /\ underscore (hex_digit d) = false.
Proof.
  intros Hd.
  assert (Hall : forallb (fun i => bool_decide (digit_value (hex_digit (Z.of_nat i)) = Some (Z.of_nat i))
    && negb (underscore (hex_digit (Z.of_nat i)))) (seq 0 16) = true) by (vm_compute; reflexivity).
  rewrite forallb_forall in Hall. specialize (Hall (Z.to_nat d)).
  rewrite Z2Nat.id, in_seq in Hall by lia.
  destruct (andb_prop _ _ (Hall ltac:(lia))) as [H1%bool_decide_eq_true H2%negb_true_iff]. done.
Qed.

Lemma digits_fmt_hex bits w : forall z n u,
  0 <= z < 16 ^ Z.of_nat w -> 0 <= n -> 0 <= bits <= 64 -> n * 16 ^ Z.of_nat w + z <= 2 ^ bits - 1 ->
  digits_loop false 16 (2 ^ bits - 1) (fmt_hex w z) u n = inr (n * 16 ^ Z.of_nat w + z, u).
Proof.
  induction w as [|w IH]; intros z n u Hz Hn Hbits Hmax.
  - change (16 ^ Z.of_nat 0) with 1 in *. cbn [fmt_hex digits_loop]. do 2 f_equal. lia.
  - rewrite Nat2Z.inj_succ, Z.pow_succ_r in * by lia. cbn [fmt_hex]. rewrite digits_loop_app.
    pose proof (Z.div_mod z 16 ltac:(done)) as Hdm. pose proof (Z.mod_pos_bound z 16 ltac:(done)).
    assert (2 ^ bits <= 2 ^ 64) by (apply Z.pow_le_mono_r; lia).
    set (p := 16 ^ Z.of_nat w) in *.
    assert (0 <= z / 16 < p) by (split; [apply Z.div_pos; lia|apply Z.div_lt_upper_bound; lia]).
    rewrite IH by (done || lia || nia). cbn [digits_loop].
    destruct (hex_digit_value (z mod 16)) as [-> ->]; [done|]. cbn [andb].
    destruct (Z.leb_spec 16 (z mod 16)); [lia|].
    change ((2 ^ 64 - 1) / 16 + 1) with (2 ^ 60).
    assert (Hlt : n * p + z / 16 < 2 ^ 60) by (change (2 ^ 64) with (16 * 2 ^ 60) in *; nia).
    destruct (Z.leb_spec (2 ^ 60) (n * p + z / 16)); [lia|].
    rewrite Z.mod_small by (change (2 ^ 64) with (16 * 2 ^ 60) in *; nia).
    destruct (Z.ltb_spec ((n * p + z / 16) * 16 + z mod 16) ((n * p + z / 16) * 16)); [lia|].
    destruct (Z.ltb_spec (2 ^ bits - 1) ((n * p + z / 16) * 16 + z mod 16)); [nia|].
    cbn [orb]. do 2 f_equal. nia.
Qed.

Definition is_hex (c : ascii) : bool :=
  match digit_value c with Some d => d <? 16 | None => false end.

Lemma fmt_hex_chars w : forall z, 0 <= z -> all_chars is_hex (fmt_hex w z) = true.
Proof.
  induction w as [|w IH]; intros z Hz; cbn [fmt_hex]; [done|].
  rewrite all_chars_app, IH by (apply Z.div_pos; lia). simpl. unfold is_hex.
  pose proof (Z.mod_pos_bound z 16 ltac:(done)).
  destruct (hex_digit_value (z mod 16)) as [-> _]; [done|]. destruct (Z.ltb_spec (z mod 16) 16); [done|lia].
Qed.

(** [%04x] and [strconv.ParseUint(_, 16, 16)]. *)
Lemma ParseUint_fmt_hex w z bits :
  (0 < w)%nat -> 0 <= bits <= 64 -> 0 <= z < 16 ^ Z.of_nat w -> z <= 2 ^ bits - 1 ->
  ParseUint (fmt_hex w z) 16 bits = inr z.
Proof.
  intros Hw Hbits Hz Hmax. unfold ParseUint.
  destruct (fmt_hex w z) as [|c s] eqn:Hs.
  - destruct w; [lia|]. cbn [fmt_hex] in Hs. by destruct (fmt_hex w (z / 16)).
  - change (16 =? 0) with false. cbv iota. rewrite <- Hs, digits_fmt_hex by lia.
    by rewrite Z.mul_0_l, Z.add_0_l.
Qed.

(** What [strconv.ParseUint] accepts fits in [bitSize] bits. *)
Lemma digits_loop_range base0 base maxVal s : forall u n v u',
  1 < base <= 36 -> 0 <= n <= maxVal -> digits_loop base0 base maxVal s u n = inr (v, u') ->
  0 <= v <= maxVal.
Proof.
  induction s as [|c s IH]; intros u n v u' Hb Hn; cbn [digits_loop]; [by intros [= -> ->]|].
  destruct (underscore c && base0); [by apply IH|].
  destruct (digit_value c) as [d|]; [|done]. destruct (base <=? d); [done|].
  destruct (_ <=? n); [done|]. destruct (_ || _) eqn:Hor; [done|].
  apply orb_false_iff in Hor as [H1%Z.ltb_ge H2%Z.ltb_ge]. apply IH; [done|].
  pose proof (Z.mod_pos_bound (n * base + d) (2 ^ 64) ltac:(done)). lia.
Qed.

Lemma ParseUint_range s base bits v :
  base = 0 \/ 1 < base <= 36 -> 0 <= bits -> ParseUint s base bits = inr v -> 0 <= v <= 2 ^ bits - 1.
Proof.
  intros Hbase Hbits. unfold ParseUint. destruct s as [|c rest]; [done|].
  assert (0 < 2 ^ bits) by (apply Z.pow_pos_nonneg; lia).
  set (s := String c rest).
  set (bd := if base =? 0 then _ else _).
  assert (Hb : 1 < bd.1 <= 36).
  { subst bd. destruct (Z.eqb_spec base 0); [|simpl; lia].
    destruct (Ascii.eqb c "0"); [|simpl; lia].
    destruct (base_prefix s) as [[b [|d digits]]|] eqn:Hp; [simpl; lia| |simpl; lia].
    subst s. unfold base_prefix in Hp. destruct rest; [done|].
    repeat (destruct (Ascii.eqb _ _) in Hp); try done; injection Hp as <- _; simpl; lia. }
  destruct bd as [b digits]. simpl in Hb.
  destruct (digits_loop _ b _ digits false 0) as [err|[n u]] eqn:Hl; [done|].
  apply digits_loop_range in Hl; [|done|lia].
  destruct (u && _); [done|]. by intros [= <-].
Qed.

(** *** White space *)

Definition graphic_byte (b : Z) : bool := (33 <=? b) && (b <=? 126).
Definition graphic (c : ascii) : bool := graphic_byte (ascii_byte c).

Lemma trim_front_graphic fuel sp b l :
  graphic_byte b = true ->
  forallb (fun p => match p with c :: _ => negb (graphic_byte c) | [] => false end) sp = true ->
  trim_front fuel sp (b :: l) = b :: l.
Proof.
  intros Hb Hsp. destruct fuel as [|fuel]; [done|]. cbn [trim_front].
  replace (omap (fun p => strip p (b :: l)) sp) with (@nil (list Z)); [done|].
  induction sp as [|p sp IH]; [done|]. simpl in *. apply andb_true_iff in Hsp as [Hp Hsp].
  destruct p as [|c p]; [done|]. simpl. destruct (Z.eqb_spec c b) as [->|]; [by rewrite Hb in Hp|].
  by apply IH.
Qed.

Lemma trim_bytes_graphic l : forallb graphic_byte l = true -> trim_bytes l = l.
Proof.
  intros Hl. rewrite forallb_forall in Hl. unfold trim_bytes. destruct l as [|b l]; [done|].
  rewrite trim_front_graphic by (done || (apply Hl; by left)).
  destruct (rev (b :: l)) as [|x k] eqn:Hr.
  { apply (f_equal (@rev Z)) in Hr. by rewrite rev_involutive in Hr. }
  rewrite trim_front_graphic; [|apply Hl; rewrite in_rev, Hr; by left|by vm_compute].
  by rewrite <- Hr, rev_involutive.
Qed.

Lemma TrimSpace_graphic s : all_chars graphic s = true -> TrimSpace s = s.
Proof.
  intros Hs. unfold TrimSpace. rewrite trim_bytes_graphic; [apply string_of_bytes_of_string|].
  unfold bytes_of_string. induction s as [|c s IH]; [done|]. simpl in *.
  apply andb_true_iff in Hs as [Hc Hs]. unfold graphic in Hc. by rewrite Hc, IH.
Qed.
