(* ===== verification/Config.v ===== *)
(** * Command-line configuration

    [internal/config/config.go], with the part of the standard [flag] package
    it uses.  Error messages are abstracted: there is one constructor of
    [config_error] for each place where an error is made. *)

From S2P Require Import Prelude Text.

Open Scope string_scope.
Open Scope list_scope.
Open Scope Z_scope.

(** ** Data *)

Definition defaultHTTPAddr : string := ":8972".
Definition defaultUSBIDs : string := "1a86:5512".
Definition defaultI2CAddress : string := "0x11".
Definition defaultI2CSpeedKHz : Z := 100.
Definition defaultLogLevel : string := "info".
Definition defaultLogFormat : string := "json".
Definition defaultRecentEntries : Z := 20.

Record USBID := MkUSBID { Vendor : Z; Product : Z }.

#[export] Instance USBID_eq_dec : EqDecision USBID.
Proof. solve_decision. Defined.
#[export] Instance USBID_countable : Countable USBID.
Proof.
  apply (inj_countable' (fun id => (Vendor id, Product id)) (fun p => MkUSBID (fst p) (snd p))).
  by intros [].
Defined.

(** [USBID.String]. *)
Definition usbid_String (id : USBID) : string := fmt_hex 4 (Vendor id) +:+ ":" +:+ fmt_hex 4 (Product id).

(** [slog.Level]. *)
Definition LevelDebug : Z := -4.
Definition LevelInfo : Z := 0.
Definition LevelWarn : Z := 4.
Definition LevelError : Z := 8.

(** [Location] is always [time.Local]; the program computes nothing from it. *)
Record Config := MkConfig {
  HTTPAddr : string;
  BearerToken : string;
  USBIDs : list USBID;
  I2CAddress : Z;
  I2CSpeedKHz : Z;
  LogLevel : Z;
  LogFormat : string;
  RecentCapacity : Z;
}.

Definition zero_config : Config := MkConfig "" "" [] 0 0 0 "" 0.

Inductive usbids_error :=
  | NotTwoFields (part : string)
  | InvalidVendor (field : string)
  | InvalidProduct (field : string)
  | NoUSBIDs.

Inductive config_error :=
  | FlagSyntax (arg : string)
  | FlagHelp
  | FlagUndefined (name : string)
  | FlagNeedsArgument (name : string)
  | FlagInvalidBool (name value : string)
  | FlagInvalidInt (name value : string) (err : num_error)
  | PositionalArguments (args : list string)
  | InvalidHTTPAddr (err : addr_error)
  | InvalidUSBIDs (err : usbids_error)
  | InvalidI2CAddress (value : string)
  | InvalidSpeed
  | InvalidLogLevel
  | InvalidLogFormat.

(** ** The [flag] package *)

(** The variables the flags are bound to. *)
Record flag_values := MkFlagValues {
  httpAddr : string;
  bearerToken : string;
  usbIDList : string;
  i2cAddress : string;
  speed : Z;
  logLevel : string;
  logFormat : string;
  showVersion : bool;
}.

Definition default_flags : flag_values :=
  MkFlagValues defaultHTTPAddr "" defaultUSBIDs defaultI2CAddress defaultI2CSpeedKHz
    defaultLogLevel defaultLogFormat false.

(** The flags that are defined, and which of them is boolean. *)
Inductive flag_name := FHTTPAddr | FBearerToken | FUSBIDs | FI2CAddress | FSpeed | FLogLevel | FLogFormat | FVersion.

Definition lookup_flag (name : string) : option flag_name :=
  if String.eqb name "http-addr" then Some FHTTPAddr
  else if String.eqb name "bearer-token" then Some FBearerToken
  else if String.eqb name "usb-ids" then Some FUSBIDs
  else if String.eqb name "i2c-address" then Some FI2CAddress
  else if String.eqb name "i2c-speed-khz" then Some FSpeed
  else if String.eqb name "log-level" then Some FLogLevel
  else if String.eqb name "log-format" then Some FLogFormat
  else if String.eqb name "version" then Some FVersion
  else None.

Definition is_bool_flag (f : flag_name) : bool := match f with FVersion => true | _ => false end.

(** [flag.Value.Set]. *)
Definition set_flag (f : flag_name) (name value : string) (v : flag_values) : config_error + flag_values :=
  let 'MkFlagValues a b c d e g h i := v in
  match f with
  | FHTTPAddr => inr (MkFlagValues value b c d e g h i)
  | FBearerToken => inr (MkFlagValues a value c d e g h i)
  | FUSBIDs => inr (MkFlagValues a b value d e g h i)
  | FI2CAddress => inr (MkFlagValues a b c value e g h i)
  | FSpeed =>
      match ParseInt value with
      | inl err => inl (FlagInvalidInt name value err)
      | inr e => inr (MkFlagValues a b c d e g h i)
      end
  | FLogLevel => inr (MkFlagValues a b c d e value h i)
  | FLogFormat => inr (MkFlagValues a b c d e g value i)
  | FVersion =>
      match ParseBool value with
      | None => inl (FlagInvalidBool name value)
      | Some i => inr (MkFlagValues a b c d e g h i)
      end
  end.

(** The name in [-name], [--name] and [-name=value]; [None] for an argument that
    is not a flag; [Some ""] for the terminator [--]. *)
Definition flag_text (arg : string) : option string :=
  match arg with
  | String m (String c rest) =>
      if negb (Ascii.eqb m "-") then None
      else if Ascii.eqb c "-" then Some rest
      else Some (String c rest)
  | _ => None
  end.

Definition is_terminator (arg : string) : bool := String.eqb arg "--".

(** The first [=] that is not the first character separates name and value. *)
Definition cut_value (name : string) : string * option string :=
  match name with
  | EmptyString => ("", None)
  | String c rest =>
      match Split "=" rest with
      | [] => (name, None)
      | [_] => (name, None)
      | first :: fields => (String c first, Some (Join "=" fields))
      end
  end.

Definition bad_name (name : string) : bool :=
  match name with
  | EmptyString => true
  | String c _ => Ascii.eqb c "-" || Ascii.eqb c "="
  end.

(** [FlagSet.Parse]: the values and the positional arguments. *)
Fixpoint parse_flags (args : list string) (v : flag_values) : config_error + (flag_values * list string) :=
  match args with
  | [] => inr (v, [])
  | arg :: args' =>
      match flag_text arg with
      | None => inr (v, args)
      | Some name =>
          if is_terminator arg then inr (v, args')
          else if bad_name name then inl (FlagSyntax arg)
          else
            let '(name, value) := cut_value name in
            match lookup_flag name with
            | None =>
                if String.eqb name "help" || String.eqb name "h" then inl FlagHelp
                else inl (FlagUndefined name)
            | Some f =>
                if is_bool_flag f then
                  match set_flag f name (default "true" value) v with
                  | inl err => inl err
                  | inr v => parse_flags args' v
                  end
                else
                  match value, args' with
                  | Some value, _ =>
                      match set_flag f name value v with
                      | inl err => inl err
                      | inr v => parse_flags args' v
                      end
                  | None, value :: args'' =>
                      match set_flag f name value v with
                      | inl err => inl err
                      | inr v => parse_flags args'' v
                      end
                  | None, [] => inl (FlagNeedsArgument name)
                  end
            end
      end
  end.

(** ** Values *)

(** One round of the loop of [parseUSBIDs]: [seen] and [ids]. *)
Fixpoint usbids_loop (parts : list string) (seen : gset USBID) (ids : list USBID)
    : usbids_error + list USBID :=
  match parts with
  | [] => inr ids
  | part :: parts =>
      match Split ":" (TrimSpace part) with
      | [vendor; product] =>
          match ParseUint vendor 16 16 with
          | inl _ => inl (InvalidVendor vendor)
          | inr v =>
              match ParseUint product 16 16 with
              | inl _ => inl (InvalidProduct product)
              | inr p =>
                  let id := MkUSBID (v mod 2 ^ 16) (p mod 2 ^ 16) in
                  if decide (id ∈ seen) then usbids_loop parts seen ids
                  else usbids_loop parts ({[id]} ∪ seen) (ids ++ [id])
              end
          end
      | _ => inl (NotTwoFields part)
      end
  end.

Definition parseUSBIDs (value : string) : usbids_error + list USBID :=
  match usbids_loop (Split "," value) ∅ [] with
  | inl err => inl err
  | inr [] => inl NoUSBIDs
  | inr ids => inr ids
  end.

Definition parseInteger (value : string) (bits : Z) : config_error + Z :=
  match ParseUint value 0 bits with
  | inl _ => inl (InvalidI2CAddress value)
  | inr number => inr number
  end.

Definition parseLogLevel (value : string) : option Z :=
  let value := ToLower value in
  if String.eqb value "debug" then Some LevelDebug
  else if String.eqb value "info" then Some LevelInfo
  else if String.eqb value "warn" then Some LevelWarn
  else if String.eqb value "error" then Some LevelError
  else None.

Definition validSpeed (speed : Z) : bool :=
  (speed =? 20) || (speed =? 100) || (speed =? 400) || (speed =? 750).

(** ** [Parse]; the flag of the result tells that the version was asked for *)

Definition Parse (args : list string) : config_error + (Config * bool) :=
  match parse_flags args default_flags with
  | inl err => inl err
  | inr (v, positional) =>
      match positional with
      | _ :: _ => inl (PositionalArguments positional)
      | [] =>
          if showVersion v then inr (zero_config, true)
          else
            match SplitHostPort (httpAddr v) with
            | inl err => inl (InvalidHTTPAddr err)
            | inr _ =>
                match parseUSBIDs (usbIDList v) with
                | inl err => inl (InvalidUSBIDs err)
                | inr usbIDs =>
                    match parseInteger (i2cAddress v) 7 with
                    | inl err => inl err
                    | inr address =>
                        if negb (validSpeed (speed v)) then inl InvalidSpeed
                        else
                          match parseLogLevel (logLevel v) with
                          | None => inl InvalidLogLevel
                          | Some level =>
                              let format := ToLower (logFormat v) in
                              if negb (String.eqb format "json") && negb (String.eqb format "text")
                              then inl InvalidLogFormat
                              else inr (MkConfig (httpAddr v) (bearerToken v) usbIDs (u8 address)
                                          (speed v) level format defaultRecentEntries, false)
                          end
                    end
                end
            end
      end
  end.

Example parse_default_examples :
  Parse [] = inr (MkConfig ":8972" "" [MkUSBID 0x1a86 0x5512] 0x11 100 LevelInfo "json" 20, false) /\
  Parse ["-version"] = inr (zero_config, true) /\
  Parse ["-h"] = inl FlagHelp /\ Parse ["--http-addr"] = inl (FlagNeedsArgument "http-addr") /\
  Parse ["-i2c-address=0x80"] = inl (InvalidI2CAddress "0x80") /\
  Parse ["-usb-ids"; "1A86:5512, 1a86:5512"; "--"; "x"] = inl (PositionalArguments ["x"]).
Proof. vm_compute. repeat split. Qed.
