(* ===== verification/ConfigProps.v ===== *)
(** * Properties of the configuration

    Which configurations [Parse] accepts, and that it understands every
    configuration written out as flags. *)

From S2P Require Import Prelude Codec Text Config.

Open Scope string_scope.
Open Scope list_scope.
Open Scope Z_scope.

(** ** USB identities *)

Definition usbid_ok (id : USBID) : Prop := 0 <= Vendor id < 2 ^ 16 /\ 0 <= Product id < 2 ^ 16.

Lemma hex_char_props c :
  is_hex c = true -> graphic c = true /\ other_than "," c = true /\ other_than ":" c = true.
Proof. by destruct c as [[] [] [] [] [] [] [] []]. Qed.

Lemma fmt_hex_avoids p w z :
  0 <= z -> (forall c, is_hex c = true -> p c = true) -> all_chars p (fmt_hex w z) = true.
Proof. intros Hz Hp. eapply all_chars_impl; [done|]. by apply fmt_hex_chars. Qed.

Lemma usbid_String_graphic id : usbid_ok id -> all_chars graphic (usbid_String id) = true.
Proof.
  intros [Hv Hp]. unfold usbid_String. rewrite !all_chars_app, !fmt_hex_avoids; try done; try lia.
  all: intros c Hc; by apply hex_char_props in Hc as (? & ? & ?).
Qed.

Lemma usbid_String_no_comma id : usbid_ok id -> all_chars (other_than ",") (usbid_String id) = true.
Proof.
  intros [Hv Hp]. unfold usbid_String. rewrite !all_chars_app, !fmt_hex_avoids; try done; try lia.
  all: intros c Hc; by apply hex_char_props in Hc as (? & ? & ?).
Qed.

Lemma usbid_String_fields id :
  usbid_ok id -> Split ":" (TrimSpace (usbid_String id)) = [fmt_hex 4 (Vendor id); fmt_hex 4 (Product id)].
Proof.
  intros Hid. rewrite TrimSpace_graphic by by apply usbid_String_graphic. destruct Hid as [Hv Hp].
  unfold usbid_String. change (":" +:+ ?s) with (String ":" s).
  assert (Hsep : forall z, 0 <= z -> all_chars (other_than ":") (fmt_hex 4 z) = true).
  { intros z Hz. apply fmt_hex_avoids; [done|]. intros c Hc. by apply hex_char_props in Hc as (? & ? & ?). }
  rewrite Split_app by (apply Hsep; lia). unfold Split. by rewrite Split_single by (apply Hsep; lia).
Qed.

Lemma usbids_loop_spec ids : forall seen acc,
  Forall usbid_ok ids -> NoDup ids -> Forall (fun id => id ∉ seen) ids ->
  usbids_loop (map usbid_String ids) seen acc = inr (acc ++ ids).
Proof.
  induction ids as [|id ids IH]; intros seen acc Hok Hnd Hseen; cbn [map usbids_loop].
  { by rewrite app_nil_r. }
  apply Forall_cons in Hok as [Hid Hok]. apply NoDup_cons in Hnd as [Hnew Hnd].
  apply Forall_cons in Hseen as [Hfresh Hseen].
  rewrite usbid_String_fields by done. destruct Hid as [Hv Hp]. cbn [map].
  change (2 ^ 16) with 65536 in *.
  rewrite !ParseUint_fmt_hex by (simpl; lia).
  rewrite !Z.mod_small by lia. destruct id as [v p]. cbn [Vendor Product] in *.
  rewrite decide_False by done. rewrite IH; [by rewrite <- app_assoc|done..|].
  apply Forall_forall. intros id Hin. rewrite Forall_forall in Hseen.
  specialize (Hseen id Hin). assert (id <> MkUSBID v p) by (by intros ->). set_solver.
Qed.

Lemma parseUSBIDs_String ids :
  ids <> [] -> Forall usbid_ok ids -> NoDup ids ->
  parseUSBIDs (Join "," (map usbid_String ids)) = inr ids.
Proof.
  intros Hne Hok Hnd. unfold parseUSBIDs. rewrite Split_Join.
  - rewrite (usbids_loop_spec ids ∅ []); [by destruct ids|done..|].
    apply Forall_forall. intros id _. apply not_elem_of_empty.
  - by destruct ids.
  - apply Forall_fmap. eapply Forall_impl; [done|]. apply usbid_String_no_comma.
Qed.

(** What [parseUSBIDs] lets through. *)
Lemma usbids_loop_sound parts : forall seen acc ids,
  Forall usbid_ok acc -> NoDup acc -> (forall id, id ∈ acc -> id ∈ seen) ->
  usbids_loop parts seen acc = inr ids -> Forall usbid_ok ids /\ NoDup ids.
Proof.
  induction parts as [|part parts IH]; intros seen acc ids Hok Hnd Hsub; cbn [usbids_loop].
  { by intros [= <-]. }
  destruct (Split ":" (TrimSpace part)) as [|vendor [|product [|]]]; try done.
  destruct (ParseUint vendor 16 16) as [|v] eqn:Hv; [done|].
  destruct (ParseUint product 16 16) as [|p] eqn:Hp; [done|].
  apply ParseUint_range in Hv; [|lia..]. apply ParseUint_range in Hp; [|lia..].
  set (id := MkUSBID _ _). destruct (decide (id ∈ seen)) as [Hin|Hin]; [by apply IH|].
  apply IH.
  - apply Forall_app. split; [done|]. constructor; [|done].
    split; apply Z.mod_pos_bound; done.
  - apply NoDup_app. split_and!; [done| |apply NoDup_singleton].
    intros x Hx ->%list_elem_of_singleton. by apply Hin, Hsub.
  - intros x [Hx| ->%list_elem_of_singleton]%elem_of_app; [|set_solver]. apply elem_of_union_r. by apply Hsub.
Qed.

Lemma parseUSBIDs_sound value ids :
  parseUSBIDs value = inr ids -> ids <> [] /\ Forall usbid_ok ids /\ NoDup ids.
Proof.
  unfold parseUSBIDs. destruct (usbids_loop _ _ _) as [|ids'] eqn:Hl; [done|].
  apply usbids_loop_sound in Hl; [|done|apply NoDup_nil_2|by intros id Hin%elem_of_nil].
  destruct ids'; [done|]. by intros [= <-].
Qed.

(** ** Accepted configurations *)

Definition config_ok (cfg : Config) : Prop :=
  USBIDs cfg <> [] /\ Forall usbid_ok (USBIDs cfg) /\ NoDup (USBIDs cfg) /\
  0 <= I2CAddress cfg <= 0x7f /\ validSpeed (I2CSpeedKHz cfg) = true /\
  LogLevel cfg ∈ [LevelDebug; LevelInfo; LevelWarn; LevelError] /\
  (LogFormat cfg = "json" \/ LogFormat cfg = "text") /\
  (exists host_port, SplitHostPort (HTTPAddr cfg) = inr host_port) /\
  RecentCapacity cfg = defaultRecentEntries.

Lemma parseLogLevel_sound value level :
  parseLogLevel value = Some level -> level ∈ [LevelDebug; LevelInfo; LevelWarn; LevelError].
Proof.
  unfold parseLogLevel. repeat (destruct (String.eqb _ _)); intros [= <-]; set_solver.
Qed.

Lemma parse_sound args cfg : Parse args = inr (cfg, false) -> config_ok cfg.
Proof.
  unfold Parse. destruct (parse_flags _ _) as [|[v [|]]]; [done| |done].
  destruct (showVersion v); [done|].
  destruct (SplitHostPort (httpAddr v)) as [|hp] eqn:Hhp; [done|].
  destruct (parseUSBIDs (usbIDList v)) as [|ids] eqn:Hids; [done|].
  unfold parseInteger. destruct (ParseUint (i2cAddress v) 0 7) as [|a] eqn:Ha; [done|].
  destruct (validSpeed (speed v)) eqn:Hsp; [|done]. cbn [negb].
  destruct (parseLogLevel (logLevel v)) as [level|] eqn:Hlv; [|done].
  destruct (negb _ && _) eqn:Hf; [done|]. intros [= <-].
  apply ParseUint_range in Ha; [|by left|done]. change (2 ^ 7) with 128 in Ha.
  apply parseUSBIDs_sound in Hids as (? & ? & ?).
  unfold config_ok. cbn. rewrite u8_small by lia. split_and!; try done; try lia.
  - by eapply parseLogLevel_sound.
  - apply andb_false_iff in Hf as [Hf|Hf]; apply negb_false_iff, String.eqb_eq in Hf; auto.
  - by eexists.
Qed.

(** ** Writing a configuration out *)

Definition level_name (level : Z) : string :=
  if level =? LevelDebug then "debug" else if level =? LevelInfo then "info"
  else if level =? LevelWarn then "warn" else "error".

Definition arguments (cfg : Config) : list string :=
  ["--http-addr"; HTTPAddr cfg; "--bearer-token"; BearerToken cfg;
   "--usb-ids"; Join "," (map usbid_String (USBIDs cfg));
   "--i2c-address"; "0x" +:+ fmt_hex 2 (I2CAddress cfg);
   "--i2c-speed-khz"; fmt_d (I2CSpeedKHz cfg);
   "--log-level"; level_name (LogLevel cfg); "--log-format"; LogFormat cfg].

Lemma parse_address a : 0 <= a <= 0x7f -> ParseUint ("0x" +:+ fmt_hex 2 a) 0 7 = inr a.
Proof.
  intros Ha.
  assert (Hall : forallb (fun i => match ParseUint ("0x" +:+ fmt_hex 2 (Z.of_nat i)) 0 7 with
    | inr n => n =? Z.of_nat i | inl _ => false end) (seq 0 128) = true) by (vm_compute; reflexivity).
  rewrite forallb_forall in Hall. specialize (Hall (Z.to_nat a)).
  rewrite Z2Nat.id, in_seq in Hall by lia. specialize (Hall ltac:(lia)).
  destruct (ParseUint _ 0 7); [done|]. by apply Z.eqb_eq in Hall as ->.
Qed.

Lemma parse_speed s : validSpeed s = true -> ParseInt (fmt_d s) = inr s.
Proof.
  unfold validSpeed. intros [[[->%Z.eqb_eq| ->%Z.eqb_eq]%orb_true_iff| ->%Z.eqb_eq]%orb_true_iff
    | ->%Z.eqb_eq]%orb_true_iff; vm_compute; reflexivity.
Qed.

Lemma parse_level level :
  level ∈ [LevelDebug; LevelInfo; LevelWarn; LevelError] -> parseLogLevel (level_name level) = Some level.
Proof.
  intros Hl. repeat (apply elem_of_cons in Hl as [->|Hl]; [reflexivity|]). by apply elem_of_nil in Hl.
Qed.

Lemma parse_flags_arguments cfg :
  validSpeed (I2CSpeedKHz cfg) = true ->
  parse_flags (arguments cfg) default_flags =
  inr (MkFlagValues (HTTPAddr cfg) (BearerToken cfg) (Join "," (map usbid_String (USBIDs cfg)))
         ("0x" +:+ fmt_hex 2 (I2CAddress cfg)) (I2CSpeedKHz cfg) (level_name (LogLevel cfg))
         (LogFormat cfg) false, []).
Proof.
  intros Hs%parse_speed. unfold arguments. revert Hs.
  generalize (fmt_d (I2CSpeedKHz cfg)) (Join "," (map usbid_String (USBIDs cfg)))
    ("0x" +:+ fmt_hex 2 (I2CAddress cfg)) (level_name (LogLevel cfg)).
  intros speed ids address level Hs. cbn -[ParseInt]. by rewrite Hs.
Qed.

(** ** Properties *)

(** C31: a configuration written out as flags is parsed back to itself: every
    listen address that splits into host and port, every bearer token, every
    non-empty list of distinct USB identities, every 7-bit address, the four
    speeds, the four log levels and the two log formats. *)
Theorem config_round_trip cfg : config_ok cfg -> Parse (arguments cfg) = inr (cfg, false).
Proof.
  intros (Hne & Hids & Hnd & Ha & Hs & Hl & Hf & [hp Hhp] & Hc).
  unfold Parse. rewrite parse_flags_arguments by done.
  cbn [httpAddr bearerToken usbIDList i2cAddress speed logLevel logFormat showVersion]. rewrite Hhp, parseUSBIDs_String by done.
  unfold parseInteger. rewrite parse_address by done. rewrite Hs. cbn [negb].
  rewrite parse_level by done. rewrite u8_small by lia.
  destruct cfg as [? ? ? ? ? ? format ?]. cbn in *. rewrite Hc.
  by destruct Hf as [-> | ->].
Qed.

Definition demo_config : Config :=
  MkConfig "[::1]:8972" "secret" [MkUSBID 0x1a86 0x5512; MkUSBID 0x0001 0xffff] 0x10 400 LevelDebug "text" 20.

Example config_round_trip_witness : Parse (arguments demo_config) = inr (demo_config, false).
Proof.
  apply (config_round_trip demo_config). unfold config_ok. split_and!.
  - discriminate.
  - repeat constructor; vm_compute; discriminate.
  - apply (bool_decide_unpack (NoDup (USBIDs demo_config))). vm_compute. exact I.
  - vm_compute. discriminate.
  - vm_compute. discriminate.
  - reflexivity.
  - vm_compute. left.
  - right. reflexivity.
  - exists ("::1", "8972"). vm_compute. reflexivity.
  - reflexivity.
Defined.
