(* ===== verification/Effects.v ===== *)
(** * Effectful code and the interfaces between components

    A Go function that touches the outside world is a function of the world's
    state [W].  [IO W A] returns [None] where the Go code would panic or where a
    loop's bound is exhausted; the components prove that neither happens.  The
    interfaces are type classes: a clock ([time.Now], [time.Sleep]) and
    [I2CTransport] of [internal/transport/transport.go]; their laws are separate
    classes, which the components that need them assume and the components that
    implement them discharge. *)

From S2P Require Import Prelude Errors.

Open Scope Z_scope.

(** ** Time, in nanoseconds *)

Definition Second : Z := 1000000000.
Definition Millisecond : Z := 1000000.

Class Clock (W : Type) := {
  now : W -> Z;
  sleep : Z -> W -> W;
}.

(** [time.Sleep(d)] pauses for at least [d]. *)
Class ClockLaws (W : Type) `{Clock W} := {
  sleep_advances d w : 0 <= d -> now w + d <= now (sleep d w);
}.

(** ** The effect type *)

Definition IO (W A : Type) : Type := W -> option (result A * W).

Section Effects.
Context {W : Type}.

Definition io_ret {A} (a : A) : IO W A := fun w => Some (Ok a, w).
Definition io_fail {A} (e : goerror) : IO W A := fun w => Some (Err e, w).

(** [value, err := m(); if err != nil { return err }]. *)
Definition io_bind {A B} (m : IO W A) (f : A -> IO W B) : IO W B := fun w =>
  match m w with
  | Some (Ok a, w) => f a w
  | Some (Err e, w) => Some (Err e, w)
  | None => None
  end.

(** [value, err := m()], with the error kept. *)
Definition io_try {A} (m : IO W A) : IO W (result A) := fun w =>
  match m w with
  | Some (r, w) => Some (Ok r, w)
  | None => None
  end.

(** An effect that cannot fail. *)
Definition io_effect (f : W -> W) : IO W () := fun w => Some (Ok (), f w).
Definition io_read {A} (f : W -> A) : IO W A := fun w => Some (Ok (f w), w).

(** A Go operation that panics on [None]. *)
Definition io_must {A} (o : option A) : IO W A := fun w =>
  match o with Some a => Some (Ok a, w) | None => None end.
End Effects.

Notation "x <-- m ;; k" := (io_bind m (fun x => k))
  (at level 20, m at level 99, k at level 200) : go_scope.
Notation "m ;;; k" := (io_bind m (fun _ => k))
  (at level 100, k at level 200, right associativity) : go_scope.

(** ** The transport interface *)

Class I2CTransport (W : Type) := {
  Transaction : Z -> list Z -> Z -> W -> result (list Z) * W;
}.

(** A transaction takes time, never gives any back. *)
Class TransportLaws (W : Type) `{Clock W, I2CTransport W} := {
  transaction_clock a wr n w : now w <= now (snd (Transaction a wr n w));
}.

(** Its errors are not the service's own. *)
Class TransportErrors (W : Type) `{I2CTransport W} := {
  transaction_hw a wr n w : hardware (Transaction a wr n w).1;
}.

(** ** Facts about [IO] programs *)

Section Facts.
Context {W : Type}.

Context `{Clock W}.

(** [m] neither panics nor runs out of its loop bounds, and time does not go
    back while it runs. *)
Definition live {A} (m : IO W A) : Prop :=
  forall w, exists r w', m w = Some (r, w') /\ now w <= now w'.

(** Every successful result of [m] satisfies [P]. *)
Definition returns {A} (m : IO W A) (P : A -> Prop) : Prop :=
  forall w a w', m w = Some (Ok a, w') -> P a.

Lemma live_ret {A} (a : A) : live (io_ret a).
Proof. intros w. eexists _, _. split; [done|lia]. Qed.

Lemma live_fail {A} (e : goerror) : live (@io_fail W A e).
Proof. intros w. eexists _, _. split; [done|lia]. Qed.

Lemma live_read {A} (f : W -> A) : live (io_read f).
Proof. intros w. eexists _, _. split; [done|lia]. Qed.

Lemma live_must {A} (o : option A) : is_Some o -> live (@io_must W A o).
Proof. intros [a ->] w. eexists _, _. split; [done|lia]. Qed.

Lemma live_sleep `{!ClockLaws W} d : 0 <= d -> live (io_effect (sleep d)).
Proof. intros Hd w. eexists _, _. split; [done|]. pose proof (sleep_advances d w Hd). lia. Qed.

Lemma live_bind_returns {A B} (m : IO W A) (f : A -> IO W B) (P : A -> Prop) :
  live m -> returns m P -> (forall a, P a -> live (f a)) -> live (io_bind m f).
Proof.
  intros Hm HP Hf w. unfold io_bind. destruct (Hm w) as ([a|e] & w1 & Heq & Hle); rewrite Heq.
  - destruct (Hf a (HP _ _ _ Heq) w1) as (r & w2 & -> & ?). eexists _, _. split; [done|lia].
  - by eexists _, _.
Qed.

Lemma live_bind {A B} (m : IO W A) (f : A -> IO W B) :
  live m -> (forall a, live (f a)) -> live (io_bind m f).
Proof. intros Hm Hf. by apply (live_bind_returns m f (fun _ => True)). Qed.

Lemma live_try {A} (m : IO W A) : live m -> live (io_try m).
Proof. intros Hm w. unfold io_try. destruct (Hm w) as (r & w' & -> & ?). by eexists _, _. Qed.

Lemma live_if {A} (b : bool) (m k : IO W A) : live m -> live k -> live (if b then m else k).
Proof. by destruct b. Qed.

Lemma returns_bind {A B} (m : IO W A) (f : A -> IO W B) (P : B -> Prop) :
  (forall a, returns (f a) P) -> returns (io_bind m f) P.
Proof.
  intros Hf w b w'. unfold io_bind. destruct (m w) as [[[a|e] w1]|]; [|done..]. apply Hf.
Qed.

Lemma returns_bind_with {A B} (m : IO W A) (f : A -> IO W B) (P : A -> Prop) (Q : B -> Prop) :
  returns m P -> (forall a, P a -> returns (f a) Q) -> returns (io_bind m f) Q.
Proof.
  intros Hm Hf w b w'. unfold io_bind. destruct (m w) as [[[a|e] w1]|] eqn:Heq; [|done..].
  by apply Hf, (Hm _ _ _ Heq).
Qed.

Lemma returns_ret {A} (a : A) (P : A -> Prop) : P a -> returns (@io_ret W A a) P.
Proof. by intros Ha w a' w' [= <- _]. Qed.

Lemma returns_fail {A} e (P : A -> Prop) : returns (@io_fail W A e) P.
Proof. by intros w a' w' [=]. Qed.

Lemma returns_impl {A} (m : IO W A) (P Q : A -> Prop) :
  returns m P -> (forall a, P a -> Q a) -> returns m Q.
Proof. intros Hm HPQ w a w' Heq. eapply HPQ, Hm, Heq. Qed.

Lemma io_bind_ok {A B} (m : IO W A) (f : A -> IO W B) w a w' :
  m w = Some (Ok a, w') -> io_bind m f w = f a w'.
Proof. unfold io_bind. by intros ->. Qed.

Lemma io_bind_err {A B} (m : IO W A) (f : A -> IO W B) w e w' :
  m w = Some (Err e, w') -> io_bind m f w = Some (Err e, w').
Proof. unfold io_bind. by intros ->. Qed.

(** Every error of [m] satisfies [P]. *)
Definition raises {A} (m : IO W A) (P : goerror -> Prop) : Prop :=
  forall w e w', m w = Some (Err e, w') -> P e.

Lemma raises_ret {A} (a : A) P : raises (@io_ret W A a) P.
Proof. by intros w e w' [=]. Qed.

Lemma raises_fail {A} e (P : goerror -> Prop) : P e -> raises (@io_fail W A e) P.
Proof. by intros He w e' w' [= <- _]. Qed.

Lemma raises_read {A} (f : W -> A) P : raises (io_read f) P.
Proof. by intros w e w' [=]. Qed.

Lemma raises_effect (f : W -> W) P : raises (io_effect f) P.
Proof. by intros w e w' [=]. Qed.

Lemma raises_must {A} (o : option A) P : raises (@io_must W A o) P.
Proof. destruct o; by intros w e w' [=]. Qed.

Lemma raises_try {A} (m : IO W A) P : raises (io_try m) P.
Proof. intros w e w'. unfold io_try. by destruct (m w) as [[r w1]|]. Qed.

Lemma raises_bind_with {A B} (m : IO W A) (f : A -> IO W B) (P : A -> Prop) Q :
  returns m P -> raises m Q -> (forall a, P a -> raises (f a) Q) -> raises (io_bind m f) Q.
Proof.
  intros HP Hm Hf w e w'. unfold io_bind. destruct (m w) as [[[a|e1] w1]|] eqn:Heq; [| |done].
  - by apply Hf, (HP _ _ _ Heq).
  - intros [= <- <-]. by apply (Hm _ _ _ Heq).
Qed.

Lemma raises_bind {A B} (m : IO W A) (f : A -> IO W B) Q :
  raises m Q -> (forall a, raises (f a) Q) -> raises (io_bind m f) Q.
Proof. intros Hm Hf. by apply (raises_bind_with m f (fun _ => True)). Qed.

Lemma raises_if {A} (b : bool) (m k : IO W A) P : raises m P -> raises k P -> raises (if b then m else k) P.
Proof. by destruct b. Qed.

(** What [io_try] catches. *)
Lemma returns_try {A} (m : IO W A) (P : goerror -> Prop) :
  raises m P -> returns (io_try m) (fun r => match r with Ok _ => True | Err e => P e end).
Proof.
  intros Hm w r w'. unfold io_try. destruct (m w) as [[r1 w1]|] eqn:Heq; [|done].
  intros [= <- <-]. destruct r1; [done|]. by apply (Hm _ _ _ Heq).
Qed.

(** ** Total correctness

    [wp m Q w]: from [w], [m] ends without a panic, time does not go back, and
    the outcome satisfies [Q]. *)
Definition wp {A} (m : IO W A) (Q : result A -> W -> Prop) (w : W) : Prop :=
  exists r w', m w = Some (r, w') /\ now w <= now w' /\ Q r w'.

Lemma wp_mono {A} (m : IO W A) (P Q : result A -> W -> Prop) w :
  wp m P w -> (forall r w', P r w' -> Q r w') -> wp m Q w.
Proof. intros (r & w' & ? & ? & ?) HPQ. exists r, w'. auto. Qed.

Lemma wp_ret {A} (a : A) (Q : result A -> W -> Prop) w : Q (Ok a) w -> wp (io_ret a) Q w.
Proof. intros HQ. exists (Ok a), w. split; [done|]. split; [lia|done]. Qed.

Lemma wp_fail {A} e (Q : result A -> W -> Prop) w : Q (Err e) w -> wp (io_fail e) Q w.
Proof. intros HQ. exists (Err e), w. split; [done|]. split; [lia|done]. Qed.

Lemma wp_read {A} (f : W -> A) (Q : result A -> W -> Prop) w : Q (Ok (f w)) w -> wp (io_read f) Q w.
Proof. intros HQ. exists (Ok (f w)), w. split; [done|]. split; [lia|done]. Qed.

Lemma wp_effect (f : W -> W) (Q : result () -> W -> Prop) w :
  now w <= now (f w) -> Q (Ok ()) (f w) -> wp (io_effect f) Q w.
Proof. intros Hle HQ. by exists (Ok ()), (f w). Qed.

Lemma wp_bind {A B} (m : IO W A) (f : A -> IO W B) (Q : result B -> W -> Prop) w :
  wp m (fun r w' => match r with Ok a => wp (f a) Q w' | Err e => Q (Err e) w' end) w ->
  wp (io_bind m f) Q w.
Proof.
  intros ([a|e] & w1 & Heq & Hle & HQ).
  - destruct HQ as (r & w2 & Heq2 & ? & ?). exists r, w2.
    rewrite (io_bind_ok _ _ _ _ _ Heq). split; [done|]. split; [lia|done].
  - exists (Err e), w1. by rewrite (io_bind_err _ _ _ _ _ Heq).
Qed.

Lemma wp_try {A} (m : IO W A) (Q : result (result A) -> W -> Prop) w :
  wp m (fun r w' => Q (Ok r) w') w -> wp (io_try m) Q w.
Proof. intros (r & w1 & Heq & ? & ?). exists (Ok r), w1. unfold io_try. by rewrite Heq. Qed.

Lemma wp_live {A} (m : IO W A) : (forall w, wp m (fun _ _ => True) w) -> live m.
Proof. intros Hm w. destruct (Hm w) as (r & w' & ? & ? & _). by exists r, w'. Qed.
End Facts.

#[export] Hint Resolve live_ret live_fail live_read live_bind live_try live_if
  returns_bind returns_ret returns_fail
  raises_ret raises_fail raises_read raises_effect raises_must raises_try raises_bind raises_if : mfi.
