(* ===== verification/Usb.v ===== *)
(** * The USB library, as the transport sees it

    [github.com/google/gousb] is not part of the program: its operations are the
    class [Gousb], and what its documentation promises about them is the class
    [GousbLaws].  A handle (device, claimed configuration, claimed interface) is
    a number given by the library. *)

From S2P Require Import Prelude Errors Effects.

Open Scope Z_scope.

(** ** Descriptors *)

Inductive TransferType := TransferTypeBulk | TransferTypeOther (code : Z).
Inductive EndpointDirection := EndpointDirectionIn | EndpointDirectionOut.

Record EndpointDesc := MkEndpointDesc {
  endpoint_Number : Z;
  endpoint_Direction : EndpointDirection;
  endpoint_TransferType : TransferType;
}.

(** [Endpoints] is a Go map from endpoint addresses. *)
Record InterfaceSetting := MkInterfaceSetting {
  setting_Number : Z;
  setting_Alternate : Z;
  Endpoints : gmap Z EndpointDesc;
}.

Definition InterfaceDesc : Type := list InterfaceSetting.
Definition ConfigDesc : Type := list InterfaceDesc.

Record DeviceDesc := MkDeviceDesc {
  desc_Bus : Z;
  desc_Address : Z;
  desc_Vendor : Z;
  desc_Product : Z;
  desc_Speed : string;
  desc_Class : Z;
  Configs : gmap Z ConfigDesc;
}.

(** ** Handles *)

Record device := MkDevice { dev_handle : nat; Desc : DeviceDesc }.
Record usb_config := MkUsbConfig { cfg_device : nat; cfg_handle : nat }.
Record usb_interface := MkUsbInterface { if_config : usb_config; if_handle : nat }.
Record in_endpoint := MkInEndpoint { in_interface : usb_interface; in_number : Z; MaxPacketSize : Z }.
Record out_endpoint := MkOutEndpoint { out_interface : usb_interface; out_number : Z }.

Inductive handle :=
  | HDevice (d : nat)
  | HConfig (d c : nat)
  | HInterface (d c i : nat).

#[export] Instance handle_eq_dec : EqDecision handle.
Proof. solve_decision. Defined.
#[export] Instance handle_countable : Countable handle.
Proof.
  apply (inj_countable'
    (fun h => match h with HDevice d => inl (inl d) | HConfig d c => inl (inr (d, c)) | HInterface d c i => inr (d, c, i) end)
    (fun s => match s with inl (inl d) => HDevice d | inl (inr (d, c)) => HConfig d c | inr (d, c, i) => HInterface d c i end)).
  by intros [].
Defined.

Definition device_handle (d : device) : handle := HDevice (dev_handle d).
Definition config_handle (c : usb_config) : handle := HConfig (cfg_device c) (cfg_handle c).
Definition interface_handle (i : usb_interface) : handle :=
  HInterface (cfg_device (if_config i)) (cfg_handle (if_config i)) (if_handle i).

Definition handle_of_device (h : handle) : nat :=
  match h with HDevice d | HConfig d _ | HInterface d _ _ => d end.

(** [HConfig d c] is in use while one of its interfaces is claimed. *)
Definition config_busy (c : usb_config) (open : gset handle) : Prop :=
  exists i, HInterface (cfg_device c) (cfg_handle c) i ∈ open.
Definition device_busy (d : device) (open : gset handle) : Prop :=
  exists c, HConfig (dev_handle d) c ∈ open.

(** ** The operations

    [ReadContext] gives the buffer's contents after the call and the count. *)
Class Gousb (E : Type) := {
  OpenDeviceWithVIDPID : Z -> Z -> E -> result (option device) * E;
  device_Config : device -> Z -> E -> result usb_config * E;
  config_Interface : usb_config -> Z -> Z -> E -> result usb_interface * E;
  interface_InEndpoint : usb_interface -> Z -> E -> result in_endpoint * E;
  interface_OutEndpoint : usb_interface -> Z -> E -> result out_endpoint * E;
  interface_Close : usb_interface -> E -> E;
  config_Close : usb_config -> E -> option goerror * E;
  device_Close : device -> E -> option goerror * E;
  context_Close : E -> option goerror * E;
  WriteContext : out_endpoint -> Z -> list Z -> E -> (Z * option goerror) * E;
  ReadContext : in_endpoint -> Z -> Z -> E -> (list Z * Z * option goerror) * E;
  OpenDevices : (DeviceDesc -> bool) -> E -> (list DeviceDesc * list device) * E;
  device_Manufacturer : device -> E -> result string * E;
  device_Product : device -> E -> result string * E;
}.

(** ** The documented behaviour

    [handles e] are the handles that are open.  Opening gives a fresh handle;
    closing what is not in use gives it back; closing what is in use is refused
    (the program discards that error).  No other operation opens or closes, and
    [context_Close] closes nothing by itself.  Time does not go back.  A read
    never reports more bytes than the buffer holds. *)
Class UsbHandles (E : Type) := {
  handles : E -> gset handle;
}.

Class GousbLaws (E : Type) `{Clock E, Gousb E, UsbHandles E} := {
  open_device_ok v p e d e' : OpenDeviceWithVIDPID v p e = (Ok (Some d), e') ->
    handles e' = {[device_handle d]} ∪ handles e /\
    forall h, h ∈ handles e -> handle_of_device h <> dev_handle d;
  open_device_none v p e e' : OpenDeviceWithVIDPID v p e = (Ok None, e') -> handles e' = handles e;
  open_device_err v p e err e' : OpenDeviceWithVIDPID v p e = (Err err, e') -> handles e' = handles e;
  config_ok d n e c e' : device_Config d n e = (Ok c, e') ->
    cfg_device c = dev_handle d /\ handles e' = {[config_handle c]} ∪ handles e /\
    forall i, HInterface (cfg_device c) (cfg_handle c) i ∉ handles e;
  config_err d n e err e' : device_Config d n e = (Err err, e') -> handles e' = handles e;
  interface_ok c n a e i e' : config_Interface c n a e = (Ok i, e') ->
    if_config i = c /\ handles e' = {[interface_handle i]} ∪ handles e;
  interface_err c n a e err e' : config_Interface c n a e = (Err err, e') -> handles e' = handles e;
  in_endpoint_same i n e : handles (interface_InEndpoint i n e).2 = handles e;
  out_endpoint_same i n e : handles (interface_OutEndpoint i n e).2 = handles e;
  interface_close i e : handles (interface_Close i e) = handles e ∖ {[interface_handle i]};
  config_close c e : ~ config_busy c (handles e) ->
    handles (config_Close c e).2 = handles e ∖ {[config_handle c]};
  config_close_busy c e : config_busy c (handles e) -> handles (config_Close c e).2 = handles e;
  device_close d e : ~ device_busy d (handles e) ->
    handles (device_Close d e).2 = handles e ∖ {[device_handle d]};
  device_close_busy d e : device_busy d (handles e) -> handles (device_Close d e).2 = handles e;
  context_close_same e : handles (context_Close e).2 = handles e;
  write_same o t data e : handles (WriteContext o t data e).2 = handles e;
  read_same i t n e : handles (ReadContext i t n e).2 = handles e;
  read_count i t n e buffer k err e' : 0 <= n -> ReadContext i t n e = ((buffer, k, err), e') ->
    len buffer = n /\ k <= n;
  open_devices opener e descs devs e' : OpenDevices opener e = ((descs, devs), e') ->
    NoDup (map dev_handle devs) /\
    handles e' = list_to_set (map device_handle devs) ∪ handles e /\
    (forall d h, d ∈ devs -> h ∈ handles e -> handle_of_device h <> dev_handle d) /\
    (forall d, d ∈ devs -> Desc d ∈ descs /\ opener (Desc d) = true);
  manufacturer_same d e : handles (device_Manufacturer d e).2 = handles e;
  product_same d e : handles (device_Product d e).2 = handles e;
  sleep_same d e : handles (sleep d e) = handles e;
  open_device_clock v p e : now e <= now (OpenDeviceWithVIDPID v p e).2;
  config_clock d n e : now e <= now (device_Config d n e).2;
  interface_clock c n a e : now e <= now (config_Interface c n a e).2;
  in_endpoint_clock i n e : now e <= now (interface_InEndpoint i n e).2;
  out_endpoint_clock i n e : now e <= now (interface_OutEndpoint i n e).2;
  interface_close_clock i e : now e <= now (interface_Close i e);
  config_close_clock c e : now e <= now (config_Close c e).2;
  device_close_clock d e : now e <= now (device_Close d e).2;
  context_close_clock e : now e <= now (context_Close e).2;
  open_devices_clock opener e : now e <= now (OpenDevices opener e).2;
  manufacturer_clock d e : now e <= now (device_Manufacturer d e).2;
  product_clock d e : now e <= now (device_Product d e).2;
  write_clock o t data e : now e <= now (WriteContext o t data e).2;
  read_clock i t n e : now e <= now (ReadContext i t n e).2;
}.

(** Errors come from the library or from the transfer's context. *)
Class GousbErrors (E : Type) `{Gousb E} := {
  open_device_hw v p e : hardware (OpenDeviceWithVIDPID v p e).1;
  config_hw d n e : hardware (device_Config d n e).1;
  interface_hw c n a e : hardware (config_Interface c n a e).1;
  in_endpoint_hw i n e : hardware (interface_InEndpoint i n e).1;
  out_endpoint_hw i n e : hardware (interface_OutEndpoint i n e).1;
  write_hw o t data e err : (WriteContext o t data e).1.2 = Some err -> hardware_error err = true;
  read_hw i t n e err : (ReadContext i t n e).1.2 = Some err -> hardware_error err = true;
}.

(** Go does not say in which order [range] visits a map. *)
Class MapOrder := {
  range {K : Type} `{Countable K} {V : Type} : gmap K V -> list (K * V);
}.

Class MapOrderLaws `{MapOrder} := {
  range_permutation {K : Type} `{Countable K} {V : Type} (m : gmap K V) : range m ≡ₚ map_to_list m;
}.

#[export] Instance stored_order : MapOrder := { range K _ _ V m := map_to_list m }.
#[export] Instance stored_order_laws : MapOrderLaws.
Proof. by constructor. Qed.

(** The reverse, to compare two orders. *)
Definition reversed_order : MapOrder := {| range K _ _ V m := rev (map_to_list m) |}.
Lemma reversed_order_laws : @MapOrderLaws reversed_order.
Proof. constructor. intros. simpl. symmetry. apply Permutation_rev. Qed.
