(* ===== verification/Ch341.v ===== *)
(** * The CH341 transport

    [internal/transport/ch341.go]: sessions on a USB device, bulk transfers, the
    execution of an encoded stream, the classification of USB errors, the list
    of USB devices.  The transport's state is a record; its operations are [IO]
    programs on it, for one caller at a time.  [Ch341Steps] has the two mutexes
    and any number of callers. *)

From S2P Require Import Prelude Errors Stream Encoder Config Effects Usb.

Open Scope string_scope.
Open Scope list_scope.
Open Scope Z_scope.
Open Scope go_scope.

(** ** Constants and data *)

Definition defaultTransferTimeout : Z := Second.
Definition responseQuietTimeout : Z := 25 * Millisecond.
Definition selectToReadGap : Z := 5 * Millisecond.
Definition maxUSBPacketBytes : Z := 32.

Record ch341Session := MkSession {
  session_device : device;
  session_config : usb_config;
  session_iface : usb_interface;
  session_input : in_endpoint;
  session_output : out_endpoint;
  identity : string;
}.

(** [E] is the state of the USB library and of the clock. *)
Record Ch341Transport (E : Type) := MkCh341 {
  context : E;
  usbIDs : list USBID;
  i2c_speed : Z;
  session : option ch341Session;
  closed : bool;
}.
Arguments MkCh341 {E} _ _ _ _ _.
Arguments context {E} _.
Arguments usbIDs {E} _.
Arguments i2c_speed {E} _.
Arguments session {E} _.
Arguments closed {E} _.

Record USBDeviceInfo := MkDeviceInfo {
  info_Bus : Z;
  info_Device : Z;
  info_Vendor : string;
  info_ProductID : string;
  Manufacturer : string;
  info_Product : string;
  info_Speed : string;
  info_Class : Z;
  Candidate : bool;
}.

Record USBStatus := MkUSBStatus {
  State : string;
  Reason : string;
  VIDPID : string;
  Devices : list USBDeviceInfo;
}.

(** ** Errors *)

Definition transport_error (kind : TransportErrorKind) (operation msg : string) : goerror :=
  TransportError kind operation (Some (ErrorString msg)).

Definition usb_kind (e : usb_error) : TransportErrorKind :=
  match e with
  | UsbErrorAccess => ErrorPermission
  | UsbErrorBusy => ErrorBusy
  | UsbErrorNoDevice | UsbErrorNotFound => ErrorDeviceMissing
  | UsbErrorTimeout => ErrorTimeout
  | UsbErrorInvalidParam => ErrorInvalidRequest
  | UsbErrorPipe | UsbErrorOverflow => ErrorProtocol
  | UsbErrorOther _ => ErrorIO
  end.

Definition classify_kind (err : goerror) : TransportErrorKind :=
  let status := errors_As as_status err in
  if errors_Is err DeadlineExceeded then ErrorTimeout
  else
    match status with
    | Some TransferTimedOut | Some TransferCancelled => ErrorTimeout
    | Some TransferNoDevice => ErrorDeviceMissing
    | Some TransferStall | Some TransferOverflow => ErrorProtocol
    | _ =>
        match errors_As as_usb err with
        | Some usbError => usb_kind usbError
        | None => ErrorIO
        end
    end.

Definition classifyUSBError (operation : string) (err : goerror) : goerror :=
  TransportError (classify_kind err) operation (Some err).

Definition isTimeout (err : goerror) : bool :=
  transport_IsKind (classifyUSBError "timeout check" err) ErrorTimeout.

Definition shouldInvalidateSession (err : goerror) : bool :=
  transport_IsKind err ErrorDeviceMissing || transport_IsKind err ErrorIO || transport_IsKind err ErrorProtocol.

(** [int64] arithmetic, which cannot overflow for transactions the encoder
    accepts. *)
Definition minimumTransferTimeout (writeLength readLength speed : Z) : Z :=
  let transactionOverheadBytes := 8 in
  let bitsPerI2CByte := 9 in
  let bitsPerSecond := speed * 1000 in
  let bytesOnWire := writeLength + readLength + transactionOverheadBytes in
  let wire := Z.quot (bytesOnWire * bitsPerI2CByte * Second + bitsPerSecond - 1) bitsPerSecond in
  Z.max defaultTransferTimeout (wire + defaultTransferTimeout).

(** ** Descriptors *)

(** The endpoints loop; [-1] stands for none yet. *)
Fixpoint scan_endpoints (endpoints : list EndpointDesc) (input output : Z) : Z * Z :=
  match endpoints with
  | [] => (input, output)
  | endpoint :: endpoints =>
      match endpoint_TransferType endpoint with
      | TransferTypeOther _ => scan_endpoints endpoints input output
      | TransferTypeBulk =>
          match endpoint_Direction endpoint with
          | EndpointDirectionIn =>
              scan_endpoints endpoints (if input <? 0 then endpoint_Number endpoint else input) output
          | EndpointDirectionOut =>
              scan_endpoints endpoints input (if output <? 0 then endpoint_Number endpoint else output)
          end
      end
  end.

Record endpoints_found := MkFound {
  configNumber : Z;
  interfaceNumber : Z;
  alternate : Z;
  inputNumber : Z;
  outputNumber : Z;
}.

(** The first result of [f] on a list, as nested loops that return give it. *)
Fixpoint first_found {A B} (f : A -> option B) (l : list A) : option B :=
  match l with
  | [] => None
  | a :: l => match f a with Some b => Some b | None => first_found f l end
  end.

Section Descriptors.
Context `{MapOrder}.

Definition scan_setting (number : Z) (setting : InterfaceSetting) : option endpoints_found :=
  let '(input, output) := scan_endpoints (map snd (range (Endpoints setting))) (-1) (-1) in
  if (0 <=? input) && (0 <=? output)
  then Some (MkFound number (setting_Number setting) (setting_Alternate setting) input output)
  else None.

Definition findBulkEndpoints (desc : DeviceDesc) : option endpoints_found :=
  let configNumbers := merge_sort Z.le (map fst (range (Configs desc))) in
  first_found (fun number =>
    match Configs desc !! number with
    | Some usbConfig => first_found (first_found (scan_setting number)) usbConfig
    | None => None
    end) configNumbers.
End Descriptors.

(** ** Programs on the transport *)

Section Transport.
Context {E : Type} `{Clock E, Gousb E, MapOrder, GousbText}.

Abbreviation T := (Ch341Transport E).

Definition set_context (e : E) (t : T) : T := MkCh341 e (usbIDs t) (i2c_speed t) (session t) (closed t).
Definition set_session (s : option ch341Session) (t : T) : T :=
  MkCh341 (context t) (usbIDs t) (i2c_speed t) s (closed t).
Definition set_closed (t : T) : T := MkCh341 (context t) (usbIDs t) (i2c_speed t) (session t) true.

(** A call of the library, and one that may fail. *)
Definition usb {A} (f : E -> A * E) : IO T A := fun t =>
  let '(a, e) := f (context t) in Some (Ok a, set_context e t).
Definition usb_try {A} (f : E -> result A * E) : IO T (result A) := usb f.
Definition usb_do (f : E -> E) : IO T () := io_effect (fun t => set_context (f (context t)) t).

#[export] Instance ch341_clock : Clock T := {
  now t := now (context t);
  sleep d t := set_context (sleep d (context t)) t;
}.

(** *** Bulk transfers *)

Definition bulkWrite (endpoint : out_endpoint) (data : list Z) (timeout : Z) : IO T () :=
  outcome <-- usb (WriteContext endpoint timeout data) ;;
  match outcome with
  | (_, Some err) => io_fail (classifyUSBError "CH341 bulk write" err)
  | (transferred, None) =>
      if negb (transferred =? len data)
      then io_fail (transport_error ErrorProtocol "CH341 bulk write"
             ("transferred " +:+ fmt_d transferred +:+ " of " +:+ fmt_d (len data) +:+ " bytes"))
      else io_ret ()
  end.

(** Every round but the last adds at least one byte. *)
Fixpoint bulk_read_loop (fuel : nat) (endpoint : in_endpoint)
    (maxLength packetSize firstPacketTimeout quietTimeout : Z) (allowEmpty : bool) (data : list Z)
    : IO T (list Z) :=
  match fuel with
  | O => io_must None
  | S fuel =>
      if len data <? maxLength then
        let size := Z.min (maxLength - len data) packetSize in
        let timeout := if len data =? 0 then firstPacketTimeout else quietTimeout in
        outcome <-- usb (ReadContext endpoint timeout size) ;;
        match outcome with
        | (_, _, Some err) =>
            if ((0 <? len data) || allowEmpty) && isTimeout err then io_ret data
            else io_fail (classifyUSBError "CH341 bulk read" err)
        | (buffer, transferred, None) =>
            if transferred <=? 0 then
              if (0 <? len data) || allowEmpty then io_ret data
              else io_fail (transport_error ErrorDeviceMissing "CH341 bulk read" "returned no data")
            else
              received <-- io_must (if transferred <=? len buffer then Some (slice 0 transferred buffer) else None) ;;
              bulk_read_loop fuel endpoint maxLength packetSize firstPacketTimeout quietTimeout allowEmpty
                (data ++ received)
        end
      else io_ret data
  end.

Definition bulkReadAtMost (endpoint : in_endpoint) (maxLength firstPacketTimeout quietTimeout : Z)
    (allowEmpty : bool) : IO T (list Z) :=
  if maxLength =? 0 then io_ret []
  else
    let packetSize := Z.min (Z.max (MaxPacketSize endpoint) 1) maxUSBPacketBytes in
    bulk_read_loop (S (Z.to_nat maxLength)) endpoint maxLength packetSize firstPacketTimeout quietTimeout
      allowEmpty [].

(** *** [execute] *)

(** The response to one segment. *)
Definition read_response (s : ch341Session) (writtenBytes dataBytes timeout : Z) : IO T (list Z) :=
  if 0 <? writtenBytes + dataBytes then
    let firstTimeout := if 0 <? dataBytes then timeout else responseQuietTimeout in
    received <-- bulkReadAtMost (session_input s) (writtenBytes + dataBytes) firstTimeout
                   responseQuietTimeout (dataBytes =? 0) ;;
    if len received <? dataBytes then
      io_fail (transport_error ErrorDeviceMissing "read CH341 stream response"
        ("answered " +:+ fmt_d (len received) +:+ " bytes; expected " +:+ fmt_d dataBytes +:+ " data bytes"))
    else
      let dataStart := len received - dataBytes in
      match checkStatusBytes (slice 0 dataStart received) with
      | Some err => io_fail err
      | None => io_ret (slice dataStart (len received) received)
      end
  else io_ret [].

Definition execute_segment (s : ch341Session) (segment : list Z) (timeout : Z) : IO T (list Z) :=
  bulkWrite (session_output s) segment timeout ;;;
  match instructionLengths segment with
  | Err err => io_fail err
  | Ok (writtenBytes, dataBytes) => read_response s writtenBytes dataBytes timeout
  end.

(** Every round sends at least one byte of the stream. *)
Fixpoint execute_loop (fuel : nat) (s : ch341Session) (stream : list Z) (timeout offset : Z) (response : list Z)
    : IO T (list Z) :=
  match fuel with
  | O => io_must None
  | S fuel =>
      if offset <? len stream then
        let stop := Z.min (offset + maxStreamPacketBytes) (len stream) in
        received <-- execute_segment s (slice offset stop stream) timeout ;;
        execute_loop fuel s stream timeout stop (response ++ received)
      else io_ret response
  end.

Definition execute (s : ch341Session) (stream : list Z) (writeLength readLength : Z) : IO T (list Z) :=
  speed <-- io_read i2c_speed ;;
  match encodeConfiguration speed with
  | Err err => io_fail err
  | Ok configuration =>
      let timeout := minimumTransferTimeout writeLength readLength speed in
      bulkWrite (session_output s) configuration timeout ;;;
      (if (writeLength =? 0) && (0 <? readLength) then io_effect (sleep selectToReadGap) else io_ret ()) ;;;
      response <-- execute_loop (S (length stream)) s stream timeout 0 [] ;;
      if negb (len response =? readLength)
      then io_fail (transport_error ErrorProtocol "CH341 transaction"
             ("returned " +:+ fmt_d (len response) +:+ " bytes; expected " +:+ fmt_d readLength))
      else io_ret response
  end.

(** *** Sessions *)

(** [ch341Session.close]; the interface's close has no result. *)
Definition session_close (s : ch341Session) : IO T (option goerror) :=
  usb_do (interface_Close (session_iface s)) ;;;
  configError <-- usb (config_Close (session_config s)) ;;
  deviceError <-- usb (device_Close (session_device s)) ;;
  io_ret (match configError with Some err => Some err | None => deviceError end).

(** Gives back what was claimed after a failure, and fails. *)
Definition abandon {A} (iface : option usb_interface) (usbConfig : usb_config) (err : goerror) : IO T A :=
  (match iface with Some iface => usb_do (interface_Close iface) | None => io_ret () end) ;;;
  usb (config_Close usbConfig) ;;;
  io_fail err.

Definition openSession (d : device) (ident : string) : IO T ch341Session :=
  match findBulkEndpoints (Desc d) with
  | None => io_fail (transport_error ErrorProtocol "open CH341" "no USB interface has both bulk IN and OUT endpoints")
  | Some found =>
      configured <-- usb_try (device_Config d (configNumber found)) ;;
      match configured with
      | Err err => io_fail (classifyUSBError "claim CH341 configuration" err)
      | Ok usbConfig =>
          claimed <-- usb_try (config_Interface usbConfig (interfaceNumber found) (alternate found)) ;;
          match claimed with
          | Err err => abandon None usbConfig (classifyUSBError "claim CH341 interface" err)
          | Ok iface =>
              opened <-- usb_try (interface_InEndpoint iface (inputNumber found)) ;;
              match opened with
              | Err err => abandon (Some iface) usbConfig
                             (TransportError ErrorProtocol "open CH341 input endpoint" (Some err))
              | Ok input =>
                  opened <-- usb_try (interface_OutEndpoint iface (outputNumber found)) ;;
                  match opened with
                  | Err err => abandon (Some iface) usbConfig
                                 (TransportError ErrorProtocol "open CH341 output endpoint" (Some err))
                  | Ok output => io_ret (MkSession d usbConfig iface input output ident)
                  end
              end
          end
      end
  end.

Definition no_device : goerror := transport_error ErrorDeviceMissing "open CH341" "no matching USB device".

(** The loop over [t.usbIDs], with [lastError]. *)
Fixpoint open_first (ids : list USBID) (lastError : option goerror) : IO T ch341Session :=
  match ids with
  | [] => io_fail (match lastError with Some err => err | None => no_device end)
  | id :: ids =>
      opened <-- usb_try (OpenDeviceWithVIDPID (Vendor id) (Product id)) ;;
      match opened with
      | Err err => open_first ids (Some (classifyUSBError ("open CH341 " +:+ usbid_String id) err))
      | Ok None => open_first ids lastError
      | Ok (Some d) =>
          s <-- io_try (openSession d (usbid_String id)) ;;
          match s with
          | Err err => usb (device_Close d) ;;; open_first ids (Some err)
          | Ok s => io_effect (set_session (Some s)) ;;; io_ret s
          end
      end
  end.

Definition ensureSessionLocked : IO T ch341Session :=
  current <-- io_read session ;;
  match current with
  | Some s => io_ret s
  | None => ids <-- io_read usbIDs ;; open_first ids None
  end.

Definition currentSession : IO T ch341Session :=
  is_closed <-- io_read closed ;;
  if is_closed : bool then io_fail (transport_error ErrorDeviceMissing "open CH341" "USB context is closed")
  else ensureSessionLocked.

(** Two sessions are the same pointer when they have the same device handle:
    a handle is given to one session only. *)
Definition same_session (a b : ch341Session) : bool :=
  Nat.eqb (dev_handle (session_device a)) (dev_handle (session_device b)).

Definition invalidateSession (s : ch341Session) : IO T () :=
  current <-- io_read session ;;
  match current with
  | Some current =>
      if same_session current s then session_close current ;;; io_effect (set_session None) else io_ret ()
  | None => io_ret ()
  end.

(** *** The operations of the interface *)

Definition transact (address7Bit : Z) (writeData : list Z) (readLength : Z) : IO T (list Z) :=
  match encodeTransaction address7Bit writeData readLength with
  | Err err => io_fail err
  | Ok stream =>
      s <-- currentSession ;;
      response <-- io_try (execute s stream (len writeData) readLength) ;;
      match response with
      | Ok response => io_ret response
      | Err err =>
          (if shouldInvalidateSession err then invalidateSession s else io_ret ()) ;;;
          io_fail err
      end
  end.

Definition Close : IO T (option goerror) :=
  is_closed <-- io_read closed ;;
  if is_closed : bool then io_ret None
  else
    io_effect set_closed ;;;
    current <-- io_read session ;;
    closeError <-- match current with
                   | Some s =>
                       closeError <-- session_close s ;;
                       io_effect (set_session None) ;;;
                       io_ret closeError
                   | None => io_ret None
                   end ;;
    err <-- usb context_Close ;;
    io_ret (match closeError with Some err => Some err | None => err end).

(** *** The USB devices *)

Definition matches (t : T) (vendor product : Z) : bool :=
  existsb (fun id => (Vendor id =? vendor) && (Product id =? product)) (usbIDs t).

Definition usbDeviceKey (bus address : Z) : string := fmt_d bus +:+ ":" +:+ fmt_d address.

Definition device_info (t : T) (desc : DeviceDesc) : USBDeviceInfo :=
  MkDeviceInfo (desc_Bus desc) (desc_Address desc) (fmt_hex 4 (desc_Vendor desc)) (fmt_hex 4 (desc_Product desc))
    "" "" (desc_Speed desc) (desc_Class desc) (matches t (desc_Vendor desc) (desc_Product desc)).

Definition set_strings (manufacturer product : string) (i : USBDeviceInfo) : USBDeviceInfo :=
  MkDeviceInfo (info_Bus i) (info_Device i) (info_Vendor i) (info_ProductID i) manufacturer product
    (info_Speed i) (info_Class i) (Candidate i).

Definition desc_key (desc : DeviceDesc) : string := usbDeviceKey (desc_Bus desc) (desc_Address desc).

(** A string descriptor that cannot be read is empty. *)
Definition or_empty (r : result string) : string := match r with Ok s => s | Err _ => "" end.

Fixpoint read_strings (devices : list device) (descriptors : gmap string USBDeviceInfo)
    : IO T (gmap string USBDeviceInfo) :=
  match devices with
  | [] => io_ret descriptors
  | d :: devices =>
      let key := desc_key (Desc d) in
      descriptors <--
        match descriptors !! key with
        | Some info =>
            manufacturer <-- usb_try (device_Manufacturer d) ;;
            product <-- usb_try (device_Product d) ;;
            io_ret (<[key := set_strings (or_empty manufacturer) (or_empty product) info]> descriptors)
        | None => io_ret descriptors
        end ;;
      usb (device_Close d) ;;;
      read_strings devices descriptors
  end.

(** The order [sort.Slice] sorts by. *)
Definition info_less (a b : USBDeviceInfo) : bool :=
  if negb (info_Bus a =? info_Bus b) then info_Bus a <? info_Bus b else info_Device a <? info_Device b.
Definition info_le (a b : USBDeviceInfo) : Prop := info_less b a = false.

#[export] Instance info_le_dec : RelDecision info_le.
Proof. intros a b. unfold info_le. solve_decision. Defined.

(** The [descriptors] map: every device, with strings where one was opened. *)
Definition describe_devices (includeDeviceStrings : bool) : IO T (gmap string USBDeviceInfo) :=
  t <-- io_read id ;;
  opened <-- usb (OpenDevices (fun _ => includeDeviceStrings)) ;;
  let '(descs, devices) := opened in
  read_strings devices (foldl (fun m desc => <[desc_key desc := device_info t desc]> m) ∅ descs).

Definition list_devices (descriptors : gmap string USBDeviceInfo) : list USBDeviceInfo * bool :=
  let infos := map snd (range descriptors) in
  (merge_sort info_le infos, existsb Candidate infos).

Definition enumerateUSB (includeDeviceStrings : bool) : IO T (list USBDeviceInfo * bool) :=
  descriptors <-- describe_devices includeDeviceStrings ;;
  io_ret (list_devices descriptors).

(** [InspectUSB] after the enumeration, with [sessionMu] held. *)
Definition inspect_session (found : list USBDeviceInfo * bool) : IO T USBStatus :=
  let '(devices, candidateFound) := found in
  if negb candidateFound then io_ret (MkUSBStatus "missing" "no matching USB device" "" devices)
  else
    is_closed <-- io_read closed ;;
    if is_closed : bool then io_ret (MkUSBStatus "error" "USB context is closed" "" devices)
    else
      s <-- io_try ensureSessionLocked ;;
      match s with
      | Err err => io_ret (MkUSBStatus "error" (error_text err) "" devices)
      | Ok s => io_ret (MkUSBStatus "ready" "" (identity s) devices)
      end.

Definition InspectUSB (includeDeviceStrings : bool) : IO T USBStatus :=
  found <-- enumerateUSB includeDeviceStrings ;;
  inspect_session found.
End Transport.

(** [NewCh341]; [e] is the state of the context that [gousb.NewContext] has made
    (it panics where libusb cannot be initialised, which is not modelled). *)
Definition NewCh341 {E} (e : E) (usbIDs : list USBID) (speed : Z) : result (Ch341Transport E) :=
  if len usbIDs =? 0 then Err (ErrorString "at least one CH341 USB identity is required")
  else
    match speed_command speed with
    | Err err => Err err
    | Ok _ => Ok (MkCh341 e usbIDs speed None false)
    end.
