(* ===== verification/Ch341Prog.v ===== *)
(** * The transport's code, call by call

    The same functions as in [Ch341] as trees of library calls: a program is done,
    or makes one call of [gousb] (or pauses) and goes on with its result.  Running
    a tree without interruption is the function of [Ch341]; [Ch341Steps] takes one
    call at a time, so that other goroutines and the device act in between. *)

From S2P Require Import Prelude Errors Stream Encoder Config Effects Usb Ch341.

Open Scope string_scope.
Open Scope list_scope.
Open Scope Z_scope.
Open Scope go_scope.

(** [PPanic] is where the Go code would panic, or a loop's bound is exhausted. *)
Inductive usb_prog (E A : Type) : Type :=
  | PDone (r : result A)
  | PCall (X : Type) (f : E -> X * E) (k : X -> usb_prog E A)
  | PPanic.
Arguments PDone {E A} r.
Arguments PCall {E A X} f k.
Arguments PPanic {E A}.

Fixpoint prog_bind {E A B} (m : usb_prog E A) (f : A -> usb_prog E B) : usb_prog E B :=
  match m with
  | PDone (Ok a) => f a
  | PDone (Err err) => PDone (Err err)
  | PCall g k => PCall g (fun x => prog_bind (k x) f)
  | PPanic => PPanic
  end.

Notation "x <~~ m ;; k" := (prog_bind m (fun x => k))
  (at level 20, m at level 99, k at level 200) : go_scope.
Notation "m ~;; k" := (prog_bind m (fun _ => k))
  (at level 100, k at level 200, right associativity) : go_scope.

Definition prog_ret {E A} (a : A) : usb_prog E A := PDone (Ok a).
Definition prog_fail {E A} (err : goerror) : usb_prog E A := PDone (Err err).
Definition prog_call {E X} (f : E -> X * E) : usb_prog E X := PCall f prog_ret.
Definition prog_must {E A} (o : option A) : usb_prog E A :=
  match o with Some a => prog_ret a | None => PPanic end.

Section Programs.
Context {E : Type} `{Clock E, Gousb E, MapOrder, GousbText}.

(** ** [execute] *)

Definition bulkWrite_calls (endpoint : out_endpoint) (data : list Z) (timeout : Z) : usb_prog E () :=
  outcome <~~ prog_call (WriteContext endpoint timeout data) ;;
  match outcome with
  | (_, Some err) => prog_fail (classifyUSBError "CH341 bulk write" err)
  | (transferred, None) =>
      if negb (transferred =? len data)
      then prog_fail (transport_error ErrorProtocol "CH341 bulk write"
             ("transferred " +:+ fmt_d transferred +:+ " of " +:+ fmt_d (len data) +:+ " bytes"))
      else prog_ret ()
  end.

Fixpoint bulk_read_calls (fuel : nat) (endpoint : in_endpoint)
    (maxLength packetSize firstPacketTimeout quietTimeout : Z) (allowEmpty : bool) (data : list Z)
    : usb_prog E (list Z) :=
  match fuel with
  | O => PPanic
  | S fuel =>
      if len data <? maxLength then
        let size := Z.min (maxLength - len data) packetSize in
        let timeout := if len data =? 0 then firstPacketTimeout else quietTimeout in
        outcome <~~ prog_call (ReadContext endpoint timeout size) ;;
        match outcome with
        | (_, _, Some err) =>
            if ((0 <? len data) || allowEmpty) && isTimeout err then prog_ret data
            else prog_fail (classifyUSBError "CH341 bulk read" err)
        | (buffer, transferred, None) =>
            if transferred <=? 0 then
              if (0 <? len data) || allowEmpty then prog_ret data
              else prog_fail (transport_error ErrorDeviceMissing "CH341 bulk read" "returned no data")
            else
              received <~~ prog_must (if transferred <=? len buffer then Some (slice 0 transferred buffer) else None) ;;
              bulk_read_calls fuel endpoint maxLength packetSize firstPacketTimeout quietTimeout allowEmpty
                (data ++ received)
        end
      else prog_ret data
  end.

Definition bulkReadAtMost_calls (endpoint : in_endpoint) (maxLength firstPacketTimeout quietTimeout : Z)
    (allowEmpty : bool) : usb_prog E (list Z) :=
  if maxLength =? 0 then prog_ret []
  else
    let packetSize := Z.min (Z.max (MaxPacketSize endpoint) 1) maxUSBPacketBytes in
    bulk_read_calls (S (Z.to_nat maxLength)) endpoint maxLength packetSize firstPacketTimeout quietTimeout
      allowEmpty [].

Definition read_response_calls (s : ch341Session) (writtenBytes dataBytes timeout : Z) : usb_prog E (list Z) :=
  if 0 <? writtenBytes + dataBytes then
    let firstTimeout := if 0 <? dataBytes then timeout else responseQuietTimeout in
    received <~~ bulkReadAtMost_calls (session_input s) (writtenBytes + dataBytes) firstTimeout
                   responseQuietTimeout (dataBytes =? 0) ;;
    if len received <? dataBytes then
      prog_fail (transport_error ErrorDeviceMissing "read CH341 stream response"
        ("answered " +:+ fmt_d (len received) +:+ " bytes; expected " +:+ fmt_d dataBytes +:+ " data bytes"))
    else
      let dataStart := len received - dataBytes in
      match checkStatusBytes (slice 0 dataStart received) with
      | Some err => prog_fail err
      | None => prog_ret (slice dataStart (len received) received)
      end
  else prog_ret [].

Definition execute_segment_calls (s : ch341Session) (segment : list Z) (timeout : Z) : usb_prog E (list Z) :=
  bulkWrite_calls (session_output s) segment timeout ~;;
  match instructionLengths segment with
  | Err err => prog_fail err
  | Ok (writtenBytes, dataBytes) => read_response_calls s writtenBytes dataBytes timeout
  end.

Fixpoint execute_loop_calls (fuel : nat) (s : ch341Session) (stream : list Z) (timeout offset : Z)
    (response : list Z) : usb_prog E (list Z) :=
  match fuel with
  | O => PPanic
  | S fuel =>
      if offset <? len stream then
        let stop := Z.min (offset + maxStreamPacketBytes) (len stream) in
        received <~~ execute_segment_calls s (slice offset stop stream) timeout ;;
        execute_loop_calls fuel s stream timeout stop (response ++ received)
      else prog_ret response
  end.

Definition sleep_call (d : Z) : usb_prog E () := prog_call (fun e => ((), sleep d e)).

(** [speed] is the transport's. *)
Definition execute_calls (speed : Z) (s : ch341Session) (stream : list Z) (writeLength readLength : Z)
    : usb_prog E (list Z) :=
  match encodeConfiguration speed with
  | Err err => prog_fail err
  | Ok configuration =>
      let timeout := minimumTransferTimeout writeLength readLength speed in
      bulkWrite_calls (session_output s) configuration timeout ~;;
      (if (writeLength =? 0) && (0 <? readLength) then sleep_call selectToReadGap else prog_ret ()) ~;;
      response <~~ execute_loop_calls (S (length stream)) s stream timeout 0 [] ;;
      if negb (len response =? readLength)
      then prog_fail (transport_error ErrorProtocol "CH341 transaction"
             ("returned " +:+ fmt_d (len response) +:+ " bytes; expected " +:+ fmt_d readLength))
      else prog_ret response
  end.

(** ** [enumerateUSB]: the devices that match are those of [t]'s identities *)

Fixpoint read_strings_calls (devices : list device) (descriptors : gmap string USBDeviceInfo)
    : usb_prog E (gmap string USBDeviceInfo) :=
  match devices with
  | [] => prog_ret descriptors
  | d :: devices =>
      let key := desc_key (Desc d) in
      descriptors <~~
        match descriptors !! key with
        | Some info =>
            manufacturer <~~ prog_call (device_Manufacturer d) ;;
            product <~~ prog_call (device_Product d) ;;
            prog_ret (<[key := set_strings (or_empty manufacturer) (or_empty product) info]> descriptors)
        | None => prog_ret descriptors
        end ;;
      prog_call (device_Close d) ~;;
      read_strings_calls devices descriptors
  end.

Definition describe_devices_calls (t : Ch341Transport E) (includeDeviceStrings : bool)
    : usb_prog E (gmap string USBDeviceInfo) :=
  opened <~~ prog_call (OpenDevices (fun _ => includeDeviceStrings)) ;;
  let '(descs, devices) := opened in
  read_strings_calls devices (foldl (fun m desc => <[desc_key desc := device_info t desc]> m) ∅ descs).

Definition enumerateUSB_calls (t : Ch341Transport E) (includeDeviceStrings : bool)
    : usb_prog E (list USBDeviceInfo * bool) :=
  descriptors <~~ describe_devices_calls t includeDeviceStrings ;;
  prog_ret (list_devices descriptors).

(** ** A run without interruption *)

Fixpoint prog_run {A} (m : usb_prog E A) : IO (Ch341Transport E) A := fun t =>
  match m with
  | PDone r => Some (r, t)
  | PCall f k => let '(x, e) := f (context t) in prog_run (k x) (set_context e t)
  | PPanic => None
  end.

Lemma prog_run_bind {A B} (m : usb_prog E A) (f : A -> usb_prog E B) t :
  prog_run (prog_bind m f) t = io_bind (prog_run m) (fun a => prog_run (f a)) t.
Proof.
  revert t. induction m as [[a|err]|X g k IH|]; intros t; cbn; [done..| |done].
  unfold io_bind. cbn. destruct (g (context t)) as [x e]. apply IH.
Qed.

(** A tree for a function. *)
Definition runs {A} (m : usb_prog E A) (io : IO (Ch341Transport E) A) : Prop := forall t, prog_run m t = io t.

Lemma runs_ret {A} (a : A) : runs (prog_ret a) (io_ret a).
Proof. done. Qed.

Lemma runs_fail {A} err : runs (A := A) (prog_fail err) (io_fail err).
Proof. done. Qed.

Lemma runs_must {A} (o : option A) : runs (prog_must o) (io_must o).
Proof. by destruct o. Qed.

Lemma runs_call {X} (f : E -> X * E) : runs (prog_call f) (usb f).
Proof. done. Qed.

Lemma runs_bind {A B} (m : usb_prog E A) io (f : A -> usb_prog E B) g :
  runs m io -> (forall a, runs (f a) (g a)) -> runs (prog_bind m f) (io_bind io g).
Proof.
  intros Hm Hf t. rewrite prog_run_bind. unfold io_bind. rewrite Hm.
  destruct (io t) as [[[a|err] t']|]; [apply Hf|done..].
Qed.

Lemma runs_if {A} (b : bool) (m1 m2 : usb_prog E A) io1 io2 :
  runs m1 io1 -> runs m2 io2 -> runs (if b then m1 else m2) (if b then io1 else io2).
Proof. by destruct b. Qed.

Create HintDb runs.
#[local] Hint Resolve runs_ret runs_fail runs_must runs_call runs_bind runs_if : runs.

Lemma bulkWrite_runs endpoint data timeout :
  runs (bulkWrite_calls endpoint data timeout) (bulkWrite endpoint data timeout).
Proof. apply runs_bind; [apply runs_call|]. intros [k [err|]]; auto with runs. Qed.

Lemma bulk_read_runs fuel endpoint maxLength packetSize first quietT allowEmpty : forall data,
  runs (bulk_read_calls fuel endpoint maxLength packetSize first quietT allowEmpty data)
       (bulk_read_loop fuel endpoint maxLength packetSize first quietT allowEmpty data).
Proof.
  induction fuel as [|fuel IH]; intros data; cbn [bulk_read_calls bulk_read_loop]; [done|].
  apply runs_if; [|apply runs_ret]. apply runs_bind; [apply runs_call|].
  intros [[buffer k] [err|]]; [auto with runs|].
  apply runs_if; [auto with runs|]. apply runs_bind; [apply runs_must|intros received; apply IH].
Qed.

Lemma read_response_runs s w d timeout :
  runs (read_response_calls s w d timeout) (read_response s w d timeout).
Proof.
  apply runs_if; [|apply runs_ret]. apply runs_bind.
  - apply runs_if; [apply runs_ret|apply bulk_read_runs].
  - intros received. apply runs_if; [apply runs_fail|]. cbv zeta. destruct (checkStatusBytes _); auto with runs.
Qed.

Lemma execute_loop_runs fuel s stream timeout : forall offset response,
  runs (execute_loop_calls fuel s stream timeout offset response)
       (execute_loop fuel s stream timeout offset response).
Proof.
  induction fuel as [|fuel IH]; intros offset response; cbn [execute_loop_calls execute_loop]; [done|].
  apply runs_if; [|apply runs_ret]. apply runs_bind; [|intros received; apply IH].
  apply runs_bind; [apply bulkWrite_runs|intros _].
  destruct (instructionLengths _) as [[w d]|err]; [apply read_response_runs|apply runs_fail].
Qed.

Lemma sleep_runs d : runs (sleep_call d) (io_effect (sleep d)).
Proof. done. Qed.

Lemma execute_runs s stream w n t :
  prog_run (execute_calls (i2c_speed t) s stream w n) t = execute s stream w n t.
Proof.
  unfold execute, execute_calls. erewrite io_bind_ok; [|reflexivity].
  generalize (i2c_speed t) as speed. intros speed. revert t.
  destruct (encodeConfiguration speed) as [configuration|err]; [|done].
  apply runs_bind; [apply bulkWrite_runs|intros _].
  apply runs_bind; [apply runs_if; [apply sleep_runs|apply runs_ret]|intros _].
  apply runs_bind; [apply execute_loop_runs|intros response].
  apply runs_if; [apply runs_fail|apply runs_ret].
Qed.

Lemma read_strings_runs devices : forall m, runs (read_strings_calls devices m) (read_strings devices m).
Proof.
  induction devices as [|d devices IH]; intros m; cbn [read_strings_calls read_strings]; [apply runs_ret|].
  apply runs_bind; [destruct (m !! desc_key (Desc d)); auto 6 with runs|intros m'].
  apply runs_bind; [apply runs_call|intros _; apply IH].
Qed.

Lemma enumerateUSB_runs b t : prog_run (enumerateUSB_calls t b) t = enumerateUSB b t.
Proof.
  assert (Hd : runs (describe_devices_calls t b) (io_bind (usb (OpenDevices (fun _ => b)))
    (fun '(descs, devices) => read_strings devices
       (foldl (fun m desc => <[desc_key desc := device_info t desc]> m) ∅ descs)))).
  { apply runs_bind; [apply runs_call|]. intros [descs devices]. apply read_strings_runs. }
  unfold enumerateUSB_calls. rewrite prog_run_bind. unfold io_bind at 1. rewrite Hd. reflexivity.
Qed.
End Programs.
