(* ===== verification/Ch341Own.v ===== *)
(** * What the transport's programs do to the USB handles, call by call

    [owns ds H]: among the open handles [H], the devices [ds] are open and are
    nobody else's.  [does] follows a program's tree: each call either keeps the
    handles, opens devices, or closes the first of the program's own.  The calls
    may find any state of the library in which the program owns its devices, so
    that others may act between two of them. *)

From S2P Require Import Prelude Errors Stream Encoder Config Effects Usb Ch341 Ch341Prog.

Open Scope string_scope.
Open Scope list_scope.
Open Scope Z_scope.
Open Scope go_scope.

Definition device_handles (devs : list device) : gset handle := list_to_set (map device_handle devs).

Lemma elem_of_device_handles h devs : h ∈ device_handles devs <-> exists d, h = device_handle d /\ d ∈ devs.
Proof. unfold device_handles. rewrite elem_of_list_to_set. apply list_elem_of_fmap. Qed.

Definition owns (devs : list device) (H : gset handle) : Prop :=
  NoDup (map dev_handle devs) /\
  forall d, d ∈ devs -> device_handle d ∈ H /\
    forall h, h ∈ H -> handle_of_device h = dev_handle d -> h = device_handle d.

Inductive handover : list device -> gset handle -> list device -> gset handle -> Prop :=
  | handover_keep devs H : handover devs H devs H
  | handover_open devs H :
      NoDup (map dev_handle devs) ->
      (forall d h, d ∈ devs -> h ∈ H -> handle_of_device h <> dev_handle d) ->
      handover [] H devs (device_handles devs ∪ H)
  | handover_close d devs H : handover (d :: devs) H devs (H ∖ {[device_handle d]}).

Lemma owns_nil H : owns [] H.
Proof. split; [apply NoDup_nil_2|]. intros d Hd. by apply elem_of_nil in Hd. Qed.

(** The rest of the handles stays as it is. *)
Lemma handover_owns devs H devs' H' :
  owns devs H -> handover devs H devs' H' ->
  owns devs' H' /\ H' ∖ device_handles devs' = H ∖ device_handles devs.
Proof.
  intros [Hnd Hown] Hho. destruct Hho as [devs H|devs H Hnd' Hfresh|d devs H].
  - by split.
  - split; [split; [done|]|].
    + intros d Hd. split; [apply elem_of_union_l, elem_of_device_handles; by exists d|].
      intros h [(d' & -> & Hd')%elem_of_device_handles|Hh]%elem_of_union Heq.
      * unfold device_handle. cbn in Heq. by rewrite Heq.
      * by destruct (Hfresh d h Hd Hh).
    + assert (forall h, h ∈ device_handles devs -> h ∉ H).
      { intros h (d & -> & Hd)%elem_of_device_handles Hin. by apply (Hfresh d _ Hd Hin). }
      apply set_eq. intros h. specialize (H0 h). change (device_handles []) with (∅ : gset handle). set_solver.
  - cbn [map] in Hnd. apply NoDup_cons in Hnd as [Hnew Hnd]. split; [split; [done|]|].
    + intros d' Hd'. destruct (Hown d' (list_elem_of_further _ _ _ Hd')) as [Hin Hu]. split.
      * apply elem_of_difference. split; [done|]. intros [= Heq]%elem_of_singleton.
        apply Hnew. rewrite <- Heq. by apply list_elem_of_fmap_2.
      * intros h [Hh _]%elem_of_difference. by apply Hu.
    + change (device_handles (d :: devs)) with ({[device_handle d]} ∪ device_handles devs).
      by rewrite difference_difference_l_L.
Qed.

Section Own.
Context {E : Type} `{Clock E, Gousb E, UsbHandles E, !ClockLaws E, !GousbLaws E}.
Context `{MapOrder, GousbText}.

Abbreviation T := (Ch341Transport E).

Fixpoint does {A} (devs : list device) (m : usb_prog E A) (Q : result A -> list device -> Prop) : Prop :=
  match m with
  | PDone r => Q r devs
  | PCall f k => forall e, owns devs (handles e) ->
      now e <= now (f e).2 /\
      exists devs', handover devs (handles e) devs' (handles (f e).2) /\ does devs' (k (f e).1) Q
  | PPanic => False
  end.

Lemma does_mono {A} (m : usb_prog E A) (P Q : result A -> list device -> Prop) : forall devs,
  does devs m P -> (forall r devs', P r devs' -> Q r devs') -> does devs m Q.
Proof.
  induction m as [r|X f k IH|]; intros devs Hm HPQ; cbn in *; [by apply HPQ| |done].
  intros e He. destruct (Hm e He) as (? & devs' & ? & ?). split; [done|]. exists devs'. eauto.
Qed.

Lemma does_bind {A B} (m : usb_prog E A) (f : A -> usb_prog E B) (Q : result B -> list device -> Prop) :
  forall devs,
  does devs m (fun r devs' => match r with Ok a => does devs' (f a) Q | Err err => Q (Err err) devs' end) ->
  does devs (prog_bind m f) Q.
Proof.
  induction m as [[a|err]|X g k IH|]; intros devs Hm; cbn in *; [done..| |done].
  intros e He. destruct (Hm e He) as (? & devs' & ? & ?). split; [done|]. exists devs'. eauto.
Qed.

(** Run without interruption. *)
Lemma does_run {A} (m : usb_prog E A) Q : forall devs (t : T),
  does devs m Q -> owns devs (handles (context t)) ->
  wp (prog_run m) (fun r t' => exists e devs', t' = set_context e t /\ Q r devs' /\
    handles e ∖ device_handles devs' = handles (context t) ∖ device_handles devs) t.
Proof.
  induction m as [r|X f k IH|]; intros devs t Hm Hown; cbn [does prog_run] in *; [| |done].
  - exists r, t. split; [done|]. split; [lia|]. exists (context t), devs. by destruct t.
  - destruct (Hm (context t) Hown) as (Hle & devs' & Hho & Hk).
    destruct (handover_owns _ _ _ _ Hown Hho) as [Hown' Hrest].
    destruct (IH (f (context t)).1 devs' (set_context (f (context t)).2 t) Hk Hown')
      as (r & t' & Heq & Hle' & e & devs'' & -> & HQ & Hrest').
    exists r, (set_context e t). unfold wp. cbn [prog_run]. destruct (f (context t)) as [x e1]. cbn in *.
    split; [done|]. split; [lia|]. exists e, devs''. split_and!; [done|done|]. by rewrite Hrest', Hrest.
Qed.

(** ** Programs that only transfer data *)

Fixpoint quietly {A} (m : usb_prog E A) (P : A -> Prop) : Prop :=
  match m with
  | PDone r => match r with Ok a => P a | Err _ => True end
  | PCall f k => forall e, now e <= now (f e).2 /\ handles (f e).2 = handles e /\ quietly (k (f e).1) P
  | PPanic => False
  end.

Lemma quietly_does {A} (m : usb_prog E A) (P : A -> Prop) devs :
  quietly m P -> does devs m (fun r devs' => devs' = devs /\ match r with Ok a => P a | Err _ => True end).
Proof.
  induction m as [r|X f k IH|]; intros Hm; cbn in *; [by split| |done].
  intros e _. destruct (Hm e) as (? & -> & ?). split; [done|]. exists devs. split; [constructor|auto].
Qed.

Lemma quietly_ret {A} (a : A) (P : A -> Prop) : P a -> quietly (prog_ret a) P.
Proof. done. Qed.

Lemma quietly_fail {A} err (P : A -> Prop) : quietly (prog_fail err) P.
Proof. done. Qed.

Lemma quietly_call {X} (f : E -> X * E) (P : X -> Prop) :
  (forall e, now e <= now (f e).2 /\ handles (f e).2 = handles e /\ P (f e).1) -> quietly (prog_call f) P.
Proof. done. Qed.

Lemma quietly_mono {A} (m : usb_prog E A) (P Q : A -> Prop) :
  quietly m P -> (forall a, P a -> Q a) -> quietly m Q.
Proof.
  intros Hm HPQ. induction m as [[a|err]|X f k IH|]; cbn in *; [by apply HPQ|done| |done].
  intros e. destruct (Hm e) as (? & ? & ?). auto.
Qed.

Lemma quietly_bind {A B} (m : usb_prog E A) (f : A -> usb_prog E B) (P : A -> Prop) (Q : B -> Prop) :
  quietly m P -> (forall a, P a -> quietly (f a) Q) -> quietly (prog_bind m f) Q.
Proof.
  intros Hm Hf. induction m as [[a|err]|X g k IH|]; cbn in *; [by apply Hf|done| |done].
  intros e. destruct (Hm e) as (? & ? & ?). auto.
Qed.

Lemma bulkWrite_quiet endpoint data timeout : quietly (bulkWrite_calls endpoint data timeout) (fun _ => True).
Proof.
  eapply quietly_bind; [eapply (quietly_call _ (fun _ => True))|].
  - intros e. rewrite write_same. split; [apply write_clock|done].
  - intros [k [err|]] _; [apply quietly_fail|]. destruct (negb _); [apply quietly_fail|by apply quietly_ret].
Qed.

Lemma bulk_read_quiet fuel endpoint maxLength packetSize first quietT allowEmpty : forall data,
  1 <= packetSize -> len data <= maxLength -> maxLength - len data < Z.of_nat fuel ->
  quietly (bulk_read_calls fuel endpoint maxLength packetSize first quietT allowEmpty data)
    (fun data => len data <= maxLength).
Proof.
  induction fuel as [|fuel IH]; intros data Hps Hle Hfuel; [lia|]. cbn [bulk_read_calls].
  destruct (Z.ltb_spec (len data) maxLength); [|by apply quietly_ret].
  set (size := Z.min _ _).
  eapply quietly_bind; [eapply (quietly_call _ (fun o => len o.1.1 = size /\ o.1.2 <= size))|].
  - intros e. rewrite read_same. split; [apply read_clock|]. split; [done|].
    destruct (ReadContext endpoint _ size e) as [[[buffer k] err] e'] eqn:Hr.
    apply read_count in Hr; [done|]. lia.
  - intros [[buffer k] [err|]] [Hbuf Hk]; cbn [fst snd] in *.
    + destruct (_ && _); [by apply quietly_ret|apply quietly_fail].
    + destruct (Z.leb_spec k 0); [destruct (_ || _); [by apply quietly_ret|apply quietly_fail]|].
      destruct (Z.leb_spec k (len buffer)); [|lia].
      eapply (quietly_bind _ _ (fun r => len r = k)).
      * apply quietly_ret. rewrite len_slice by lia. lia.
      * intros r Hr. apply IH; [done|autorewrite with len; lia..].
Qed.

Lemma bulkReadAtMost_quiet endpoint maxLength first quietT allowEmpty :
  0 <= maxLength ->
  quietly (bulkReadAtMost_calls endpoint maxLength first quietT allowEmpty) (fun data => len data <= maxLength).
Proof.
  intros Hm. unfold bulkReadAtMost_calls. destruct (Z.eqb_spec maxLength 0) as [->|]; [by apply quietly_ret|].
  apply bulk_read_quiet; unfold maxUSBPacketBytes; autorewrite with len; lia.
Qed.

Lemma read_response_quiet s w d timeout :
  0 <= w -> 0 <= d -> quietly (read_response_calls s w d timeout) (fun data => len data = d).
Proof.
  intros Hw Hd. unfold read_response_calls. destruct (Z.ltb_spec 0 (w + d)).
  2: { apply quietly_ret. rewrite len_nil. lia. }
  eapply quietly_bind; [apply bulkReadAtMost_quiet; lia|]. intros received Hr. cbv beta in Hr.
  destruct (Z.ltb_spec (len received) d); [apply quietly_fail|].
  destruct (checkStatusBytes _); [apply quietly_fail|]. apply quietly_ret.
  rewrite len_slice; lia.
Qed.

Lemma execute_segment_quiet s segment timeout : quietly (execute_segment_calls s segment timeout) (fun _ => True).
Proof.
  eapply quietly_bind; [apply bulkWrite_quiet|]. intros _ _.
  destruct (instructionLengths segment) as [[w d]|err] eqn:Hl; [|apply quietly_fail].
  apply instructionLengths_nonneg in Hl as [Hw Hd].
  eapply quietly_mono; [by apply read_response_quiet|done].
Qed.

Lemma execute_loop_quiet fuel s stream timeout : forall offset response,
  0 <= offset <= len stream -> len stream - offset < Z.of_nat fuel ->
  quietly (execute_loop_calls fuel s stream timeout offset response) (fun _ => True).
Proof.
  induction fuel as [|fuel IH]; intros offset response Ho Hfuel; cbn [execute_loop_calls]; [lia|].
  destruct (Z.ltb_spec offset (len stream)); [|by apply quietly_ret].
  eapply quietly_bind; [apply execute_segment_quiet|]. intros received _.
  apply IH; unfold maxStreamPacketBytes; lia.
Qed.

Lemma execute_calls_quiet speed s stream w n :
  quietly (execute_calls speed s stream w n) (fun response => len response = n).
Proof.
  unfold execute_calls. destruct (encodeConfiguration speed) as [configuration|err]; [|apply quietly_fail].
  eapply quietly_bind; [apply bulkWrite_quiet|]. intros _ _.
  eapply (quietly_bind _ _ (fun _ => True)).
  { destruct (_ && _); [|by apply quietly_ret]. apply quietly_call. intros e. cbn. rewrite sleep_same.
    pose proof (sleep_advances selectToReadGap e ltac:(done)). change selectToReadGap with 5000000 in *.
    split_and!; [lia|done..]. }
  intros _ _. eapply quietly_bind; [apply execute_loop_quiet|].
  - split; [done|apply len_nonneg].
  - unfold len. lia.
  - intros response _. destruct (Z.eqb_spec (len response) n); [by apply quietly_ret|apply quietly_fail].
Qed.

(** [execute] leaves the session and the handles alone. *)
Lemma execute_quiet s stream w n (t : T) :
  wp (execute s stream w n) (fun r t' => exists e, t' = set_context e t /\ handles e = handles (context t) /\
    match r with Ok response => len response = n | Err _ => True end) t.
Proof.
  destruct (does_run _ _ [] t (quietly_does _ _ [] (execute_calls_quiet (i2c_speed t) s stream w n)) (owns_nil _))
    as (r & t' & Heq & Hle & e & devs & -> & [-> Hr] & Hh).
  exists r, (set_context e t). rewrite <- execute_runs. split_and!; [done..|]. exists e.
  split_and!; [done| |done]. change (device_handles []) with (∅ : gset handle) in Hh.
  by rewrite !difference_empty_L in Hh.
Qed.

(** ** The enumeration closes what it opens *)

Lemma close_does (d : device) devs (k : option goerror -> usb_prog E (gmap string USBDeviceInfo)) Q :
  (forall o, does devs (k o) Q) -> does (d :: devs) (prog_bind (prog_call (device_Close d)) k) Q.
Proof.
  intros Hk e [Hnd Hown]. cbn. split; [apply device_close_clock|]. exists devs. split; [|apply Hk].
  destruct (Hown d (list_elem_of_here _ _)) as [Hin Hu]. rewrite device_close.
  - apply handover_close.
  - intros [c Hc]. by apply Hu in Hc.
Qed.

Lemma read_strings_does devs : forall m,
  does devs (read_strings_calls devs m) (fun r devs' => devs' = [] /\ exists m', r = Ok m').
Proof.
  induction devs as [|d devs IH]; intros m; cbn [read_strings_calls]; [split; [done|by eexists]|].
  assert (Hnext : forall m', does (d :: devs) (prog_bind (prog_call (device_Close d))
      (fun _ => read_strings_calls devs m')) (fun r devs' => devs' = [] /\ exists m', r = Ok m')).
  { intros m'. apply close_does. intros _. apply IH. }
  destruct (m !! desc_key (Desc d)) as [info|]; [|exact (Hnext m)].
  cbn. intros e _. split; [apply manufacturer_clock|]. exists (d :: devs). rewrite manufacturer_same.
  split; [constructor|]. intros e1 _. split; [apply product_clock|]. exists (d :: devs). rewrite product_same.
  split; [constructor|]. apply Hnext.
Qed.

Lemma enumerateUSB_does (t : T) b :
  does [] (enumerateUSB_calls t b) (fun r devs' => devs' = [] /\ exists found, r = Ok found).
Proof.
  apply does_bind, does_bind. intros e _. split; [apply open_devices_clock|].
  destruct (OpenDevices _ e) as [[descs devs] e'] eqn:Ho. cbn [fst snd].
  apply open_devices in Ho as (Hnd & Hh & Hfresh & _). exists devs. split.
  - rewrite Hh. apply (handover_open devs); [done|]. intros d h Hd Hin. by apply Hfresh.
  - cbn. eapply does_mono; [apply read_strings_does|]. intros r devs' [-> [m ->]]. cbn. split; [done|by eexists].
Qed.

Lemma enumerateUSB_wp b (t : T) :
  wp (enumerateUSB b) (fun r t' => exists e found, t' = set_context e t /\
    handles e = handles (context t) /\ r = Ok found) t.
Proof.
  destruct (does_run _ _ [] t (enumerateUSB_does t b) (owns_nil _))
    as (r & t' & Heq & Hle & e & devs & -> & [-> [found ->]] & Hh).
  exists (Ok found), (set_context e t). rewrite <- enumerateUSB_runs. split_and!; [done..|]. exists e, found.
  split_and!; [done| |done]. change (device_handles []) with (∅ : gset handle) in Hh.
  by rewrite !difference_empty_L in Hh.
Qed.
End Own.
