(* ===== verification/Ch341Facts.v ===== *)
(** * The transport's programs end and give back what they open

    Opening and closing sessions keeps the invariant that the open handles are
    exactly those of the current session and of others' devices. *)

From S2P Require Import Prelude Errors Stream Encoder Config Effects Usb Ch341 Ch341Prog Ch341Own.

Open Scope string_scope.
Open Scope list_scope.
Open Scope Z_scope.
Open Scope go_scope.

(** Steps through a program: binds, library calls, cases. *)
Ltac wp_step :=
  lazymatch goal with
  | |- wp (io_bind _ _) _ _ => apply wp_bind
  | |- wp (io_ret _) _ _ => apply wp_ret
  | |- wp (io_fail _) _ _ => apply wp_fail
  | |- wp (io_read _) _ _ => apply wp_read
  | |- wp (io_try _) _ _ => apply wp_try
  end; cbv beta iota.

Section Facts.
Context {E : Type} `{Clock E, Gousb E, UsbHandles E, !ClockLaws E, !GousbLaws E}.
Context `{MapOrder, GousbText}.

Abbreviation T := (Ch341Transport E).

Lemma set_context_twice (e e' : E) (t : T) : set_context e (set_context e' t) = set_context e t.
Proof. done. Qed.

Lemma set_context_same (t : T) : set_context (context t) t = t.
Proof. by destruct t. Qed.

Lemma wp_usb {A} (f : E -> A * E) (Q : result A -> T -> Prop) t :
  now (context t) <= now (f (context t)).2 ->
  Q (Ok (f (context t)).1) (set_context (f (context t)).2 t) -> wp (usb f) Q t.
Proof.
  intros Hle HQ. unfold wp, usb. destruct (f (context t)) as [a e]. by exists (Ok a), (set_context e t).
Qed.

(** ** Sessions *)

Definition session_handles (s : ch341Session) : gset handle :=
  {[device_handle (session_device s); config_handle (session_config s); interface_handle (session_iface s)]}.

Definition owned (s : option ch341Session) : gset handle :=
  match s with Some s => session_handles s | None => ∅ end.

Definition session_wf (s : ch341Session) : Prop :=
  cfg_device (session_config s) = dev_handle (session_device s) /\
  if_config (session_iface s) = session_config s.

(** The handles of other devices. *)
Definition elsewhere (d : nat) (R : gset handle) : Prop := forall h, h ∈ R -> handle_of_device h <> d.

Lemma elsewhere_device d (dev : device) R :
  elsewhere d R -> dev_handle dev = d -> device_handle dev ∉ R.
Proof. intros HR Hd Hin. by apply (HR _ Hin). Qed.

Lemma elsewhere_config d c R : elsewhere d R -> cfg_device c = d -> config_handle c ∉ R.
Proof. intros HR Hd Hin. by apply (HR _ Hin). Qed.

Lemma elsewhere_interface d i R :
  elsewhere d R -> cfg_device (if_config i) = d -> interface_handle i ∉ R.
Proof. intros HR Hd Hin. by apply (HR _ Hin). Qed.

Lemma config_idle d c R S :
  elsewhere d R -> cfg_device c = d -> (forall i, HInterface d (cfg_handle c) i ∉ S) -> ~ config_busy c (S ∪ R).
Proof.
  intros HR Hd HS [i [Hin|Hin]%elem_of_union]; [rewrite Hd in Hin; by apply (HS i)|by apply (HR _ Hin)].
Qed.

Lemma device_idle (d : device) R : elsewhere (dev_handle d) R -> ~ device_busy d ({[device_handle d]} ∪ R).
Proof. intros HR [c [Hin%elem_of_singleton|Hin]%elem_of_union]; [done|by apply (HR _ Hin)]. Qed.

(** Closing what was claimed gives back exactly the device's own handle. *)
Lemma config_close_wp c (Q : result (option goerror) -> T -> Prop) t d R :
  elsewhere (dev_handle d) R -> cfg_device c = dev_handle d ->
  handles (context t) = {[config_handle c]} ∪ ({[device_handle d]} ∪ R) ->
  (forall o e, handles e = {[device_handle d]} ∪ R -> Q (Ok o) (set_context e t)) ->
  wp (usb (config_Close c)) Q t.
Proof.
  intros HR Hc Hh HQ. apply wp_usb; [apply config_close_clock|]. apply HQ.
  rewrite config_close, Hh.
  - pose proof (elsewhere_config _ _ _ HR Hc).
    assert (config_handle c <> device_handle d) by done. set_solver.
  - rewrite Hh. rewrite union_assoc_L. apply (config_idle (dev_handle d)); [done..|].
    intros i. rewrite elem_of_union, !elem_of_singleton. by intros [|].
Qed.

Lemma interface_close_wp i (Q : result () -> T -> Prop) t R :
  handles (context t) = {[interface_handle i]} ∪ R -> interface_handle i ∉ R ->
  (forall e, handles e = R -> Q (Ok ()) (set_context e t)) -> wp (usb_do (interface_Close i)) Q t.
Proof.
  intros Hh Hnot HQ. apply wp_effect; [exact (interface_close_clock i (context t))|]. apply HQ.
  rewrite interface_close, Hh. set_solver.
Qed.

Lemma device_close_wp d (Q : result (option goerror) -> T -> Prop) t R :
  elsewhere (dev_handle d) R -> handles (context t) = {[device_handle d]} ∪ R ->
  (forall o e, handles e = R -> Q (Ok o) (set_context e t)) -> wp (usb (device_Close d)) Q t.
Proof.
  intros HR Hh HQ. apply wp_usb; [apply device_close_clock|]. apply HQ.
  pose proof (elsewhere_device _ _ _ HR eq_refl).
  rewrite device_close, Hh by (rewrite Hh; by apply device_idle). set_solver.
Qed.

Lemma session_handles_split s R :
  session_handles s ∪ R =
  {[interface_handle (session_iface s)]} ∪
    ({[config_handle (session_config s)]} ∪ ({[device_handle (session_device s)]} ∪ R)).
Proof. unfold session_handles. set_solver. Qed.

Lemma interface_new i d R :
  elsewhere (dev_handle d) R -> cfg_device (if_config i) = dev_handle d ->
  interface_handle i ∉ ({[config_handle (if_config i)]} ∪ ({[device_handle d]} ∪ R) : gset handle).
Proof.
  intros HR Hd. pose proof (elsewhere_interface _ _ _ HR Hd).
  rewrite !elem_of_union, !elem_of_singleton. by intros [|[|]].
Qed.

Lemma session_close_wp s t R :
  session_wf s -> elsewhere (dev_handle (session_device s)) R ->
  handles (context t) = session_handles s ∪ R ->
  wp (session_close s) (fun r t' => (exists o, r = Ok o) /\
    exists e, t' = set_context e t /\ handles e = R) t.
Proof.
  intros [Hc Hi] HR Hh. rewrite session_handles_split in Hh. unfold session_close. wp_step.
  eapply interface_close_wp; [exact Hh| |].
  { rewrite <- Hi. apply interface_new; [done|]. by rewrite Hi. }
  intros e1 Hh1. wp_step. eapply config_close_wp; [done..|]. intros o2 e2 Hh2. wp_step.
  eapply device_close_wp; [done..|]. intros o3 e3 Hh3. wp_step. split; [by eexists|]. by exists e3.
Qed.

(** ** Opening *)

Definition opened (d : device) (R : gset handle) (t : T) (r : result ch341Session) (t' : T) : Prop :=
  exists e, t' = set_context e t /\
    match r with
    | Ok s => session_wf s /\ session_device s = d /\ handles e = session_handles s ∪ R
    | Err _ => handles e = {[device_handle d]} ∪ R
    end.

Lemma abandon_wp iface c d R t e err :
  elsewhere (dev_handle d) R -> cfg_device c = dev_handle d ->
  match iface with
  | Some i => if_config i = c /\
      handles e = {[interface_handle i]} ∪ ({[config_handle c]} ∪ ({[device_handle d]} ∪ R))
  | None => handles e = {[config_handle c]} ∪ ({[device_handle d]} ∪ R)
  end ->
  wp (abandon iface c err) (opened d R t) (set_context e t).
Proof.
  intros HR Hc Hh. unfold abandon. wp_step. destruct iface as [i|].
  - destruct Hh as [<- Hh]. eapply interface_close_wp; [exact Hh|by apply interface_new|].
    intros e1 Hh1. wp_step. eapply config_close_wp; [done..|]. intros o e2 Hh2. wp_step. by exists e2.
  - apply wp_ret. wp_step. eapply config_close_wp; [done..|]. intros o e2 Hh2. wp_step. by exists e2.
Qed.

Lemma openSession_wp d ident R t :
  elsewhere (dev_handle d) R -> handles (context t) = {[device_handle d]} ∪ R ->
  wp (openSession d ident) (opened d R t) t.
Proof.
  intros HR Hh. unfold openSession.
  destruct (findBulkEndpoints (Desc d)) as [found|].
  2: { wp_step. exists (context t). by rewrite set_context_same. }
  wp_step. apply wp_usb; [apply config_clock|].
  destruct (device_Config d (configNumber found) (context t)) as [[c|err] e1] eqn:Hc; cbn [fst snd].
  2: { wp_step. exists e1. split; [done|]. by rewrite (config_err _ _ _ _ _ Hc). }
  apply config_ok in Hc as (Hdev & Hh1 & _). rewrite Hh in Hh1.
  wp_step. apply wp_usb; [apply interface_clock|]. cbn [context set_context].
  destruct (config_Interface c _ _ e1) as [[i|err] e2] eqn:Hi; cbn [fst snd].
  2: { apply (abandon_wp None c d R t e2); [done..|]. cbn. by rewrite (interface_err _ _ _ _ _ _ Hi). }
  apply interface_ok in Hi as (Hic & Hh2). rewrite Hh1 in Hh2.
  wp_step. apply wp_usb; [apply in_endpoint_clock|]. cbn [context set_context].
  pose proof (in_endpoint_same i (inputNumber found) e2) as Hh3.
  destruct (interface_InEndpoint i _ e2) as [[input|err] e3]; cbn [fst snd] in *.
  2: { apply (abandon_wp (Some i) c d R t e3); [done..|]. cbn. split; [done|]. congruence. }
  wp_step. apply wp_usb; [apply out_endpoint_clock|]. cbn [context set_context].
  pose proof (out_endpoint_same i (outputNumber found) e3) as Hh4.
  destruct (interface_OutEndpoint i _ e3) as [[output|err] e4]; cbn [fst snd] in *.
  2: { apply (abandon_wp (Some i) c d R t e4); [done..|]. cbn. split; [done|]. congruence. }
  wp_step. exists e4. split; [done|]. split; [by split|]. split; [done|].
  rewrite session_handles_split. cbn. congruence.
Qed.

(** The transport after a session was opened, or was not. *)
Definition after_open (R : gset handle) (t : T) (r : result ch341Session) (t' : T) : Prop :=
  match r with
  | Ok s => session_wf s /\ elsewhere (dev_handle (session_device s)) R /\
      exists e, t' = set_session (Some s) (set_context e t) /\ handles e = session_handles s ∪ R
  | Err _ => exists e, t' = set_context e t /\ handles e = R
  end.

Lemma after_open_context R t e r t' : after_open R (set_context e t) r t' -> after_open R t r t'.
Proof. by destruct r. Qed.

Lemma open_first_wp R ids : forall lastError t,
  handles (context t) = R -> wp (open_first ids lastError) (after_open R t) t.
Proof.
  induction ids as [|id ids IH]; intros lastError t Hh; cbn [open_first].
  { wp_step. exists (context t). by rewrite set_context_same. }
  wp_step. apply wp_usb; [apply open_device_clock|].
  destruct (OpenDeviceWithVIDPID _ _ (context t)) as [[[d|]|err] e1] eqn:Ho; cbn [fst snd].
  - apply open_device_ok in Ho as [Hh1 Hfresh]. rewrite Hh in Hh1, Hfresh.
    wp_step. wp_step. eapply wp_mono; [by apply (openSession_wp d _ R)|].
    intros [s|err] t2 (e2 & -> & Hs).
    + destruct Hs as (Hwf & Hd & Hh2). wp_step. apply wp_effect; [cbn; lia|]. wp_step.
      split; [done|]. split; [by rewrite Hd|]. by exists e2.
    + wp_step. eapply device_close_wp; [done..|]. intros o e3 Hh3.
      eapply wp_mono; [by apply IH|]. intros r t' Hr. exact (after_open_context R t e3 r t' Hr).
  - eapply wp_mono; [apply IH; cbn; by rewrite (open_device_none _ _ _ _ Ho)|].
    intros r t' Hr. exact (after_open_context R t e1 r t' Hr).
  - eapply wp_mono; [apply IH; cbn; by rewrite (open_device_err _ _ _ _ _ Ho)|].
    intros r t' Hr. exact (after_open_context R t e1 r t' Hr).
Qed.
End Facts.
