(* ===== verification/Ch341Ops.v ===== *)
(** * The transport's operations keep its invariant

    The open handles are exactly those of the current session, and a closed
    transport has no session.  Each operation, from a state with the invariant,
    ends in a state with the invariant. *)

From S2P Require Import Prelude Errors Stream Encoder Config Effects Usb Ch341 Ch341Own Ch341Facts.

Open Scope string_scope.
Open Scope list_scope.
Open Scope Z_scope.
Open Scope go_scope.

Section Ops.
Context {E : Type} `{Clock E, Gousb E, UsbHandles E, !ClockLaws E, !GousbLaws E}.
Context `{MapOrder, GousbText}.

Abbreviation T := (Ch341Transport E).

(** The open handles are those of the session and [R], the handles of devices
    that others have open. *)
Record shared_inv (R : gset handle) (t : T) : Prop := {
  sh_handles : handles (context t) = owned (session t) ∪ R;
  sh_session : forall s, session t = Some s -> session_wf s /\ elsewhere (dev_handle (session_device s)) R;
  sh_closed : closed t = true -> session t = None;
}.

Definition transport_inv (t : T) : Prop := shared_inv ∅ t.

(** The parameters of a transport never change. *)
Definition same_setup (t t' : T) : Prop := usbIDs t' = usbIDs t /\ i2c_speed t' = i2c_speed t.

Lemma elsewhere_empty d : elsewhere d ∅.
Proof. intros h Hin. by apply not_elem_of_empty in Hin. Qed.

Lemma inv_handles t : transport_inv t -> handles (context t) = owned (session t).
Proof. intros [Hh _ _]. by rewrite union_empty_r_L in Hh. Qed.

Lemma inv_session t s : transport_inv t -> session t = Some s -> session_wf s.
Proof. intros [_ Hs _] Hsome. by apply Hs. Qed.

Lemma inv_closed t : transport_inv t -> closed t = true -> session t = None.
Proof. by intros [_ _ Hc]. Qed.

Lemma no_session_inv t : handles (context t) = ∅ -> session t = None -> transport_inv t.
Proof.
  intros Hh Hs. constructor; rewrite ?Hs; [|done..].
  rewrite Hh. symmetry. apply union_empty_r_L.
Qed.

Lemma shared_context R t e :
  shared_inv R t -> handles e = handles (context t) -> shared_inv R (set_context e t).
Proof. intros [Hh Hs Hc] He. constructor; cbn; [congruence|done..]. Qed.

Lemma inv_context t e :
  transport_inv t -> handles e = handles (context t) -> transport_inv (set_context e t).
Proof. apply shared_context. Qed.

Lemma ensureSession_wp R t :
  shared_inv R t -> closed t = false ->
  wp ensureSessionLocked (fun r t' => shared_inv R t' /\ same_setup t t' /\ closed t' = false /\
    match r with
    | Ok s => session t' = Some s /\ forall s0, session t = Some s0 -> s0 = s
    | Err _ => session t' = None /\ session t = None
    end) t.
Proof.
  intros Hinv Hcl. unfold ensureSessionLocked. wp_step. wp_step.
  destruct (session t) as [s|] eqn:Hs.
  - wp_step. split_and!; try done. by intros s0 [= ->].
  - wp_step. wp_step.
    assert (Hh : handles (context t) = R) by (rewrite (sh_handles R t Hinv), Hs; apply union_empty_l_L).
    eapply wp_mono; [by apply (open_first_wp R)|].
    intros [s|err] t' Hr.
    + destruct Hr as (Hwf & Hout & e & -> & He).
      split; [|split_and!; try done; by intros s0 [=]].
      constructor; cbn; [done| |congruence]. by intros s0 [= <-].
    + destruct Hr as (e & -> & He). split; [|by split_and!].
      constructor; cbn; rewrite ?Hs; [|done..]. cbn. by rewrite He, union_empty_l_L.
Qed.

Lemma currentSession_wp R t :
  shared_inv R t ->
  wp currentSession (fun r t' => shared_inv R t' /\ same_setup t t' /\ closed t' = closed t /\
    match r with
    | Ok s => session t' = Some s /\ closed t = false
    | Err _ => session t' = None
    end) t.
Proof.
  intros Hinv. unfold currentSession. wp_step. wp_step. destruct (closed t) eqn:Hcl.
  - wp_step. split_and!; try done. by eapply sh_closed.
  - eapply wp_mono; [by apply ensureSession_wp|].
    intros [s|err] t' (? & ? & ? & ?); naive_solver.
Qed.

Lemma invalidate_wp R t s :
  shared_inv R t -> session t = Some s ->
  wp (invalidateSession s) (fun r t' => r = Ok () /\ shared_inv R t' /\ same_setup t t' /\
    closed t' = closed t /\ session t' = None) t.
Proof.
  intros Hinv Hs. unfold invalidateSession. wp_step. wp_step. rewrite Hs.
  unfold same_session. rewrite Nat.eqb_refl. wp_step.
  destruct (sh_session R t Hinv s Hs) as [Hwf Hout].
  eapply wp_mono; [apply (session_close_wp s t R); [done|done|]|].
  - by rewrite (sh_handles R t Hinv), Hs.
  - intros r t' ([o ->] & e & -> & He). apply wp_effect; [cbn; lia|].
    split; [done|]. split; [|by split_and!]. constructor; cbn; [|done..]. by rewrite He, union_empty_l_L.
Qed.

(** [execute] leaves the session alone, whatever the device answers. *)
Lemma execute_wp t s stream w n :
  transport_inv t ->
  wp (execute s stream w n) (fun r t' => transport_inv t' /\ same_setup t t' /\ closed t' = closed t /\
    session t' = session t /\ match r with Ok response => len response = n | Err _ => True end) t.
Proof.
  intros Hinv. eapply wp_mono; [apply execute_quiet|]. intros r t' (e & -> & He & Hr).
  split_and!; [by apply inv_context|done..].
Qed.

Definition transact_post (t : T) (n : Z) (r : result (list Z)) (t' : T) : Prop :=
  transport_inv t' /\ same_setup t t' /\ closed t' = closed t /\
  match r with
  | Ok response => len response = n /\ is_Some (session t')
  | Err err => shouldInvalidateSession err = true -> session t' = None
  end.

Lemma transact_wp t a w n : transport_inv t -> wp (transact a w n) (transact_post t n) t.
Proof.
  intros Hinv. unfold transact. destruct (encodeTransaction a w n) as [stream|err] eqn:Henc.
  2: { wp_step. split_and!; try done. intros Hbad. exfalso. revert Hbad.
       destruct (encode_error_kind a w n err Henc) as (op & e & ->). done. }
  wp_step. eapply wp_mono; [by apply currentSession_wp|].
  intros [s|err] t1 (Hinv1 & [Hu1 Hs1] & Hc1 & Hr1).
  2: { split_and!; try done. }
  destruct Hr1 as [Hs Hcl]. wp_step. wp_step. eapply wp_mono; [by apply execute_wp|].
  intros [response|err] t2 (Hinv2 & [Hu2 Hs2] & Hc2 & Hss & Hr2).
  - wp_step. split; [done|]. split; [split; congruence|]. split; [congruence|]. split; [done|].
    rewrite Hss, Hs. by eexists.
  - wp_step. destruct (shouldInvalidateSession err) eqn:Hinval.
    + eapply wp_mono; [apply (invalidate_wp ∅ t2 s); [done|congruence]|].
      intros r t3 (-> & Hinv3 & [Hu3 Hs3] & Hc3 & Hnone). wp_step.
      split; [done|]. split; [split; congruence|]. split; [congruence|done].
    + wp_step. wp_step. split; [done|]. split; [split; congruence|]. split; congruence.
Qed.

(** ** [Close] *)

Lemma Close_wp R t :
  shared_inv R t ->
  wp Close (fun r t' => (exists o, r = Ok o) /\ shared_inv R t' /\ same_setup t t' /\ closed t' = true /\
    session t' = None) t.
Proof.
  intros Hinv. unfold Close. wp_step. wp_step. destruct (closed t) eqn:Hcl.
  { wp_step. pose proof (sh_closed R t Hinv Hcl) as Hs. split; [by eexists|]. by split_and!. }
  wp_step. apply wp_effect; [cbn; lia|]. wp_step. wp_step. wp_step.
  cbn [session set_closed].
  assert (Hend : forall e o, handles e = R ->
    wp (usb context_Close) (fun r t' => match r with
      | Ok err => wp (io_ret (match o with Some err => Some err | None => err end))
          (fun r t' => (exists o, r = Ok o) /\ shared_inv R t' /\ same_setup t t' /\ closed t' = true /\
            session t' = None) t'
      | Err _ => False end) (set_session None (set_context e (set_closed t)))).
  { intros e o He. apply wp_usb; [apply context_close_clock|]. wp_step. cbn.
    split; [by eexists|]. split; [|by split_and!].
    constructor; cbn; [|done..]. by rewrite context_close_same, He, union_empty_l_L. }
  pose proof (sh_handles R t Hinv) as Hh.
  destruct (session t) as [s|] eqn:Hs.
  - wp_step. destruct (sh_session R t Hinv s Hs) as [Hwf Hout].
    eapply wp_mono; [by apply (session_close_wp s (set_closed t) R)|].
    intros r t' ([o ->] & e & -> & He). wp_step. apply wp_effect; [cbn; lia|]. wp_step. wp_step.
    eapply wp_mono; [by apply (Hend e o)|]. by intros [].
  - assert (Heq : set_closed t = set_session None (set_context (context t) (set_closed t)))
      by (destruct t; cbn in *; by rewrite Hs).
    rewrite Heq. wp_step. wp_step. eapply wp_mono; [apply (Hend (context t) None)|by intros []].
    rewrite Hh. apply union_empty_l_L.
Qed.

(** ** [InspectUSB] *)

Lemma inspect_session_wp R found t :
  shared_inv R t ->
  wp (inspect_session found) (fun r t' => shared_inv R t' /\ same_setup t t' /\
    closed t' = closed t /\ (forall s, session t = Some s -> session t' = Some s) /\
    exists status, r = Ok status) t.
Proof.
  intros Hinv. unfold inspect_session. destruct found as [infos [|]]; cbn [negb].
  2: { wp_step. split_and!; try done. by eexists. }
  wp_step. wp_step. destruct (closed t) eqn:Hcl.
  { wp_step. split_and!; try done. by eexists. }
  wp_step. wp_step. eapply wp_mono; [by apply ensureSession_wp|].
  intros [s|err] t2 (Hinv2 & Hset & Hcl2 & Hr); wp_step; split_and!; try done.
  - destruct Hr as [Hs2 Hkeep]. intros s0 Hs0. rewrite Hs2. f_equal. symmetry. by apply Hkeep.
  - by eexists.
  - destruct Hr as [_ Hnone]. intros s0 Hs0. congruence.
  - by eexists.
Qed.

Lemma InspectUSB_wp includeDeviceStrings t :
  transport_inv t ->
  wp (InspectUSB includeDeviceStrings) (fun r t' => transport_inv t' /\ same_setup t t' /\
    closed t' = closed t /\ (forall s, session t = Some s -> session t' = Some s) /\
    exists status, r = Ok status) t.
Proof.
  intros Hinv. unfold InspectUSB. wp_step. eapply wp_mono; [apply enumerateUSB_wp|].
  intros r t1 (e & found & -> & He & ->).
  apply (inspect_session_wp ∅ found (set_context e t)). by apply inv_context.
Qed.
End Ops.
