(* ===== verification/Ch341Link.v ===== *)
(** * The CH341 transport implements the transport interface

    [Ch341Transport] is an instance of [I2CTransport] and satisfies
    [TransportLaws], so the chip driver's theorems hold of the driver on this
    transport. *)

From S2P Require Import Prelude Errors Stream Encoder Config Effects Usb Ch341 Ch341Own Ch341Facts Ch341Ops.

Open Scope string_scope.
Open Scope list_scope.
Open Scope Z_scope.
Open Scope go_scope.

Section Link.
Context {E : Type} `{Clock E, Gousb E, UsbHandles E, !ClockLaws E, !GousbLaws E}.
Context `{MapOrder, GousbText}.

Abbreviation T := (Ch341Transport E).

(** A panic of [transact] would be this error; [transact_live] excludes it. *)
Definition panicked : goerror := ErrorString "panic".

#[export] Instance ch341_transport : I2CTransport T := {
  Transaction a w n t :=
    match transact a w n t with
    | Some (r, t') => (r, t')
    | None => (Err panicked, t)
    end;
}.

#[export] Instance ch341_clock_laws : ClockLaws T.
Proof. constructor. intros d t Hd. exact (sleep_advances d (context t) Hd). Qed.

Lemma live_usb {A} (f : E -> A * E) : (forall e, now e <= now (f e).2) -> live (usb f).
Proof.
  intros Hf t. unfold usb. specialize (Hf (context t)). destruct (f (context t)) as [a e].
  by eexists _, _.
Qed.

Lemma live_effect (f : T -> T) : (forall t, now t <= now (f t)) -> live (io_effect f).
Proof. intros Hf t. by eexists _, _. Qed.

Lemma execute_live s stream w n : live (execute s stream w n).
Proof. apply wp_live. intros t. eapply wp_mono; [apply execute_quiet|done]. Qed.

Lemma live_set (f : T -> T) : (forall t, context (f t) = context t) -> live (io_effect f).
Proof. intros Hf. apply live_effect. intros t. cbn. rewrite Hf. lia. Qed.

Lemma interface_close_live i : live (usb_do (interface_Close i)).
Proof. apply live_effect. intros t. exact (interface_close_clock i (context t)). Qed.

Hint Resolve live_usb live_set interface_close_live open_device_clock config_clock interface_clock
  in_endpoint_clock out_endpoint_clock config_close_clock device_close_clock : mfi.

Lemma session_close_live s : live (session_close s).
Proof.
  apply live_bind; [eauto with mfi|intros _]. apply live_bind; [eauto with mfi|intros o].
  apply live_bind; [eauto with mfi|intros o']. apply live_ret.
Qed.

Lemma abandon_live iface c err : live (@abandon E _ ch341Session iface c err).
Proof.
  apply live_bind; [destruct iface; eauto with mfi|intros _].
  apply live_bind; [eauto with mfi|intros _]. apply live_fail.
Qed.

Lemma openSession_live d ident : live (openSession d ident).
Proof.
  unfold openSession. destruct (findBulkEndpoints _) as [found|]; [|apply live_fail].
  apply live_bind; [eapply live_usb; eauto with mfi|]. intros [c|err]; [|apply live_fail].
  apply live_bind; [eapply live_usb; eauto with mfi|]. intros [i|err]; [|apply abandon_live].
  apply live_bind; [eapply live_usb; eauto with mfi|]. intros [input|err]; [|apply abandon_live].
  apply live_bind; [eapply live_usb; eauto with mfi|]. intros [output|err]; [|apply abandon_live].
  apply live_ret.
Qed.

Lemma open_first_live ids : forall lastError, live (open_first ids lastError).
Proof.
  induction ids as [|id ids IH]; intros lastError; cbn [open_first]; [apply live_fail|].
  apply live_bind; [eapply live_usb; eauto with mfi|]. intros [[d|]|err]; [|apply IH..].
  apply live_bind; [apply live_try, openSession_live|]. intros [s|err].
  - apply live_bind; [by apply live_set|intros _]. apply live_ret.
  - apply live_bind; [eauto with mfi|intros _]. apply IH.
Qed.

Lemma currentSession_live : live currentSession.
Proof.
  apply live_bind; [apply live_read|]. intros b. apply live_if; [apply live_fail|].
  apply live_bind; [apply live_read|]. intros [s|]; [apply live_ret|].
  apply live_bind; [apply live_read|]. intros ids. apply open_first_live.
Qed.

Lemma invalidate_live s : live (invalidateSession s).
Proof.
  apply live_bind; [apply live_read|]. intros [c|]; [|apply live_ret].
  apply live_if; [|apply live_ret].
  apply live_bind; [apply session_close_live|intros _]. by apply live_set.
Qed.

(** [Transaction] ends on every device, without a panic. *)
Lemma transact_live a w n : live (transact a w n).
Proof.
  unfold transact. destruct (encodeTransaction a w n) as [stream|err]; [|apply live_fail].
  apply live_bind; [apply currentSession_live|]. intros s.
  apply live_bind; [apply live_try; apply execute_live|].
  intros [response|err]; [apply live_ret|].
  apply live_bind; [|intros _; apply live_fail]. apply live_if; [apply invalidate_live|apply live_ret].
Qed.

#[export] Instance ch341_transport_laws : TransportLaws T.
Proof.
  constructor. intros a w n t. destruct (transact_live a w n t) as (r & t' & Heq & Hle).
  simpl. rewrite Heq. exact Hle.
Qed.
End Link.
