(* ===== verification/Bus.v ===== *)
(** * An I2C bus with a device on it

    The specification side of the transport: what a transaction means on the
    bus.  A device answers each bus event: an acknowledge byte (bit 7 set for
    NACK) to a written byte, a data byte to a read.  [bus] is the transport that
    drives such a device directly, packet by packet, and stops after the first
    packet that reports a NACK; [BridgeProps] shows that the CH341 transport over
    an ideal bridge behaves like it. *)

From S2P Require Import Prelude Errors Stream Encoder Effects Ch341.

Open Scope string_scope.
Open Scope list_scope.
Open Scope Z_scope.

Class Slave (S : Type) := {
  answer : bus_event -> S -> Z * S;
}.

Section Bus.
Context {S : Type} `{Slave S}.

(** The acknowledge bytes and the data bytes of a run of events. *)
Fixpoint run_bus (evs : list bus_event) (s : S) : list Z * list Z * S :=
  match evs with
  | [] => ([], [], s)
  | ev :: evs =>
      let '(v, s) := answer ev s in
      let '(acks, data, s) := run_bus evs s in
      match ev with
      | BusWrite _ => (v :: acks, data, s)
      | BusRead _ => (acks, v :: data, s)
      | _ => (acks, data, s)
      end
  end.

Definition acked (v : Z) : bool := Z.land v ackBit =? 0.

Lemma run_bus_app a b s :
  run_bus (a ++ b) s =
  let '(acks1, data1, s1) := run_bus a s in
  let '(acks2, data2, s2) := run_bus b s1 in (acks1 ++ acks2, data1 ++ data2, s2).
Proof.
  revert s. induction a as [|ev a IH]; intros s; simpl.
  - by destruct (run_bus b s) as [[? ?] ?].
  - destruct (answer ev s) as [v s1]. rewrite IH. destruct (run_bus a s1) as [[acks1 data1] s2].
    destruct ev; by destruct (run_bus b s2) as [[acks2 data2] s3].
Qed.

(** As many data bytes as reads. *)
Lemma run_bus_reads evs s : len (run_bus evs s).1.2 = read_count evs.
Proof.
  revert s. induction evs as [|ev evs IH]; intros s; simpl; [done|].
  destruct (answer ev s) as [v s1]. specialize (IH s1). destruct (run_bus evs s1) as [[acks data] s2].
  cbn [fst snd] in IH. change (read_count (ev :: evs)) with
    (match ev with BusRead _ => 1 | _ => 0 end + read_count evs).
  destruct ev; cbn [fst snd]; rewrite ?len_cons; lia.
Qed.
End Bus.

(** ** Packets

    A packet's commands run to its end whatever the device acknowledges.  Only the
    single writes report their acknowledge byte; the first that reports a NACK
    keeps the packets after it from being sent. *)

Definition reported (c : stream_cmd) (acks : list Z) : list Z :=
  match c with CmdWrite1 _ => acks | _ => [] end.

Definition first_nack (statuses : list Z) : option nat :=
  fst <$> list_find (fun v => acked v = false) statuses.

Definition nack_error (k : nat) : goerror :=
  TransportError ErrorNACK "CH341 I2C" (Some (ErrorString ("NACK on byte " +:+ fmt_d (Z.of_nat k)))).

Section Packets.
Context {S : Type} `{Slave S}.

(** The reported acknowledge bytes, and the data bytes. *)
Fixpoint run_cmds (cs : list stream_cmd) (s : S) : list Z * list Z * S :=
  match cs with
  | [] => ([], [], s)
  | c :: cs =>
      let '(acks, data1, s) := run_bus (cmd_events c) s in
      let '(statuses, data2, s) := run_cmds cs s in
      (reported c acks ++ statuses, data1 ++ data2, s)
  end.

Fixpoint run_packets (css : list (list stream_cmd)) (s : S) : result (list Z) * S :=
  match css with
  | [] => (Ok [], s)
  | cs :: css =>
      let '(statuses, data, s) := run_cmds cs s in
      match first_nack statuses with
      | Some k => (Err (nack_error k), s)
      | None =>
          match run_packets css s with
          | (Ok rest, s) => (Ok (data ++ rest), s)
          | (Err err, s) => (Err err, s)
          end
      end
  end.

Lemma first_nack_none statuses : first_nack statuses = None <-> Forall (fun v => acked v = true) statuses.
Proof.
  unfold first_nack. rewrite fmap_None, list_find_None.
  split; intros Hf; (eapply Forall_impl; [exact Hf|]); intros v; cbv beta; destruct (acked v); congruence.
Qed.

Lemma first_nack_some statuses k :
  first_nack statuses = Some k -> exists v, statuses !! k = Some v /\ acked v = false.
Proof.
  unfold first_nack. intros ([i v] & (? & ? & _)%list_find_Some & ->)%fmap_Some. by exists v.
Qed.

(** The commands of a packet are its events. *)
Lemma run_cmds_events cs : forall (s : S) statuses data s',
  run_cmds cs s = (statuses, data, s') ->
  exists acks, run_bus (cmds_events cs) s = (acks, data, s') /\ statuses `sublist_of` acks.
Proof.
  induction cs as [|c cs IH]; intros s statuses data s'; cbn [run_cmds].
  { intros [= <- <- <-]. by exists []. }
  destruct (run_bus (cmd_events c) s) as [[acks1 data1] s1] eqn:H1.
  destruct (run_cmds cs s1) as [[sts2 data2] s2] eqn:H2. intros [= <- <- <-].
  destruct (IH _ _ _ _ H2) as (acks2 & Hrun & Hsub). exists (acks1 ++ acks2). split.
  - change (cmds_events (c :: cs)) with (cmd_events c ++ cmds_events cs). by rewrite run_bus_app, H1, Hrun.
  - apply sublist_app; [|done]. destruct c; cbn; first [done|apply sublist_nil_l].
Qed.

(** A run of packets is a run of events: of all of them, or of those of the
    packets up to one that reports a NACK. *)
Lemma run_packets_events css : forall (s : S) r s',
  run_packets css s = (r, s') ->
  exists sent unsent acks data, css = sent ++ unsent /\ run_bus (css_events sent) s = (acks, data, s') /\
    match r with
    | Ok d => d = data /\ unsent = []
    | Err err => (exists k, err = nack_error k) /\ (exists v, v ∈ acks /\ acked v = false) /\ sent <> []
    end.
Proof.
  induction css as [|cs css IH]; intros s r s'; cbn [run_packets].
  { intros [= <- <-]. by exists [], [], [], []. }
  destruct (run_cmds cs s) as [[sts data1] s1] eqn:H1.
  pose proof (run_cmds_events _ _ _ _ _ H1) as (acks1 & Hrun1 & Hsub).
  destruct (first_nack sts) as [k|] eqn:Hn.
  - intros [= <- <-]. apply first_nack_some in Hn as (v & Hv & Hnack).
    exists [cs], css, acks1, data1. split; [done|]. split.
    + unfold css_events. simpl. by rewrite app_nil_r.
    + split_and!; [by eexists| |done]. exists v. split; [|done].
      eapply elem_of_sublist; [by eapply list_elem_of_lookup_2|done].
  - destruct (run_packets css s1) as [r2 s2] eqn:H2.
    destruct (IH _ _ _ H2) as (sent & unsent & acks2 & data2 & -> & Hrun2 & Hr).
    assert (Hrun : run_bus (css_events (cs :: sent)) s = (acks1 ++ acks2, data1 ++ data2, s2)).
    { change (css_events (cs :: sent)) with (cmds_events cs ++ css_events sent).
      by rewrite run_bus_app, Hrun1, Hrun2. }
    destruct r2; intros [= <- <-]; exists (cs :: sent), unsent, (acks1 ++ acks2), (data1 ++ data2);
      (split; [done|]); (split; [done|]).
    + destruct Hr as [-> ->]. done.
    + destruct Hr as (Hk & (v & Hv & Hnack) & _). split_and!; [done| |done].
      exists v. split; [|done]. apply elem_of_app. by right.
Qed.
End Packets.

(** ** The direct transport *)

Record bus (S : Type) := MkBus { bus_time : Z; bus_slave : S }.
Arguments MkBus {S} _ _.
Arguments bus_time {S} _.
Arguments bus_slave {S} _.

Section Direct.
Context {S : Type} `{Slave S}.

#[export] Instance bus_clock : Clock (bus S) := {
  now b := bus_time b;
  sleep d b := MkBus (bus_time b + Z.max 0 d) (bus_slave b);
}.

#[export] Instance bus_clock_laws : ClockLaws (bus S).
Proof. constructor. intros d b Hd. simpl. lia. Qed.

(** The pause before a transaction that only reads. *)
Definition read_gap (w : list Z) (n : Z) : Z :=
  if (len w =? 0) && (0 <? n) then selectToReadGap else 0.

#[export] Instance bus_transport : I2CTransport (bus S) := {
  Transaction a w n b :=
    match encodeTransaction a w n with
    | Err err => (Err err, b)
    | Ok stream =>
        let '(r, s) := run_packets (default [] (stream_cmds stream)) (bus_slave b) in
        (r, MkBus (bus_time b + read_gap w n) s)
    end;
}.

#[export] Instance bus_transport_laws : TransportLaws (bus S).
Proof.
  constructor. intros a w n b. simpl. destruct (encodeTransaction a w n); [|simpl; lia].
  destruct (run_packets _ _) as [r s]. simpl. unfold read_gap.
  destruct (_ && _); [|lia]. change selectToReadGap with 5000000. lia.
Qed.
End Direct.
