(* ===== verification/Bridge.v ===== *)
(** * A simulated USB host with ideal CH341 bridges

    A concrete instance of [Gousb]: handles are numbered, each call may be made
    to fail by a script of faults, and a bulk packet is interpreted as the CH341
    does: the stream's commands act on an I2C device, the replies queue up for
    the IN endpoint.  It satisfies [GousbLaws], so the laws are consistent. *)

From S2P Require Import Prelude Errors Stream Encoder Config Effects Usb Ch341 Bus.

Open Scope string_scope.
Open Scope list_scope.
Open Scope Z_scope.

(** The errors of the library. *)
Inductive fault := UsbFault (e : usb_error) | TransferFault (t : transfer_status).

Definition fault_error (f : fault) : goerror :=
  match f with UsbFault e => GousbError e | TransferFault t => GousbTransferStatus t end.

(** [host_faults] is consumed call by call; when it is empty nothing fails. *)
Record host (S : Type) := Host {
  host_time : Z;
  host_open : gset handle;
  host_faults : list (option fault);
  host_queue : list Z;
  host_slave : S;
  host_devices : list DeviceDesc;
}.
Arguments Host {S} _ _ _ _ _ _.
Arguments host_time {S} _.
Arguments host_open {S} _.
Arguments host_faults {S} _.
Arguments host_queue {S} _.
Arguments host_slave {S} _.
Arguments host_devices {S} _.

Section Bridge.
Context {S : Type} `{Slave S}.

Implicit Types h : host S.

Definition set_open (o : gset handle) h : host S :=
  Host (host_time h) o (host_faults h) (host_queue h) (host_slave h) (host_devices h).
Definition add_open (x : handle) h : host S := set_open ({[x]} ∪ host_open h) h.
Definition drop_open (x : handle) h : host S := set_open (host_open h ∖ {[x]}) h.
Definition set_bridge (q : list Z) (s : S) h : host S :=
  Host (host_time h) (host_open h) (host_faults h) q s (host_devices h).
Definition spend (d : Z) h : host S :=
  Host (host_time h + Z.max 0 d) (host_open h) (host_faults h) (host_queue h) (host_slave h) (host_devices h).

(** A call that may fail. *)
Definition faulty {A} (k : host S -> result A * host S) h : result A * host S :=
  match host_faults h with
  | [] => k h
  | fault :: faults =>
      let h := Host (host_time h) (host_open h) faults (host_queue h) (host_slave h) (host_devices h) in
      match fault with Some f => (Err (fault_error f), h) | None => k h end
  end.

(** ** The bridge *)

(** The replies to a command: one acknowledge byte for [CmdWrite1], and data. *)
Definition cmd_reply (c : stream_cmd) (s : S) : list Z * S :=
  let '(acks, data, s) := run_bus (cmd_events c) s in
  (reported c acks ++ data, s).

Fixpoint cmds_reply (cs : list stream_cmd) (s : S) : list Z * S :=
  match cs with
  | [] => ([], s)
  | c :: cs =>
      let '(r1, s) := cmd_reply c s in
      let '(r2, s) := cmds_reply cs s in (r1 ++ r2, s)
  end.

(** What does not parse is ignored. *)
Definition bridge_receive (packet : list Z) h : host S :=
  match parse_packet packet with
  | None => h
  | Some cs =>
      let '(reply, s) := cmds_reply cs (host_slave h) in
      set_bridge (host_queue h ++ reply) s h
  end.

(** ** Handles *)

Definition device_numbers (o : gset handle) : gset nat := set_map handle_of_device o.

Definition config_number (x : handle) : nat :=
  match x with HDevice _ => 0 | HConfig _ c | HInterface _ c _ => c end.

Definition uses_config (c : usb_config) (x : handle) : bool :=
  match x with
  | HInterface d c' _ => Nat.eqb d (cfg_device c) && Nat.eqb c' (cfg_handle c)
  | _ => false
  end.
Definition uses_device (d : device) (x : handle) : bool :=
  match x with HConfig d' _ => Nat.eqb d' (dev_handle d) | _ => false end.

Definition matching (vendor product : Z) (desc : DeviceDesc) : bool :=
  (desc_Vendor desc =? vendor) && (desc_Product desc =? product).

Definition fresh_device (desc : DeviceDesc) h : device * host S :=
  let d := MkDevice (fresh (device_numbers (host_open h))) desc in (d, add_open (device_handle d) h).

Fixpoint open_matching (opener : DeviceDesc -> bool) (descs : list DeviceDesc) h : list device * host S :=
  match descs with
  | [] => ([], h)
  | desc :: descs =>
      if opener desc then
        let '(d, h) := fresh_device desc h in
        let '(ds, h) := open_matching opener descs h in (d :: ds, h)
      else open_matching opener descs h
  end.

#[export] Instance host_clock : Clock (host S) := { now h := host_time h; sleep := spend }.

#[export] Instance host_handles : UsbHandles (host S) := { handles := host_open }.

#[export] Instance host_gousb : Gousb (host S) := {
  OpenDeviceWithVIDPID v p := faulty (fun h =>
    match List.find (matching v p) (host_devices h) with
    | Some desc => let '(d, h) := fresh_device desc h in (Ok (Some d), h)
    | None => (Ok None, h)
    end);
  device_Config d n := faulty (fun h =>
    let c := MkUsbConfig (dev_handle d) (fresh (set_map config_number (host_open h) : gset nat)) in
    (Ok c, add_open (config_handle c) h));
  config_Interface c n a := faulty (fun h =>
    let i := MkUsbInterface c 0 in (Ok i, add_open (interface_handle i) h));
  interface_InEndpoint i n := faulty (fun h => (Ok (MkInEndpoint i n 32), h));
  interface_OutEndpoint i n := faulty (fun h => (Ok (MkOutEndpoint i n), h));
  interface_Close i h := drop_open (interface_handle i) h;
  config_Close c h :=
    if existsb (uses_config c) (elements (host_open h)) then (Some (ErrorString "interface claimed"), h)
    else (None, drop_open (config_handle c) h);
  device_Close d h :=
    if existsb (uses_device d) (elements (host_open h)) then (Some (ErrorString "configuration claimed"), h)
    else (None, drop_open (device_handle d) h);
  context_Close h := (None, h);
  WriteContext o t data h :=
    match faulty (fun h => (Ok (), bridge_receive data h)) h with
    | (Ok _, h) => ((len data, None), h)
    | (Err err, h) => ((0, Some err), h)
    end;
  ReadContext i t n h :=
    match faulty (fun h => (Ok (), h)) h with
    | (Err err, h) => ((replicate (Z.to_nat n) 0, 0, Some err), h)
    | (Ok _, h) =>
        let got := take (Z.to_nat n) (host_queue h) in
        match got with
        | [] => ((replicate (Z.to_nat n) 0, 0, Some (SentinelError DeadlineExceeded)), spend t h)
        | _ => ((got ++ replicate (Z.to_nat n - length got) 0, len got, None),
                set_bridge (drop (Z.to_nat n) (host_queue h)) (host_slave h) h)
        end
    end;
  OpenDevices opener h :=
    let '(ds, h') := open_matching opener (host_devices h) h in ((host_devices h, ds), h');
  device_Manufacturer d := faulty (fun h => (Ok "wch.cn", h));
  device_Product d := faulty (fun h => (Ok "USB UART-LPT", h));
}.
End Bridge.
