(* ===== verification/BridgeLaws.v ===== *)
(** * The simulated host satisfies the library's laws *)

From S2P Require Import Prelude Errors Stream Encoder Config Effects Usb Ch341 Bus Bridge.

Open Scope string_scope.
Open Scope list_scope.
Open Scope Z_scope.

Section Laws.
Context {S : Type} `{Slave S}.
Implicit Types h : host S.

#[export] Instance host_clock_laws : ClockLaws (host S).
Proof. constructor. intros d h Hd. simpl. lia. Qed.

(** A faulty call keeps what its body keeps. *)
Lemma faulty_open {A} (k : host S -> result A * host S) h :
  (forall h, host_open (k h).2 = host_open h) -> host_open (faulty k h).2 = host_open h.
Proof. intros Hk. unfold faulty. destruct (host_faults h) as [|[err|] faults]; rewrite ?Hk; done. Qed.

Lemma faulty_time {A} (k : host S -> result A * host S) h :
  (forall h, host_time h <= host_time (k h).2) -> host_time h <= host_time (faulty k h).2.
Proof.
  intros Hk. unfold faulty. destruct (host_faults h) as [|[err|] faults]; [apply Hk|simpl; lia|].
  eapply Z.le_trans; [|apply Hk]. simpl. lia.
Qed.

(** What a successful call did. *)
Lemma faulty_ok {A} (k : host S -> result A * host S) h a h' :
  faulty k h = (Ok a, h') -> exists h0, host_open h0 = host_open h /\ k h0 = (Ok a, h').
Proof.
  unfold faulty. destruct (host_faults h) as [|[err|] faults]; intros Hk; try done; eexists; (split; [|exact Hk]); done.
Qed.

Lemma faulty_err {A} (k : host S -> result A * host S) h err h' :
  (forall h err h', k h <> (Err err, h')) -> faulty k h = (Err err, h') -> host_open h' = host_open h.
Proof.
  intros Hk. unfold faulty. destruct (host_faults h) as [|[e|] faults]; [by intros ?%Hk|by intros [= _ <-]|by intros ?%Hk].
Qed.

Lemma fresh_device_number o x : x ∈ o -> handle_of_device x <> fresh (device_numbers o).
Proof.
  intros Hx Heq. apply (is_fresh (device_numbers o)). rewrite <- Heq.
  unfold device_numbers. by apply elem_of_map_2.
Qed.

Lemma fresh_config_number (o : gset handle) d i :
  HInterface d (fresh (set_map config_number o : gset nat)) i ∉ o.
Proof.
  intros Hin. apply (is_fresh (set_map config_number o : gset nat)).
  apply elem_of_map. by eexists; split; [|exact Hin].
Qed.

Lemma open_matching_spec opener descs : forall h ds h',
  open_matching opener descs h = (ds, h') ->
  NoDup (map dev_handle ds) /\
  host_open h' = list_to_set (map device_handle ds) ∪ host_open h /\
  (forall d x, d ∈ ds -> x ∈ host_open h -> handle_of_device x <> dev_handle d) /\
  (forall d, d ∈ ds -> Desc d ∈ descs /\ opener (Desc d) = true) /\ host_time h' = host_time h.
Proof.
  induction descs as [|desc descs IH]; intros h ds h'; cbn [open_matching].
  { intros [= <- <-]. split_and!; [apply NoDup_nil_2|set_solver|set_solver|set_solver|done]. }
  destruct (opener desc) eqn:Hopen.
  2: { intros (Hnd & Ho & Hf & Hm & Ht)%IH. split_and!; try done. intros d Hd. apply Hm in Hd as [? ?].
       split; [by right|done]. }
  unfold fresh_device. set (d0 := MkDevice _ desc). cbn iota beta.
  destruct (open_matching opener descs _) as [ds1 h1] eqn:Hrest. intros [= <- <-].
  apply IH in Hrest as (Hnd & Ho & Hf & Hm & Ht). cbn [host_open add_open set_open] in *.
  split_and!.
  - cbn [map]. apply NoDup_cons. split; [|done]. intros Hin.
    apply list_elem_of_fmap in Hin as (d & Hd & Hin).
    apply (Hf d (device_handle d0) Hin); [set_solver|]. by simpl.
  - rewrite Ho. cbn [map list_to_set]. set_solver.
  - intros d x [->|Hin]%elem_of_cons Hx; [by apply fresh_device_number|].
    apply (Hf d); [done|set_solver].
  - intros d [->|Hin]%elem_of_cons; [by split; [left|]|]. apply Hm in Hin as [? ?]. split; [by right|done].
  - done.
Qed.

Lemma bridge_receive_open packet h : host_open (bridge_receive packet h) = host_open h.
Proof. unfold bridge_receive. destruct (parse_packet packet); [|done]. by destruct (cmds_reply _ _). Qed.

Lemma bridge_receive_time packet h : host_time (bridge_receive packet h) = host_time h.
Proof. unfold bridge_receive. destruct (parse_packet packet); [|done]. by destruct (cmds_reply _ _). Qed.

Lemma config_busy_dec c (o : gset handle) : config_busy c o <-> existsb (uses_config c) (elements o) = true.
Proof.
  rewrite existsb_exists. split.
  - intros [i Hi]. eexists. rewrite <- list_elem_of_In, elem_of_elements. split; [done|].
    simpl. by rewrite !Nat.eqb_refl.
  - intros (x & Hx%list_elem_of_In%elem_of_elements & Hu). destruct x as [| |d c' i]; try done.
    apply andb_true_iff in Hu as [->%Nat.eqb_eq ->%Nat.eqb_eq]. by exists i.
Qed.

Lemma device_busy_dec d (o : gset handle) : device_busy d o <-> existsb (uses_device d) (elements o) = true.
Proof.
  rewrite existsb_exists. split.
  - intros [c Hc]. eexists. rewrite <- list_elem_of_In, elem_of_elements. split; [done|].
    simpl. by rewrite Nat.eqb_refl.
  - intros (x & Hx%list_elem_of_In%elem_of_elements & Hu). destruct x as [|d' c'|]; try done.
    apply Nat.eqb_eq in Hu as ->. by exists c'.
Qed.

Lemma read_shape i t n h buffer k err h' :
  ReadContext i t n h = ((buffer, k, err), h') ->
  host_open h' = host_open h /\ host_time h <= host_time h' /\ (0 <= n -> len buffer = n /\ k <= n).
Proof.
  cbn [ReadContext host_gousb].
  destruct (faulty _ h) as [r h1] eqn:Hf.
  assert (Ho : host_open h1 = host_open h).
  { pose proof (faulty_open (fun h0 => (Ok (), h0)) h (fun _ => eq_refl)) as Ho. by rewrite Hf in Ho. }
  assert (Ht : host_time h <= host_time h1).
  { pose proof (faulty_time (fun h0 => (Ok (), h0)) h (fun _ => Z.le_refl _)) as Ht. by rewrite Hf in Ht. }
  destruct r as [[]|e].
  - destruct (take (Z.to_nat n) (host_queue h1)) as [|b got] eqn:Hg; intros [= <- <- <- <-].
    + cbn [host_open host_time spend]. split; [done|]. split; [lia|].
      intros Hn. rewrite len_replicate. lia.
    + split; [done|]. split; [done|]. intros Hn.
      assert (Hle : (length (b :: got) <= Z.to_nat n)%nat) by (rewrite <- Hg, length_take; lia).
      autorewrite with len. unfold len. simpl length in *. lia.
  - intros [= <- <- <- <-]. split; [done|]. split; [done|]. intros Hn. rewrite len_replicate. lia.
Qed.

Lemma write_shape o t data h :
  host_open (WriteContext o t data h).2 = host_open h /\ host_time h <= host_time (WriteContext o t data h).2.
Proof.
  cbn [WriteContext host_gousb].
  pose proof (faulty_open (fun h0 => (Ok (), bridge_receive data h0)) h (bridge_receive_open data)) as Ho.
  pose proof (faulty_time (fun h0 => (Ok (), bridge_receive data h0)) h) as Ht.
  destruct (faulty _ h) as [[[]|err] h1]; cbn [snd] in *; (split; [done|apply Ht]);
    intros h0; cbn [snd]; rewrite bridge_receive_time; lia.
Qed.

#[export] Instance host_laws : GousbLaws (host S).
Proof.
  constructor.
  - intros v p h d h' (h0 & Ho & Hk)%faulty_ok. destruct (List.find _ _) as [desc|]; [|done].
    injection Hk as <- <-. cbn. rewrite Ho. split; [done|]. intros x Hx. rewrite <- Ho. apply fresh_device_number. by rewrite Ho.
  - intros v p h h' (h0 & Ho & Hk)%faulty_ok. destruct (List.find _ _) as [desc|]; [done|]. by injection Hk as <-.
  - intros v p h err h' Hk. eapply faulty_err; [|exact Hk]. intros h0 err0 h1. simpl. by case_match.
  - intros d n h c h' (h0 & Ho & [= <- <-])%faulty_ok. cbn. rewrite Ho. split_and!; [done..|].
    intros i. rewrite <- Ho. apply fresh_config_number.
  - intros d n h err h'. by apply faulty_err.
  - intros c n a h i h' (h0 & Ho & [= <- <-])%faulty_ok. cbn. by rewrite Ho.
  - intros c n a h err h'. by apply faulty_err.
  - intros i n h. by apply faulty_open.
  - intros i n h. by apply faulty_open.
  - done.
  - intros c h Hbusy. change (handles h) with (host_open h) in *. rewrite config_busy_dec, not_true_iff_false in Hbusy. cbn. by rewrite Hbusy.
  - intros c h Hbusy%config_busy_dec. change (handles h) with (host_open h) in *. cbn. by rewrite Hbusy.
  - intros d h Hbusy. change (handles h) with (host_open h) in *. rewrite device_busy_dec, not_true_iff_false in Hbusy. cbn. by rewrite Hbusy.
  - intros d h Hbusy%device_busy_dec. change (handles h) with (host_open h) in *. cbn. by rewrite Hbusy.
  - done.
  - intros o t data h. apply write_shape.
  - intros i t n h. destruct (ReadContext i t n h) as [[[buffer k] err] h'] eqn:Hr. by apply read_shape in Hr as (? & _).
  - intros i t n h buffer k err h' Hn Hr. apply read_shape in Hr as (_ & _ & Hb). by apply Hb.
  - intros opener h descs devs h'. cbn. destruct (open_matching opener (host_devices h) h) as [ds h1] eqn:Ho.
    intros [= <- <- <-]. apply open_matching_spec in Ho as (? & ? & ? & ? & _). done.
  - intros d h. by apply faulty_open.
  - intros d h. by apply faulty_open.
  - done.
  - intros v p h. apply faulty_time. intros h0. case_match; simpl; lia.
  - intros d n h. apply faulty_time. intros h0. simpl. lia.
  - intros c n a h. apply faulty_time. intros h0. simpl. lia.
  - intros i n h. apply faulty_time. intros h0. simpl. lia.
  - intros i n h. apply faulty_time. intros h0. simpl. lia.
  - intros i h. simpl. lia.
  - intros c h. cbn. destruct (existsb _ _); simpl; lia.
  - intros d h. cbn. destruct (existsb _ _); simpl; lia.
  - intros h. simpl. lia.
  - intros opener h. cbn. destruct (open_matching _ _ _) as [ds h1] eqn:Ho.
    apply open_matching_spec in Ho as (_ & _ & _ & _ & Ht). simpl. lia.
  - intros d h. apply faulty_time. intros h0. simpl. lia.
  - intros d h. apply faulty_time. intros h0. simpl. lia.
  - intros o t data h. apply write_shape.
  - intros i t n h. destruct (ReadContext i t n h) as [[[buffer k] err] h'] eqn:Hr. by apply read_shape in Hr as (_ & ? & _).
Qed.
End Laws.
