(* ===== verification/BridgeFacts.v ===== *)
(** * How the ideal bridge answers the transport

    The replies to an encoded packet are acknowledge bytes followed by data;
    [bulkReadAtMost] collects them, [execute] assembles the data of all packets,
    and a session can be opened on a fault-free host. *)

From S2P Require Import Prelude Errors Stream Encoder Config Effects Usb Ch341 Bus Bridge.

Open Scope string_scope.
Open Scope list_scope.
Open Scope Z_scope.
Open Scope go_scope.

(** ** Packets in which no acknowledge follows data *)

Fixpoint ordered (cs : list stream_cmd) : Prop :=
  match cs with
  | [] => True
  | c :: cs => (cmd_data_count c = 0 \/ status_count cs = 0) /\ ordered cs
  end.

Definition no_writes (evs : list bus_event) : Prop :=
  Forall (fun ev => match ev with BusWrite _ => False | _ => True end) evs.

Fixpoint reads_last (evs : list bus_event) : Prop :=
  match evs with
  | [] => True
  | ev :: evs => match ev with BusRead _ => no_writes evs | _ => True end /\ reads_last evs
  end.

Lemma reads_last_app a b : reads_last (a ++ b) -> reads_last a /\ reads_last b.
Proof.
  induction a as [|ev a IH]; simpl; [done|]. intros [Hev (Ha & Hb)%IH].
  split_and!; [|done..]. destruct ev; try done. by apply Forall_app in Hev as [? _].
Qed.

Lemma no_writes_status cs : no_writes (cmds_events cs) -> status_count cs = 0.
Proof.
  induction cs as [|c cs IH]; [done|].
  change (cmds_events (c :: cs)) with (cmd_events c ++ cmds_events cs).
  change (status_count (c :: cs)) with (cmd_status_count c + status_count cs).
  intros [Hc Hcs]%Forall_app. rewrite IH by done. destruct c; try done. by inversion Hc.
Qed.

Lemma reads_last_after (b : bool) k evs : (0 < k)%nat -> reads_last (replicate k (BusRead b) ++ evs) -> no_writes evs.
Proof.
  induction k as [|[|k] IH]; intros Hk Hr; [lia|by destruct Hr|]. apply IH; [lia|]. by destruct Hr.
Qed.

Lemma reads_last_ordered cs : Forall cmd_ok cs -> reads_last (cmds_events cs) -> ordered cs.
Proof.
  induction cs as [|c cs IH]; intros Hok Hr; [done|]. apply Forall_cons in Hok as [Hc Hok].
  change (cmds_events (c :: cs)) with (cmd_events c ++ cmds_events cs) in Hr.
  split; [|by apply IH; [|apply reads_last_app in Hr as [_ ?]]].
  destruct c; try (by left); right; apply no_writes_status.
  - simpl in Hc. apply (reads_last_after true (Z.to_nat n)); [lia|done].
  - apply (reads_last_after false 1); [lia|done].
Qed.

Lemma no_writes_reads k b : no_writes (replicate k (BusRead b)).
Proof. by apply Forall_replicate. Qed.

Lemma reads_last_writes w evs : reads_last evs -> reads_last (map BusWrite w ++ evs).
Proof. induction w; simpl; auto. Qed.

Lemma reads_last_reads k b evs : no_writes evs -> reads_last evs -> reads_last (replicate k (BusRead b) ++ evs).
Proof.
  intros Hn Hr. induction k as [|k IH]; [done|]. split; [|done].
  apply Forall_app. split; [apply no_writes_reads|done].
Qed.

Lemma transaction_reads_last a w n : reads_last (transaction_events a w n).
Proof.
  assert (Hend : reads_last [BusStop]) by done.
  assert (Hread : reads_last ((if 0 <? n then BusStart :: BusWrite (2 * a + 1) :: read_events n else [])
    ++ [BusStop])).
  { destruct (0 <? n); [|done]. simpl. split; [done|]. split; [done|]. unfold read_events.
    rewrite <- app_assoc. apply reads_last_reads; [by repeat constructor|]. simpl. split_and!; try done.
    by repeat constructor. }
  unfold transaction_events. destruct (0 <? len w); [|done].
  simpl. split; [done|]. split; [done|]. by apply reads_last_writes.
Qed.

Lemma css_ordered css :
  Forall (fun cs => Forall cmd_ok cs) css -> reads_last (css_events css) -> Forall ordered css.
Proof.
  induction css as [|cs css IH]; intros Hok Hr; [done|]. apply Forall_cons in Hok as [Hc Hok].
  change (css_events (cs :: css)) with (cmds_events cs ++ css_events css) in Hr.
  apply reads_last_app in Hr as [? ?]. constructor; [by apply reads_last_ordered|by apply IH].
Qed.

Section Replies.
Context {S : Type} `{Slave S}.
Implicit Types h : host S.

(** ** Replies *)

Lemma cmd_reply_spec c (s : S) acks data s' :
  cmd_ok c -> run_bus (cmd_events c) s = (acks, data, s') ->
  cmd_reply c s = (reported c acks ++ data, s') /\ len (reported c acks) = cmd_status_count c /\
  len data = cmd_data_count c.
Proof.
  intros Hok Hrun. unfold cmd_reply. rewrite Hrun. split; [done|].
  pose proof (run_bus_reads (cmd_events c) s) as Hreads.
  rewrite Hrun, cmd_data_events in Hreads by done. cbn [fst snd] in Hreads. split; [|done].
  destruct c; try done. simpl in Hrun. destruct (answer _ _) as [v s1]. by injection Hrun as <- <- <-.
Qed.

Lemma cmds_reply_spec cs : forall (s : S) sts data s',
  Forall cmd_ok cs -> ordered cs -> run_cmds cs s = (sts, data, s') ->
  cmds_reply cs s = (sts ++ data, s') /\ len sts = status_count cs /\ len data = data_count cs.
Proof.
  induction cs as [|c cs IH]; intros s sts data s' Hok Hord Hrun; cbn [run_cmds cmds_reply] in *.
  { by injection Hrun as <- <- <-. }
  apply Forall_cons in Hok as [Hc Hok]. destruct Hord as [Hord1 Hord].
  change (status_count (c :: cs)) with (cmd_status_count c + status_count cs).
  change (data_count (c :: cs)) with (cmd_data_count c + data_count cs).
  destruct (run_bus (cmd_events c) s) as [[acks1 data1] s1] eqn:H1.
  destruct (run_cmds cs s1) as [[sts2 data2] s2] eqn:H2. injection Hrun as <- <- <-.
  destruct (cmd_reply_spec c s acks1 data1 s1 Hc H1) as (-> & Hl1 & Hd1).
  destruct (IH s1 sts2 data2 s2 Hok Hord H2) as (-> & Hl2 & Hd2).
  split_and!; [|autorewrite with len; lia..].
  f_equal. destruct Hord1 as [Hz|Hz].
  - rewrite (len_zero data1) by lia. simpl. by rewrite app_nil_r, app_assoc.
  - rewrite (len_zero sts2) by lia. simpl. by rewrite !app_nil_r, app_assoc.
Qed.

(** The check finds the first byte that is not acknowledged. *)
Lemma checkStatusBytes_first sts : checkStatusBytes sts = nack_error <$> first_nack sts.
Proof.
  unfold checkStatusBytes, first_nack.
  enough (forall k, check_status_from k sts
    = (fun i => TransportError ErrorNACK "CH341 I2C" (Some (ErrorString ("NACK on byte " +:+ fmt_d (k + Z.of_nat i)))))
      <$> (fst <$> list_find (fun v => acked v = false) sts)) as Hall by apply Hall.
  induction sts as [|v sts IH]; intros k; [done|]. cbn [check_status_from list_find].
  change (Z.land v ackBit =? 0) with (acked v). destruct (acked v); cbn [negb].
  - rewrite IH. destruct (decide (true = false)) as [|]; [done|].
    destruct (list_find _ sts) as [[i u]|]; cbn; [|done].
    by replace (k + 1 + Z.of_nat i) with (k + Z.of_nat (Datatypes.S i)) by lia.
  - destruct (decide (false = false)); [|done]. cbn. by rewrite Z.add_0_r.
Qed.
End Replies.

(** ** The transport on a fault-free host *)

Section Host.
Context {S : Type} `{Slave S, GousbText}.
Context `{MapOrder}.

Abbreviation T := (Ch341Transport (host S)).
Implicit Types t : T.

Definition calm (h : host S) : Prop := host_faults h = [].

Lemma faulty_calm {A} (k : host S -> result A * host S) h : calm h -> faulty k h = k h.
Proof. unfold faulty, calm. by intros ->. Qed.

Lemma set_bridge_calm q s (h : host S) : calm h -> calm (set_bridge q s h).
Proof. done. Qed.

Lemma usb_eq {A} (f : host S -> A * host S) t a h :
  f (context t) = (a, h) -> usb f t = Some (Ok a, set_context h t).
Proof. unfold usb. by intros ->. Qed.

Lemma bulkWrite_host o data timeout t :
  calm (context t) ->
  bulkWrite o data timeout t = Some (Ok (), set_context (bridge_receive data (context t)) t).
Proof.
  intros Hc. unfold bulkWrite. erewrite io_bind_ok.
  2: { apply usb_eq. cbn [WriteContext host_gousb]. by rewrite faulty_calm. }
  cbv beta iota. by rewrite Z.eqb_refl.
Qed.

Lemma drained t : host_queue (context t) = [] ->
  set_context (set_bridge [] (host_slave (context t)) (context t)) t = t.
Proof. destruct t as [[] ? ? ? ?]. simpl. by intros ->. Qed.

(** Reading a queue that holds exactly what is asked for. *)
Lemma bulk_read_loop_host fuel endpoint maxLength packetSize first quietT allowEmpty : forall data t q,
  calm (context t) -> host_queue (context t) = q -> len data + len q = maxLength -> 1 <= packetSize ->
  len q < Z.of_nat fuel ->
  bulk_read_loop fuel endpoint maxLength packetSize first quietT allowEmpty data t
  = Some (Ok (data ++ q), set_context (set_bridge [] (host_slave (context t)) (context t)) t).
Proof.
  induction fuel as [|fuel IH]; intros data t q Hc Hq Hlen Hps Hfuel; cbn [bulk_read_loop].
  { pose proof (len_nonneg q). lia. }
  destruct (Z.ltb_spec (len data) maxLength).
  2: { pose proof (len_nonneg q). assert (q = []) as -> by (apply len_zero; lia).
       by rewrite app_nil_r, drained. }
  set (size := Z.min _ _). assert (1 <= size <= len q) by lia.
  set (n := Z.to_nat size). assert (Hn : len (take n q) = size) by (rewrite len_take; lia).
  set (h1 := set_bridge (drop n q) (host_slave (context t)) (context t)).
  erewrite io_bind_ok.
  2: { apply (usb_eq _ _ (take n q, size, None) h1). cbn [ReadContext host_gousb].
       rewrite faulty_calm, Hq by done. fold n.
       destruct (take n q) as [|b got] eqn:Hg; [rewrite len_nil in Hn; lia|].
       unfold h1. replace (n - length (b :: got))%nat with 0%nat by (unfold len in *; lia).
       cbn [replicate]. by rewrite app_nil_r, Hn. }
  cbv beta iota. destruct (Z.leb_spec size 0); [lia|].
  destruct (Z.leb_spec size (len (take n q))); [|lia].
  erewrite io_bind_ok; [|reflexivity].
  rewrite <- Hn at 1. rewrite slice_all. rewrite (IH (data ++ take n q) _ (drop n q)); [|done..| |done|].
  - rewrite <- app_assoc, take_drop. done.
  - autorewrite with len. lia.
  - autorewrite with len. lia.
Qed.

Lemma bulkReadAtMost_host endpoint maxLength first quietT allowEmpty t q :
  calm (context t) -> host_queue (context t) = q -> len q = maxLength ->
  bulkReadAtMost endpoint maxLength first quietT allowEmpty t
  = Some (Ok q, set_context (set_bridge [] (host_slave (context t)) (context t)) t).
Proof.
  intros Hc Hq Hlen. unfold bulkReadAtMost. destruct (Z.eqb_spec maxLength 0) as [->|].
  - apply len_zero in Hlen as ->. by rewrite drained.
  - rewrite (bulk_read_loop_host _ _ _ _ _ _ _ [] t q); try done.
    + unfold maxUSBPacketBytes. lia.
    + lia.
Qed.

(** ** One segment *)

Definition segment_for (p : list Z) (cs : list stream_cmd) : Prop :=
  parse_packet p = Some cs /\ instructionLengths p = Ok (status_count cs, data_count cs) /\
  Forall cmd_ok cs /\ ordered cs.

Lemma status_count_nonneg cs : 0 <= status_count cs.
Proof. apply sumZ_nonneg. intros []; simpl; lia. Qed.

Lemma execute_segment_host s p cs timeout t sts data sl :
  calm (context t) -> host_queue (context t) = [] -> segment_for p cs ->
  run_cmds cs (host_slave (context t)) = (sts, data, sl) ->
  execute_segment s p timeout t
  = Some (match first_nack sts with Some k => Err (nack_error k) | None => Ok data end,
          set_context (set_bridge [] sl (context t)) t).
Proof.
  intros Hc Hq (Hparse & Hlen & Hok & Hord) Hrun.
  destruct (cmds_reply_spec cs _ sts data sl Hok Hord Hrun) as (Hreply & Hsts & Hdata).
  unfold execute_segment. rewrite (io_bind_ok _ _ _ _ _ (bulkWrite_host _ _ _ _ Hc)).
  rewrite Hlen. unfold bridge_receive. rewrite Hparse, Hreply, Hq. cbn [app].
  pose proof (status_count_nonneg cs). pose proof (len_nonneg data).
  unfold read_response. destruct (Z.ltb_spec 0 (status_count cs + data_count cs)).
  - rewrite (io_bind_ok _ _ _ (sts ++ data) (set_context (set_bridge [] sl (context t)) t)).
    2: { rewrite (bulkReadAtMost_host _ _ _ _ _ _ (sts ++ data)); [done..|]. autorewrite with len. lia. }
    autorewrite with len. destruct (Z.ltb_spec (len sts + len data) (data_count cs)); [lia|].
    replace (len sts + len data - data_count cs) with (len sts) by lia.
    rewrite slice_app_l, checkStatusBytes_first by done.
    destruct (first_nack sts); [done|]. cbn [fmap option_fmap option_map].
    rewrite <- (Z.add_0_r (len sts)) at 1. rewrite slice_shift, slice_all by lia. done.
  - rewrite (len_zero sts), (len_zero data) in * by lia. done.
Qed.

(** ** All segments *)

Fixpoint run_segments (s : ch341Session) (timeout : Z) (ps : list (list Z)) (response : list Z) : IO T (list Z) :=
  match ps with
  | [] => io_ret response
  | p :: ps =>
      received <-- execute_segment s p timeout ;; run_segments s timeout ps (response ++ received)
  end.

Lemma execute_loop_segments fuel s stream timeout : forall offset response t,
  execute_loop (Datatypes.S fuel) s stream timeout offset response t
  = if len stream - offset <=? Z.of_nat fuel
    then run_segments s timeout (packets_loop fuel stream offset) response t
    else execute_loop (Datatypes.S fuel) s stream timeout offset response t.
Proof.
  induction fuel as [|fuel IH]; intros offset response t.
  - destruct (Z.leb_spec (len stream - offset) (Z.of_nat 0)); [|done].
    cbn [execute_loop packets_loop run_segments]. destruct (Z.ltb_spec offset (len stream)); [lia|done].
  - destruct (Z.leb_spec (len stream - offset) (Z.of_nat (Datatypes.S fuel))); [|done].
    cbn [packets_loop].
    change (execute_loop (Datatypes.S (Datatypes.S fuel)) s stream timeout offset response t)
      with ((if offset <? len stream then
               let stop := Z.min (offset + maxStreamPacketBytes) (len stream) in
               received <-- execute_segment s (slice offset stop stream) timeout ;;
               execute_loop (Datatypes.S fuel) s stream timeout stop (response ++ received)
             else io_ret response) t).
    destruct (Z.ltb_spec offset (len stream)); [|done]. cbn [run_segments]. cbv zeta.
    unfold io_bind. destruct (execute_segment _ _ _ t) as [[[received|err] t']|]; try done.
    rewrite IH. destruct (Z.leb_spec (len stream - Z.min (offset + maxStreamPacketBytes) (len stream)) (Z.of_nat fuel)); [done|].
    unfold maxStreamPacketBytes in *. lia.
Qed.

Lemma run_segments_host s timeout ps css : forall response t r sl,
  calm (context t) -> host_queue (context t) = [] -> Forall2 segment_for ps css ->
  run_packets css (host_slave (context t)) = (r, sl) ->
  run_segments s timeout ps response t
  = Some (match r with Ok data => Ok (response ++ data) | Err err => Err err end,
          set_context (set_bridge [] sl (context t)) t).
Proof.
  revert css. induction ps as [|p ps IH]; intros css response t r sl Hc Hq Hseg Hrun.
  - inversion Hseg. subst css. injection Hrun as <- <-. by rewrite app_nil_r, drained.
  - inversion Hseg as [|? cs ? css' Hp Hps]. subst css. cbn [run_segments run_packets] in *.
    destruct (run_cmds cs _) as [[sts data] s1] eqn:Hcs.
    pose proof (execute_segment_host s p cs timeout t sts data s1 Hc Hq Hp Hcs) as Hseg1.
    unfold io_bind. rewrite Hseg1. destruct (first_nack sts); [by injection Hrun as <- <-|].
    destruct (run_packets css' s1) as [r2 s2] eqn:Hrest.
    rewrite (IH css' _ (set_context (set_bridge [] s1 (context t)) t) r2 s2 Hc eq_refl Hps Hrest).
    destruct r2; injection Hrun as <- <-; [by rewrite <- app_assoc|done].
Qed.
End Host.
