(* ===== verification/Ch341Props.v ===== *)
(** * Properties of the CH341 transport

    Ownership of USB handles on every path, the transfer timeout, the choice of
    the endpoints, and the list of devices. *)

From S2P Require Import Prelude Errors Stream Encoder Config Effects Usb Ch341 Ch341Facts Ch341Ops.
From S2P Require Import Bus Bridge BridgeLaws.

Open Scope string_scope.
Open Scope list_scope.
Open Scope Z_scope.
Open Scope go_scope.

(** ** A concrete transport, for the examples *)

(** A device that acknowledges everything and reads as 7. *)
#[export] Instance seven : Slave () := { answer ev s := (match ev with BusRead _ => 7 | _ => 0 end, s) }.

#[export] Instance demo_text : GousbText := {
  usb_error_text _ := "libusb error";
  transfer_status_text _ := "transfer failed";
}.

Definition bulk_setting : InterfaceSetting :=
  MkInterfaceSetting 0 0
    {[ 0x82 := MkEndpointDesc 2 EndpointDirectionIn TransferTypeBulk;
       0x02 := MkEndpointDesc 2 EndpointDirectionOut TransferTypeBulk;
       0x81 := MkEndpointDesc 1 EndpointDirectionIn (TransferTypeOther 3) ]}.

Definition bridge_desc : DeviceDesc := MkDeviceDesc 1 4 0x1a86 0x5512 "full" 255 {[ 1 := [[bulk_setting]] ]}.
Definition hub_desc : DeviceDesc := MkDeviceDesc 1 1 0x1d6b 0x0002 "high" 9 ∅.

(** A transport on a host whose calls fail as [faults] says. *)
Definition demo_transport (faults : list (option fault)) : Ch341Transport (host ()) :=
  MkCh341 (Host 0 ∅ faults [] () [bridge_desc; hub_desc]) [MkUSBID 0x1a86 0x5512] 100 None false.

Lemma demo_inv faults : transport_inv (demo_transport faults).
Proof. by constructor. Qed.

(** ** The device list *)

Section Devices.
Context {E : Type} `{Clock E, Gousb E, GousbText}.

Abbreviation T := (Ch341Transport E).

(** Each entry is stored under its own key. *)
Definition keyed (m : gmap string USBDeviceInfo) : Prop :=
  forall k i, m !! k = Some i -> k = usbDeviceKey (info_Bus i) (info_Device i).

Lemma keyed_insert m i :
  keyed m -> keyed (<[usbDeviceKey (info_Bus i) (info_Device i) := i]> m).
Proof. intros Hm k j [[<- <-]|[_ Hj]]%lookup_insert_Some; [done|by apply Hm]. Qed.

Lemma foldl_keyed (t : T) descs : forall m, keyed m ->
  keyed (foldl (fun m desc => <[desc_key desc := device_info t desc]> m) m descs).
Proof.
  induction descs as [|desc descs IH]; intros m Hm; [done|]. apply IH.
  by apply (keyed_insert m (device_info t desc)).
Qed.

Lemma read_strings_keyed devs : forall m, keyed m -> returns (W := T) (read_strings devs m) keyed.
Proof.
  induction devs as [|d devs IH]; intros m Hm; cbn [read_strings]; [by apply returns_ret|].
  apply (returns_bind_with _ _ keyed).
  - destruct (m !! desc_key (Desc d)) as [info|] eqn:Hi; [|by apply returns_ret].
    apply returns_bind. intros man. apply returns_bind. intros prod. apply returns_ret.
    rewrite (Hm _ _ Hi). by apply (keyed_insert m (set_strings _ _ info)).
  - intros m' Hm'. apply returns_bind. intros _. by apply IH.
Qed.

Lemma describe_keyed b : returns (W := T) (describe_devices b) keyed.
Proof.
  apply returns_bind. intros t. apply returns_bind. intros [descs devs].
  apply read_strings_keyed, foldl_keyed. by intros k i Hk%lookup_empty_Some.
Qed.

Lemma info_le_trans : Transitive info_le.
Proof.
  intros a b c. unfold info_le, info_less.
  destruct (Z.eqb_spec (info_Bus b) (info_Bus a)), (Z.eqb_spec (info_Bus c) (info_Bus b)),
    (Z.eqb_spec (info_Bus c) (info_Bus a)); cbn [negb]; rewrite ?Z.ltb_ge; lia.
Qed.

Lemma info_le_total : Total info_le.
Proof.
  intros a b. unfold info_le, info_less.
  destruct (Z.eqb_spec (info_Bus b) (info_Bus a)), (Z.eqb_spec (info_Bus a) (info_Bus b));
    cbn [negb]; rewrite ?Z.ltb_ge; lia.
Qed.

Lemma info_le_antisym a b : info_le a b -> info_le b a -> info_Bus a = info_Bus b /\ info_Device a = info_Device b.
Proof.
  unfold info_le, info_less.
  destruct (Z.eqb_spec (info_Bus b) (info_Bus a)), (Z.eqb_spec (info_Bus a) (info_Bus b));
    cbn [negb]; rewrite ?Z.ltb_ge; lia.
Qed.

Lemma range_snd `{MapOrder, !MapOrderLaws} (m : gmap string USBDeviceInfo) i :
  i ∈ map snd (range m) <-> exists k, m !! k = Some i.
Proof.
  rewrite range_permutation. split.
  - intros ([k j] & -> & Hin)%list_elem_of_fmap. exists k. by apply elem_of_map_to_list.
  - intros [k Hk%elem_of_map_to_list]. apply list_elem_of_fmap. by exists (k, i).
Qed.

(** Sorting hides the order in which the map was visited. *)
Lemma list_devices_order (o1 o2 : MapOrder) `{!@MapOrderLaws o1, !@MapOrderLaws o2} m :
  keyed m -> @list_devices o1 m = @list_devices o2 m.
Proof.
  intros Hm. unfold list_devices.
  assert (Hperm : map snd (@range o1 _ _ _ _ m) ≡ₚ map snd (@range o2 _ _ _ _ m)).
  { by rewrite (@range_permutation o1 _ _ _ _ _ m), (@range_permutation o2 _ _ _ _ _ m). }
  f_equal.
  - pose proof info_le_trans. pose proof info_le_total.
    apply (Sorted_unique_strong info_le).
    + intros a b Ha Hb Hab Hba. rewrite merge_sort_Permutation in Ha, Hb.
      apply range_snd in Ha as [ka Ha], Hb as [kb Hb].
      destruct (info_le_antisym a b Hab Hba) as [Hbus Hdev].
      pose proof (Hm _ _ Ha) as Hka. pose proof (Hm _ _ Hb) as Hkb.
      rewrite Hbus, Hdev, <- Hkb in Hka. rewrite Hka in Ha. congruence.
    + apply Sorted_merge_sort, _.
    + apply Sorted_merge_sort, _.
    + by rewrite !merge_sort_Permutation.
  - apply eq_true_iff_eq. rewrite !existsb_exists. split; intros (i & Hi%list_elem_of_In & Hc);
      exists i; (split; [apply list_elem_of_In|done]); by rewrite Hperm in * || rewrite <- Hperm in *.
Qed.
End Devices.

(** ** Bulk endpoints *)

Definition bulk_endpoint (dir : EndpointDirection) (e : EndpointDesc) : Prop :=
  endpoint_TransferType e = TransferTypeBulk /\ endpoint_Direction e = dir.

Lemma scan_endpoints_sound eps : forall i o i' o',
  scan_endpoints eps i o = (i', o') ->
  (i' = i \/ exists e, e ∈ eps /\ bulk_endpoint EndpointDirectionIn e /\ endpoint_Number e = i') /\
  (o' = o \/ exists e, e ∈ eps /\ bulk_endpoint EndpointDirectionOut e /\ endpoint_Number e = o').
Proof.
  induction eps as [|e eps IH]; intros i o i' o'; cbn [scan_endpoints]; [intros [= <- <-]; auto|].
  unfold bulk_endpoint in *. setoid_rewrite elem_of_cons.
  destruct (endpoint_TransferType e) eqn:Ht; [destruct (endpoint_Direction e) eqn:Hd|];
    intros [H1 H2]%IH; (split; [clear H2; rename H1 into Hr|clear H1; rename H2 into Hr]);
    destruct Hr as [Hr|(x & Hx & Hb & Hn)]; try (right; exists x; by auto);
    try destruct (_ <? 0); auto; right; exists e; auto.
Qed.

Lemma scan_endpoints_keeps eps : forall i o, 
  (0 <= i -> 0 <= (scan_endpoints eps i o).1) /\ (0 <= o -> 0 <= (scan_endpoints eps i o).2).
Proof.
  induction eps as [|e eps IH]; intros i o; cbn [scan_endpoints]; [done|].
  destruct (endpoint_TransferType e); [destruct (endpoint_Direction e)|]; [..|apply IH].
  - destruct (IH (if i <? 0 then endpoint_Number e else i) o) as [H1 H2].
    split; [|done]. intros Hi. apply H1. destruct (Z.ltb_spec i 0); lia.
  - destruct (IH i (if o <? 0 then endpoint_Number e else o)) as [H1 H2].
    split; [done|]. intros Ho. apply H2. destruct (Z.ltb_spec o 0); lia.
Qed.

Lemma scan_endpoints_complete eps : forall i o,
  ((exists e, e ∈ eps /\ bulk_endpoint EndpointDirectionIn e /\ 0 <= endpoint_Number e) ->
    0 <= (scan_endpoints eps i o).1) /\
  ((exists e, e ∈ eps /\ bulk_endpoint EndpointDirectionOut e /\ 0 <= endpoint_Number e) ->
    0 <= (scan_endpoints eps i o).2).
Proof.
  induction eps as [|e eps IH]; intros i o; cbn [scan_endpoints].
  { split; intros (x & Hx%elem_of_nil & _); done. }
  split; intros (x & [->|Hx]%elem_of_cons & [Ht Hd] & Hn).
  1: rewrite Ht, Hd; apply scan_endpoints_keeps; destruct (Z.ltb_spec i 0); lia.
  2: rewrite Ht, Hd; apply scan_endpoints_keeps; destruct (Z.ltb_spec o 0); lia.
  all: destruct (endpoint_TransferType e); [destruct (endpoint_Direction e)|]; apply IH; by exists x.
Qed.

Lemma first_found_sound {A B} (f : A -> option B) l b :
  first_found f l = Some b -> exists a, a ∈ l /\ f a = Some b.
Proof.
  induction l as [|a l IH]; simpl; [done|]. destruct (f a) eqn:Ha.
  - intros [= <-]. exists a. split; [by left|done].
  - intros (x & ? & ?)%IH. exists x. split; [by right|done].
Qed.

Lemma first_found_complete {A B} (f : A -> option B) l a :
  a ∈ l -> is_Some (f a) -> is_Some (first_found f l).
Proof.
  induction l as [|x l IH]; intros Hin Hf; [by apply elem_of_nil in Hin|].
  simpl. destruct (f x) eqn:Hx; [done|]. apply elem_of_cons in Hin as [->|Hin]; [|by apply IH].
  rewrite Hx in Hf. by destruct Hf.
Qed.

(** A setting that has both endpoints. *)
Definition has_bulk (setting : InterfaceSetting) (dir : EndpointDirection) (number : Z) : Prop :=
  exists address e, Endpoints setting !! address = Some e /\ bulk_endpoint dir e /\ endpoint_Number e = number.

Section Endpoints.
Context `{MapOrder, !MapOrderLaws}.

Lemma range_values {V} (m : gmap Z V) v : v ∈ map snd (range m) <-> exists k, m !! k = Some v.
Proof.
  rewrite range_permutation. split.
  - intros ([k w] & -> & Hin)%list_elem_of_fmap. exists k. by apply elem_of_map_to_list.
  - intros [k Hk%elem_of_map_to_list]. apply list_elem_of_fmap. by exists (k, v).
Qed.

Lemma range_keys {V} (m : gmap Z V) k : k ∈ map fst (range m) <-> is_Some (m !! k).
Proof.
  rewrite range_permutation. split.
  - intros ([k' w] & -> & Hin)%list_elem_of_fmap. exists w. by apply elem_of_map_to_list.
  - intros [w Hk%elem_of_map_to_list]. apply list_elem_of_fmap. by exists (k, w).
Qed.

Lemma scan_setting_sound n s f :
  scan_setting n s = Some f ->
  configNumber f = n /\ interfaceNumber f = setting_Number s /\ alternate f = setting_Alternate s /\
  has_bulk s EndpointDirectionIn (inputNumber f) /\ has_bulk s EndpointDirectionOut (outputNumber f).
Proof.
  unfold scan_setting. destruct (scan_endpoints _ _ _) as [i o] eqn:Hs.
  destruct (Z.leb_spec 0 i), (Z.leb_spec 0 o); [|done..]. intros [= <-]. cbn.
  apply scan_endpoints_sound in Hs as [[->|(e1 & Hin1 & ? & ?)] [->|(e2 & Hin2 & ? & ?)]]; try lia.
  apply range_values in Hin1 as [k1 ?], Hin2 as [k2 ?].
  split_and!; try done; [by exists k1, e1|by exists k2, e2].
Qed.

Lemma scan_setting_complete n s i o :
  has_bulk s EndpointDirectionIn i -> has_bulk s EndpointDirectionOut o -> 0 <= i -> 0 <= o ->
  is_Some (scan_setting n s).
Proof.
  intros (k1 & e1 & Hk1 & ? & <-) (k2 & e2 & Hk2 & ? & <-) Hi Ho. unfold scan_setting.
  destruct (scan_endpoints_complete (map snd (range (Endpoints s))) (-1) (-1)) as [Hin Hout].
  destruct (scan_endpoints _ _ _) as [i' o']. cbn in *.
  destruct (Z.leb_spec 0 i'), (Z.leb_spec 0 o'); [by eexists| | |].
  all: exfalso; first
    [ assert (0 <= i') by (apply Hin; exists e1; split; [apply range_values; by eexists|done]); lia
    | assert (0 <= o') by (apply Hout; exists e2; split; [apply range_values; by eexists|done]); lia ].
Qed.

Lemma findBulkEndpoints_sound desc f :
  findBulkEndpoints desc = Some f ->
  exists cfg ifs s, Configs desc !! configNumber f = Some cfg /\ ifs ∈ cfg /\ s ∈ ifs /\
    interfaceNumber f = setting_Number s /\ alternate f = setting_Alternate s /\
    has_bulk s EndpointDirectionIn (inputNumber f) /\ has_bulk s EndpointDirectionOut (outputNumber f).
Proof.
  intros (n & _ & Hn)%first_found_sound. destruct (Configs desc !! n) as [cfg|] eqn:Hc; [|done].
  apply first_found_sound in Hn as (ifs & Hifs & Hn). apply first_found_sound in Hn as (s & Hs & Hn).
  apply scan_setting_sound in Hn as (<- & ? & ? & ? & ?). by exists cfg, ifs, s.
Qed.

Lemma findBulkEndpoints_complete desc n cfg ifs s i o :
  Configs desc !! n = Some cfg -> ifs ∈ cfg -> s ∈ ifs ->
  has_bulk s EndpointDirectionIn i -> has_bulk s EndpointDirectionOut o -> 0 <= i -> 0 <= o ->
  is_Some (findBulkEndpoints desc).
Proof.
  intros Hc Hifs Hs Hi Ho Hi0 Ho0. apply (first_found_complete _ _ n).
  - rewrite merge_sort_Permutation. apply range_keys. by eexists.
  - cbv beta. unfold ConfigDesc, InterfaceDesc in *. rewrite Hc. apply (first_found_complete _ _ ifs); [done|].
    apply (first_found_complete _ _ s); [done|]. by eapply scan_setting_complete.
Qed.
End Endpoints.

(** ** Properties *)

(** C20: no operation leaks a USB handle.  From any state in which the open
    handles are those of the current session, [Transaction] ends, without a
    panic, in such a state again, whatever the device and the library answer; a
    successful transaction returns exactly the requested number of bytes, and a
    failure that makes the session unusable drops the session. *)
Theorem transaction_keeps_handles {E} `{Clock E, Gousb E, UsbHandles E, !ClockLaws E, !GousbLaws E}
    `{MapOrder, GousbText} (t : Ch341Transport E) a w n :
  transport_inv t ->
  exists r t', transact a w n t = Some (r, t') /\ transport_inv t' /\ closed t' = closed t /\
    match r with
    | Ok response => len response = n /\ is_Some (session t')
    | Err err => shouldInvalidateSession err = true -> session t' = None
    end.
Proof.
  intros Hinv. destruct (transact_wp t a w n Hinv) as (r & t' & Heq & _ & Hpost & _ & Hcl & Hr).
  by exists r, t'.
Qed.

(** The interface cannot be claimed, then the device opens on a second attempt
    that fails in the middle of the transfer. *)
Example transaction_keeps_handles_witness :
  let t := demo_transport [None; None; Some (UsbFault UsbErrorBusy)] in
  exists r t', transact 0x11 [0x30] 2 t = Some (r, t') /\ transport_inv t' /\ closed t' = closed t /\
    match r with
    | Ok response => len response = 2 /\ is_Some (session t')
    | Err err => shouldInvalidateSession err = true -> session t' = None
    end.
Proof. apply transaction_keeps_handles, demo_inv. Defined.

(** [InspectUSB] ends without a panic and leaves no handle open but those of
    the session, which it may open but never closes or replaces. *)
Theorem inspection_keeps_handles {E} `{Clock E, Gousb E, UsbHandles E, !ClockLaws E, !GousbLaws E}
    `{MapOrder, GousbText} (t : Ch341Transport E) includeDeviceStrings :
  transport_inv t ->
  exists status t', InspectUSB includeDeviceStrings t = Some (Ok status, t') /\ transport_inv t' /\
    closed t' = closed t /\ forall s, session t = Some s -> session t' = Some s.
Proof.
  intros Hinv.
  destruct (InspectUSB_wp includeDeviceStrings t Hinv) as (r & t' & Heq & _ & Hinv' & _ & Hcl & Hs & [status ->]).
  by exists status, t'.
Qed.

Example inspection_keeps_handles_witness :
  let t := demo_transport [] in
  exists status t', InspectUSB true t = Some (Ok status, t') /\ transport_inv t' /\
    closed t' = closed t /\ forall s, session t = Some s -> session t' = Some s.
Proof. apply inspection_keeps_handles, demo_inv. Defined.

(** [Close] gives every handle back and is final: afterwards no transaction
    opens a device any more. *)
Theorem close_releases_handles {E} `{Clock E, Gousb E, UsbHandles E, !ClockLaws E, !GousbLaws E}
    `{MapOrder, GousbText} (t : Ch341Transport E) a w n :
  transport_inv t ->
  exists o t', Close t = Some (Ok o, t') /\ handles (context t') = ∅ /\ session t' = None /\
    exists err, transact a w n t' = Some (Err err, t').
Proof.
  intros Hinv. destruct (Close_wp ∅ t Hinv) as (r & t' & Heq & _ & [o ->] & Hinv' & _ & Hcl & Hs).
  exists o, t'. split_and!; [done|by rewrite (inv_handles t' Hinv'), Hs|done|]. unfold transact.
  destruct (encodeTransaction a w n) as [stream|err]; [|by exists err].
  eexists. apply io_bind_err. unfold currentSession.
  erewrite io_bind_ok; [|reflexivity]. by rewrite Hcl.
Qed.

Example close_releases_handles_witness :
  let t := demo_transport [] in
  exists o t', Close t = Some (Ok o, t') /\ handles (context t') = ∅ /\ session t' = None /\
    exists err, transact 0x11 [0x30] 2 t' = Some (Err err, t').
Proof. apply close_releases_handles, demo_inv. Defined.

(** The list of USB devices does not depend on the order in which Go visits
    the map of descriptors. *)
Theorem usb_listing_order {E} `{Clock E, Gousb E} (o1 o2 : MapOrder)
    `{!@MapOrderLaws o1, !@MapOrderLaws o2} (t : Ch341Transport E) includeDeviceStrings :
  @enumerateUSB E _ o1 includeDeviceStrings t = @enumerateUSB E _ o2 includeDeviceStrings t.
Proof.
  unfold enumerateUSB, io_bind. pose proof (describe_keyed includeDeviceStrings t) as Hk.
  destruct (describe_devices includeDeviceStrings t) as [[[m|err] t']|]; try done.
  unfold io_ret. by rewrite (list_devices_order o1 o2 m (Hk m t' eq_refl)).
Qed.

Example usb_listing_order_witness :
  @enumerateUSB _ _ stored_order true (demo_transport [])
  = @enumerateUSB _ _ reversed_order true (demo_transport []).
Proof.
  apply (@usb_listing_order _ _ _ stored_order reversed_order stored_order_laws reversed_order_laws).
Defined.

(** C14: [findBulkEndpoints] only returns an existing setting with a bulk IN and a
    bulk OUT endpoint of the returned numbers, in whatever order Go visits its maps,
    and finds one whenever some setting has both (with numbers that are not
    negative, as the code takes a negative number for none found yet). *)
Theorem find_bulk_endpoints_spec `{MapOrder, !MapOrderLaws} desc :
  match findBulkEndpoints desc with
  | Some f => exists cfg ifs s, Configs desc !! configNumber f = Some cfg /\ ifs ∈ cfg /\ s ∈ ifs /\
      interfaceNumber f = setting_Number s /\ alternate f = setting_Alternate s /\
      has_bulk s EndpointDirectionIn (inputNumber f) /\ has_bulk s EndpointDirectionOut (outputNumber f)
  | None => forall n cfg ifs s i o, Configs desc !! n = Some cfg -> ifs ∈ cfg -> s ∈ ifs ->
      has_bulk s EndpointDirectionIn i -> has_bulk s EndpointDirectionOut o -> i < 0 \/ o < 0
  end.
Proof.
  destruct (findBulkEndpoints desc) as [f|] eqn:Hf; [by apply findBulkEndpoints_sound|].
  intros n cfg ifs s i o Hc Hifs Hs Hi Ho.
  destruct (Z.lt_ge_cases i 0); [by left|]. destruct (Z.lt_ge_cases o 0); [by right|].
  destruct (findBulkEndpoints_complete desc n cfg ifs s i o) as [f Hf']; try done. congruence.
Qed.

Example find_bulk_endpoints_spec_witness :
  match @findBulkEndpoints stored_order bridge_desc with
  | Some f => exists cfg ifs s, Configs bridge_desc !! configNumber f = Some cfg /\ ifs ∈ cfg /\ s ∈ ifs /\
      interfaceNumber f = setting_Number s /\ alternate f = setting_Alternate s /\
      has_bulk s EndpointDirectionIn (inputNumber f) /\ has_bulk s EndpointDirectionOut (outputNumber f)
  | None => forall n cfg ifs s i o, Configs bridge_desc !! n = Some cfg -> ifs ∈ cfg -> s ∈ ifs ->
      has_bulk s EndpointDirectionIn i -> has_bulk s EndpointDirectionOut o -> i < 0 \/ o < 0
  end.
Proof. apply (@find_bulk_endpoints_spec stored_order stored_order_laws). Defined.

(** C37: the transfer timeout of an accepted transaction is one second more than
    the time the bytes need on the wire at nine bits each, rounded up to a
    nanosecond, and its 64-bit arithmetic does not overflow. *)
Theorem transfer_timeout_bounds w n speed :
  0 <= w <= maxTransactionBytes -> 0 <= n <= maxTransactionBytes -> validSpeed speed = true ->
  let bits := (w + n + 8) * 9 in
  let timeout := minimumTransferTimeout w n speed in
  bits * Second <= (timeout - Second) * (speed * 1000) < bits * Second + speed * 1000 /\
  bits * Second + speed * 1000 - 1 < 2 ^ 63.
Proof.
  unfold maxTransactionBytes. intros Hw Hn Hs. unfold minimumTransferTimeout, defaultTransferTimeout.
  assert (Hsp : 20 <= speed <= 750).
  { unfold validSpeed in Hs. zcases; lia. }
  cbv zeta. set (b := (w + n + 8) * 9). assert (0 <= b <= 1179702) by (subst b; lia).
  unfold Second. rewrite Z.quot_div_nonneg by lia.
  set (x := b * 1000000000 + speed * 1000 - 1). set (d := speed * 1000).
  pose proof (Z.div_mod x d ltac:(subst d; lia)). pose proof (Z.mod_pos_bound x d ltac:(subst d; lia)).
  assert (0 <= x / d) by (apply Z.div_pos; subst x d; lia).
  rewrite Z.max_r by lia. replace (x / d + 1000000000 - 1000000000) with (x / d) by lia.
  assert (x = b * 1000000000 + d - 1) by (subst x d; lia). split; [nia|lia].
Qed.

Example transfer_timeout_bounds_witness :
  let timeout := minimumTransferTimeout 0 128 100 in
  1224 * Second <= (timeout - Second) * 100000 < 1224 * Second + 100000 /\ 1224 * Second + 100000 - 1 < 2 ^ 63.
Proof. apply (transfer_timeout_bounds 0 128 100); (reflexivity || (vm_compute; split; discriminate)). Defined.
