(* ===== verification/Ch341Steps.v ===== *)
(** * The transport under concurrent calls

    Goroutines that call [Transaction], [InspectUSB] and [Close] interleave at
    the two mutexes and at every call of the USB library outside [sessionMu].
    Both mutexes are state: to lock, to unlock and the code in between are actions
    of their own, so a goroutine can hold one while it waits for the other.  What
    is done under [sessionMu] (opening, dropping or closing the session) is one
    action of its holder; a bulk transfer, the pause before a read, and each call
    of the device enumeration are actions of their own.  Between any two actions
    the device and the library may change ([TEnv]). *)

From S2P Require Import Prelude Errors Stream Encoder Config Effects Usb Ch341 Ch341Prog Ch341Own.
From S2P Require Import Ch341Facts Ch341Ops.

Open Scope string_scope.
Open Scope list_scope.
Open Scope Z_scope.
Open Scope go_scope.

(** The points of the three methods: what is left of [execute] and of
    [enumerateUSB] is a tree of calls. *)
Inductive tpc (E : Type) :=
  | TStart (address7Bit : Z) (writeData : list Z) (readLength : Z)
  | TLocked (stream : list Z) (writeLength readLength : Z)
  | TOpen (stream : list Z) (writeLength readLength : Z)
  | TOpened (r : result ch341Session) (stream : list Z) (writeLength readLength : Z)
  | TExec (s : ch341Session) (todo : usb_prog E (list Z))
  | TFail (s : ch341Session) (err : goerror)
  | TDrop (s : ch341Session) (err : goerror)
  | TDropped (err : goerror)
  | TUnlock (r : result (list Z))
  | TDone (r : result (list Z))
  | IStart (includeDeviceStrings : bool)
  | IScan (todo : usb_prog E (list USBDeviceInfo * bool))
  | IFound (found : list USBDeviceInfo * bool)
  | ISession (found : list USBDeviceInfo * bool)
  | IUnlock (status : USBStatus)
  | IDone (status : USBStatus)
  | CStart
  | CLocked
  | CClose
  | CClosed (err : option goerror)
  | CUnlock (err : option goerror)
  | CDone (err : option goerror).
Arguments TStart {E}.
Arguments TLocked {E}.
Arguments TOpen {E}.
Arguments TOpened {E}.
Arguments TExec {E}.
Arguments TFail {E}.
Arguments TDrop {E}.
Arguments TDropped {E}.
Arguments TUnlock {E}.
Arguments TDone {E}.
Arguments IStart {E}.
Arguments IScan {E}.
Arguments IFound {E}.
Arguments ISession {E}.
Arguments IUnlock {E}.
Arguments IDone {E}.
Arguments CStart {E}.
Arguments CLocked {E}.
Arguments CClose {E}.
Arguments CClosed {E}.
Arguments CUnlock {E}.
Arguments CDone {E}.

(** The goroutine holds [ioMu]. *)
Definition holds_io {E} (p : tpc E) : bool :=
  match p with
  | TLocked _ _ _ | TOpen _ _ _ | TOpened _ _ _ _ | TExec _ _ | TFail _ _ | TDrop _ _ | TDropped _ | TUnlock _ => true
  | CLocked | CClose | CClosed _ | CUnlock _ => true
  | _ => false
  end.

(** It holds [sessionMu]. *)
Definition holds_session {E} (p : tpc E) : bool :=
  match p with
  | TOpen _ _ _ | TOpened _ _ _ _ | TDrop _ _ | TDropped _ | ISession _ | IUnlock _ | CClose | CClosed _ => true
  | _ => false
  end.

(** The session it works on. *)
Definition in_use {E} (p : tpc E) : option ch341Session :=
  match p with TOpened (Ok s) _ _ _ | TExec s _ | TFail s _ | TDrop s _ => Some s | _ => None end.

Definition starting {E} (p : tpc E) : bool :=
  match p with TStart _ _ _ | IStart _ | CStart => true | _ => false end.
Definition finished {E} (p : tpc E) : bool :=
  match p with TDone _ | IDone _ | CDone _ => true | _ => false end.
Definition scanning {E} (p : tpc E) : bool := match p with IScan _ => true | _ => false end.

(** The two mutexes, with the goroutine that holds each. *)
Record mutexes := Mutexes { ioMu : option nat; sessionMu : option nat }.

#[export] Instance mutexes_eq_dec : EqDecision mutexes.
Proof. solve_decision. Defined.

Definition unlocked : mutexes := Mutexes None None.

Definition lock_io (tid : nat) (m : mutexes) : option mutexes :=
  match ioMu m with None => Some (Mutexes (Some tid) (sessionMu m)) | Some _ => None end.
Definition unlock_io (m : mutexes) : mutexes := Mutexes None (sessionMu m).
Definition lock_session (tid : nat) (m : mutexes) : option mutexes :=
  match sessionMu m with None => Some (Mutexes (ioMu m) (Some tid)) | Some _ => None end.
Definition unlock_session (m : mutexes) : mutexes := Mutexes (ioMu m) None.

Section Steps.
Context {E : Type} `{Clock E, Gousb E, MapOrder, GousbText}.

Abbreviation T := (Ch341Transport E).
Implicit Types p : tpc E.

Record tstate := MkTState { tr : T; mu : mutexes; calls : gmap nat (tpc E) }.

(** One call of a tree. *)
Definition prog_step {A} (m : usb_prog E A) (t : T) : option (usb_prog E A * T) :=
  match m with
  | PCall f k => let '(x, e) := f (context t) in Some (k x, set_context e t)
  | _ => None
  end.

(** One action of goroutine [tid]: the transport, the mutexes, the next point. *)
Definition act (tid : nat) (t : T) (m : mutexes) p : option (T * mutexes * tpc E) :=
  match p with
  | TStart a w n =>
      match encodeTransaction a w n with
      | Err err => Some (t, m, TDone (Err err))
      | Ok stream => m ← lock_io tid m; Some (t, m, TLocked stream (len w) n)
      end
  | TLocked stream w n => m ← lock_session tid m; Some (t, m, TOpen stream w n)
  | TOpen stream w n =>
      match currentSession t with
      | Some (r, t) => Some (t, m, TOpened r stream w n)
      | None => None
      end
  | TOpened (Ok s) stream w n => Some (t, unlock_session m, TExec s (execute_calls (i2c_speed t) s stream w n))
  | TOpened (Err err) _ _ _ => Some (t, unlock_session m, TUnlock (Err err))
  | TExec s (PDone (Ok response)) => Some (t, m, TUnlock (Ok response))
  | TExec s (PDone (Err err)) =>
      Some (t, m, if shouldInvalidateSession err then TFail s err else TUnlock (Err err))
  | TExec s todo =>
      match prog_step todo t with Some (todo, t) => Some (t, m, TExec s todo) | None => None end
  | TFail s err => m ← lock_session tid m; Some (t, m, TDrop s err)
  | TDrop s err =>
      match invalidateSession s t with
      | Some (_, t) => Some (t, m, TDropped err)
      | None => None
      end
  | TDropped err => Some (t, unlock_session m, TUnlock (Err err))
  | TUnlock r => Some (t, unlock_io m, TDone r)
  | IStart b => Some (t, m, IScan (enumerateUSB_calls t b))
  | IScan (PDone (Ok found)) => Some (t, m, IFound found)
  | IScan todo =>
      match prog_step todo t with Some (todo, t) => Some (t, m, IScan todo) | None => None end
  | IFound found =>
      if found.2 : bool then m ← lock_session tid m; Some (t, m, ISession found)
      else
        match inspect_session found t with
        | Some (Ok status, t) => Some (t, m, IDone status)
        | _ => None
        end
  | ISession found =>
      match inspect_session found t with
      | Some (Ok status, t) => Some (t, m, IUnlock status)
      | _ => None
      end
  | IUnlock status => Some (t, unlock_session m, IDone status)
  | CStart => m ← lock_io tid m; Some (t, m, CLocked)
  | CLocked => m ← lock_session tid m; Some (t, m, CClose)
  | CClose =>
      match Close t with
      | Some (Ok err, t) => Some (t, m, CClosed err)
      | _ => None
      end
  | CClosed err => Some (t, unlock_session m, CUnlock err)
  | CUnlock err => Some (t, unlock_io m, CDone err)
  | TDone _ | IDone _ | CDone _ => None
  end.

(** [TReturn]: the caller goes on. *)
Inductive tlabel :=
  | TSpawn (tid : nat) (p : tpc E)
  | TAct (tid : nat)
  | TReturn (tid : nat)
  | TEnv (e : E).

Definition tstep (l : tlabel) (st : tstate) : option tstate :=
  match l with
  | TSpawn tid p =>
      match calls st !! tid with
      | None => if starting p then Some (MkTState (tr st) (mu st) (<[tid := p]> (calls st))) else None
      | Some _ => None
      end
  | TAct tid =>
      match calls st !! tid with
      | Some p =>
          match act tid (tr st) (mu st) p with
          | Some (t, m, p) => Some (MkTState t m (<[tid := p]> (calls st)))
          | None => None
          end
      | None => None
      end
  | TReturn tid =>
      match calls st !! tid with
      | Some p => if finished p then Some (MkTState (tr st) (mu st) (delete tid (calls st))) else None
      | None => None
      end
  | TEnv e => Some (MkTState (set_context e (tr st)) (mu st) (calls st))
  end.

Fixpoint trun (ls : list tlabel) (st : tstate) : option tstate :=
  match ls with
  | [] => Some st
  | l :: ls => match tstep l st with Some st => trun ls st | None => None end
  end.

(** ** Every call ends

    A goroutine's next point has less left to do. *)
Definition follows (p' p : tpc E) : Prop := exists tid t m t' m', act tid t m p = Some (t', m', p').

(** The points between which no call is made. *)
Definition stage p : nat :=
  match p with
  | TStart _ _ _ => 8 | TLocked _ _ _ => 7 | TOpen _ _ _ => 6 | TOpened _ _ _ _ => 5 | TExec _ _ => 4
  | TFail _ _ => 3 | TDrop _ _ => 2 | TDropped _ => 1 | TUnlock _ => 0
  | IStart _ => 4 | IScan _ => 3 | IFound _ => 2 | ISession _ => 1 | IUnlock _ => 0
  | CStart => 4 | CLocked => 3 | CClose => 2 | CClosed _ => 1 | CUnlock _ => 0
  | TDone _ | IDone _ | CDone _ => 0
  end.

Definition order p : nat := if finished p then 0%nat else S (stage p).

(** A step goes down in the stages, or stays and takes a call of the tree. *)
Lemma act_order tid t m p t' m' p' :
  act tid t m p = Some (t', m', p') ->
  match p with
  | TExec s (PCall f k) => exists x, p' = TExec s (k x)
  | IScan (PCall f k) => exists x, p' = IScan (k x)
  | _ => (order p' < order p)%nat
  end.
Proof.
  destruct p as [a w n|? ? ?|? ? ?|[s|err] ? ? ?|s [[response|err]|X f k|]|s err|s err|err|r|r|b
    |[[found|err]|X f k|]|found|found|status|status| | | |err|err|err]; cbn [act prog_step];
    unfold lock_io, lock_session; intros Ha.
  1: destruct (encodeTransaction a w n).
  all: try match goal with |- context [IFound ?f] => destruct f as [? [|]] end.
  all: try (simplify_option_eq; repeat case_match; simplify_eq; unfold order; cbn; repeat case_match; cbn; lia).
  - destruct (f (context t)) as [x e]. simplify_eq. by exists x.
  - destruct (f (context t)) as [x e]. simplify_eq. by exists x.
Qed.

Lemma follows_wf p : Acc follows p.
Proof.
  remember (order p) as n eqn:Hn. revert p Hn. induction (lt_wf n) as [n _ IH]. intros p ->.
  assert (Hlow : forall q, (order q < order p)%nat -> Acc follows q) by (intros q Hq; by eapply IH).
  assert (Hexec : forall s todo, order p = order (TExec s todo) -> Acc follows (TExec s todo)).
  { intros s todo Ho. induction todo as [r|X f k IHk|]; constructor;
      intros p' (tid & t & m & t' & m' & Ha%act_order); try (apply Hlow; by rewrite Ho).
    destruct Ha as [x ->]. by apply IHk. }
  assert (Hscan : forall todo, order p = order (IScan todo) -> Acc follows (IScan todo)).
  { intros todo Ho. induction todo as [r|X f k IHk|]; constructor;
      intros p' (tid & t & m & t' & m' & Ha%act_order); try (apply Hlow; by rewrite Ho).
    destruct Ha as [x ->]. by apply IHk. }
  destruct p; try (by apply Hexec); try (by apply Hscan); constructor;
    intros p' (tid & t & m & t' & m' & Ha%act_order); by apply Hlow.
Qed.

(** So do all of them together. *)
Definition goes (st' st : tstate) : Prop := exists tid, tstep (TAct tid) st = Some st'.

Lemma goes_wf st : Acc goes st.
Proof.
  remember (calls st) as m eqn:Hm. revert st Hm.
  induction (at_key_wf follows m follows_wf) as [m _ IH]. intros st ->.
  constructor. intros st' [tid Hstep]. cbn [tstep] in Hstep.
  destruct (calls st !! tid) as [p|] eqn:Hp; [|done].
  destruct (act tid (tr st) (mu st) p) as [[[t m'] p']|] eqn:Ha; [|done]. simplify_eq.
  eapply IH; [|reflexivity]. exists tid, p, p'. split_and!; [done| |done]. by eexists _, _, _, _, _.
Qed.
End Steps.
Arguments tstate : clear implicits.
Arguments tlabel : clear implicits.
