(* ===== verification/Ch341Inter.v ===== *)
(** * Concurrent calls do not disturb each other's handles

    The invariant of the reachable states of [Ch341Steps]: the open handles are
    those of the session and those of the devices that running enumerations have
    open, without overlap.  The properties follow: a session in use stays open,
    nothing blocks for ever, and a call that is not interrupted does what the
    sequential operation of [Ch341] does. *)

From S2P Require Import Prelude Errors Stream Encoder Config Effects Usb Ch341 Ch341Prog Ch341Own.
From S2P Require Import Ch341Facts Ch341Ops Bus Bridge BridgeLaws Ch341Props Ch341Steps.

Open Scope string_scope.
Open Scope list_scope.
Open Scope Z_scope.
Open Scope go_scope.

Section Shares.
Context {E : Type} `{Clock E, Gousb E, UsbHandles E, !ClockLaws E, !GousbLaws E}.
Context `{MapOrder, GousbText}.

Abbreviation T := (Ch341Transport E).

Definition update (own : nat -> list device) (tid : nat) (devs : list device) : nat -> list device :=
  fun k => if decide (k = tid) then devs else own k.

Lemma update_eq own tid devs : update own tid devs tid = devs.
Proof. unfold update. by rewrite decide_True. Qed.

Lemma update_ne own tid devs k : k <> tid -> update own tid devs k = own k.
Proof. intros Hk. unfold update. by rewrite decide_False. Qed.

Lemma update_same own tid k : update own tid (own tid) k = own k.
Proof. destruct (decide (k = tid)) as [->|]; [apply update_eq|by apply update_ne]. Qed.

(** A device is open somewhere after the update: it is one of [devs] or another
    goroutine's. *)
Lemma update_elem own tid devs k d :
  d ∈ update own tid devs k <-> (k = tid /\ d ∈ devs) \/ (k <> tid /\ d ∈ own k).
Proof.
  destruct (decide (k = tid)) as [->|Hk]; [rewrite update_eq|rewrite update_ne by done]; naive_solver.
Qed.

(** [own tid] are the devices that goroutine [tid]'s enumeration has open. *)
Record shares (own : nat -> list device) (t : T) : Prop := {
  s_split h : h ∈ handles (context t) <->
    h ∈ owned (session t) \/ exists tid d, d ∈ own tid /\ h = device_handle d;
  s_session s : session t = Some s -> session_wf s;
  s_closed : closed t = true -> session t = None;
  s_own tid : owns (own tid) (handles (context t));
  s_disjoint tid tid' d d' : tid <> tid' -> d ∈ own tid -> d' ∈ own tid' -> dev_handle d <> dev_handle d';
}.

Lemma shares_ext own own' t : (forall tid, own' tid = own tid) -> shares own t -> shares own' t.
Proof.
  intros Heq [Hsp Hse Hcl Ho Hd]. constructor; [|done|done| |].
  - intros h. rewrite Hsp. split; (intros [?|(tid & d & ? & ?)]; [by left|right; exists tid, d]);
      [by rewrite Heq|by rewrite <- Heq].
  - intros tid. by rewrite Heq.
  - intros tid tid' d d'. rewrite !Heq. apply Hd.
Qed.

Lemma shares_context own t e : shares own t -> handles e = handles (context t) -> shares own (set_context e t).
Proof. intros [? ? ? ? ?] He. constructor; cbn; rewrite ?He; try done. Qed.

Lemma shares_update_nil own tid t : own tid = [] -> shares own t -> shares (update own tid []) t.
Proof. intros Hnil. apply shares_ext. intros k. rewrite <- Hnil. apply update_same. Qed.

Lemma shares_new t : transport_inv t -> shares (fun _ => []) t.
Proof.
  intros Ht. constructor.
  - intros h. rewrite (inv_handles t Ht). split; [by left|]. by intros [|(tid & d & ?%elem_of_nil & _)].
  - intros s. by apply inv_session.
  - by apply inv_closed.
  - intros tid. apply owns_nil.
  - intros tid tid' d d' _ ?%elem_of_nil. done.
Qed.

Lemma session_number s h : session_wf s -> h ∈ session_handles s -> handle_of_device h = dev_handle (session_device s).
Proof.
  intros [Hc Hi]. unfold session_handles. rewrite !elem_of_union, !elem_of_singleton.
  intros [[->| ->]| ->]; cbn; [done|done|by rewrite Hi].
Qed.

(** No enumeration has the session's device open under the same handle. *)
Lemma session_apart own t s tid d :
  shares own t -> session t = Some s -> d ∈ own tid -> dev_handle d <> dev_handle (session_device s).
Proof.
  intros [Hsp Hse _ Ho _] Hs Hd Heq. destruct (Hse s Hs) as [Hc _].
  destruct (Ho tid) as [_ Hu]. destruct (Hu d Hd) as [_ Hu'].
  assert (Hin : config_handle (session_config s) ∈ handles (context t)).
  { apply Hsp. left. rewrite Hs. cbn. unfold session_handles. set_solver. }
  apply Hu' in Hin; [done|]. cbn. congruence.
Qed.

(** The enumerations' handles. *)
Definition others (t : T) : gset handle := handles (context t) ∖ owned (session t).

Lemma elem_of_others own t h :
  shares own t -> h ∈ others t <-> exists tid d, d ∈ own tid /\ h = device_handle d.
Proof.
  intros Hsh. unfold others. rewrite elem_of_difference, (s_split own t Hsh). split; [tauto|].
  intros (tid & d & Hd & ->). split; [right; by exists tid, d|]. intros Hin.
  destruct (session t) as [s|] eqn:Hs; [|by apply not_elem_of_empty in Hin].
  pose proof (session_number s _ (s_session own t Hsh s Hs) Hin) as Hn.
  by apply (session_apart own t s tid d Hsh Hs Hd).
Qed.

Lemma shares_inv own t : shares own t -> shared_inv (others t) t.
Proof.
  intros Hsh. pose proof Hsh as [Hsp Hse Hcl Ho _]. constructor; [| |done].
  - unfold others. apply union_difference_L. intros h Hh. apply Hsp. by left.
  - intros s Hs. split; [by apply Hse|]. intros h Hh.
    apply (elem_of_others own) in Hh as (tid & d & Hd & ->); [|done]. by eapply session_apart.
Qed.

(** A section under [sessionMu] keeps the others' devices. *)
Lemma shares_section own t t' : shares own t -> shared_inv (others t) t' -> shares own t'.
Proof.
  intros Hsh [Hh Hs Hc].
  assert (Hoth : forall h, h ∈ others t <-> exists tid d, d ∈ own tid /\ h = device_handle d).
  { intros h. by apply elem_of_others. }
  constructor; [|by intros s [? _]%Hs|done| |apply (s_disjoint own t Hsh)].
  - intros h. by rewrite Hh, elem_of_union, Hoth.
  - intros tid. destruct (s_own own t Hsh tid) as [Hnd Hu]. split; [done|]. intros d Hd.
    assert (Hin : device_handle d ∈ others t) by (apply Hoth; by exists tid, d).
    rewrite Hh. split; [by apply elem_of_union_r|].
    intros h [Hso|Ho]%elem_of_union Hn; [|by apply Hu; [|apply elem_of_difference in Ho as []|]].
    destruct (session t') as [s|] eqn:Hs'; [|by apply not_elem_of_empty in Hso].
    destruct (Hs s eq_refl) as [Hwf Hout]. exfalso.
    apply (Hout _ Hin). rewrite <- (session_number s h Hwf Hso). done.
Qed.

(** A call of an enumeration hands over the goroutine's devices only. *)
Lemma shares_handover own t e tid devs :
  shares own t -> handover (own tid) (handles (context t)) devs (handles e) ->
  shares (update own tid devs) (set_context e t).
Proof.
  intros Hsh Hho. pose proof Hsh as [Hsp Hse Hcl Ho Hd].
  destruct (handover_owns _ _ _ _ (Ho tid) Hho) as [Hnew _].
  remember (own tid) as mine eqn:Hmine. remember (handles (context t)) as H0' eqn:HH.
  remember (handles e) as H1' eqn:HH1.
  destruct Hho as [mine H0'|devs H0' Hnd Hfresh|d devs H0'].
  - subst mine. apply (shares_ext own); [apply update_same|]. apply shares_context; [done|congruence].
  - constructor; cbn; rewrite <- ?HH1; [|done|done| |].
    + intros h. rewrite elem_of_union, elem_of_device_handles, Hsp. setoid_rewrite update_elem. split.
      * intros [(d & -> & Hin)|[Hin|(k & d & Hin & ->)]]; [right; exists tid, d; auto|by left|].
        right. exists k, d. split; [|done]. right. split; [|done]. intros ->.
        rewrite <- Hmine in Hin. by apply elem_of_nil in Hin.
      * intros [Hin|(k & d & [[_ Hin]|[_ Hin]] & ->)]; [by right; left|left; by exists d|].
        right. right. by exists k, d.
    + intros k. destruct (decide (k = tid)) as [->|Hk]; [by rewrite update_eq|rewrite update_ne by done].
      destruct (Ho k) as [Hndk Huk]. split; [done|]. intros d Hin. destruct (Huk d Hin) as [Hd1 Hd2].
      split; [by apply elem_of_union_r|]. intros h [(d' & -> & Hd')%elem_of_device_handles|Hh]%elem_of_union Hn;
        [|by apply Hd2]. by destruct (Hfresh d' _ Hd' Hd1).
    + intros k k' d d' Hne. rewrite !update_elem.
      assert (Hout : forall k d d', k <> tid -> d ∈ own k -> d' ∈ devs -> dev_handle d <> dev_handle d').
      { intros k0 d0 d0' _ H1' H2' Heq. destruct (Ho k0) as [_ Hu]. destruct (Hu d0 H1') as [Hin _].
        by apply (Hfresh d0' _ H2' Hin). }
      intros [[-> Hk]|[Hk Hk1]] [[-> Hk']|[Hk' Hk1']]; try done.
      * intros Heq. by apply (Hout k' d' d).
      * by apply (Hout k).
      * by apply (Hd k k').
  - assert (Hin : d ∈ own tid) by (rewrite <- Hmine; by left).
    assert (Hnd : NoDup (map dev_handle (d :: devs))) by (rewrite Hmine; apply Ho).
    cbn [map] in Hnd. apply NoDup_cons in Hnd as [Hgone _].
    assert (Hother : forall k d', (k = tid /\ d' ∈ devs) \/ (k <> tid /\ d' ∈ own k) ->
      d' ∈ own k /\ device_handle d' <> device_handle d).
    { intros k d' [[-> Hd']|[Hk Hd']].
      - split; [rewrite <- Hmine; by right|]. intros [= Heq]. apply Hgone. rewrite <- Heq.
        by apply list_elem_of_fmap_2.
      - split; [done|]. intros [= Heq]. by apply (Hd k tid d' d Hk Hd' Hin). }
    constructor; cbn; rewrite <- ?HH1; [|done|done| |].
    + intros h. rewrite elem_of_difference, elem_of_singleton, Hsp. setoid_rewrite update_elem. split.
      * intros [[Hso|(k & d' & Hd' & ->)] Hne]; [by left|]. right. exists k, d'. split; [|done].
        destruct (decide (k = tid)) as [->|]; [|by right]. left. split; [done|].
        rewrite <- Hmine in Hd'. apply elem_of_cons in Hd' as [->|]; [done|done].
      * intros [Hso|(k & d' & Hd' & ->)].
        -- split; [by left|]. intros ->. destruct (session t) as [s|] eqn:Hs; [|by apply not_elem_of_empty in Hso].
           apply (session_apart own t s tid d Hsh Hs Hin).
           by rewrite <- (session_number s _ (Hse s eq_refl) Hso).
        -- apply Hother in Hd' as [Hd' Hne]. split; [|done]. right. by exists k, d'.
    + intros k. destruct (decide (k = tid)) as [->|Hk]; [by rewrite update_eq|rewrite update_ne by done].
      destruct (Ho k) as [Hndk Huk]. split; [done|]. intros d' Hd'. destruct (Huk d' Hd') as [Hd1 Hd2].
      split; [|by intros h [Hh _]%elem_of_difference; apply Hd2].
      apply elem_of_difference. rewrite elem_of_singleton. split; [done|]. apply (Hother k). by right.
    + intros k k' d1 d2 Hne. rewrite !update_elem. intros [H1' _]%Hother [H2' _]%Hother. by apply (Hd k k').
Qed.
End Shares.

(** ** Reachable states *)

Section Safety.
Context {E : Type} `{Clock E, Gousb E, UsbHandles E, !ClockLaws E, !GousbLaws E}.
Context `{MapOrder, GousbText}.

Abbreviation T := (Ch341Transport E).
Abbreviation tstate := (tstate E).

(** What the device does by itself leaves the program's handles alone. *)
Definition env_ok (l : tlabel E) (st : tstate) : Prop :=
  match l with TEnv e => handles e = handles (context (tr st)) | _ => True end.

(** From a new transport. *)
Inductive treachable : tstate -> Prop :=
  | treach_init t : transport_inv t -> treachable (MkTState t unlocked ∅)
  | treach_step st l st' : treachable st -> env_ok l st -> tstep l st = Some st' -> treachable st'.

(** The devices a goroutine at [p] has open, and what is left of its calls. *)
Definition pc_ok (devs : list device) (p : tpc E) : Prop :=
  match p with
  | TExec s todo => devs = [] /\ quietly todo (fun _ => True)
  | IScan todo => does devs todo (fun r devs' => devs' = [] /\ exists found, r = Ok found)
  | _ => devs = []
  end.

(** *** A mutex has one holder

    [holds] tells which points hold it. *)
Definition held_by (holds : tpc E -> bool) (o : option nat) (m : gmap nat (tpc E)) : Prop :=
  (forall tid p, m !! tid = Some p -> holds p = true -> o = Some tid) /\
  (forall tid, o = Some tid -> exists p, m !! tid = Some p /\ holds p = true).

Definition mutex_step (holds : tpc E -> bool) (tid : nat) (o : option nat) (p : tpc E) (o' : option nat)
    (p' : tpc E) : Prop :=
  if holds p' then o' = Some tid /\ (o = None \/ o = Some tid) else if holds p then o' = None else o' = o.

Lemma held_by_other holds o m tid p o' p' k q :
  held_by holds o m -> m !! tid = Some p -> mutex_step holds tid o p o' p' ->
  k <> tid -> m !! k = Some q -> holds q = true -> holds p = false /\ holds p' = false /\ o' = o.
Proof.
  unfold mutex_step. intros [Hh Hl] Hp Hstep Hne Hq Hio. pose proof (Hh k q Hq Hio) as Hk.
  destruct (holds p) eqn:Hpio; [rewrite (Hh tid p Hp Hpio) in Hk; congruence|].
  destruct (holds p'); [|done]. destruct Hstep as [_ [?|?]]; congruence.
Qed.

Lemma held_by_step holds o m tid p o' p' :
  held_by holds o m -> m !! tid = Some p -> mutex_step holds tid o p o' p' -> held_by holds o' (<[tid := p']> m).
Proof.
  intros Hheld Hp Hstep. pose proof Hheld as [Hh Hl]. split.
  - intros k q [[<- <-]|[Hne Hq]]%lookup_insert_Some Hio.
    + unfold mutex_step in Hstep. rewrite Hio in Hstep. by destruct Hstep.
    + destruct (held_by_other _ _ _ _ _ _ _ k q Hheld Hp Hstep) as (_ & _ & ->); [done..|]. by eapply Hh.
  - intros k Hk. unfold mutex_step in Hstep. destruct (decide (k = tid)) as [->|Hne].
    + exists p'. rewrite lookup_insert_eq. split; [done|].
      destruct (holds p') eqn:Hp'; [done|]. destruct (holds p) eqn:Hpio; [congruence|].
      subst o'. destruct (Hl tid Hk) as (q & Hq & ?). congruence.
    + assert (Hk' : o = Some k).
      { destruct (holds p'); [destruct Hstep; congruence|]. destruct (holds p); congruence. }
      destruct (Hl k Hk') as (q & Hq & ?). exists q. by rewrite lookup_insert_ne.
Qed.

Lemma held_by_new holds o m tid p :
  held_by holds o m -> m !! tid = None -> holds p = false -> held_by holds o (<[tid := p]> m).
Proof.
  intros [Hh Hl] Hnone Hp. split.
  - intros k q [[<- <-]|[_ Hq]]%lookup_insert_Some Hio; [congruence|by eapply Hh].
  - intros k Hk. destruct (Hl k Hk) as (q & Hq & ?). exists q. split; [|done].
    rewrite lookup_insert_ne; [done|]. intros <-. congruence.
Qed.

Lemma held_by_gone holds o m tid p :
  held_by holds o m -> m !! tid = Some p -> holds p = false -> held_by holds o (delete tid m).
Proof.
  intros [Hh Hl] Hp Hno. split.
  - intros k q [_ Hq]%lookup_delete_Some Hio. by eapply Hh.
  - intros k Hk. destruct (Hl k Hk) as (q & Hq & ?). exists q. split; [|done].
    apply lookup_delete_Some. split; [|done]. intros <-. congruence.
Qed.

Record tinv (own : nat -> list device) (st : tstate) : Prop := {
  t_shares : shares own (tr st);
  t_pc tid : match calls st !! tid with Some p => pc_ok (own tid) p | None => own tid = [] end;
  t_io : held_by holds_io (ioMu (mu st)) (calls st);
  t_mu : held_by holds_session (sessionMu (mu st)) (calls st);
  t_session tid p s : calls st !! tid = Some p -> in_use p = Some s -> session (tr st) = Some s;
}.

Lemma in_use_holds (p : tpc E) s : in_use p = Some s -> holds_io p = true.
Proof. by destruct p. Qed.

Lemma act_lookup own st tid p : tinv own st -> calls st !! tid = Some p -> pc_ok (own tid) p.
Proof. intros Hinv Hp. pose proof (t_pc own st Hinv tid) as Hpc. by rewrite Hp in Hpc. Qed.

(** The parts of a step's specification: its own devices, the mutexes, the session,
    the time. *)
Record step_ok (own : nat -> list device) (tid : nat) (t : T) (m : mutexes) (p : tpc E)
    (t' : T) (m' : mutexes) (p' : tpc E) : Prop := {
  k_shares : exists devs, shares (update own tid devs) t' /\ pc_ok devs p';
  k_io : mutex_step holds_io tid (ioMu m) p (ioMu m') p';
  k_mu : mutex_step holds_session tid (sessionMu m) p (sessionMu m') p';
  k_use s : in_use p' = Some s -> session t' = Some s;
  k_keep s : session t = Some s -> session t' = Some s \/ holds_io p = true;
  k_time : now (context t) <= now (context t');
  k_closed : closed t = true -> closed t' = true;
}.

(** A step that leaves the goroutine without a device. *)
Lemma step_plain own tid t m p t' m' p' :
  own tid = [] -> shares own t' -> pc_ok [] p' ->
  mutex_step holds_io tid (ioMu m) p (ioMu m') p' -> mutex_step holds_session tid (sessionMu m) p (sessionMu m') p' ->
  (forall s, in_use p' = Some s -> session t' = Some s) ->
  (forall s, session t = Some s -> session t' = Some s \/ holds_io p = true) ->
  now (context t) <= now (context t') -> (closed t = true -> closed t' = true) ->
  step_ok own tid t m p t' m' p'.
Proof.
  intros Hnil Hsh Hpc Hl Hm Hu Hk Ht Hc. constructor; [|done..]. exists []. split; [by apply shares_update_nil|done].
Qed.

(** What the goroutine knows of the mutexes. *)
Definition knows (tid : nat) (m : mutexes) (p : tpc E) : Prop :=
  (holds_io p = true -> ioMu m = Some tid) /\ (holds_session p = true -> sessionMu m = Some tid).

(** A step of a goroutine without a device, from what is known in the context. *)
Ltac idle_step :=
  apply step_plain; cbn; unfold mutex_step; cbn;
  repeat match goal with Hm : true = true -> _ |- _ => specialize (Hm eq_refl) end;
  try congruence; try lia; try (by auto using shares_context); try (by intros ? [=]); try (by intros ? [= <-]).

Lemma act_spec own tid t m p t' m' p' :
  shares own t -> pc_ok (own tid) p -> knows tid m p -> (forall s, in_use p = Some s -> session t = Some s) ->
  act tid t m p = Some (t', m', p') -> step_ok own tid t m p t' m' p'.
Proof.
  intros Hsh Hpc [Hio Hmu] Huse Hact. pose proof (shares_inv own t Hsh) as Hinv.
  destruct p as [a w n|stream w n|stream w n|[s|err] stream w n|s todo|s err|s err|err|r|r|b|todo|found|found|status
    |status| | | |err|err|err]; cbn [act] in Hact; cbn [holds_io holds_session in_use] in *; try done.
  - unfold lock_io in Hact. destruct (encodeTransaction a w n); [destruct (ioMu m) eqn:Hl|]; simplify_eq/=; idle_step.
  - unfold lock_session in Hact. destruct (sessionMu m) eqn:Hl; simplify_eq/=. idle_step.
  - destruct (currentSession_wp _ t Hinv) as (r & t1 & Heq & Hle & Hinv1 & _ & Hcl & Hr). rewrite Heq in Hact.
    simplify_eq. pose proof (shares_section own t t' Hsh Hinv1) as Hsh1. idle_step.
    destruct r as [s|err]; [|by intros ? [=]]. intros s' [= <-]. by destruct Hr.
  - simplify_eq. idle_step. split; [done|]. eapply quietly_mono; [apply execute_calls_quiet|done].
  - simplify_eq. idle_step.
  - destruct Hpc as [Hnil Hq]. specialize (Huse s eq_refl).
    destruct todo as [[response|err]|X f k|]; cbn in Hact; [simplify_eq; idle_step| | |done].
    + simplify_eq. destruct (shouldInvalidateSession err); idle_step.
    + destruct (Hq (context t)) as (Hle & Hh & Hk). destruct (f (context t)) as [x e]. simplify_eq. idle_step.
  - unfold lock_session in Hact. destruct (sessionMu m) eqn:Hl; simplify_eq/=. idle_step.
  - destruct (invalidate_wp _ t s Hinv (Huse s eq_refl)) as (r & t1 & Heq & Hle & -> & Hinv1 & _ & Hcl & _).
    rewrite Heq in Hact. simplify_eq. pose proof (shares_section own t t' Hsh Hinv1). idle_step.
  - simplify_eq. idle_step.
  - simplify_eq. idle_step.
  - simplify_eq. idle_step. apply enumerateUSB_does.
  - destruct todo as [[found|err]|X f k|]; cbn in Hact, Hpc; [|done| |done].
    + simplify_eq. destruct Hpc as [Hnil _]. idle_step.
    + destruct (Hpc (context t) (s_own own t Hsh tid)) as (Hle & devs & Hho & Hk).
      destruct (f (context t)) as [x e]. simplify_eq.
      constructor; cbn; unfold mutex_step; cbn; auto; try (by intros ? [=]).
      exists devs; split; [by apply shares_handover|done].
  - unfold lock_session in Hact. destruct found as [infos [|]]; cbn in Hact.
    + destruct (sessionMu m) eqn:Hl; simplify_eq/=. idle_step.
    + simplify_eq. idle_step.
  - destruct (inspect_session_wp _ found t Hinv) as (r & t1 & Heq & Hle & Hinv1 & _ & Hcl & Hs & [status ->]).
    rewrite Heq in Hact. simplify_eq. pose proof (shares_section own t t' Hsh Hinv1). idle_step.
  - simplify_eq. idle_step.
  - unfold lock_io in Hact. destruct (ioMu m) eqn:Hl; simplify_eq/=. idle_step.
  - unfold lock_session in Hact. destruct (sessionMu m) eqn:Hl; simplify_eq/=. idle_step.
  - destruct (Close_wp _ t Hinv) as (r & t1 & Heq & Hle & [o ->] & Hinv1 & _ & Hcl & _). rewrite Heq in Hact.
    simplify_eq. pose proof (shares_section own t t' Hsh Hinv1). idle_step.
  - simplify_eq. idle_step.
  - simplify_eq. idle_step.
Qed.

Lemma tinv_spawn own st tid p :
  tinv own st -> calls st !! tid = None -> starting p = true ->
  tinv own (MkTState (tr st) (mu st) (<[tid := p]> (calls st))).
Proof.
  intros [Ht Hpc Hi Hm Hs] Hnone Hp. constructor; cbn; [done|..].
  - intros k. destruct (decide (k = tid)) as [->|Hk].
    + rewrite lookup_insert_eq. specialize (Hpc tid). rewrite Hnone in Hpc. by destruct p.
    + rewrite lookup_insert_ne by done. apply Hpc.
  - apply held_by_new; [done..|by destruct p].
  - apply held_by_new; [done..|by destruct p].
  - intros k q s [[<- <-]|[_ Hq]]%lookup_insert_Some Hu; [by destruct p|by eapply Hs].
Qed.

Lemma tinv_return own st tid p :
  tinv own st -> calls st !! tid = Some p -> finished p = true ->
  tinv own (MkTState (tr st) (mu st) (delete tid (calls st))).
Proof.
  intros [Ht Hpc Hi Hm Hs] Hp Hf. constructor; cbn; [done|..].
  - intros k. destruct (decide (k = tid)) as [->|Hk].
    + rewrite lookup_delete_eq. specialize (Hpc tid). rewrite Hp in Hpc. by destruct p.
    + rewrite lookup_delete_ne by done. apply Hpc.
  - eapply held_by_gone; [done..|by destruct p].
  - eapply held_by_gone; [done..|by destruct p].
  - intros k q s [_ Hq]%lookup_delete_Some Hu. by eapply Hs.
Qed.

Lemma tinv_env own st e :
  tinv own st -> handles e = handles (context (tr st)) ->
  tinv own (MkTState (set_context e (tr st)) (mu st) (calls st)).
Proof. intros [Ht Hpc Hi Hm Hs] He. constructor; cbn; [by apply shares_context|done..]. Qed.

Lemma knows_mutexes own st tid p : tinv own st -> calls st !! tid = Some p -> knows tid (mu st) p.
Proof. intros [_ _ [Hi _] [Hm _] _] Hp. split; [by apply Hi|by apply Hm]. Qed.

Lemma tinv_act own st tid p t' m' p' :
  tinv own st -> calls st !! tid = Some p -> act tid (tr st) (mu st) p = Some (t', m', p') ->
  step_ok own tid (tr st) (mu st) p t' m' p' /\
  exists devs, pc_ok devs p' /\ tinv (update own tid devs) (MkTState t' m' (<[tid := p']> (calls st))).
Proof.
  intros Hinv Hp Hact. pose proof Hinv as [Ht Hpc Hi Hm Hs].
  assert (Hok : step_ok own tid (tr st) (mu st) p t' m' p').
  { eapply act_spec; [done|by eapply act_lookup|by eapply knows_mutexes|intros s; by apply (Hs tid)|done]. }
  split; [done|]. destruct Hok as [(devs & Ht' & Hpc') Hio Hmu Huse Hkeep _ _].
  exists devs. split; [done|]. constructor; cbn; [done| |by eapply held_by_step..|].
  - intros k. destruct (decide (k = tid)) as [->|Hk].
    + by rewrite lookup_insert_eq, update_eq.
    + rewrite lookup_insert_ne, update_ne by done. apply Hpc.
  - intros k q s [[<- <-]|[Hne Hq]]%lookup_insert_Some Hu; [by apply Huse|].
    destruct (held_by_other _ _ _ _ _ _ _ k q Hi Hp Hio) as (Hpio & _ & _); [done|done|by eapply in_use_holds|].
    destruct (Hkeep s (Hs k q s Hq Hu)) as [|]; [done|congruence].
Qed.

Lemma treachable_inv st : treachable st -> exists own, tinv own st.
Proof.
  induction 1 as [t Ht|st l st' _ [own IH] Henv Hstep].
  - exists (fun _ => []). constructor; cbn; try done. by apply shares_new.
  - destruct l as [tid p|tid|tid|e]; cbn [tstep] in Hstep.
    + destruct (calls st !! tid) eqn:Hc; [done|]. destruct (starting p) eqn:Hp; [|done].
      simplify_eq. exists own. by apply tinv_spawn.
    + destruct (calls st !! tid) as [p|] eqn:Hc; [|done].
      destruct (act tid (tr st) (mu st) p) as [[[t' m'] p']|] eqn:Ha; [|done].
      simplify_eq. destruct (tinv_act own st tid p t' m' p' IH Hc Ha) as [_ (devs & _ & ?)]. by eexists.
    + destruct (calls st !! tid) as [p|] eqn:Hc; [|done]. destruct (finished p) eqn:Hf; [|done].
      simplify_eq. exists own. by eapply tinv_return.
    + simplify_eq. exists own. by apply tinv_env.
Qed.

(** *** Goroutines that only transfer

    Where nobody enumerates devices, the invariant is that of the sequential
    transport. *)
Definition transacting (p : tpc E) : bool :=
  match p with
  | TStart _ _ _ | TLocked _ _ _ | TOpen _ _ _ | TOpened _ _ _ _ | TExec _ _ | TFail _ _ | TDrop _ _ | TDropped _
  | TUnlock _ | TDone _ => true
  | _ => false
  end.

Definition no_devices : nat -> list device := fun _ => [].

Lemma act_transacting tid t m p t' m' p' :
  act tid t m p = Some (t', m', p') -> transacting p = true -> transacting p' = true.
Proof.
  destruct p as [a w n|? ? ?|? ? ?|[s|err] ? ? ?|s [[response|err]|X f k|]|s err|s err|err|r|r| | | | | | | | | | | |];
    try done; cbn [act prog_step]; unfold lock_io, lock_session; intros Ha _;
    [destruct (encodeTransaction a w n)|..]; repeat (case_match; simplify_option_eq); by simplify_eq.
Qed.

Lemma tinv_ext own own' st : (forall tid, own' tid = own tid) -> tinv own st -> tinv own' st.
Proof.
  intros Heq [Ht Hpc Hi Hm Hs]. constructor; [by eapply shares_ext| |done..]. intros tid. rewrite Heq. apply Hpc.
Qed.

Lemma tinv_transacting st tid p t' m' p' :
  tinv no_devices st -> calls st !! tid = Some p -> act tid (tr st) (mu st) p = Some (t', m', p') ->
  transacting p = true -> tinv no_devices (MkTState t' m' (<[tid := p']> (calls st))).
Proof.
  intros Hinv Hp Ha Htr. destruct (tinv_act _ _ _ _ _ _ _ Hinv Hp Ha) as (_ & devs & Hpc & Hinv').
  pose proof (act_transacting _ _ _ _ _ _ _ Ha Htr) as Htr'.
  assert (devs = []) as -> by (destruct p'; try done; by destruct Hpc).
  eapply tinv_ext; [|exact Hinv']. intros k. symmetry. exact (update_same no_devices tid k).
Qed.

Lemma tinv_transport st : tinv no_devices st -> transport_inv (tr st).
Proof.
  intros [Ht _ _ _ _]. pose proof (shares_inv _ _ Ht) as Hinv.
  assert (Hnil : others (tr st) = ∅).
  { apply set_eq. intros h. rewrite (elem_of_others no_devices) by done. split; [|by intros ?%not_elem_of_empty].
    by intros (tid & d & Hd%elem_of_nil & _). }
  by rewrite Hnil in Hinv.
Qed.

(** What keeps the session of the transfers in progress. *)
Lemma tinv_replace st t' :
  tinv no_devices st -> transport_inv t' ->
  (forall tid p s, calls st !! tid = Some p -> in_use p = Some s -> session t' = Some s) ->
  tinv no_devices (MkTState t' (mu st) (calls st)).
Proof. intros [Ht Hpc Hi Hm Hs] Ht' Hs'. constructor; cbn; [by apply shares_new|done..]. Qed.

Lemma tinv_unlocked own st tid p : tinv own st -> calls st !! tid = Some p -> ioMu (mu st) = None -> in_use p = None.
Proof.
  intros [_ _ [Hi _] _ _] Hp Hnone. destruct (in_use p) as [s|] eqn:Hu; [|done].
  specialize (Hi tid p Hp (in_use_holds p s Hu)). congruence.
Qed.

(** ** Every action a goroutine is ready for can be taken

    The mutex that [p] locks next. *)
Definition wants_io (p : tpc E) : bool := match p with TStart _ _ _ | CStart => true | _ => false end.
Definition wants_session (p : tpc E) : bool :=
  match p with TLocked _ _ _ | TFail _ _ | IFound _ | CLocked => true | _ => false end.

Definition ready (m : mutexes) (p : tpc E) : Prop :=
  (wants_io p = true -> ioMu m = None) /\ (wants_session p = true -> sessionMu m = None).

Lemma act_total own tid t m p :
  shares own t -> pc_ok (own tid) p -> finished p = false -> (forall s, in_use p = Some s -> session t = Some s) ->
  ready m p -> exists t' m' p', act tid t m p = Some (t', m', p').
Proof.
  intros Hsh Hpc Hf Huse [Hio Hmu]. pose proof (shares_inv own t Hsh) as Hinv.
  destruct p as [a w n|stream w n|stream w n|[s|err] stream w n|s todo|s err|s err|err|r|r|b|todo|found|found|status
    |status| | | |err|err|err]; cbn [act]; cbn [wants_io wants_session] in *; unfold lock_io, lock_session;
    rewrite ?(Hio eq_refl), ?(Hmu eq_refl); try done; try by eexists _, _, _.
  - destruct (encodeTransaction a w n); by eexists _, _, _.
  - destruct (currentSession_wp _ t Hinv) as (r & t1 & -> & _); by eexists _, _, _.
  - destruct Hpc as [_ Hq]. destruct todo as [[response|err]|X f k|]; [by eexists _, _, _..| |done].
    cbn. destruct (f (context t)). by eexists _, _, _.
  - destruct (invalidate_wp _ t s Hinv (Huse s eq_refl)) as (r & t1 & -> & _); by eexists _, _, _.
  - destruct todo as [[found|err]|X f k|]; cbn in Hpc; [by eexists _, _, _|by destruct Hpc as [_ [? ?]]| |done].
    cbn. destruct (f (context t)). by eexists _, _, _.
  - destruct found as [infos [|]]; by eexists _, _, _.
  - destruct (inspect_session_wp _ found t Hinv) as (r & t1 & -> & _ & _ & _ & _ & _ & [status ->]); by eexists _, _, _.
  - destruct (Close_wp _ t Hinv) as (r & t1 & -> & _ & [o ->] & _). by eexists _, _, _.
Qed.

Definition has_mutex (tid : nat) (m : mutexes) : Prop := ioMu m = Some tid \/ sessionMu m = Some tid.

(** While a call is unfinished, some goroutine can go on: the holder of
    [sessionMu] waits for nothing, the holder of [ioMu] only for [sessionMu]. *)
Lemma tinv_goes own st tid p :
  tinv own st -> calls st !! tid = Some p -> finished p = false ->
  exists k q, calls st !! k = Some q /\ is_Some (tstep (TAct k) st) /\ (mu st = unlocked \/ has_mutex k (mu st)).
Proof.
  intros Hinv Hp Hf. pose proof Hinv as [Ht Hpc [Hi Hil] [Hm Hml] Hs].
  assert (Hgo : forall k q, calls st !! k = Some q -> finished q = false -> ready (mu st) q ->
    mu st = unlocked \/ has_mutex k (mu st) ->
    exists k q, calls st !! k = Some q /\ is_Some (tstep (TAct k) st) /\ (mu st = unlocked \/ has_mutex k (mu st))).
  { intros k q Hq Hfq Hr Hhas.
    destruct (act_total own k (tr st) (mu st) q Ht (act_lookup _ _ _ _ Hinv Hq) Hfq (fun s => Hs k q s Hq) Hr)
      as (t' & m' & q' & Ha).
    exists k, q. split; [done|]. split; [|done]. cbn [tstep]. rewrite Hq, Ha. by eexists. }
  destruct (sessionMu (mu st)) as [k|] eqn:Hmu.
  { destruct (Hml k eq_refl) as (q & Hq & Hhold). apply (Hgo k q); [done|by destruct q|by split; destruct q|]. by right; right. }
  destruct (ioMu (mu st)) as [k|] eqn:Hio.
  { destruct (Hil k eq_refl) as (q & Hq & Hhold). apply (Hgo k q); [done|by destruct q|by split; [destruct q|]|]. by right; left. }
  apply (Hgo tid p); [done..|]. left. destruct (mu st). by simplify_eq/=.
Qed.

Lemma some_goes st tid p :
  treachable st -> calls st !! tid = Some p -> finished p = false -> exists st', goes st' st.
Proof.
  intros [own Hinv]%treachable_inv Hp Hf. destruct (tinv_goes own st tid p Hinv Hp Hf) as (k & q & _ & [st' Hst] & _).
  by exists st', k.
Qed.
End Safety.
