(* ===== verification/Ch341Conc.v ===== *)
(** * Properties of the concurrent transport

    On the reachable states of [Ch341Steps]: the handles, the two mutexes and
    termination. *)

From S2P Require Import Prelude Errors Stream Encoder Config Effects Usb Ch341 Ch341Prog Ch341Own.
From S2P Require Import Ch341Facts Ch341Ops Bus Bridge BridgeLaws Ch341Props Ch341Steps Ch341Inter.

Open Scope string_scope.
Open Scope list_scope.
Open Scope Z_scope.
Open Scope go_scope.

Section Runs.
Context {E : Type} `{Clock E, Gousb E, UsbHandles E, !ClockLaws E, !GousbLaws E}.
Context `{MapOrder, GousbText}.

(** Runs of steps stay reachable, and end where nobody can go on. *)
Lemma goes_reachable (st st' : tstate E) : treachable st -> goes st' st -> treachable st'.
Proof. intros Hr [tid Hstep]. eapply treach_step; [done| |done]. done. Qed.

Lemma goes_to_end (st : tstate E) :
  exists st', rtc (fun a b => goes b a) st st' /\ ~ exists st'', goes st'' st'.
Proof.
  induction (goes_wf st) as [st _ IH].
  destruct (decide (Exists (fun kp => is_Some (tstep (TAct kp.1) st)) (map_to_list (calls st)))) as [Hex|Hnone].
  - apply Exists_exists in Hex as ([tid p] & _ & [st1 Hst1]). cbn in Hst1.
    destruct (IH st1 ltac:(by exists tid)) as (st' & Hrun & Hend). exists st'. split; [|done].
    eapply rtc_l; [by exists tid|done].
  - exists st. split; [apply rtc_refl|]. intros (st'' & tid & Hstep). apply Hnone.
    cbn [tstep] in Hstep. destruct (calls st !! tid) as [p|] eqn:Hp; [|done].
    apply Exists_exists. exists (tid, p). split; [by apply elem_of_map_to_list|].
    cbn [tstep fst]. rewrite Hp. by eexists.
Qed.
End Runs.

(** ** Properties *)

(** C7: with any number of concurrent transactions, inspections and closes, that
    interleave at every USB call, and a device that changes between any two of
    their steps: the open handles are those of the current session and those that
    running device enumerations have opened themselves, each its own; a goroutine
    that transfers data or is about to drop its session has a session that is
    still the current one, with its handles open, and no other goroutine is
    transferring; and when no enumeration runs, exactly the session's handles are
    open. *)
Theorem session_in_use_stays_open {E} `{Clock E, Gousb E, UsbHandles E, !ClockLaws E, !GousbLaws E}
    `{MapOrder, GousbText} (st : tstate E) :
  treachable st ->
  (exists own : nat -> list device,
    (forall h, h ∈ handles (context (tr st)) <->
      h ∈ owned (session (tr st)) \/ exists tid d, d ∈ own tid /\ h = device_handle d) /\
    (forall tid, own tid <> [] -> exists p, calls st !! tid = Some p /\ scanning p = true) /\
    (forall tid tid' d d', tid <> tid' -> d ∈ own tid -> d' ∈ own tid' -> dev_handle d <> dev_handle d')) /\
  (forall tid p s, calls st !! tid = Some p -> in_use p = Some s ->
    session (tr st) = Some s /\ session_handles s ⊆ handles (context (tr st)) /\
    forall tid' p', calls st !! tid' = Some p' -> holds_io p' = true -> tid' = tid) /\
  ((forall tid p, calls st !! tid = Some p -> scanning p = false) -> transport_inv (tr st)).
Proof.
  intros [own Hinv]%treachable_inv. pose proof Hinv as [Hsh Hpc [Hh _] _ Hs].
  assert (Hown : forall tid, own tid <> [] -> exists p, calls st !! tid = Some p /\ scanning p = true).
  { intros tid Hne. specialize (Hpc tid). destruct (calls st !! tid) as [p|]; [|done].
    exists p. split; [done|]. destruct p; cbn in Hpc; try done. by destruct Hpc. }
  split_and!.
  - exists own. split_and!; [apply (s_split own _ Hsh)|done|apply (s_disjoint own _ Hsh)].
  - intros tid p s Hp Hu. pose proof (Hs tid p s Hp Hu) as Hsess. split_and!; [done| |].
    + intros h Hin. apply (s_split own _ Hsh). left. by rewrite Hsess.
    + intros tid' p' Hp' Hio. pose proof (Hh _ _ Hp' Hio) as H1'.
      pose proof (Hh _ _ Hp (in_use_holds _ _ Hu)). congruence.
  - intros Hno. apply tinv_transport. eapply tinv_ext; [|exact Hinv]. intros tid. unfold no_devices. symmetry.
    destruct (own tid) eqn:Ho; [done|]. destruct (Hown tid) as (p & Hp & Hsc); [by rewrite Ho|].
    by rewrite (Hno tid p Hp) in Hsc.
Qed.

(** C40: the transport's calls end.  Each of the two mutexes is held by the one
    goroutine that has locked it.  No schedule lets the calls in progress go on
    for ever, and where nobody can take a step, every call has finished: no
    goroutine waits for a mutex that is never released, although a transaction
    and [Close] take [sessionMu] while they hold [ioMu]; and such an end is always
    reached. *)
Theorem transport_calls_finish {E} `{Clock E, Gousb E, UsbHandles E, !ClockLaws E, !GousbLaws E}
    `{MapOrder, GousbText} (st : tstate E) :
  treachable st ->
  (forall tid p, calls st !! tid = Some p ->
    (holds_io p = true -> ioMu (mu st) = Some tid) /\ (holds_session p = true -> sessionMu (mu st) = Some tid)) /\
  Acc goes st /\
  (forall st', rtc (fun a b => goes b a) st st' -> (~ exists st'', goes st'' st') ->
    forall tid p, calls st' !! tid = Some p -> finished p = true) /\
  exists st', rtc (fun a b => goes b a) st st' /\
    forall tid p, calls st' !! tid = Some p -> finished p = true.
Proof.
  intros Hr. split.
  { pose proof (treachable_inv st Hr) as [own Hinv]. intros tid p Hp. by apply (knows_mutexes own). }
  split; [apply goes_wf|].
  assert (Hend : forall st', rtc (fun a b => goes b a) st st' -> (~ exists st'', goes st'' st') ->
    forall tid p, calls st' !! tid = Some p -> finished p = true).
  { intros st' Hrun Hno tid p Hp.
    assert (Hr' : treachable st').
    { clear Hno Hp. induction Hrun as [st|st st1 st2 Hg _ IH]; [done|]. by apply IH, (goes_reachable st). }
    destruct (finished p) eqn:Hf; [done|]. destruct Hno. by eapply some_goes. }
  split; [done|]. destruct (goes_to_end st) as (st' & Hrun & Hno). exists st'. split; [done|]. by apply Hend.
Qed.

(** ** Witnesses *)

(** Without spontaneous changes. *)
Definition is_env {E} (l : tlabel E) : bool := match l with TEnv _ => true | _ => false end.

Lemma trun_reachable {E} `{Clock E, Gousb E, UsbHandles E} `{MapOrder, GousbText} ls : forall (st st' : tstate E),
  treachable st -> existsb is_env ls = false -> trun ls st = Some st' -> treachable st'.
Proof.
  induction ls as [|l ls IH]; intros st st' Hr Henv Hrun; cbn [trun] in Hrun; [by simplify_eq|].
  apply orb_false_iff in Henv as [Hl Hls]. destruct (tstep l st) as [st1|] eqn:Hstep; [|done].
  eapply IH; [|done|done]. eapply treach_step; [done| |done]. by destruct l.
Qed.

(** A transaction waits for another one that is in the middle of its transfers,
    [Close] waits too, and an inspection has the bus's devices open. *)
Definition contention : list (tlabel (host ())) :=
  [TSpawn 1 (TStart 0x11 [0x30] 2); TSpawn 2 (TStart 0x11 [] 4); TSpawn 3 (IStart true); TSpawn 4 CStart;
   TAct 3; TAct 1; TAct 3; TAct 1; TAct 3; TAct 1; TAct 3; TAct 1; TAct 1; TAct 1].

Definition contention_state : tstate (host ()) :=
  match trun contention (MkTState (demo_transport []) unlocked ∅) with
  | Some st => st
  | None => MkTState (demo_transport []) unlocked ∅
  end.

Lemma contention_reachable : treachable contention_state.
Proof.
  unfold contention_state. destruct (trun _ _) as [st|] eqn:Hrun; [|constructor; apply demo_inv].
  eapply (trun_reachable contention); [|reflexivity|exact Hrun]. constructor. apply demo_inv.
Qed.

(** The session's three handles and the two opened devices. *)
Example contention_handles : size (handles (context (tr contention_state))) = 5%nat.
Proof. by vm_compute. Qed.

Example session_in_use_stays_open_witness :
  (exists own : nat -> list device,
    (forall h, h ∈ handles (context (tr contention_state)) <->
      h ∈ owned (session (tr contention_state)) \/ exists tid d, d ∈ own tid /\ h = device_handle d) /\
    (forall tid, own tid <> [] -> exists p, calls contention_state !! tid = Some p /\ scanning p = true) /\
    (forall tid tid' d d', tid <> tid' -> d ∈ own tid -> d' ∈ own tid' -> dev_handle d <> dev_handle d')) /\
  (forall tid p s, calls contention_state !! tid = Some p -> in_use p = Some s ->
    session (tr contention_state) = Some s /\
    session_handles s ⊆ handles (context (tr contention_state)) /\
    forall tid' p', calls contention_state !! tid' = Some p' -> holds_io p' = true -> tid' = tid) /\
  ((forall tid p, calls contention_state !! tid = Some p -> scanning p = false) ->
    transport_inv (tr contention_state)).
Proof. apply session_in_use_stays_open, contention_reachable. Defined.

Example transport_calls_finish_witness :
  (forall tid p, calls contention_state !! tid = Some p ->
    (holds_io p = true -> ioMu (mu contention_state) = Some tid) /\
    (holds_session p = true -> sessionMu (mu contention_state) = Some tid)) /\
  Acc goes contention_state /\
  (forall st', rtc (fun a b => goes b a) contention_state st' -> (~ exists st'', goes st'' st') ->
    forall tid p, calls st' !! tid = Some p -> finished p = true) /\
  exists st', rtc (fun a b => goes b a) contention_state st' /\
    forall tid p, calls st' !! tid = Some p -> finished p = true.
Proof. apply transport_calls_finish, contention_reachable. Defined.
