(* ===== verification/BridgeProps.v ===== *)
(** * The CH341 transport implements the bus

    On a fault-free host with a bridge, every [Transaction] of the CH341
    transport does to the device, and returns, what the direct bus transport of
    [Bus] does, whatever the device answers and acknowledges. *)

From S2P Require Import Prelude Errors Stream Encoder Config Effects Usb Ch341 Ch341Facts Ch341Ops.
From S2P Require Import Ch341Link Bus Bridge BridgeLaws BridgeFacts Ch341Props.

Open Scope string_scope.
Open Scope list_scope.
Open Scope Z_scope.
Open Scope go_scope.

Section Refinement.
Context {S : Type} `{Slave S, GousbText, MapOrder}.

Abbreviation T := (Ch341Transport (host S)).
Implicit Types t : T.

Lemma spend_0 (h : host S) : spend 0 h = h.
Proof. destruct h. unfold spend. simpl. f_equal. lia. Qed.

(** The speed command only sets the clock. *)
Lemma configuration_ignored speed configuration (h : host S) :
  validSpeed speed = true -> host_queue h = [] -> encodeConfiguration speed = Ok configuration ->
  bridge_receive configuration h = h.
Proof.
  intros Hs Hq. unfold validSpeed in Hs. unfold encodeConfiguration, speed_command.
  change I2CSpeed20KHz with 20. change I2CSpeed100KHz with 100.
  change I2CSpeed400KHz with 400. change I2CSpeed750KHz with 750.
  destruct (speed =? 20), (speed =? 100), (speed =? 400), (speed =? 750); try done;
    intros [= <-]; cbn; destruct h; simpl in *; by rewrite Hq.
Qed.

Lemma valid_speed_configuration speed :
  validSpeed speed = true -> exists configuration, encodeConfiguration speed = Ok configuration.
Proof.
  unfold validSpeed, encodeConfiguration, speed_command.
  change I2CSpeed20KHz with 20. change I2CSpeed100KHz with 100.
  change I2CSpeed400KHz with 400. change I2CSpeed750KHz with 750.
  destruct (speed =? 20), (speed =? 100), (speed =? 400), (speed =? 750); try done; by eexists.
Qed.

(** An encoded stream: its packets parse to commands whose events are the
    transaction's. *)
Lemma encoded_segments a w n stream :
  0 <= a -> encodeTransaction a w n = Ok stream ->
  valid_request a w n = true /\
  exists css, stream_cmds stream = Some css /\ Forall2 segment_for (packets stream) css /\
    css_events css = transaction_events a w n.
Proof.
  intros Ha Henc.
  assert (Hv : valid_request a w n = true).
  { destruct (valid_request a w n) eqn:Hv; [done|].
    destruct (encodeTransaction_invalid a w n Hv) as (e & ? & _). congruence. }
  split; [done|]. destruct (encodeTransaction_packed a w n Ha Hv) as (stream' & css & Henc' & Hp & Hev).
  rewrite Henc in Henc'. injection Henc' as <-. exists css. split_and!; [by apply packed_cmds| |done].
  pose proof (packed_segments stream css Hp) as Hsegs.
  assert (Hord : Forall ordered css).
  { apply css_ordered; [|rewrite Hev; apply transaction_reads_last].
    apply packed_ok in Hp. eapply Forall_impl; [done|]. by intros cs [Hcs _]. }
  clear -Hsegs Hord. induction Hsegs as [|p cs ps css (? & ? & ?) _ IH]; [done|].
  apply Forall_cons in Hord as [? ?]. constructor; [by split_and!|by apply IH].
Qed.

Lemma execute_host s a w n stream t css r sl :
  0 <= a -> encodeTransaction a w n = Ok stream -> stream_cmds stream = Some css ->
  validSpeed (i2c_speed t) = true -> calm (context t) -> host_queue (context t) = [] ->
  run_packets css (host_slave (context t)) = (r, sl) ->
  execute s stream (len w) n t
  = Some (r, set_context (set_bridge [] sl (spend (read_gap w n) (context t))) t).
Proof.
  intros Ha Henc Hcss Hs Hc Hq Hrun.
  destruct (encoded_segments a w n stream Ha Henc) as (Hv & css' & Hcss' & Hsegs & Hev).
  rewrite Hcss in Hcss'. injection Hcss' as <-.
  unfold execute. erewrite io_bind_ok; [|reflexivity].
  destruct (valid_speed_configuration _ Hs) as [configuration Hconf]. rewrite Hconf.
  rewrite (io_bind_ok _ _ _ _ _ (bulkWrite_host _ _ _ _ Hc)).
  rewrite (configuration_ignored _ _ _ Hs Hq Hconf), set_context_same.
  set (t1 := set_context (spend (read_gap w n) (context t)) t).
  rewrite (io_bind_ok _ _ _ () t1).
  2: { unfold t1, read_gap. destruct (_ && _); [done|]. by rewrite spend_0, set_context_same. }
  assert (Hloop : execute_loop (Datatypes.S (length stream)) s stream
      (minimumTransferTimeout (len w) n (i2c_speed t)) 0 [] t1
    = Some (r, set_context (set_bridge [] sl (context t1)) t1)).
  { rewrite execute_loop_segments, Z.sub_0_r. unfold len at 1. rewrite Z.leb_refl.
    rewrite (run_segments_host s _ (packets stream) css [] t1 r sl); [by destruct r|done..]. }
  unfold io_bind. rewrite Hloop. destruct r as [data|err]; [|done].
  destruct (run_packets_events css _ _ _ Hrun) as (sent & unsent & acks & d & Hsplit & Hbus & -> & ->).
  rewrite app_nil_r in Hsplit. subst sent.
  pose proof (run_bus_reads (css_events css) (host_slave (context t))) as Hreads.
  rewrite Hbus, Hev in Hreads. cbn [fst snd] in Hreads.
  rewrite read_count_transaction in Hreads by (unfold valid_request in Hv; zcases).
  by rewrite Hreads, Z.eqb_refl.
Qed.

(** ** Opening a session *)

(** Only the open handles differ. *)
Definition same_bridge (h h' : host S) : Prop :=
  host_time h' = host_time h /\ host_faults h' = host_faults h /\ host_queue h' = host_queue h /\
  host_slave h' = host_slave h /\ host_devices h' = host_devices h.

Lemma openSession_host d ident t :
  calm (context t) -> is_Some (findBulkEndpoints (Desc d)) ->
  exists s h, openSession d ident t = Some (Ok s, set_context h t) /\ same_bridge (context t) h.
Proof.
  intros Hc [found Hf]. unfold openSession. rewrite Hf.
  eexists _, _. split.
  - erewrite io_bind_ok; [|apply usb_eq; cbn [device_Config host_gousb]; by rewrite faulty_calm].
    cbv beta iota.
    erewrite io_bind_ok; [|apply usb_eq; cbn [config_Interface host_gousb]; by rewrite faulty_calm].
    cbv beta iota.
    erewrite io_bind_ok; [|apply usb_eq; cbn [interface_InEndpoint host_gousb]; by rewrite faulty_calm].
    cbv beta iota.
    erewrite io_bind_ok; [|apply usb_eq; cbn [interface_OutEndpoint host_gousb]; by rewrite faulty_calm].
    reflexivity.
  - done.
Qed.

(** Some configured identity is plugged in, and it has the endpoints. *)
Definition bridge_plugged (ids : list USBID) (devices : list DeviceDesc) : Prop :=
  exists pre id post desc, ids = pre ++ id :: post /\
    Forall (fun id => List.find (matching (Vendor id) (Product id)) devices = None) pre /\
    List.find (matching (Vendor id) (Product id)) devices = Some desc /\
    is_Some (findBulkEndpoints desc).

Lemma open_first_host pre id post desc : forall lastError t,
  calm (context t) ->
  Forall (fun id => List.find (matching (Vendor id) (Product id)) (host_devices (context t)) = None) pre ->
  List.find (matching (Vendor id) (Product id)) (host_devices (context t)) = Some desc ->
  is_Some (findBulkEndpoints desc) ->
  exists s h, open_first (pre ++ id :: post) lastError t
      = Some (Ok s, set_session (Some s) (set_context h t)) /\ same_bridge (context t) h.
Proof.
  induction pre as [|id0 pre IH]; intros lastError t Hc Hpre Hfind Hbulk; cbn [app open_first].
  - set (d := MkDevice (fresh (device_numbers (host_open (context t)))) desc).
    set (h1 := add_open (device_handle d) (context t)).
    destruct (openSession_host d (usbid_String id) (set_context h1 t)) as (s & h & Hopen & Hsame);
      [done|done|].
    exists s, h. split; [|done].
    erewrite io_bind_ok.
    2: { apply (usb_eq _ _ (Ok (Some d)) h1). cbn [OpenDeviceWithVIDPID host_gousb].
         rewrite faulty_calm by done. by rewrite Hfind. }
    cbv beta iota. erewrite io_bind_ok; [|unfold io_try; rewrite Hopen; reflexivity]. reflexivity.
  - apply Forall_cons in Hpre as [H0' Hpre].
    erewrite io_bind_ok.
    2: { apply (usb_eq _ _ (Ok None) (context t)). cbn [OpenDeviceWithVIDPID host_gousb].
         rewrite faulty_calm by done. by rewrite H0'. }
    cbv beta iota. rewrite set_context_same. by apply IH.
Qed.

(** ** The refinement *)

Definition usable t : Prop :=
  closed t = false /\ validSpeed (i2c_speed t) = true /\ calm (context t) /\
  host_queue (context t) = [] /\
  (is_Some (session t) \/ bridge_plugged (usbIDs t) (host_devices (context t))).

(** The transport and the direct bus have the same device at the same time. *)
Definition linked t (b : bus S) : Prop :=
  usable t /\ host_time (context t) = bus_time b /\ host_slave (context t) = bus_slave b.

Lemma currentSession_host t :
  usable t ->
  exists s h, currentSession t = Some (Ok s, set_session (Some s) (set_context h t)) /\
    same_bridge (context t) h.
Proof.
  intros (Hcl & _ & Hc & _ & Hready). unfold currentSession.
  erewrite io_bind_ok; [|reflexivity]. rewrite Hcl. unfold ensureSessionLocked.
  erewrite io_bind_ok; [|reflexivity]. destruct (session t) as [s|] eqn:Hs.
  - exists s, (context t). split; [|done]. unfold io_ret. do 2 f_equal. destruct t. cbn in *. by rewrite Hs.
  - destruct Hready as [[? [=]]|(pre & id & post & desc & Hids & Hpre & Hfind & Hbulk)].
    erewrite io_bind_ok; [|reflexivity]. rewrite Hids. by apply (open_first_host pre id post desc).
Qed.

(** A transaction that encodes: its packets run on the device, and the session is
    kept whatever the device acknowledged. *)
Lemma transact_host t a w n stream css r sl :
  0 <= a -> usable t -> encodeTransaction a w n = Ok stream -> stream_cmds stream = Some css ->
  run_packets css (host_slave (context t)) = (r, sl) ->
  exists t', Transaction a w n t = (r, t') /\ usable t' /\ is_Some (session t') /\
    host_slave (context t') = sl /\ host_time (context t') = host_time (context t) + read_gap w n.
Proof.
  intros Ha Hu Henc Hcss Hrun. cbn [Transaction ch341_transport]. unfold transact. rewrite Henc.
  destruct (currentSession_host t Hu) as (s & h & Hcur & Hh1 & Hh2 & Hh3 & Hh4 & Hh5).
  destruct Hu as (Hcl & Hs & Hc & Hq & _).
  rewrite (io_bind_ok _ _ _ _ _ Hcur).
  set (t1 := set_session (Some s) (set_context h t)).
  assert (Hex : execute s stream (len w) n t1
    = Some (r, set_context (set_bridge [] sl (spend (read_gap w n) h)) t1)).
  { apply (execute_host s a w n stream t1 css r sl); try done; cbn [context t1 set_session set_context].
    - unfold calm. by rewrite Hh2.
    - by rewrite Hh3.
    - by rewrite Hh4. }
  erewrite io_bind_ok; [|unfold io_try; rewrite Hex; reflexivity]. cbv beta iota.
  set (t2 := set_context _ t1).
  assert (Hres : match r with
    | Ok response => io_ret response
    | Err err => (if shouldInvalidateSession err then invalidateSession s else io_ret ()) ;;; io_fail err
    end t2 = Some (r, t2)).
  { destruct r as [|err]; [done|].
    destruct (run_packets_events css _ _ _ Hrun) as (? & ? & ? & ? & _ & _ & [k ->] & _). done. }
  rewrite Hres. exists t2. split_and!; [done| |by eexists|done|].
  - split_and!; try done; [unfold calm; cbn; by rewrite Hh2|]. left. by eexists.
  - cbn. rewrite Hh1. unfold read_gap. destruct (_ && _); [|lia].
    change selectToReadGap with 5000000. lia.
Qed.

Lemma transaction_session t a w n :
  0 <= a -> valid_request a w n = true -> usable t -> is_Some (session (Transaction a w n t).2).
Proof.
  intros Ha Hv Hu. destruct (encodeTransaction_packed a w n Ha Hv) as (stream & css & Henc & Hp & _).
  destruct (run_packets css (host_slave (context t))) as [r sl] eqn:Hrun.
  by destruct (transact_host t a w n stream css r sl Ha Hu Henc (packed_cmds _ _ Hp) Hrun)
    as (t' & -> & _ & ? & _).
Qed.

Lemma transaction_linked t b a w n :
  0 <= a -> linked t b ->
  let '(r1, t') := Transaction a w n t in
  let '(r2, b') := Transaction a w n b in
  r1 = r2 /\ linked t' b'.
Proof.
  intros Ha [Hu [Htime Hsl]]. destruct (encodeTransaction a w n) as [stream|err] eqn:Henc.
  2: { cbn [Transaction ch341_transport bus_transport]. unfold transact. by rewrite Henc. }
  destruct (encoded_segments a w n stream Ha Henc) as (_ & css & Hcss & _).
  destruct (run_packets css (bus_slave b)) as [r sl] eqn:Hrun. rewrite <- Hsl in Hrun.
  destruct (transact_host t a w n stream css r sl Ha Hu Henc Hcss Hrun) as (t' & -> & Hu' & _ & Hsl' & Ht').
  cbn [Transaction bus_transport]. rewrite Henc, Hcss. change (default [] (Some css)) with css.
  rewrite <- Hsl, Hrun. split; [done|]. split_and!; [done| |done]. by rewrite Ht', Htime.
Qed.
End Refinement.
