(* ===== verification/Nack.v ===== *)
(** * Devices that do not acknowledge

    What a transaction of the CH341 transport leaves behind when the device
    refuses a byte: the packets the device has seen, the error, the session. *)

From S2P Require Import Prelude Errors Stream Encoder Config Effects Usb Ch341 Ch341Facts Ch341Ops.
From S2P Require Import Ch341Link Bus Bridge BridgeLaws BridgeFacts Ch341Props BridgeProps.

Open Scope string_scope.
Open Scope list_scope.
Open Scope Z_scope.




Section Nack.
Context {S : Type} `{Slave S, GousbText, MapOrder}.










End Nack.

(** ** Property *)


(** A device that refuses the byte 0xee and its read address, 0x23; its state is
    the number of events it has seen. *)
#[local] Instance picky : Slave nat := {
  answer ev s :=
    (match ev with
     | BusWrite v => if (v =? 0xee) || (v =? 0x23) then ackBit else 0
     | _ => 0x5a
     end, S s);
}.

Definition picky_transport : Ch341Transport (host nat) :=
  MkCh341 (Host 0 ∅ [] [] 0%nat [bridge_desc]) [MkUSBID 0x1a86 0x5512] 100 None false.


Definition picky_write : list Z := replicate 20 0x30 ++ 0xee :: replicate 20 0x30.

(** Four packets, the refused byte in the second: the device is left without a
    stop condition. *)
Example picky_stops :
  (Transaction 0x11 picky_write 4 picky_transport).1 = Err (nack_error 7) /\
  host_slave (context (Transaction 0x11 picky_write 4 picky_transport).2) = 30%nat /\
  len (transaction_events 0x11 picky_write 4) = 50.
Proof. by vm_compute. Qed.

(** In a request of several packets the read address is written without a report,
    so its NACK is not noticed. *)
Example read_address_unreported :
  (Transaction 0x11 [] 4 picky_transport).1 = Err (nack_error 0) /\
  (Transaction 0x11 [] 40 picky_transport).1 = Ok (replicate 40 0x5a).
Proof. by vm_compute. Qed.

