(* ===== verification/Driver.v ===== *)
(** * The MFi chip driver

    [internal/chip/driver.go]: register access over an I2C transport with
    retries, the certificate read in windows, and the challenge signature with
    its polling loop. *)

From S2P Require Import Prelude Errors Effects.

Open Scope string_scope.
Open Scope list_scope.
Open Scope Z_scope.
Open Scope go_scope.

(** ** Constants *)

Definition protocolMajorRegister : Z := 0x02.
Definition errorRegister : Z := 0x05.
Definition authControlStatusRegister : Z := 0x10.
Definition responseLengthRegister : Z := 0x11.
Definition responseDataRegister : Z := 0x12.
Definition challengeLengthRegister : Z := 0x20.
Definition challengeDataRegister : Z := 0x21.
Definition certificateLengthRegister : Z := 0x30.
Definition certificateDataRegister : Z := 0x31.
Definition certificateWindowBytes : Z := 128.
Definition authStartCommand : Z := 0x01.
Definition authSuccessStatus : Z := 0x10.
Definition maximumDataBytes : Z := 65525.
Definition maximumChallengeBytes : Z := 128.
Definition ioRetryTimeout : Z := 2 * Second.
Definition ioRetryDelay : Z := 20 * Millisecond.
Definition initialAuthDelay : Z := 10 * Millisecond.
Definition authPollInterval : Z := 10 * Millisecond.
Definition authTimeout : Z := 3 * Second.

(** Attempts that fit before a deadline: the pause between two attempts bounds
    them, and one more attempt sees the deadline passed. *)
Definition retry_fuel : nat := Z.to_nat (ioRetryTimeout / ioRetryDelay + 2).
Definition poll_fuel : nat := Z.to_nat (authTimeout / authPollInterval + 2).

(** [fmt.Sprintf("... 0x%02x", register&0xff)]. *)
Definition register_text (verb : string) (register : Z) : string :=
  verb +:+ " register 0x" +:+ fmt_hex 2 (Z.land register 0xff).

Definition invalid_data (operation msg : string) : goerror :=
  ChipError ErrorInvalidData operation None (Some (ErrorString msg)).

Definition length_outside (what : string) (length : Z) : string :=
  what +:+ fmt_d length +:+ " is outside 1.." +:+ fmt_d maximumDataBytes.

(** [copy(dst[offset:], src)] for [offset <= len(dst)]. *)
Definition copy_at (dst : list Z) (offset : Z) (src : list Z) : list Z :=
  let src := take (length dst - Z.to_nat offset) src in
  take (Z.to_nat offset) dst ++ src ++ drop (Z.to_nat offset + length src) dst.

Section Driver.
Context {W : Type} `{Clock W, I2CTransport W}.

(** ** Retrying *)

Definition isRetryableTransportError (err : goerror) : bool :=
  match errors_As as_transport err with Some _ => true | None => false end.

Fixpoint retry_loop {A} (fuel : nat) (deadline : Z) (operation : string) (action : IO W A) : IO W A :=
  fun w =>
  match fuel with
  | O => None
  | S fuel =>
      match action w with
      | None => None
      | Some (Ok result, w) => Some (Ok result, w)
      | Some (Err err, w) =>
          if negb (isRetryableTransportError err) || (deadline <? now w)
          then Some (Err (WrapError (operation +:+ ": ") err ""), w)
          else retry_loop fuel deadline operation action (sleep ioRetryDelay w)
      end
  end.

Definition retryIO {A} (operation : string) (action : IO W A) : IO W A :=
  fun w => retry_loop retry_fuel (now w + ioRetryTimeout) operation action w.

(** ** Register access; [d] is [d.address7Bit] *)

Definition transaction (d : Z) (writeData : list Z) (readLength : Z) : IO W (list Z) :=
  fun w => Some (Transaction d writeData readLength w).

Definition selectRegisterOnce (d register : Z) : IO W () :=
  result <-- transaction d [u8 register] 0 ;;
  if negb (len result =? 0)
  then io_fail (invalid_data (register_text "select" register) "returned unexpected data")
  else io_ret ().

Definition selectRegister (d register : Z) : IO W () :=
  retryIO (register_text "select" register) (selectRegisterOnce d register).

Definition read_register_action (d register length : Z) : IO W (list Z) :=
  selectRegisterOnce d register ;;;
  result <-- transaction d [] length ;;
  if negb (len result =? length)
  then io_fail (invalid_data (register_text "read" register)
         ("returned " +:+ fmt_d (len result) +:+ " bytes; expected " +:+ fmt_d length))
  else io_ret result.

Definition readRegister (d register length : Z) : IO W (list Z) :=
  if (length <? 1) || (maximumDataBytes <? length)
  then io_fail (invalid_data "read register" (length_outside "length " length))
  else retryIO (register_text "read" register) (read_register_action d register length).

Definition write_register_action (d register : Z) (data : list Z) : IO W () :=
  result <-- transaction d (u8 register :: data) 0 ;;
  if negb (len result =? 0)
  then io_fail (invalid_data (register_text "write" register) "returned unexpected data")
  else io_ret ().

Definition writeRegister (d register : Z) (data : list Z) : IO W () :=
  retryIO (register_text "write" register) (write_register_action d register data).

(** [data[0]] and [binary.BigEndian.Uint16(data)] panic on shorter slices. *)
Definition readByte (d register : Z) : IO W Z :=
  data <-- readRegister d register 1 ;;
  io_must (at_index data 0).

Definition uint16_be (data : list Z) : option Z :=
  match data with b0 :: b1 :: _ => Some (Z.lor b1 (Z.shiftl b0 8)) | _ => None end.

Definition readUnsignedBigEndianShort (d register : Z) : IO W Z :=
  data <-- readRegister d register 2 ;;
  io_must (uint16_be data).

Definition be_bytes (value : Z) : list Z := [u8 (Z.shiftr value 8); u8 value].

Definition writeUnsignedBigEndianShort (d register value : Z) : IO W () :=
  if (value <? 0) || (0xffff <? value)
  then io_fail (invalid_data "write length" ("value " +:+ fmt_d value +:+ " is outside 0..65535"))
  else writeRegister d register (be_bytes value).

(** Failures only lose the code. *)
Definition bestEffortErrorCode (d : Z) : IO W (option Z) :=
  selected <-- io_try (selectRegister d errorRegister) ;;
  match selected with
  | Err _ => io_ret None
  | Ok _ =>
      result <-- io_try (transaction d [] 1) ;;
      match result with
      | Err _ => io_ret None
      | Ok result => if negb (len result =? 1) then io_ret None else io_ret (at_index result 0)
      end
  end.

(** ** The driver's operations

    [ctx] is the value of [ctx.Err()]. *)

Definition check_context (ctx : option goerror) : IO W () :=
  match ctx with Some err => io_fail err | None => io_ret () end.

Definition ProtocolMajor (d : Z) (ctx : option goerror) : IO W Z :=
  check_context ctx ;;;
  value <-- readByte d protocolMajorRegister ;;
  io_ret (u8 value).

(** One window per round, at least one byte each, so [length] rounds suffice. *)
Fixpoint certificate_loop (fuel : nat) (d length offset register : Z) (certificate : list Z)
    : IO W (list Z) :=
  match fuel with
  | O => io_must None
  | S fuel =>
      if offset <? length then
        let count := Z.min certificateWindowBytes (length - offset) in
        window <-- readRegister d register count ;;
        certificate_loop fuel d length (offset + count) (register + 1)
          (copy_at certificate offset window)
      else io_ret certificate
  end.

Definition ReadCertificate (d : Z) (ctx : option goerror) : IO W (list Z) :=
  check_context ctx ;;;
  length <-- readUnsignedBigEndianShort d certificateLengthRegister ;;
  if (length <? 1) || (maximumDataBytes <? length)
  then io_fail (invalid_data "read certificate" (length_outside "certificate length " length))
  else certificate_loop (S (Z.to_nat length)) d length 0 certificateDataRegister
         (replicate (Z.to_nat length) 0).

Definition auth_failed (code : option Z) : goerror :=
  ChipError ErrorAuthFailed "MFi authentication" code (Some (ErrorString "timed out after 3s")).

(** Polls the status register until it reports success or the deadline passes;
    a failed poll is not reported. *)
Fixpoint poll_loop (fuel : nat) (d deadline : Z) : IO W () :=
  match fuel with
  | O => io_must None
  | S fuel =>
      polled <-- io_try (readByte d authControlStatusRegister) ;;
      if match polled with Ok status => status =? authSuccessStatus | Err _ => false end
      then io_ret ()
      else
        passed <-- io_read (fun w => deadline <? now w) ;;
        if passed : bool then
          code <-- bestEffortErrorCode d ;;
          io_fail (auth_failed code)
        else
          io_effect (sleep authPollInterval) ;;;
          poll_loop fuel d deadline
  end.

Definition SignChallenge (d : Z) (ctx : option goerror) (challenge : list Z) : IO W (list Z) :=
  check_context ctx ;;;
  if (len challenge <? 1) || (maximumChallengeBytes <? len challenge)
  then io_fail (invalid_data "sign challenge"
         ("challenge must be 1.." +:+ fmt_d maximumChallengeBytes +:+ " bytes"))
  else
    writeUnsignedBigEndianShort d challengeLengthRegister (len challenge) ;;;
    writeRegister d challengeDataRegister challenge ;;;
    writeRegister d authControlStatusRegister [authStartCommand] ;;;
    io_effect (sleep initialAuthDelay) ;;;
    deadline <-- io_read (fun w => now w + authTimeout) ;;
    poll_loop poll_fuel d deadline ;;;
    length <-- readUnsignedBigEndianShort d responseLengthRegister ;;
    if (length <? 1) || (maximumDataBytes <? length)
    then io_fail (invalid_data "read signature" (length_outside "signature length " length))
    else readRegister d responseDataRegister length.
End Driver.

(** [NewDriver]; [present] tells whether the transport is non-nil. *)
Definition NewDriver (present : bool) (address7Bit : Z) : result Z :=
  if negb present then Err (ErrorString "I2C transport is required")
  else if 0x7f <? address7Bit then Err (ErrorString "I2C address must be a 7-bit value")
  else Ok address7Bit.

(** ** The loops end *)

Section Liveness.
Context {W : Type} `{Clock W, I2CTransport W, !ClockLaws W, !TransportLaws W}.

Lemma retry_loop_live {A} fuel : forall deadline operation (action : IO W A) w,
  live action -> deadline < now w + Z.of_nat fuel * ioRetryDelay ->
  exists r w', retry_loop (S fuel) deadline operation action w = Some (r, w') /\ now w <= now w'.
Proof.
  induction fuel as [|fuel IH]; intros deadline operation action w Hact Hdl;
    cbn [retry_loop]; destruct (Hact w) as ([a|e] & w1 & Heq & Hle); rewrite Heq;
    try by eexists _, _.
  - destruct (Z.ltb_spec deadline (now w1)); [|lia]. rewrite orb_true_r. by eexists _, _.
  - destruct (negb _ || _); [by eexists _, _|].
    assert (0 <= ioRetryDelay) by done. pose proof (sleep_advances ioRetryDelay w1 ltac:(done)).
    destruct (IH deadline operation action (sleep ioRetryDelay w1)) as (r & w2 & Heq2 & ?);
      [done|lia|]. exists r, w2. split; [exact Heq2|lia].
Qed.

Lemma retryIO_live {A} operation (action : IO W A) : live action -> live (retryIO operation action).
Proof.
  intros Hact w. apply (retry_loop_live 101); [done|].
  unfold ioRetryTimeout, ioRetryDelay, Second, Millisecond. lia.
Qed.

Lemma retry_loop_returns {A} (P : A -> Prop) operation (action : IO W A) fuel : forall deadline,
  returns action P -> returns (retry_loop fuel deadline operation action) P.
Proof.
  induction fuel as [|fuel IH]; intros deadline HP w a w'; cbn [retry_loop]; [done|].
  destruct (action w) as [[[a1|e] w1]|] eqn:Heq; [|destruct (negb _ || _)|]; try done.
  - intros [= <- <-]. by eapply HP.
  - by apply IH.
Qed.

Lemma retryIO_returns {A} (P : A -> Prop) operation (action : IO W A) :
  returns action P -> returns (retryIO operation action) P.
Proof. intros HP w. by apply retry_loop_returns. Qed.

Lemma transaction_live d wr n : live (transaction d wr n).
Proof.
  intros w. unfold transaction. pose proof (transaction_clock d wr n w).
  destruct (Transaction d wr n w) as [r w']. by eexists _, _.
Qed.

Lemma selectRegisterOnce_live d r : live (selectRegisterOnce d r).
Proof. apply live_bind; [apply transaction_live|]. eauto with mfi. Qed.

Lemma read_action_live d r n : live (read_register_action d r n).
Proof.
  apply live_bind; [apply selectRegisterOnce_live|intros _].
  apply live_bind; [apply transaction_live|]. eauto with mfi.
Qed.

Lemma read_action_returns d r n : returns (read_register_action d r n) (fun data => len data = n).
Proof.
  apply returns_bind. intros _. apply returns_bind. intros data.
  destruct (Z.eqb_spec (len data) n); simpl; [by apply returns_ret|apply returns_fail].
Qed.

Lemma readRegister_live d r n : live (readRegister d r n).
Proof. apply live_if; [apply live_fail|]. apply retryIO_live, read_action_live. Qed.

(** A successful register read has the requested length, within the limits. *)
Lemma readRegister_returns d r n :
  returns (readRegister d r n) (fun data => len data = n /\ 1 <= n <= maximumDataBytes).
Proof.
  unfold readRegister. destruct ((n <? 1) || _) eqn:Hn; [apply returns_fail|].
  apply orb_false_iff in Hn as [H1%Z.ltb_ge H2%Z.ltb_ge].
  apply retryIO_returns. eapply returns_impl; [apply read_action_returns|]. intros data Hlen. cbv beta in *. lia.
Qed.

Lemma selectRegister_live d r : live (selectRegister d r).
Proof. apply retryIO_live, selectRegisterOnce_live. Qed.

Lemma writeRegister_live d r data : live (writeRegister d r data).
Proof. apply retryIO_live, live_bind; [apply transaction_live|]. eauto with mfi. Qed.

Lemma uint16_be_some data : len data = 2 -> is_Some (uint16_be data).
Proof. destruct data as [|b0 [|b1 data]]; [done..|]. by eexists. Qed.

Lemma readByte_live d r : live (readByte d r).
Proof.
  eapply live_bind_returns; [apply readRegister_live|apply readRegister_returns|].
  intros data [Hlen _]. apply live_must, at_index_Some. lia.
Qed.

Lemma readShort_live d r : live (readUnsignedBigEndianShort d r).
Proof.
  eapply live_bind_returns; [apply readRegister_live|apply readRegister_returns|].
  intros data [Hlen _]. by apply live_must, uint16_be_some.
Qed.

Lemma writeShort_live d r v : live (writeUnsignedBigEndianShort d r v).
Proof. apply live_if; [apply live_fail|apply writeRegister_live]. Qed.

Lemma bestEffortErrorCode_live d : live (bestEffortErrorCode d).
Proof.
  apply live_bind; [apply live_try, selectRegister_live|]. intros [[]|e]; [|apply live_ret].
  apply live_bind; [apply live_try, transaction_live|]. intros [data|e]; eauto with mfi.
Qed.

Lemma check_context_live ctx : live (check_context ctx).
Proof. destruct ctx; [apply live_fail|apply live_ret]. Qed.

(** Each round moves [offset]: [length - offset] rounds reach the end. *)
Lemma certificate_loop_live d length fuel : forall offset register certificate,
  length - offset <= Z.of_nat fuel ->
  live (certificate_loop (S fuel) d length offset register certificate).
Proof.
  induction fuel as [|fuel IH]; intros offset register certificate Hfuel; cbn [certificate_loop];
    destruct (Z.ltb_spec offset length); try apply live_ret; [lia|].
  apply live_bind; [apply readRegister_live|]. intros window. apply IH.
  unfold certificateWindowBytes. lia.
Qed.

Lemma ReadCertificate_live d ctx : live (ReadCertificate d ctx).
Proof.
  apply live_bind; [apply check_context_live|intros _].
  apply live_bind; [apply readShort_live|intros length].
  apply live_if; [apply live_fail|]. apply certificate_loop_live. lia.
Qed.

Lemma ProtocolMajor_live d ctx : live (ProtocolMajor d ctx).
Proof.
  apply live_bind; [apply check_context_live|intros _].
  apply live_bind; [apply readByte_live|]. intros. apply live_ret.
Qed.

Lemma poll_loop_live d fuel : forall deadline w,
  deadline < now w + Z.of_nat fuel * authPollInterval ->
  exists r w', poll_loop (S fuel) d deadline w = Some (r, w') /\ now w <= now w'.
Proof.
  assert (0 <= authPollInterval) by done.
  assert (Hfail : forall w, exists r w',
    (code <-- bestEffortErrorCode d ;; @io_fail W () (auth_failed code)) w = Some (r, w') /\
    now w <= now w').
  { apply live_bind; [apply bestEffortErrorCode_live|]. intros. apply live_fail. }
  induction fuel as [|fuel IH]; intros deadline w Hdl; cbn [poll_loop];
    destruct (live_try _ (readByte_live d authControlStatusRegister) w) as ([polled|e] & w1 & Heq & Hle);
    try (rewrite (io_bind_err _ _ _ _ _ Heq); by eexists _, _);
    rewrite (io_bind_ok _ _ _ _ _ Heq);
    destruct (match polled with Ok _ => _ | Err _ => false end); try by eexists _, _.
  all: unfold io_read; rewrite (io_bind_ok _ _ w1 (deadline <? now w1) w1) by done;
    destruct (Z.ltb_spec deadline (now w1)).
  1,3: destruct (Hfail w1) as (r & w2 & -> & ?); eexists _, _; split; [done|lia].
  - lia.
  - pose proof (sleep_advances authPollInterval w1 ltac:(done)).
    destruct (IH deadline (sleep authPollInterval w1)) as (r & w2 & Heq2 & ?); [lia|].
    exists r, w2. split; [exact Heq2|lia].
Qed.

Lemma SignChallenge_live d ctx challenge : live (SignChallenge d ctx challenge).
Proof.
  apply live_bind; [apply check_context_live|intros _].
  apply live_if; [apply live_fail|].
  apply live_bind; [apply writeShort_live|intros _].
  apply live_bind; [apply writeRegister_live|intros _].
  apply live_bind; [apply writeRegister_live|intros _].
  apply live_bind; [by apply live_sleep|intros _].
  intros w. unfold io_read. rewrite (io_bind_ok _ _ w (now w + authTimeout) w) by done.
  match goal with |- exists r w', io_bind _ ?k w = _ /\ _ => assert (Hk : forall u, live (k u)) end.
  { intros _. apply live_bind; [apply readShort_live|]. intros length.
    apply live_if; [apply live_fail|apply readRegister_live]. }
  destruct (poll_loop_live d 301 (now w + authTimeout) w) as ([u|e] & w1 & Heq & Hle).
  { unfold authTimeout, authPollInterval, Second, Millisecond. lia. }
  - rewrite (io_bind_ok _ _ _ _ _ Heq). destruct (Hk u w1) as (r & w2 & -> & ?).
    eexists _, _. split; [done|lia].
  - rewrite (io_bind_err _ _ _ _ _ Heq). by eexists _, _.
Qed.
End Liveness.
