(* ===== verification/DriverProg.v ===== *)
(** * The driver's code, call by call

    The functions of [Driver] as trees: a program is done, or asks the transport
    for a transaction, pauses, or reads the clock, and goes on with the result.
    Running a tree without interruption is the function of [Driver]; [Engine]
    takes one call at a time, so that other goroutines and the device act in
    between.  A tree settles when it ends whatever the transport answers and
    however long everything takes. *)

From S2P Require Import Prelude Errors Effects Driver.

Open Scope string_scope.
Open Scope list_scope.
Open Scope Z_scope.
Open Scope go_scope.

(** [DPanic] is where the Go code would panic, or a loop's bound is exhausted; a
    pause is never negative. *)
Inductive driver_prog (R : Type) : Type :=
  | DDone (r : R)
  | DTransaction (address : Z) (writeData : list Z) (readLength : Z) (k : result (list Z) -> driver_prog R)
  | DSleep (nanoseconds : N) (k : driver_prog R)
  | DNow (k : Z -> driver_prog R)
  | DPanic.
Arguments DDone {R} _.
Arguments DTransaction {R} _ _ _ _.
Arguments DSleep {R} _ _.
Arguments DNow {R} _.
Arguments DPanic {R}.

Fixpoint prog_then {A B} (m : driver_prog A) (f : A -> driver_prog B) : driver_prog B :=
  match m with
  | DDone a => f a
  | DTransaction a w n k => DTransaction a w n (fun r => prog_then (k r) f)
  | DSleep d k => DSleep d (prog_then k f)
  | DNow k => DNow (fun t => prog_then (k t) f)
  | DPanic => DPanic
  end.

(** A program with an error, as [IO]. *)
Definition dprog (A : Type) : Type := driver_prog (result A).

Definition d_ret {A} (a : A) : dprog A := DDone (Ok a).
Definition d_fail {A} (err : goerror) : dprog A := DDone (Err err).
Definition d_must {A} (o : option A) : dprog A := match o with Some a => d_ret a | None => DPanic end.
Definition d_bind {A B} (m : dprog A) (f : A -> dprog B) : dprog B :=
  prog_then m (fun r => match r with Ok a => f a | Err err => d_fail err end).
Definition d_try {A} (m : dprog A) : dprog (result A) := prog_then m d_ret.
Definition d_sleep (d : Z) : dprog () := DSleep (Z.to_N d) (d_ret ()).
Definition d_now : dprog Z := DNow d_ret.

Notation "x <~- m ;; k" := (d_bind m (fun x => k))
  (at level 20, m at level 99, k at level 200) : go_scope.
Notation "m -;; k" := (d_bind m (fun _ => k))
  (at level 100, k at level 200, right associativity) : go_scope.

(** ** Retrying *)

Fixpoint retry_calls {A} (fuel : nat) (deadline : Z) (operation : string) (action : dprog A) : dprog A :=
  match fuel with
  | O => DPanic
  | S fuel =>
      prog_then action (fun r =>
        match r with
        | Ok result => d_ret result
        | Err err =>
            DNow (fun t =>
              if negb (isRetryableTransportError err) || (deadline <? t)
              then d_fail (WrapError (operation +:+ ": ") err "")
              else DSleep (Z.to_N ioRetryDelay) (retry_calls fuel deadline operation action))
        end)
  end.

Definition retryIO_calls {A} (operation : string) (action : dprog A) : dprog A :=
  t <~- d_now ;; retry_calls retry_fuel (t + ioRetryTimeout) operation action.

(** ** Register access *)

Definition transaction_call (d : Z) (writeData : list Z) (readLength : Z) : dprog (list Z) :=
  DTransaction d writeData readLength DDone.

Definition selectRegisterOnce_calls (d register : Z) : dprog () :=
  result <~- transaction_call d [u8 register] 0 ;;
  if negb (len result =? 0)
  then d_fail (invalid_data (register_text "select" register) "returned unexpected data")
  else d_ret ().

Definition selectRegister_calls (d register : Z) : dprog () :=
  retryIO_calls (register_text "select" register) (selectRegisterOnce_calls d register).

Definition read_register_action_calls (d register length : Z) : dprog (list Z) :=
  selectRegisterOnce_calls d register -;;
  result <~- transaction_call d [] length ;;
  if negb (len result =? length)
  then d_fail (invalid_data (register_text "read" register)
         ("returned " +:+ fmt_d (len result) +:+ " bytes; expected " +:+ fmt_d length))
  else d_ret result.

Definition readRegister_calls (d register length : Z) : dprog (list Z) :=
  if (length <? 1) || (maximumDataBytes <? length)
  then d_fail (invalid_data "read register" (length_outside "length " length))
  else retryIO_calls (register_text "read" register) (read_register_action_calls d register length).

Definition write_register_action_calls (d register : Z) (data : list Z) : dprog () :=
  result <~- transaction_call d (u8 register :: data) 0 ;;
  if negb (len result =? 0)
  then d_fail (invalid_data (register_text "write" register) "returned unexpected data")
  else d_ret ().

Definition writeRegister_calls (d register : Z) (data : list Z) : dprog () :=
  retryIO_calls (register_text "write" register) (write_register_action_calls d register data).

Definition readByte_calls (d register : Z) : dprog Z :=
  data <~- readRegister_calls d register 1 ;;
  d_must (at_index data 0).

Definition readUnsignedBigEndianShort_calls (d register : Z) : dprog Z :=
  data <~- readRegister_calls d register 2 ;;
  d_must (uint16_be data).

Definition writeUnsignedBigEndianShort_calls (d register value : Z) : dprog () :=
  if (value <? 0) || (0xffff <? value)
  then d_fail (invalid_data "write length" ("value " +:+ fmt_d value +:+ " is outside 0..65535"))
  else writeRegister_calls d register (be_bytes value).

Definition bestEffortErrorCode_calls (d : Z) : dprog (option Z) :=
  selected <~- d_try (selectRegister_calls d errorRegister) ;;
  match selected with
  | Err _ => d_ret None
  | Ok _ =>
      result <~- d_try (transaction_call d [] 1) ;;
      match result with
      | Err _ => d_ret None
      | Ok result => if negb (len result =? 1) then d_ret None else d_ret (at_index result 0)
      end
  end.

(** ** The driver's operations *)

Definition check_context_calls (ctx : option goerror) : dprog () :=
  match ctx with Some err => d_fail err | None => d_ret () end.

Definition ProtocolMajor_calls (d : Z) (ctx : option goerror) : dprog Z :=
  check_context_calls ctx -;;
  value <~- readByte_calls d protocolMajorRegister ;;
  d_ret (u8 value).

Fixpoint certificate_calls (fuel : nat) (d length offset register : Z) (certificate : list Z) : dprog (list Z) :=
  match fuel with
  | O => DPanic
  | S fuel =>
      if offset <? length then
        let count := Z.min certificateWindowBytes (length - offset) in
        window <~- readRegister_calls d register count ;;
        certificate_calls fuel d length (offset + count) (register + 1) (copy_at certificate offset window)
      else d_ret certificate
  end.

Definition ReadCertificate_calls (d : Z) (ctx : option goerror) : dprog (list Z) :=
  check_context_calls ctx -;;
  length <~- readUnsignedBigEndianShort_calls d certificateLengthRegister ;;
  if (length <? 1) || (maximumDataBytes <? length)
  then d_fail (invalid_data "read certificate" (length_outside "certificate length " length))
  else certificate_calls (S (Z.to_nat length)) d length 0 certificateDataRegister (replicate (Z.to_nat length) 0).

Fixpoint poll_calls (fuel : nat) (d deadline : Z) : dprog () :=
  match fuel with
  | O => DPanic
  | S fuel =>
      polled <~- d_try (readByte_calls d authControlStatusRegister) ;;
      if match polled with Ok status => status =? authSuccessStatus | Err _ => false end
      then d_ret ()
      else
        t <~- d_now ;;
        if deadline <? t then
          code <~- bestEffortErrorCode_calls d ;;
          d_fail (auth_failed code)
        else
          d_sleep authPollInterval -;;
          poll_calls fuel d deadline
  end.

Definition SignChallenge_calls (d : Z) (ctx : option goerror) (challenge : list Z) : dprog (list Z) :=
  check_context_calls ctx -;;
  if (len challenge <? 1) || (maximumChallengeBytes <? len challenge)
  then d_fail (invalid_data "sign challenge"
         ("challenge must be 1.." +:+ fmt_d maximumChallengeBytes +:+ " bytes"))
  else
    writeUnsignedBigEndianShort_calls d challengeLengthRegister (len challenge) -;;
    writeRegister_calls d challengeDataRegister challenge -;;
    writeRegister_calls d authControlStatusRegister [authStartCommand] -;;
    d_sleep initialAuthDelay -;;
    t <~- d_now ;;
    poll_calls poll_fuel d (t + authTimeout) -;;
    length <~- readUnsignedBigEndianShort_calls d responseLengthRegister ;;
    if (length <? 1) || (maximumDataBytes <? length)
    then d_fail (invalid_data "read signature" (length_outside "signature length " length))
    else readRegister_calls d responseDataRegister length.
