(* ===== verification/DriverSim.v ===== *)
(** * The driver does not see which transport it has

    Two transports related by a simulation give the driver the same results.
    Together with [BridgeProps] this carries what holds of the driver on the
    bus over to the driver on the CH341 transport. *)

From S2P Require Import Prelude Errors Stream Encoder Config Effects Usb Ch341 Ch341Facts Ch341Ops.
From S2P Require Import Ch341Link Bus Bridge BridgeLaws BridgeFacts Ch341Props BridgeProps Driver.

Open Scope string_scope.
Open Scope list_scope.
Open Scope Z_scope.
Open Scope go_scope.

Create HintDb sim.

Section Simulation.
Context {W1 W2 : Type} `{Clock W1, I2CTransport W1, Clock W2, I2CTransport W2}.
Context (R : W1 -> W2 -> Prop).

Class Simulation : Prop := {
  sim_now w1 w2 : R w1 w2 -> now w1 = now w2;
  sim_sleep d w1 w2 : 0 <= d -> R w1 w2 -> R (sleep d w1) (sleep d w2);
  sim_transaction a wr n w1 w2 : 0 <= a -> R w1 w2 ->
    (Transaction a wr n w1).1 = (Transaction a wr n w2).1 /\
    R (Transaction a wr n w1).2 (Transaction a wr n w2).2;
}.

(** Same outcome, in related states. *)
Definition sim {A} (m1 : IO W1 A) (m2 : IO W2 A) : Prop := forall w1 w2, R w1 w2 ->
  match m1 w1, m2 w2 with
  | Some (r1, w1'), Some (r2, w2') => r1 = r2 /\ R w1' w2'
  | None, None => True
  | _, _ => False
  end.

Context `{!Simulation}.

Lemma sim_ret {A} (a : A) : sim (io_ret a) (io_ret a).
Proof. by intros w1 w2 HR. Qed.

Lemma sim_fail {A} e : sim (@io_fail W1 A e) (io_fail e).
Proof. by intros w1 w2 HR. Qed.

Lemma sim_must {A} (o : option A) : sim (io_must o) (io_must o).
Proof. by destruct o; intros w1 w2 HR. Qed.

Lemma sim_read {A} (f : W1 -> A) (g : W2 -> A) :
  (forall w1 w2, R w1 w2 -> f w1 = g w2) -> sim (io_read f) (io_read g).
Proof. intros Hfg w1 w2 HR. simpl. by rewrite (Hfg w1 w2 HR). Qed.

Lemma sim_pause d : 0 <= d -> sim (io_effect (sleep d)) (io_effect (sleep d)).
Proof. intros Hd w1 w2 HR. simpl. split; [done|]. by apply sim_sleep. Qed.

Lemma sim_bind {A B} (m1 : IO W1 A) (m2 : IO W2 A) (f1 : A -> IO W1 B) (f2 : A -> IO W2 B) :
  sim m1 m2 -> (forall a, sim (f1 a) (f2 a)) -> sim (io_bind m1 f1) (io_bind m2 f2).
Proof.
  intros Hm Hf w1 w2 HR. unfold io_bind. specialize (Hm w1 w2 HR).
  destruct (m1 w1) as [[r1 w1']|], (m2 w2) as [[r2 w2']|]; try done.
  destruct Hm as [-> HR']. destruct r2; [by apply Hf|done].
Qed.

Lemma sim_try {A} (m1 : IO W1 A) (m2 : IO W2 A) : sim m1 m2 -> sim (io_try m1) (io_try m2).
Proof.
  intros Hm w1 w2 HR. unfold io_try. specialize (Hm w1 w2 HR).
  destruct (m1 w1) as [[r1 w1']|], (m2 w2) as [[r2 w2']|]; try done.
  by destruct Hm as [-> HR'].
Qed.

Lemma sim_if {A} (b : bool) (m1 k1 : IO W1 A) (m2 k2 : IO W2 A) :
  sim m1 m2 -> sim k1 k2 -> sim (if b then m1 else k1) (if b then m2 else k2).
Proof. by destruct b. Qed.

#[local] Hint Resolve sim_ret sim_fail sim_must sim_bind sim_try sim_if sim_pause : sim.

Context (d : Z) (d_nonneg : 0 <= d).

Lemma sim_transact wr n : sim (transaction d wr n) (transaction d wr n).
Proof.
  intros w1 w2 HR. unfold transaction. destruct (sim_transaction d wr n w1 w2 d_nonneg HR) as [Hr HR'].
  destruct (Transaction d wr n w1), (Transaction d wr n w2). by split.
Qed.

Lemma sim_retry_loop {A} fuel deadline operation (m1 : IO W1 A) (m2 : IO W2 A) :
  sim m1 m2 -> sim (retry_loop fuel deadline operation m1) (retry_loop fuel deadline operation m2).
Proof.
  intros Hm. induction fuel as [|fuel IH]; intros w1 w2 HR; cbn [retry_loop]; [done|].
  specialize (Hm w1 w2 HR).
  destruct (m1 w1) as [[r1 w1']|], (m2 w2) as [[r2 w2']|]; try done.
  destruct Hm as [-> HR']. destruct r2 as [a|e]; [done|].
  rewrite (sim_now w1' w2' HR'). destruct (_ || _); [done|]. apply IH. by apply sim_sleep.
Qed.

Lemma sim_retryIO {A} operation (m1 : IO W1 A) (m2 : IO W2 A) :
  sim m1 m2 -> sim (retryIO operation m1) (retryIO operation m2).
Proof.
  intros Hm w1 w2 HR. unfold retryIO. rewrite (sim_now w1 w2 HR). by apply sim_retry_loop.
Qed.

#[local] Hint Resolve sim_transact sim_retryIO : sim.

Lemma sim_selectRegisterOnce r : sim (selectRegisterOnce d r) (selectRegisterOnce d r).
Proof. apply sim_bind; eauto with sim. Qed.

Lemma sim_readRegister r n : sim (readRegister d r n) (readRegister d r n).
Proof.
  apply sim_if; [apply sim_fail|]. apply sim_retryIO, sim_bind; [apply sim_selectRegisterOnce|].
  intros _. apply sim_bind; eauto with sim.
Qed.

Lemma sim_writeRegister r data : sim (writeRegister d r data) (writeRegister d r data).
Proof. apply sim_retryIO, sim_bind; eauto with sim. Qed.

#[local] Hint Resolve sim_selectRegisterOnce sim_readRegister sim_writeRegister : sim.

Lemma sim_readByte r : sim (readByte d r) (readByte d r).
Proof. apply sim_bind; eauto with sim. Qed.

Lemma sim_readShort r : sim (readUnsignedBigEndianShort d r) (readUnsignedBigEndianShort d r).
Proof. apply sim_bind; eauto with sim. Qed.

Lemma sim_writeShort r v : sim (writeUnsignedBigEndianShort d r v) (writeUnsignedBigEndianShort d r v).
Proof. apply sim_if; eauto with sim. Qed.

Lemma sim_bestEffortErrorCode : sim (bestEffortErrorCode d) (bestEffortErrorCode d).
Proof.
  apply sim_bind; [apply sim_try, sim_retryIO, sim_selectRegisterOnce|]. intros [[]|e]; [|apply sim_ret].
  apply sim_bind; [eauto with sim|]. intros [data|e]; eauto with sim.
Qed.

Lemma sim_check_context ctx : sim (check_context ctx) (check_context ctx).
Proof. destruct ctx; [apply sim_fail|apply sim_ret]. Qed.

#[local] Hint Resolve sim_readByte sim_readShort sim_writeShort sim_bestEffortErrorCode sim_check_context : sim.

Lemma sim_ProtocolMajor ctx : sim (ProtocolMajor d ctx) (ProtocolMajor d ctx).
Proof. apply sim_bind; [eauto with sim|intros _]. apply sim_bind; eauto with sim. Qed.

Lemma sim_certificate_loop fuel : forall length offset register certificate,
  sim (certificate_loop fuel d length offset register certificate)
      (certificate_loop fuel d length offset register certificate).
Proof.
  induction fuel as [|fuel IH]; intros length offset register certificate; cbn [certificate_loop];
    [apply sim_must|].
  apply sim_if; [|apply sim_ret]. apply sim_bind; eauto with sim.
Qed.

Lemma sim_ReadCertificate ctx : sim (ReadCertificate d ctx) (ReadCertificate d ctx).
Proof.
  apply sim_bind; [eauto with sim|intros _]. apply sim_bind; [eauto with sim|intros length].
  apply sim_if; [apply sim_fail|apply sim_certificate_loop].
Qed.

Lemma sim_poll_loop fuel deadline : sim (poll_loop fuel d deadline) (poll_loop fuel d deadline).
Proof.
  induction fuel as [|fuel IH]; cbn [poll_loop]; [apply sim_must|].
  apply sim_bind; [eauto with sim|intros polled]. apply sim_if; [apply sim_ret|].
  apply sim_bind; [apply sim_read; intros w1 w2 HR; by rewrite (sim_now w1 w2 HR)|intros b].
  apply sim_if; [apply sim_bind; eauto with sim|].
  apply sim_bind; [by apply sim_pause|intros _]. apply IH.
Qed.

Lemma sim_SignChallenge ctx challenge : sim (SignChallenge d ctx challenge) (SignChallenge d ctx challenge).
Proof.
  unfold SignChallenge. apply sim_bind; [eauto with sim|intros _]. apply sim_if; [apply sim_fail|].
  apply sim_bind; [eauto with sim|intros _]. apply sim_bind; [eauto with sim|intros _].
  apply sim_bind; [eauto with sim|intros _]. apply sim_bind; [by apply sim_pause|intros _].
  apply sim_bind; [apply sim_read; intros w1 w2 HR; by rewrite (sim_now w1 w2 HR)|intros deadline].
  apply sim_bind; [apply sim_poll_loop|intros _]. apply sim_bind; [eauto with sim|intros length].
  apply sim_if; eauto with sim.
Qed.
End Simulation.

Arguments Simulation {W1 W2} {_ _ _ _} R.

(** The CH341 transport on an ideal bridge simulates the bus. *)
#[export] Instance linked_simulation {S : Type} `{Slave S, GousbText, MapOrder} :
  Simulation (W1 := Ch341Transport (host S)) (W2 := bus S) linked.
Proof.
  constructor.
  - intros t b [_ [Ht _]]. exact Ht.
  - intros d t b Hd [Hu [Ht Hs]]. split; [exact Hu|]. split; [cbn; by rewrite Ht|exact Hs].
  - intros a wr n t b Ha Hl. pose proof (transaction_linked t b a wr n Ha Hl) as Htr.
    destruct (Transaction a wr n t), (Transaction a wr n b). exact Htr.
Qed.

(** ** Properties *)

Definition demo_bus : bus () := MkBus 0 ().

Lemma demo_linked : linked (demo_transport []) demo_bus.
Proof.
  split; [|done]. split_and!; try done. right.
  exists [], (MkUSBID 0x1a86 0x5512), [], bridge_desc. split_and!; try done; vm_compute; by eexists.
Qed.

(** C4: the CH341 transport implements the I2C bus of [Bus].  Over a bridge that
    follows the stream protocol, on any device, each transaction has the effect on
    the device and returns what running its packets on the bus has and returns, for
    one packet and for many, with the session opened on the way if there was none.
    On that bus a NACK error comes from a packet that reports a refused byte; a
    byte in a packet without reports, such as the read address of a request of
    several packets, may be refused unnoticed ([Nack.read_address_unreported]). *)
Theorem transaction_refines_bus {S : Type} `{Slave S, GousbText, MapOrder}
    (t : Ch341Transport (host S)) (b : bus S) a w n :
  0 <= a -> linked t b ->
  (Transaction a w n t).1 = (Transaction a w n b).1 /\
  linked (Transaction a w n t).2 (Transaction a w n b).2.
Proof. intros Ha Hl. exact (sim_transaction linked a w n t b Ha Hl). Qed.

Example transaction_refines_bus_witness :
  (Transaction 0x11 [0x30] 100 (demo_transport [])).1 = (Transaction 0x11 [0x30] 100 demo_bus).1 /\
  linked (Transaction 0x11 [0x30] 100 (demo_transport [])).2 (Transaction 0x11 [0x30] 100 demo_bus).2.
Proof. apply (transaction_refines_bus (demo_transport []) demo_bus); [lia|exact demo_linked]. Defined.

(** C13: the driver on the CH341 transport is the driver on the bus: reading the
    certificate and signing a challenge end in the same result and leave the
    device in the same state at the same time. *)
Theorem driver_over_ch341 {S : Type} `{Slave S, GousbText, MapOrder}
    (t : Ch341Transport (host S)) (b : bus S) d ctx challenge :
  0 <= d -> linked t b ->
  (exists r t' b', ReadCertificate d ctx t = Some (r, t') /\ ReadCertificate d ctx b = Some (r, b') /\
    linked t' b') /\
  (exists r t' b', SignChallenge d ctx challenge t = Some (r, t') /\
    SignChallenge d ctx challenge b = Some (r, b') /\ linked t' b').
Proof.
  intros Hd Hl. split.
  - pose proof (sim_ReadCertificate linked d Hd ctx t b Hl) as Hsim.
    destruct (ReadCertificate_live d ctx b) as (r & b' & Hb & _). rewrite Hb in Hsim.
    destruct (ReadCertificate d ctx t) as [[r1 t']|]; [|done]. destruct Hsim as [-> ?]. by exists r, t', b'.
  - pose proof (sim_SignChallenge linked d Hd ctx challenge t b Hl) as Hsim.
    destruct (SignChallenge_live d ctx challenge b) as (r & b' & Hb & _). rewrite Hb in Hsim.
    destruct (SignChallenge d ctx challenge t) as [[r1 t']|]; [|done]. destruct Hsim as [-> ?]. by exists r, t', b'.
Qed.

Example driver_over_ch341_witness :
  (exists r t' b', ReadCertificate 0x11 None (demo_transport []) = Some (r, t') /\
    ReadCertificate 0x11 None demo_bus = Some (r, b') /\ linked t' b') /\
  (exists r t' b', SignChallenge 0x11 None [1; 2] (demo_transport []) = Some (r, t') /\
    SignChallenge 0x11 None [1; 2] demo_bus = Some (r, b') /\ linked t' b').
Proof. apply (driver_over_ch341 (demo_transport []) demo_bus); [lia|exact demo_linked]. Defined.
