(* ===== verification/DriverErrors.v ===== *)
(** * The errors of the chip driver

    Over a transport whose errors carry none of the service's sentinels, the
    driver's errors carry none of them either, so the service cannot mistake a
    hardware failure for an answer of its own. *)

From S2P Require Import Prelude Errors Effects Driver.

Open Scope list_scope.
Open Scope Z_scope.
Open Scope go_scope.

Abbreviation hw_error := (fun e => hardware_error e = true).

Section Errors.
Context {W : Type} `{Clock W, I2CTransport W, !TransportErrors W}.

Lemma transaction_raises d wr n : raises (transaction d wr n) hw_error.
Proof.
  intros w e w' [= Heq]. pose proof (transaction_hw d wr n w) as Hw. by rewrite Heq in Hw.
Qed.

Lemma retry_loop_raises {A} fuel deadline operation (action : IO W A) :
  raises action hw_error -> raises (retry_loop fuel deadline operation action) hw_error.
Proof.
  intros Ha. induction fuel as [|fuel IH]; intros w e w'; cbn [retry_loop]; [done|].
  destruct (action w) as [[[a|e1] w1]|] eqn:Heq; [done| |done].
  destruct (_ || _); [|apply IH]. intros [= <- <-]. exact (Ha _ _ _ Heq).
Qed.

Lemma retryIO_raises {A} operation (action : IO W A) :
  raises action hw_error -> raises (retryIO operation action) hw_error.
Proof. intros Ha w. by apply retry_loop_raises. Qed.

#[local] Hint Resolve transaction_raises retryIO_raises : mfi.

(** Binds, branches and calls; the errors made here are the driver's. *)
#[local] Ltac raise :=
  repeat first
    [ progress eauto with mfi
    | apply raises_bind; [|intros]
    | apply raises_if
    | apply raises_fail; reflexivity ].

Lemma selectRegisterOnce_raises d r : raises (selectRegisterOnce d r) hw_error.
Proof. unfold selectRegisterOnce. raise. Qed.
#[local] Hint Resolve selectRegisterOnce_raises : mfi.

Lemma readRegister_raises d r n : raises (readRegister d r n) hw_error.
Proof. unfold readRegister. raise. apply retryIO_raises. unfold read_register_action. raise. Qed.

Lemma writeRegister_raises d r data : raises (writeRegister d r data) hw_error.
Proof. unfold writeRegister. apply retryIO_raises. unfold write_register_action. raise. Qed.
#[local] Hint Resolve readRegister_raises writeRegister_raises : mfi.

Lemma readByte_raises d r : raises (readByte d r) hw_error.
Proof. unfold readByte. raise. Qed.

Lemma readShort_raises d r : raises (readUnsignedBigEndianShort d r) hw_error.
Proof. unfold readUnsignedBigEndianShort. raise. Qed.

Lemma writeShort_raises d r v : raises (writeUnsignedBigEndianShort d r v) hw_error.
Proof. unfold writeUnsignedBigEndianShort. raise. Qed.

Lemma bestEffortErrorCode_raises d : raises (bestEffortErrorCode d) hw_error.
Proof.
  unfold bestEffortErrorCode. apply raises_bind; [raise|]. intros [[]|e]; [|raise].
  apply raises_bind; [raise|]. intros [data|e]; raise.
Qed.
#[local] Hint Resolve readByte_raises readShort_raises writeShort_raises bestEffortErrorCode_raises : mfi.

Lemma ProtocolMajor_raises d : raises (ProtocolMajor d None) hw_error.
Proof. unfold ProtocolMajor, check_context. raise. Qed.

Lemma certificate_loop_raises d length fuel : forall offset register certificate,
  raises (certificate_loop fuel d length offset register certificate) hw_error.
Proof. induction fuel as [|fuel IH]; intros offset register certificate; cbn [certificate_loop]; raise. Qed.

Lemma ReadCertificate_raises d : raises (ReadCertificate d None) hw_error.
Proof. unfold ReadCertificate, check_context. raise. apply certificate_loop_raises. Qed.

Lemma poll_loop_raises d deadline fuel : raises (poll_loop fuel d deadline) hw_error.
Proof. induction fuel as [|fuel IH]; cbn [poll_loop]; raise. Qed.
#[local] Hint Resolve poll_loop_raises : mfi.

Lemma SignChallenge_raises d challenge : raises (SignChallenge d None challenge) hw_error.
Proof. unfold SignChallenge, check_context. raise. Qed.
End Errors.
