(* ===== verification/DriverLive.v ===== *)
(** * The driver's trees

    A run of a tree without interruption is the function of [Driver].  Taken call
    by call, with any answers and any time in between, the trees of the driver end:
    they do not panic and their loops stay within their bounds ([settles]). *)

From S2P Require Import Prelude Errors Effects Driver DriverProg DriverErrors.

Open Scope string_scope.
Open Scope list_scope.
Open Scope Z_scope.
Open Scope go_scope.

(** ** A run without interruption *)

Section Run.
Context {W : Type} `{Clock W, I2CTransport W}.

Fixpoint drun {R} (m : driver_prog R) (w : W) : option (R * W) :=
  match m with
  | DDone r => Some (r, w)
  | DTransaction a data n k => let '(r, w) := Transaction a data n w in drun (k r) w
  | DSleep d k => drun k (sleep (Z.of_N d) w)
  | DNow k => drun (k (now w)) w
  | DPanic => None
  end.

Lemma drun_then {A B} (m : driver_prog A) (f : A -> driver_prog B) : forall w,
  drun (prog_then m f) w = match drun m w with Some (a, w) => drun (f a) w | None => None end.
Proof.
  induction m as [r|a data n k IH|d k IH|k IH|]; intros w; cbn; [done| |apply IH|apply IH|done].
  destruct (Transaction a data n w) as [r w']. apply IH.
Qed.

(** A tree for a function. *)
Definition druns {A} (m : dprog A) (io : IO W A) : Prop := forall w, drun m w = io w.

Lemma druns_ret {A} (a : A) : druns (d_ret a) (io_ret a).
Proof. done. Qed.

Lemma druns_fail {A} err : druns (A := A) (d_fail err) (io_fail err).
Proof. done. Qed.

Lemma druns_must {A} (o : option A) : druns (d_must o) (io_must o).
Proof. by destruct o. Qed.

Lemma druns_bind {A B} (m : dprog A) io (f : A -> dprog B) g :
  druns m io -> (forall a, druns (f a) (g a)) -> druns (d_bind m f) (io_bind io g).
Proof.
  intros Hm Hf w. unfold d_bind, io_bind. rewrite drun_then, Hm.
  destruct (io w) as [[[a|err] w']|]; [apply Hf|done..].
Qed.

Lemma druns_try {A} (m : dprog A) io : druns m io -> druns (d_try m) (io_try io).
Proof. intros Hm w. unfold d_try, io_try. rewrite drun_then, Hm. by destruct (io w) as [[r w']|]. Qed.

Lemma druns_if {A} (b : bool) (m1 m2 : dprog A) io1 io2 :
  druns m1 io1 -> druns m2 io2 -> druns (if b then m1 else m2) (if b then io1 else io2).
Proof. by destruct b. Qed.

Lemma druns_sleep d : 0 <= d -> druns (d_sleep d) (io_effect (sleep d)).
Proof. intros Hd w. unfold d_sleep. cbn. by rewrite Z2N.id. Qed.

Lemma drun_now {A} (f : Z -> dprog A) w : drun (d_bind d_now f) w = drun (f (now w)) w.
Proof. done. Qed.

Lemma druns_transaction d data n : druns (transaction_call d data n) (transaction d data n).
Proof. intros w. unfold transaction_call, transaction. cbn. by destruct (Transaction d data n w). Qed.

Lemma druns_retry {A} (action : dprog A) io operation fuel : druns action io ->
  forall deadline, druns (retry_calls fuel deadline operation action) (retry_loop fuel deadline operation io).
Proof.
  intros Ha. induction fuel as [|fuel IH]; intros deadline w; cbn [retry_calls retry_loop]; [done|].
  rewrite drun_then, Ha. destruct (io w) as [[[a|err] w']|]; [done| |done]. cbn [drun].
  destruct (_ || _); [done|]. cbn [drun]. rewrite Z2N.id by done. apply IH.
Qed.

Lemma druns_retryIO {A} operation (action : dprog A) io :
  druns action io -> druns (retryIO_calls operation action) (retryIO operation io).
Proof. intros Ha w. unfold retryIO_calls. rewrite drun_now. by apply druns_retry. Qed.

Create HintDb druns.
#[local] Hint Resolve druns_ret druns_fail druns_must druns_bind druns_try druns_if druns_transaction druns_retryIO : druns.

#[local] Ltac call_by_call :=
  repeat first [ progress auto with druns | apply druns_bind; [|intros] | apply druns_if ].

Lemma selectRegisterOnce_druns d r : druns (selectRegisterOnce_calls d r) (selectRegisterOnce d r).
Proof. unfold selectRegisterOnce_calls. call_by_call. Qed.
#[local] Hint Resolve selectRegisterOnce_druns : druns.

Lemma readRegister_druns d r n : druns (readRegister_calls d r n) (readRegister d r n).
Proof. apply druns_if; [auto with druns|]. apply druns_retryIO. call_by_call. Qed.

Lemma writeRegister_druns d r data : druns (writeRegister_calls d r data) (writeRegister d r data).
Proof. apply druns_retryIO. call_by_call. Qed.
#[local] Hint Resolve readRegister_druns writeRegister_druns : druns.

Lemma readByte_druns d r : druns (readByte_calls d r) (readByte d r).
Proof. unfold readByte_calls. call_by_call. Qed.

Lemma readShort_druns d r : druns (readUnsignedBigEndianShort_calls d r) (readUnsignedBigEndianShort d r).
Proof. unfold readUnsignedBigEndianShort_calls. call_by_call. Qed.

Lemma writeShort_druns d r v : druns (writeUnsignedBigEndianShort_calls d r v) (writeUnsignedBigEndianShort d r v).
Proof. unfold writeUnsignedBigEndianShort_calls. call_by_call. Qed.

Lemma bestEffort_druns d : druns (bestEffortErrorCode_calls d) (bestEffortErrorCode d).
Proof.
  apply druns_bind; [apply druns_try, druns_retryIO; auto with druns|]. intros [[]|e]; [|auto with druns].
  apply druns_bind; [auto with druns|]. intros [data|e]; call_by_call.
Qed.
#[local] Hint Resolve readByte_druns readShort_druns writeShort_druns bestEffort_druns : druns.

Lemma check_context_druns ctx : druns (check_context_calls ctx) (check_context ctx).
Proof. by destruct ctx. Qed.
#[local] Hint Resolve check_context_druns : druns.

Lemma ProtocolMajor_druns d ctx : druns (ProtocolMajor_calls d ctx) (ProtocolMajor d ctx).
Proof. unfold ProtocolMajor_calls. call_by_call. Qed.

Lemma certificate_druns d length fuel : forall offset register certificate,
  druns (certificate_calls fuel d length offset register certificate)
        (certificate_loop fuel d length offset register certificate).
Proof.
  induction fuel as [|fuel IH]; intros offset register certificate; cbn [certificate_calls certificate_loop]; [done|].
  call_by_call.
Qed.
#[local] Hint Resolve certificate_druns : druns.

Lemma ReadCertificate_druns d ctx : druns (ReadCertificate_calls d ctx) (ReadCertificate d ctx).
Proof. unfold ReadCertificate_calls, ReadCertificate. call_by_call. Qed.

Lemma poll_druns d deadline fuel : druns (poll_calls fuel d deadline) (poll_loop fuel d deadline).
Proof.
  induction fuel as [|fuel IH]; cbn [poll_calls poll_loop]; [done|].
  apply druns_bind; [auto with druns|]. intros polled. apply druns_if; [auto with druns|].
  intros w. rewrite drun_now. unfold io_bind at 1, io_read.
  destruct (deadline <? now w); [call_by_call|]. apply druns_bind; [by apply druns_sleep|]. intros _. apply IH.
Qed.

Lemma SignChallenge_druns d ctx challenge :
  druns (SignChallenge_calls d ctx challenge) (SignChallenge d ctx challenge).
Proof.
  apply druns_bind; [auto with druns|intros _]. apply druns_if; [auto with druns|].
  apply druns_bind; [auto with druns|intros _]. apply druns_bind; [auto with druns|intros _].
  apply druns_bind; [auto with druns|intros _]. apply druns_bind; [by apply druns_sleep|intros _].
  intros w. rewrite drun_now. unfold io_bind at 1, io_read.
  apply druns_bind; [apply poll_druns|intros _]. call_by_call.
Qed.
End Run.

(** ** Trees that end

    [lives m t Q]: begun at the time [t] or later, [m] ends, whatever the answers
    are, and its result satisfies [Q]; between two calls any time may pass. *)
Fixpoint lives {R} (m : driver_prog R) (t : Z) (Q : R -> Prop) : Prop :=
  match m with
  | DDone r => Q r
  | DTransaction _ _ _ k => forall r t', t <= t' -> hardware r -> lives (k r) t' Q
  | DSleep d k => forall t', t + Z.of_N d <= t' -> lives k t' Q
  | DNow k => forall t', t <= t' -> lives (k t') t' Q
  | DPanic => False
  end.

Lemma lives_later {R} (m : driver_prog R) Q : forall t t', t <= t' -> lives m t Q -> lives m t' Q.
Proof.
  induction m as [r|a data n k IH|d k IH|k IH|]; intros t t' Ht; cbn; [done|..|done].
  - intros Hm r t2 Hle. apply Hm. lia.
  - intros Hm t2 Hle. apply Hm. lia.
  - intros Hm t2 Hle. apply Hm. lia.
Qed.

Lemma lives_mono {R} (m : driver_prog R) (P Q : R -> Prop) : forall t,
  lives m t P -> (forall r, P r -> Q r) -> lives m t Q.
Proof. induction m as [r|a data n k IH|d k IH|k IH|]; cbn; eauto. Qed.

Lemma lives_then {A B} (m : driver_prog A) (f : A -> driver_prog B) P Q : forall t,
  lives m t P -> (forall a t', t <= t' -> P a -> lives (f a) t' Q) -> lives (prog_then m f) t Q.
Proof.
  induction m as [r|a data n k IH|d k IH|k IH|]; intros t; cbn; [|..|done].
  - intros Hr Hf. apply Hf; [lia|done].
  - intros Hm Hf r t' Ht Hr. apply IH; [by apply Hm|]. intros x t2 Hle. apply Hf. lia.
  - intros Hm Hf t' Ht. apply IH; [by apply Hm|]. intros x t2 Hle. apply Hf. lia.
  - intros Hm Hf t' Ht. apply IH; [by apply Hm|]. intros x t2 Hle. apply Hf. lia.
Qed.

Definition good {A} (P : A -> Prop) (r : result A) : Prop :=
  match r with Ok a => P a | Err err => hardware_error err = true end.

Definition settles {A} (m : dprog A) (t : Z) (P : A -> Prop) : Prop := lives m t (good P).

Lemma settles_bind {A B} (m : dprog A) (f : A -> dprog B) P Q t :
  settles m t P -> (forall a t', t <= t' -> P a -> settles (f a) t' Q) -> settles (d_bind m f) t Q.
Proof. intros Hm Hf. eapply lives_then; [exact Hm|]. intros [a|err] t' Ht Hr; [by apply Hf|exact Hr]. Qed.

Lemma settles_ret {A} (a : A) t (P : A -> Prop) : P a -> settles (d_ret a) t P.
Proof. done. Qed.

Lemma settles_fail {A} err t (P : A -> Prop) : hardware_error err = true -> settles (d_fail err) t P.
Proof. done. Qed.

Lemma settles_must {A} (o : option A) t (P : A -> Prop) : (exists a, o = Some a /\ P a) -> settles (d_must o) t P.
Proof. by intros (a & -> & Ha). Qed.

Lemma settles_if {A} (b : bool) (m1 m2 : dprog A) t P :
  (b = true -> settles m1 t P) -> (b = false -> settles m2 t P) -> settles (if b then m1 else m2) t P.
Proof. destruct b; auto. Qed.

Lemma settles_try {A} (m : dprog A) t P : settles m t P -> settles (d_try m) t (fun _ => True).
Proof. intros Hm. by eapply lives_then. Qed.

Lemma settles_now {A} (f : Z -> dprog A) t P :
  (forall t', t <= t' -> settles (f t') t' P) -> settles (d_bind d_now f) t P.
Proof. intros Hf t' Ht. by apply Hf. Qed.

Lemma settles_sleep {A} d (m : dprog A) t P :
  0 <= d -> (forall t', t + d <= t' -> settles m t' P) -> settles (d_sleep d -;; m) t P.
Proof. intros Hd Hm t' Ht. apply Hm. by rewrite Z2N.id in Ht. Qed.

Lemma settles_context {A} (m : dprog A) t P : settles m t P -> settles (check_context_calls None -;; m) t P.
Proof. intros Hm. exact Hm. Qed.

Lemma settles_transaction d data n t : settles (transaction_call d data n) t (fun _ => True).
Proof. intros [r|err] t' _ Hr; [done|exact Hr]. Qed.

Lemma retry_settles {A} (action : dprog A) operation P fuel : (forall t, settles action t P) ->
  forall deadline t, deadline < t + Z.of_nat fuel * ioRetryDelay ->
  settles (retry_calls (S fuel) deadline operation action) t P.
Proof.
  intros Ha. induction fuel as [|fuel IH]; intros deadline t Hdl; cbn [retry_calls];
    eapply lives_then; try apply Ha; intros [a|err] t1 Ht1 Hr; [exact Hr| |exact Hr|]; cbn [lives]; intros t2 Ht2.
  - destruct (Z.ltb_spec deadline t2); [|lia]. rewrite orb_true_r. exact Hr.
  - destruct (negb _ || _); [exact Hr|]. cbn [lives]. intros t3 Ht3. apply IH.
    rewrite Z2N.id in Ht3 by done. lia.
Qed.

Lemma retryIO_settles {A} operation (action : dprog A) P t :
  (forall t, settles action t P) -> settles (retryIO_calls operation action) t P.
Proof.
  intros Ha. apply settles_now. intros t' _. apply (retry_settles _ _ _ 101); [done|].
  unfold ioRetryTimeout, ioRetryDelay, Second, Millisecond. lia.
Qed.

Lemma selectRegisterOnce_settles d r t : settles (selectRegisterOnce_calls d r) t (fun _ => True).
Proof. eapply settles_bind; [apply settles_transaction|]. intros. by apply settles_if. Qed.

Lemma readRegister_settles d r n t :
  settles (readRegister_calls d r n) t (fun data => len data = n).
Proof.
  apply settles_if; [by intros|]. intros _. apply retryIO_settles. intros t'.
  eapply settles_bind; [apply selectRegisterOnce_settles|]. intros _ t1 _ _.
  eapply settles_bind; [apply settles_transaction|]. intros data t2 _ _.
  apply settles_if; [by intros|]. intros Hn%negb_false_iff%Z.eqb_eq. by apply settles_ret.
Qed.

Lemma writeRegister_settles d r data t : settles (writeRegister_calls d r data) t (fun _ => True).
Proof.
  apply retryIO_settles. intros t'. eapply settles_bind; [apply settles_transaction|]. intros. by apply settles_if.
Qed.

Lemma readByte_settles d r t : settles (readByte_calls d r) t (fun _ => True).
Proof.
  eapply settles_bind; [apply readRegister_settles|]. intros data t' _ Hlen. cbv beta in Hlen. apply settles_must.
  destruct (at_index_Some data 0) as [b Hb]; [lia|]. by exists b.
Qed.

Lemma readShort_settles d r t : settles (readUnsignedBigEndianShort_calls d r) t (fun _ => True).
Proof.
  eapply settles_bind; [apply readRegister_settles|]. intros data t' _ Hlen. apply settles_must.
  destruct (uint16_be_some data Hlen) as [v Hv]. by exists v.
Qed.

Lemma writeShort_settles d r v t : settles (writeUnsignedBigEndianShort_calls d r v) t (fun _ => True).
Proof. apply settles_if; [by intros|]. intros _. apply writeRegister_settles. Qed.

Lemma bestEffort_settles d t : settles (bestEffortErrorCode_calls d) t (fun _ => True).
Proof.
  eapply settles_bind; [eapply settles_try, retryIO_settles, selectRegisterOnce_settles|].
  intros [[]|e] t' _ _; [|by apply settles_ret].
  eapply settles_bind; [eapply settles_try, settles_transaction|]. intros [data|e] t2 _ _; [|by apply settles_ret].
  apply settles_if; by intros.
Qed.

Lemma ProtocolMajor_settles d t : settles (ProtocolMajor_calls d None) t (fun _ => True).
Proof.
  apply settles_context. eapply settles_bind; [apply readByte_settles|]. intros. by apply settles_ret.
Qed.

Lemma certificate_settles d length fuel : forall offset register certificate t,
  length - offset <= Z.of_nat fuel ->
  settles (certificate_calls (S fuel) d length offset register certificate) t (fun _ => True).
Proof.
  induction fuel as [|fuel IH]; intros offset register certificate t Hfuel; cbn [certificate_calls];
    destruct (Z.ltb_spec offset length); try (by apply settles_ret); [lia|].
  eapply settles_bind; [apply readRegister_settles|]. intros window t' _ _. apply IH.
  unfold certificateWindowBytes. lia.
Qed.

Lemma ReadCertificate_settles d t : settles (ReadCertificate_calls d None) t (fun _ => True).
Proof.
  apply settles_context. eapply settles_bind; [apply readShort_settles|]. intros length t' _ _.
  apply settles_if; [by intros|]. intros _. apply certificate_settles. lia.
Qed.

Lemma poll_settles d deadline fuel : forall t, deadline < t + Z.of_nat fuel * authPollInterval ->
  settles (poll_calls (S fuel) d deadline) t (fun _ => True).
Proof.
  assert (Hfail : forall t2, settles (code <~- bestEffortErrorCode_calls d ;; @d_fail () (auth_failed code)) t2 (fun _ => True)).
  { intros t2. eapply settles_bind; [apply bestEffort_settles|]. intros. by apply settles_fail. }
  induction fuel as [|fuel IH]; intros t Hdl; cbn [poll_calls];
    (eapply settles_bind; [eapply settles_try, readByte_settles|]); intros polled t1 Ht1 _;
    (apply settles_if; [intros _; by apply settles_ret|]); intros _; apply settles_now; intros t2 Ht2;
    (apply settles_if; [intros _; apply Hfail|]); intros Hlate%Z.ltb_ge.
  - lia.
  - apply settles_sleep; [done|]. intros t3 Ht3. apply IH. lia.
Qed.

Lemma SignChallenge_settles d challenge t : settles (SignChallenge_calls d None challenge) t (fun _ => True).
Proof.
  apply settles_context, settles_if; [by intros|]. intros _.
  eapply settles_bind; [apply writeShort_settles|]. intros _ t1 _ _.
  eapply settles_bind; [apply writeRegister_settles|]. intros _ t2 _ _.
  eapply settles_bind; [apply writeRegister_settles|]. intros _ t3 _ _.
  apply settles_sleep; [done|]. intros t4 _. apply settles_now. intros t5 _.
  eapply settles_bind; [apply (poll_settles _ _ 301)|].
  { unfold authTimeout, authPollInterval, Second, Millisecond. lia. }
  intros _ t6 _ _. eapply settles_bind; [apply readShort_settles|]. intros length t7 _ _.
  apply settles_if; [by intros|]. intros _.
  eapply lives_mono; [apply readRegister_settles|]. by intros [data|err].
Qed.

(** ** What a tree has been answered

    [reaches m l m']: [m] has gone on to [m'], and [l] are the transactions it has
    asked for on the way, with their answers. *)
Inductive reaches {R} : driver_prog R -> list (Z * list Z * Z * result (list Z)) -> driver_prog R -> Prop :=
  | reaches_here m : reaches m [] m
  | reaches_transaction a data n k r l m : reaches (k r) l m -> reaches (DTransaction a data n k) ((a, data, n, r) :: l) m
  | reaches_sleep d k l m : reaches k l m -> reaches (DSleep d k) l m
  | reaches_now k t l m : reaches (k t) l m -> reaches (DNow k) l m.

Lemma reaches_app {R} (m1 m2 m3 : driver_prog R) l1 l2 : reaches m1 l1 m2 -> reaches m2 l2 m3 -> reaches m1 (l1 ++ l2) m3.
Proof. induction 1; cbn; eauto using reaches. Qed.

(** The answers to a call whose result is handed on by [g]. *)
Lemma reaches_result {A R} (m : driver_prog A) (g : A -> R) l r :
  reaches (prog_then m (fun a => DDone (g a))) l (DDone r) -> exists a, reaches m l (DDone a) /\ r = g a.
Proof.
  revert l. induction m as [a|a data n k IH|d k IH|k IH|]; cbn [prog_then]; intros l Hl;
    inversion Hl; subst; try (edestruct IH as (x & ? & ->); [eassumption|]); eauto using reaches.
Qed.

(** ** One call less *)
Inductive child {R} : driver_prog R -> driver_prog R -> Prop :=
  | child_transaction a data n k r : child (k r) (DTransaction a data n k)
  | child_sleep d k : child k (DSleep d k)
  | child_now k t : child (k t) (DNow k).

Lemma child_wf {R} (m : driver_prog R) : Acc child m.
Proof.
  induction m as [r|a data n k IH|d k IH|k IH|]; constructor; intros m' Hm; inversion Hm; subst; auto.
Qed.
