(* ===== verification/Ch341Errors.v ===== *)
(** * The errors of the CH341 transport

    If the USB library's errors carry none of the service's sentinels, neither
    does an error of a transaction.  With it the transport discharges what the
    service assumes of the driver's errors. *)

From S2P Require Import Prelude Errors Stream Encoder Config Effects Usb Ch341 Ch341Link Driver.
From S2P Require Import DriverErrors Bus Bridge BridgeLaws Ch341Prog Ch341Own Ch341Ops Ch341Steps.

Open Scope list_scope.
Open Scope Z_scope.
Open Scope go_scope.

Section Errors.
Context {E : Type} `{Clock E, Gousb E, !GousbErrors E, MapOrder, GousbText}.

Abbreviation T := (Ch341Transport E).

Lemma raises_usb {A} (f : E -> A * E) : raises (W := T) (usb f) hw_error.
Proof. intros t e t'. unfold usb. by destruct (f (context t)). Qed.

Lemma returns_usb {A} (f : E -> A * E) (P : A -> Prop) : (forall e, P (f e).1) -> returns (W := T) (usb f) P.
Proof. intros Hf t a t'. unfold usb. specialize (Hf (context t)). destruct (f (context t)). by intros [= <- _]. Qed.

#[local] Hint Resolve raises_usb : mfi.

#[local] Ltac raise :=
  repeat first
    [ progress eauto with mfi
    | apply raises_bind; [|intros]
    | apply raises_if
    | apply raises_fail; first [reflexivity|assumption] ].

(** A call of the library whose failure is handled by [k]. *)
Lemma raises_call {A B} (f : E -> result A * E) (k : result A -> IO T B) :
  (forall e, hardware (f e).1) -> (forall r, hardware r -> raises (k r) hw_error) ->
  raises (io_bind (usb_try f) k) hw_error.
Proof.
  intros Hf Hk. apply (raises_bind_with _ _ hardware); [by apply returns_usb|apply raises_usb|done].
Qed.

Lemma bulkWrite_raises endpoint data timeout : raises (W := T) (bulkWrite endpoint data timeout) hw_error.
Proof.
  apply (raises_bind_with _ _ (fun o => forall err, o.2 = Some err -> hardware_error err = true));
    [apply returns_usb; intros e err; apply write_hw|raise|].
  intros [k [err|]] Herr; [apply raises_fail; exact (Herr err eq_refl)|raise].
Qed.

Lemma bulk_read_loop_raises fuel endpoint maxLength packetSize first quietT allowEmpty : forall data,
  raises (W := T) (bulk_read_loop fuel endpoint maxLength packetSize first quietT allowEmpty data) hw_error.
Proof.
  induction fuel as [|fuel IH]; intros data; cbn [bulk_read_loop]; [raise|].
  apply raises_if; [|raise].
  apply (raises_bind_with _ _ (fun o => forall err, o.2 = Some err -> hardware_error err = true));
    [apply returns_usb; intros e err; apply read_hw|raise|].
  intros [[buffer k] [err|]] Herr.
  - apply raises_if; [raise|]. apply raises_fail. exact (Herr err eq_refl).
  - raise.
Qed.

#[local] Hint Resolve bulkWrite_raises bulk_read_loop_raises : mfi.

Lemma bulkReadAtMost_raises endpoint maxLength first quietT allowEmpty :
  raises (W := T) (bulkReadAtMost endpoint maxLength first quietT allowEmpty) hw_error.
Proof. unfold bulkReadAtMost. raise. Qed.

Lemma checkStatusBytes_hw status err : checkStatusBytes status = Some err -> hardware_error err = true.
Proof.
  unfold checkStatusBytes. generalize 0. induction status as [|v status IH]; intros offset; simpl; [done|].
  destruct (negb _); [by intros [= <-]|apply IH].
Qed.

Lemma instruction_loop_hw fuel : forall segment index w d err,
  instruction_loop fuel segment index w d = Err err -> hardware_error err = true.
Proof.
  induction fuel as [|fuel IH]; intros segment index w d err; cbn [instruction_loop]; [by intros [= <-]|].
  repeat case_match; intros Heq; simplify_eq; try done; by eapply IH.
Qed.

Lemma execute_segment_raises s segment timeout : raises (W := T) (execute_segment s segment timeout) hw_error.
Proof.
  unfold execute_segment. apply raises_bind; [raise|]. intros _.
  destruct (instructionLengths segment) as [[w d]|err] eqn:Hl.
  2: { apply raises_fail. unfold instructionLengths in Hl. by eapply instruction_loop_hw. }
  unfold read_response. apply raises_if; [|raise].
  apply raises_bind; [apply bulkReadAtMost_raises|]. intros received. apply raises_if; [raise|].
  destruct (checkStatusBytes _) as [err|] eqn:Hs; [|raise].
  apply raises_fail. by apply checkStatusBytes_hw in Hs.
Qed.

Lemma execute_loop_raises fuel s stream timeout : forall offset response,
  raises (W := T) (execute_loop fuel s stream timeout offset response) hw_error.
Proof.
  induction fuel as [|fuel IH]; intros offset response; cbn [execute_loop]; [raise|].
  apply raises_if; [|raise]. apply raises_bind; [apply execute_segment_raises|]. intros. apply IH.
Qed.
#[local] Hint Resolve execute_loop_raises : mfi.

Lemma encodeConfiguration_hw speed err : encodeConfiguration speed = Err err -> hardware_error err = true.
Proof. unfold encodeConfiguration, speed_command. repeat case_match; simpl; intros; by simplify_eq. Qed.

Lemma execute_raises s stream w n : raises (W := T) (execute s stream w n) hw_error.
Proof.
  unfold execute. apply raises_bind; [raise|]. intros speed.
  destruct (encodeConfiguration speed) as [configuration|err] eqn:Hc; [raise|].
  apply raises_fail. by eapply encodeConfiguration_hw.
Qed.

Lemma abandon_raises {A} iface c err :
  hardware_error err = true -> raises (@abandon E _ A iface c err) hw_error.
Proof. intros Herr. unfold abandon. apply raises_bind; [destruct iface; raise|]. intros _. raise. Qed.

Lemma openSession_raises d ident : raises (W := T) (openSession d ident) hw_error.
Proof.
  unfold openSession. destruct (findBulkEndpoints _) as [found|]; [|raise].
  apply raises_call; [intros; apply config_hw|]. intros [c|err] Hc; [|by apply raises_fail].
  apply raises_call; [intros; apply interface_hw|]. intros [i|err] Hi; [|by apply abandon_raises].
  apply raises_call; [intros; apply in_endpoint_hw|]. intros [input|err] Hin; [|by apply abandon_raises].
  apply raises_call; [intros; apply out_endpoint_hw|]. intros [output|err] Hout; [raise|by apply abandon_raises].
Qed.

Lemma open_first_raises ids : forall lastError,
  (forall err, lastError = Some err -> hardware_error err = true) ->
  raises (W := T) (open_first ids lastError) hw_error.
Proof.
  induction ids as [|id ids IH]; intros lastError Hlast; cbn [open_first].
  { apply raises_fail. destruct lastError; [by apply Hlast|done]. }
  apply raises_call; [intros; apply open_device_hw|]. intros [[d|]|err] Hd; [|by apply IH|].
  - eapply raises_bind_with; [apply returns_try, openSession_raises|raise|].
    intros [s|err] Hs; [raise|]. apply raises_bind; [raise|]. intros _. apply IH. by intros err' [= <-].
  - apply IH. by intros err' [= <-].
Qed.

Lemma currentSession_raises : raises (W := T) currentSession hw_error.
Proof.
  unfold currentSession, ensureSessionLocked. apply raises_bind; [raise|]. intros b. apply raises_if; [raise|].
  apply raises_bind; [raise|]. intros [s|]; [raise|]. apply raises_bind; [raise|]. intros ids.
  by apply open_first_raises.
Qed.

Lemma invalidate_raises s : raises (W := T) (invalidateSession s) hw_error.
Proof.
  unfold invalidateSession, session_close. apply raises_bind; [raise|]. intros [c|]; [|raise].
  apply raises_if; raise.
Qed.

Lemma encodeTransaction_hw a w n err : encodeTransaction a w n = Err err -> hardware_error err = true.
Proof.
  unfold encodeTransaction, invalid_request.
  repeat match goal with |- (if ?b then _ else _) = _ -> _ => destruct b; [by intros [= <-]|] end.
  by destruct (encodeLegacyTransaction a w n).
Qed.

Lemma transact_raises a w n : raises (W := T) (transact a w n) hw_error.
Proof.
  unfold transact. destruct (encodeTransaction a w n) as [stream|err] eqn:Henc.
  2: { apply raises_fail. by eapply encodeTransaction_hw. }
  apply raises_bind; [apply currentSession_raises|]. intros s.
  eapply raises_bind_with; [apply returns_try, execute_raises|raise|]. intros [response|err] He; [raise|].
  apply raises_bind; [apply raises_if; [apply invalidate_raises|raise]|]. intros _. by apply raises_fail.
Qed.

#[export] Instance ch341_transport_errors `{UsbHandles E, !ClockLaws E, !GousbLaws E} : TransportErrors T.
Proof.
  constructor. intros a w n t. pose proof (transact_raises a w n t) as Hr. cbn.
  destruct (transact a w n t) as [[[r|err] t']|]; [done| |done]. by eapply Hr.
Qed.

(** ** Call by call

    The same of the trees that [Ch341Steps] runs. *)
Fixpoint tree_hw {A} (m : usb_prog E A) : Prop :=
  match m with
  | PDone r => hardware r
  | PCall f k => forall e, tree_hw (k (f e).1)
  | PPanic => True
  end.

Lemma tree_bind_hw {A B} (m : usb_prog E A) (f : A -> usb_prog E B) :
  tree_hw m -> (forall a, tree_hw (f a)) -> tree_hw (prog_bind m f).
Proof. intros Hm Hf. induction m as [[a|err]|X g k IH|]; cbn in *; auto. Qed.

Lemma tree_must_hw {A} (o : option A) : tree_hw (prog_must o).
Proof. by destruct o. Qed.

Lemma tree_if_hw {A} (b : bool) (m1 m2 : usb_prog E A) : tree_hw m1 -> tree_hw m2 -> tree_hw (if b then m1 else m2).
Proof. by destruct b. Qed.

Lemma bulkWrite_tree endpoint data timeout : tree_hw (bulkWrite_calls endpoint data timeout).
Proof.
  intros e. cbn. pose proof (write_hw endpoint timeout data e) as Hw.
  destruct (WriteContext _ _ _ e) as [[k [err|]] e']; cbn in *; [exact (Hw err eq_refl)|]. by apply tree_if_hw.
Qed.

Lemma bulk_read_tree fuel endpoint maxLength packetSize first quietT allowEmpty : forall data,
  tree_hw (bulk_read_calls fuel endpoint maxLength packetSize first quietT allowEmpty data).
Proof.
  induction fuel as [|fuel IH]; intros data; cbn [bulk_read_calls]; [done|]. apply tree_if_hw; [|done].
  set (timeout := if len data =? 0 then first else quietT). set (size := Z.min _ _).
  intros e. cbn. pose proof (read_hw endpoint timeout size e) as Hw.
  destruct (ReadContext endpoint timeout size e) as [[[buffer k] [err|]] e']; cbn in *.
  - apply tree_if_hw; [done|]. exact (Hw err eq_refl).
  - apply tree_if_hw; [by apply tree_if_hw|]. apply tree_bind_hw; [apply tree_must_hw|]. intros received. apply IH.
Qed.

Lemma read_response_tree s w d timeout : tree_hw (read_response_calls s w d timeout).
Proof.
  apply tree_if_hw; [|done]. apply tree_bind_hw; [apply tree_if_hw; [done|apply bulk_read_tree]|].
  intros received. apply tree_if_hw; [done|]. cbv zeta. destruct (checkStatusBytes _) as [err|] eqn:Hs; [|done].
  by apply checkStatusBytes_hw in Hs.
Qed.

Lemma execute_loop_tree fuel s stream timeout : forall offset response,
  tree_hw (execute_loop_calls fuel s stream timeout offset response).
Proof.
  induction fuel as [|fuel IH]; intros offset response; cbn [execute_loop_calls]; [done|].
  apply tree_if_hw; [|done]. apply tree_bind_hw; [|intros; apply IH].
  apply tree_bind_hw; [apply bulkWrite_tree|]. intros _.
  destruct (instructionLengths _) as [[w d]|err] eqn:Hl; [apply read_response_tree|].
  unfold instructionLengths in Hl. by eapply instruction_loop_hw.
Qed.

Lemma execute_tree speed s stream w n : tree_hw (execute_calls speed s stream w n).
Proof.
  unfold execute_calls. destruct (encodeConfiguration speed) as [configuration|err] eqn:Hc.
  2: { by eapply encodeConfiguration_hw. }
  apply tree_bind_hw; [apply bulkWrite_tree|]. intros _. apply tree_bind_hw; [by apply tree_if_hw|]. intros _.
  apply tree_bind_hw; [apply execute_loop_tree|]. intros response. by apply tree_if_hw.
Qed.

(** The errors that a call of [Transaction] carries at its points. *)
Definition call_hw (p : tpc E) : Prop :=
  match p with
  | TOpened (Err err) _ _ _ | TFail _ err | TDrop _ err | TDropped err => hardware_error err = true
  | TExec _ todo => tree_hw todo
  | TUnlock r | TDone r => hardware r
  | _ => True
  end.

Lemma act_hw tid (t : T) m p t' m' p' : act tid t m p = Some (t', m', p') -> call_hw p -> call_hw p'.
Proof.
  destruct p as [a w n|stream w n|stream w n|[s|err] stream w n|s [[response|err]|X f k|]|s err|s err|err|r|r|b
    |[[found|err]|X f k|]|found|found|status|status| | | |err|err|err]; cbn [act prog_step];
    unfold lock_io, lock_session; intros Ha Hp.
  - destruct (encodeTransaction a w n) as [stream|err] eqn:He; simplify_option_eq; [by case_match; simplify_eq/=|].
    by eapply encodeTransaction_hw.
  - by case_match; simplify_eq/=.
  - destruct (currentSession t) as [[[s|err] t1]|] eqn:He; simplify_eq/=; [done|]. by eapply currentSession_raises.
  - simplify_eq. apply execute_tree.
  - by simplify_eq/=.
  - by simplify_eq/=.
  - by destruct (shouldInvalidateSession err); simplify_eq/=.
  - specialize (Hp (context t)). by destruct (f (context t)); simplify_eq/=.
  - done.
  - by case_match; simplify_eq/=.
  - by repeat case_match; simplify_eq/=.
  - by simplify_eq/=.
  - by simplify_eq/=.
  - done.
  - by simplify_eq/=.
  - by simplify_eq/=.
  - done.
  - by destruct (f (context t)); simplify_eq/=.
  - done.
  - destruct found as [infos [|]]; cbn in Ha; [by case_match; simplify_eq/=|by simplify_eq/=].
  - by repeat case_match; simplify_eq/=.
  - by simplify_eq/=.
  - done.
  - by case_match; simplify_eq/=.
  - by case_match; simplify_eq/=.
  - by repeat case_match; simplify_eq/=.
  - by simplify_eq/=.
  - by simplify_eq/=.
  - done.
Qed.
End Errors.

(** The simulated host's errors are the library's. *)
Section Host.
Context {S : Type} `{Slave S}.

Lemma faulty_hw {A} (k : host S -> result A * host S) h :
  (forall h, hardware (k h).1) -> hardware (faulty k h).1.
Proof.
  intros Hk. unfold faulty. destruct (host_faults h) as [|[[]|] faults]; [apply Hk|done|done|apply Hk].
Qed.

#[export] Instance host_errors : GousbErrors (host S).
Proof.
  constructor; intros; cbn; try (by apply faulty_hw).
  - apply faulty_hw. intros h. by case_match.
  - cbn in *. pose proof (faulty_hw (fun h => (Ok (), bridge_receive data h)) e (fun _ => I)) as Hf.
    destruct (faulty _ e) as [[]]; by simplify_eq/=.
  - cbn in *. pose proof (faulty_hw (fun h => (Ok (), h)) e (fun _ => I)) as Hf.
    destruct (faulty _ e) as [[[]|]]; [destruct (take _ _)|]; by simplify_eq/=.
Qed.
End Host.
