(* ===== verification/DriverFacts.v ===== *)
(** * What the chip driver returns, on any transport

    Result shapes, retries and error classification, for every world that
    implements the clock and transport interfaces. *)

From S2P Require Import Prelude Errors Effects Driver.

Open Scope string_scope.
Open Scope list_scope.
Open Scope Z_scope.
Open Scope go_scope.

Section Results.
Context {W : Type} `{Clock W, I2CTransport W}.

Lemma retryIO_first {A} operation (action : IO W A) w a w' :
  action w = Some (Ok a, w') -> retryIO operation action w = Some (Ok a, w').
Proof. intros Heq. unfold retryIO. change retry_fuel with (S 101). cbn [retry_loop]. by rewrite Heq. Qed.

(** An error outside the transport is final. *)
Lemma retryIO_final {A} operation (action : IO W A) w e w' :
  action w = Some (Err e, w') -> isRetryableTransportError e = false ->
  retryIO operation action w = Some (Err (WrapError (operation +:+ ": ") e ""), w').
Proof.
  intros Heq He. unfold retryIO. change retry_fuel with (S 101). cbn [retry_loop].
  by rewrite Heq, He.
Qed.

(** Reads of [n] failing attempts in a row. *)
Inductive failing {A} (action : IO W A) : nat -> W -> W -> Prop :=
  | failing_none w : failing action 0 w w
  | failing_more n w e w1 w2 :
      action w = Some (Err e, w1) -> isRetryableTransportError e = true ->
      failing action n (sleep ioRetryDelay w1) w2 ->
      failing action (S n) w w2.

(** Before the deadline they are repeated. *)
Lemma retry_loop_failing {A} n : forall fuel deadline operation (action : IO W A) w w2,
  failing action n w w2 -> (n < fuel)%nat ->
  (forall w, now (sleep ioRetryDelay w) = now w + ioRetryDelay) ->
  (forall w r w', action w = Some (r, w') -> now w' = now w) ->
  now w + (Z.of_nat n - 1) * ioRetryDelay <= deadline ->
  retry_loop fuel deadline operation action w = retry_loop (fuel - n) deadline operation action w2.
Proof.
  induction n as [|n IH]; intros fuel deadline operation action w w2 Hf Hfuel Hsleep Hstill Hdl;
    inversion Hf as [|n' w' e w1 w2' Heq He Hrest]; subst.
  - by rewrite Nat.sub_0_r.
  - destruct fuel as [|fuel]; [lia|]. cbn [retry_loop Nat.sub]. rewrite Heq, He. cbn [negb orb].
    pose proof (Hstill _ _ _ Heq) as Hnow. assert (0 < ioRetryDelay) by done.
    destruct (Z.ltb_spec deadline (now w1)); [nia|].
    apply IH; [done|lia|done..|]. rewrite Hsleep. lia.
Qed.

Lemma certificate_loop_returns d n fuel : forall offset register certificate,
  len certificate = n -> 0 <= offset ->
  returns (certificate_loop fuel d n offset register certificate) (fun c => len c = n).
Proof.
  induction fuel as [|fuel IH]; intros offset register certificate Hlen Hoff; cbn [certificate_loop].
  { by intros w a w'. }
  destruct (Z.ltb_spec offset n); [|by apply returns_ret].
  apply returns_bind. intros window. apply IH; [|unfold certificateWindowBytes; lia].
  unfold copy_at, len in *. rewrite !length_app, !length_take, length_drop. lia.
Qed.

Lemma ReadCertificate_returns d ctx :
  returns (ReadCertificate d ctx) (fun c => 1 <= len c <= maximumDataBytes).
Proof.
  apply returns_bind. intros _. apply returns_bind. intros length.
  destruct ((length <? 1) || _) eqn:Hn; [apply returns_fail|].
  apply orb_false_iff in Hn as [H1%Z.ltb_ge H2%Z.ltb_ge].
  eapply returns_impl; [apply certificate_loop_returns|].
  - by rewrite len_replicate, Z2Nat.id by lia.
  - lia.
  - intros c Hc. cbv beta in Hc. lia.
Qed.

Lemma SignChallenge_returns d ctx challenge :
  returns (SignChallenge d ctx challenge) (fun s => 1 <= len s <= maximumDataBytes).
Proof.
  apply returns_bind. intros _. destruct (_ || _); [apply returns_fail|].
  do 7 (apply returns_bind; intros ?).
  destruct (_ || _); [apply returns_fail|].
  eapply returns_impl; [apply readRegister_returns|]. intros s [Hs Hn]. lia.
Qed.
End Results.
