(* ===== verification/DriverScript.v ===== *)
(** * The driver on a scripted transport

    The scripted transport of [internal/chip/driver_test.go] as an instance of
    the transport interface: it answers exactly the transactions of its script
    and fails on any other.  A driver call that succeeds and leaves the rest of
    the script untouched has made exactly the scripted bus traffic, so the
    theorems below give the register sequence of each operation. *)

From S2P Require Import Prelude Errors Effects Driver DriverFacts.

Open Scope string_scope.
Open Scope list_scope.
Open Scope Z_scope.
Open Scope go_scope.

(** ** The transport *)

Record scriptStep := ScriptStep {
  step_write : list Z;
  step_readLen : Z;
  step_response : list Z;
  step_err : option goerror;
}.

Record scriptedTransport := Script { steps : list scriptStep; clock : Z }.

(** [t.steps] is advanced before the comparisons, as in the test helper. *)
Definition scripted_transaction (address : Z) (writeData : list Z) (readLength : Z)
    (t : scriptedTransport) : result (list Z) * scriptedTransport :=
  match steps t with
  | [] => (Err (ErrorString "unexpected transaction"), t)
  | step :: rest =>
      let t := Script rest (clock t) in
      if negb (address =? 0x11) then (Err (ErrorString "address"), t)
      else if negb (bool_decide (writeData = step_write step)) then (Err (ErrorString "write"), t)
      else if negb (readLength =? step_readLen step) then (Err (ErrorString "read"), t)
      else match step_err step with
           | Some err => (Err err, t)
           | None => (Ok (step_response step), t)
           end
  end.

#[export] Instance script_clock : Clock scriptedTransport := {
  now := clock;
  sleep d t := Script (steps t) (clock t + d);
}.

#[export] Instance script_transport : I2CTransport scriptedTransport := {
  Transaction := scripted_transaction;
}.

#[export] Instance script_clock_laws : ClockLaws scriptedTransport.
Proof. constructor. intros d t _. simpl. lia. Qed.

Lemma scripted_clock a w n t : clock (snd (scripted_transaction a w n t)) = clock t.
Proof.
  unfold scripted_transaction. destruct (steps t) as [|step rest]; [done|].
  repeat case_match; done.
Qed.

#[export] Instance script_transport_laws : TransportLaws scriptedTransport.
Proof. constructor. intros a w n t. simpl. by rewrite scripted_clock. Qed.

Definition selectStep (register : Z) : scriptStep := ScriptStep [register] 0 [] None.
Definition readStep (response : list Z) : scriptStep := ScriptStep [] (len response) response None.
Definition writeStep (register : Z) (payload : list Z) : scriptStep :=
  ScriptStep (register :: payload) 0 [] None.

(** ** The scripts of the operations *)

Definition read_script (register : Z) (data : list Z) : list scriptStep :=
  [selectStep (u8 register); readStep data].

(** The windows of a certificate from [offset] on. *)
Fixpoint window_script (fuel : nat) (register offset : Z) (certificate : list Z) : list scriptStep :=
  match fuel with
  | O => []
  | S fuel =>
      if offset <? len certificate then
        let stop := Z.min (offset + certificateWindowBytes) (len certificate) in
        read_script register (slice offset stop certificate)
          ++ window_script fuel (register + 1) stop certificate
      else []
  end.

Definition certificate_script (certificate : list Z) : list scriptStep :=
  read_script certificateLengthRegister (be_bytes (len certificate))
    ++ window_script (S (length certificate)) certificateDataRegister 0 certificate.

(** The traffic that starts an authentication, the polls of its status, and a
    signature that is ready after the polls of [statuses]. *)
Definition start_script (challenge : list Z) : list scriptStep :=
  [writeStep challengeLengthRegister (be_bytes (len challenge));
   writeStep challengeDataRegister challenge;
   writeStep authControlStatusRegister [authStartCommand]].

Definition poll_script (statuses : list Z) : list scriptStep :=
  concat (map (fun status => read_script authControlStatusRegister [status]) statuses).

Definition sign_script (challenge : list Z) (statuses : list Z) (signature : list Z) : list scriptStep :=
  start_script challenge
  ++ poll_script statuses
  ++ read_script authControlStatusRegister [authSuccessStatus]
  ++ read_script responseLengthRegister (be_bytes (len signature))
  ++ read_script responseDataRegister signature.

(** ** Steps *)

Lemma transaction_step step rest t :
  transaction 0x11 (step_write step) (step_readLen step) (Script (step :: rest) t)
  = Some (match step_err step with Some err => Err err | None => Ok (step_response step) end,
          Script rest t).
Proof.
  unfold transaction, Transaction, script_transport, scripted_transaction. cbn [steps clock].
  rewrite bool_decide_true, !Z.eqb_refl by done. cbn. by destruct (step_err step).
Qed.

Lemma readRegister_script r data rest t :
  1 <= len data <= maximumDataBytes ->
  readRegister 0x11 r (len data) (Script (read_script r data ++ rest) t) = Some (Ok data, Script rest t).
Proof.
  intros Hlen. unfold readRegister.
  destruct (Z.ltb_spec (len data) 1), (Z.ltb_spec maximumDataBytes (len data)); try lia. cbn [orb].
  apply retryIO_first. unfold read_register_action, selectRegisterOnce. cbn [app read_script].
  rewrite (io_bind_ok _ _ _ () (Script (readStep data :: rest) t)).
  - rewrite (io_bind_ok _ _ _ _ _ (transaction_step (readStep data) rest t)). cbn.
    by rewrite Z.eqb_refl.
  - by rewrite (io_bind_ok _ _ _ _ _ (transaction_step (selectStep (u8 r)) _ _)).
Qed.

Lemma writeRegister_script r data rest t :
  0 <= r < 256 ->
  writeRegister 0x11 r data (Script (writeStep r data :: rest) t) = Some (Ok (), Script rest t).
Proof.
  intros Hr. unfold writeRegister. apply retryIO_first. unfold write_register_action.
  rewrite u8_small by done. by rewrite (io_bind_ok _ _ _ _ _ (transaction_step (writeStep r data) _ _)).
Qed.

Lemma be_bytes_round_trip v : 0 <= v <= 0xffff -> uint16_be (be_bytes v) = Some v.
Proof.
  intros Hv. unfold be_bytes, uint16_be. f_equal.
  rewrite (u8_small (Z.shiftr v 8)) by (rewrite Z.shiftr_div_pow2 by lia; change (2 ^ 8) with 256;
    split; [apply Z.div_pos|apply Z.div_lt_upper_bound]; lia).
  apply Z.bits_inj'. intros i Hi. rewrite Z.lor_spec, Z.shiftl_spec by lia.
  unfold u8. change 256 with (2 ^ 8). destruct (Z.ltb_spec i 8).
  - rewrite Z.mod_pow2_bits_low by lia. rewrite (Z.testbit_neg_r (Z.shiftr v 8)) by lia. by rewrite orb_false_r.
  - rewrite Z.mod_pow2_bits_high by lia. rewrite Z.shiftr_spec by lia. simpl. f_equal. lia.
Qed.

Lemma readByte_script r b rest t :
  readByte 0x11 r (Script (read_script r [b] ++ rest) t) = Some (Ok b, Script rest t).
Proof.
  unfold readByte. rewrite (io_bind_ok _ _ _ [b] (Script rest t)); [done|].
  apply (readRegister_script r [b]). done.
Qed.

Lemma readShort_script r v rest t :
  0 <= v <= 0xffff ->
  readUnsignedBigEndianShort 0x11 r (Script (read_script r (be_bytes v) ++ rest) t)
  = Some (Ok v, Script rest t).
Proof.
  intros Hv. unfold readUnsignedBigEndianShort.
  rewrite (io_bind_ok _ _ _ (be_bytes v) (Script rest t)).
  - unfold io_must. by rewrite be_bytes_round_trip.
  - apply (readRegister_script r (be_bytes v)). done.
Qed.

(** ** The certificate *)

Lemma slice_take {A} a b (l : list A) :
  0 <= a <= b -> take (Z.to_nat a) l ++ slice a b l = take (Z.to_nat b) l.
Proof.
  intros. unfold slice.
  transitivity (take (Z.to_nat a + Z.to_nat (b - a)) l); [|f_equal; lia].
  apply take_take_drop.
Qed.

(** Copying the next window onto the part read so far. *)
Lemma copy_window certificate offset stop :
  0 <= offset <= stop -> stop <= len certificate ->
  copy_at (take (Z.to_nat offset) certificate
           ++ replicate (Z.to_nat (len certificate - offset)) 0) offset
          (slice offset stop certificate)
  = take (Z.to_nat stop) certificate ++ replicate (Z.to_nat (len certificate - stop)) 0.
Proof.
  intros Ho Hs. pose proof (len_slice offset stop certificate Ho Hs) as Hlen.
  unfold copy_at, len in *. rewrite length_app, length_take, length_replicate.
  rewrite (take_ge (slice _ _ _)) by lia. rewrite app_assoc. f_equal.
  - rewrite take_app_le by (rewrite length_take; lia).
    rewrite take_take, Nat.min_id. by apply slice_take.
  - rewrite drop_app_ge by (rewrite length_take; lia).
    rewrite length_take, drop_replicate. f_equal. lia.
Qed.

Lemma certificate_loop_script certificate rest t : forall fuel offset register,
  len certificate <= maximumDataBytes ->
  0 <= offset <= len certificate -> len certificate - offset < Z.of_nat fuel ->
  certificate_loop fuel 0x11 (len certificate) offset register
    (take (Z.to_nat offset) certificate ++ replicate (Z.to_nat (len certificate - offset)) 0)
    (Script (window_script fuel register offset certificate ++ rest) t)
  = Some (Ok certificate, Script rest t).
Proof.
  induction fuel as [|fuel IH]; intros offset register Hmax Hoff Hfuel; [lia|].
  cbn [certificate_loop window_script].
  destruct (Z.ltb_spec offset (len certificate)) as [Hlt|Hge].
  - unfold certificateWindowBytes.
    set (stop := Z.min (offset + 128) (len certificate)).
    replace (Z.min 128 (len certificate - offset)) with (len (slice offset stop certificate))
      by (rewrite len_slice; lia).
    rewrite <- app_assoc.
    rewrite (io_bind_ok _ _ _ _ _ (readRegister_script register (slice offset stop certificate) _ t
      ltac:(rewrite len_slice; lia))).
    rewrite copy_window by lia. rewrite len_slice by lia.
    replace (offset + (stop - offset)) with stop by lia. apply IH; lia.
  - replace offset with (len certificate) by lia. unfold io_ret. simpl.
    rewrite Z.sub_diag, app_nil_r. unfold len. rewrite Nat2Z.id. by rewrite firstn_all.
Qed.

Lemma ReadCertificate_script certificate rest t :
  1 <= len certificate <= maximumDataBytes ->
  ReadCertificate 0x11 None (Script (certificate_script certificate ++ rest) t)
  = Some (Ok certificate, Script rest t).
Proof.
  intros Hlen. unfold ReadCertificate, certificate_script, check_context.
  rewrite (io_bind_ok _ _ _ () _) by done. rewrite <- app_assoc.
  rewrite (io_bind_ok _ _ _ _ _ (readShort_script _ (len certificate) _ t
    ltac:(unfold maximumDataBytes in *; lia))).
  destruct (Z.ltb_spec (len certificate) 1), (Z.ltb_spec maximumDataBytes (len certificate));
    try lia. cbn [orb].
  pose proof (certificate_loop_script certificate rest t (S (length certificate)) 0
    certificateDataRegister) as Hloop.
  rewrite Z.sub_0_r in Hloop. unfold len in *. rewrite Nat2Z.id in *. cbn [take Z.to_nat app] in Hloop.
  apply Hloop; lia.
Qed.

(** ** The signature *)

Lemma poll_pending statuses : forall fuel deadline rest t,
  Forall (fun s => s <> authSuccessStatus) statuses -> (length statuses < fuel)%nat ->
  t + (len statuses - 1) * authPollInterval <= deadline ->
  poll_loop fuel 0x11 deadline
    (Script (poll_script statuses ++ rest) t)
  = poll_loop (fuel - length statuses) 0x11 deadline (Script rest (t + len statuses * authPollInterval)).
Proof.
  unfold authPollInterval, Millisecond.
  induction statuses as [|s statuses IH]; intros fuel deadline rest t Hs Hfuel Hdl.
  { autorewrite with len. simpl. by rewrite Nat.sub_0_r, Z.mul_0_l, Z.add_0_r. }
  apply Forall_cons in Hs as [Hs Hrest]. simpl in Hfuel. autorewrite with len in *.
  pose proof (len_nonneg statuses). destruct fuel as [|fuel]; [lia|].
  change (poll_script (s :: statuses)) with (read_script authControlStatusRegister [s] ++ poll_script statuses).
  rewrite <- app_assoc. unfold poll_loop at 1; fold (@poll_loop scriptedTransport _ _).
  rewrite (io_bind_ok _ _ _ (Ok s)
    (Script (poll_script statuses ++ rest) t)).
  2: { unfold io_try. by rewrite readByte_script. }
  destruct (Z.eqb_spec s authSuccessStatus); [done|].
  unfold io_read. rewrite (io_bind_ok _ _ _ (deadline <? t) _) by done.
  destruct (Z.ltb_spec deadline t); [lia|]. unfold io_effect.
  rewrite (io_bind_ok _ _ _ () _) by done. cbn [sleep script_clock steps clock].
  unfold authPollInterval, Millisecond. rewrite IH by (try done; lia). cbn [length].
  replace (S fuel - S (length statuses))%nat with (fuel - length statuses)%nat by lia.
  do 2 f_equal. lia.
Qed.

Lemma poll_success fuel deadline rest t :
  poll_loop (S fuel) 0x11 deadline
    (Script (read_script authControlStatusRegister [authSuccessStatus] ++ rest) t)
  = Some (Ok (), Script rest t).
Proof.
  cbn [poll_loop]. rewrite (io_bind_ok _ _ _ (Ok authSuccessStatus) (Script rest t)); [done|].
  unfold io_try. by rewrite readByte_script.
Qed.

(** What [SignChallenge] does once the chip reports success. *)
Definition read_signature : IO scriptedTransport (list Z) :=
  length <-- readUnsignedBigEndianShort 0x11 responseLengthRegister ;;
  if (length <? 1) || (maximumDataBytes <? length)
  then io_fail (invalid_data "read signature" (length_outside "signature length " length))
  else readRegister 0x11 responseDataRegister length.

(** The challenge is written, the authentication started, and polling begins
    after the initial delay. *)
Lemma SignChallenge_start challenge rest t :
  1 <= len challenge <= maximumChallengeBytes ->
  SignChallenge 0x11 None challenge (Script (start_script challenge ++ rest) t)
  = (poll_loop poll_fuel 0x11 (t + initialAuthDelay + authTimeout) ;;; read_signature)
      (Script rest (t + initialAuthDelay)).
Proof.
  intros Hc. unfold SignChallenge, start_script, check_context.
  rewrite (io_bind_ok _ _ _ () _) by done. cbn [app].
  destruct (Z.ltb_spec (len challenge) 1), (Z.ltb_spec maximumChallengeBytes (len challenge));
    try lia. cbn [orb].
  unfold maximumChallengeBytes in *. unfold writeUnsignedBigEndianShort.
  destruct (Z.ltb_spec (len challenge) 0), (Z.ltb_spec 65535 (len challenge)); try lia. cbn [orb].
  rewrite (io_bind_ok _ _ _ _ _ (writeRegister_script challengeLengthRegister _ _ _ ltac:(done))).
  rewrite (io_bind_ok _ _ _ _ _ (writeRegister_script challengeDataRegister _ _ _ ltac:(done))).
  rewrite (io_bind_ok _ _ _ _ _ (writeRegister_script authControlStatusRegister _ _ _ ltac:(done))).
  unfold io_effect, io_read. by do 2 rewrite (io_bind_ok _ _ _ _ _ eq_refl).
Qed.

(** After [statuses] the deadline has not passed: at most 301 of them. *)
Lemma poll_pending_start statuses rest t :
  Forall (fun s => s <> authSuccessStatus) statuses -> len statuses <= 301 ->
  poll_loop poll_fuel 0x11 (t + authTimeout) (Script (poll_script statuses ++ rest) t)
  = poll_loop (S (301 - length statuses)) 0x11 (t + authTimeout)
      (Script rest (t + len statuses * authPollInterval)).
Proof.
  intros Hs Hn. rewrite poll_pending.
  - f_equal. change poll_fuel with 302%nat. unfold len in *. lia.
  - done.
  - change poll_fuel with 302%nat. unfold len in *. lia.
  - unfold authTimeout, authPollInterval, Second, Millisecond. lia.
Qed.

(** Up to 301 polls fit in the authentication time. *)
Lemma SignChallenge_script challenge statuses signature rest t :
  1 <= len challenge <= maximumChallengeBytes ->
  Forall (fun s => s <> authSuccessStatus) statuses -> len statuses <= 301 ->
  1 <= len signature <= maximumDataBytes ->
  SignChallenge 0x11 None challenge (Script (sign_script challenge statuses signature ++ rest) t)
  = Some (Ok signature,
          Script rest (t + initialAuthDelay + len statuses * authPollInterval)).
Proof.
  intros Hc Hs Hn Hsig. unfold sign_script. rewrite <- !app_assoc, SignChallenge_start by done.
  rewrite (io_bind_ok _ _ _ () (Script (read_script responseLengthRegister (be_bytes (len signature))
    ++ read_script responseDataRegister signature ++ rest)
    (t + initialAuthDelay + len statuses * authPollInterval)))
    by (by rewrite poll_pending_start, poll_success).
  unfold read_signature.
  rewrite (io_bind_ok _ _ _ _ _ (readShort_script _ (len signature) _ _
    ltac:(unfold maximumDataBytes in *; lia))).
  destruct (Z.ltb_spec (len signature) 1), (Z.ltb_spec maximumDataBytes (len signature)); try lia.
  cbn [orb]. by apply readRegister_script.
Qed.

(** The last poll sees the deadline passed: the error register is read. *)
Lemma poll_timeout s code rest t deadline :
  s <> authSuccessStatus -> deadline < t ->
  poll_loop 1 0x11 deadline
    (Script (read_script authControlStatusRegister [s]
             ++ read_script errorRegister [code] ++ rest) t)
  = Some (Err (auth_failed (Some code)), Script rest t).
Proof.
  intros Hs Hdl. cbn [poll_loop].
  rewrite (io_bind_ok _ _ _ (Ok s) (Script (read_script errorRegister [code] ++ rest) t)).
  2: { unfold io_try. by rewrite readByte_script. }
  destruct (Z.eqb_spec s authSuccessStatus); [done|].
  unfold io_read. rewrite (io_bind_ok _ _ _ (deadline <? t) _) by done.
  destruct (Z.ltb_spec deadline t); [|lia].
  rewrite (io_bind_ok _ _ _ (Some code) (Script rest t)); [done|].
  unfold bestEffortErrorCode.
  rewrite (io_bind_ok _ _ _ (Ok ()) (Script (readStep [code] :: rest) t)).
  - rewrite (io_bind_ok _ _ _ (Ok [code]) (Script rest t)); [done|].
    unfold io_try. by rewrite (transaction_step (readStep [code])).
  - unfold io_try, selectRegister, selectRegisterOnce. cbn [read_script app].
    rewrite (retryIO_first _ _ _ () (Script (readStep [code] :: rest) t)); [done|].
    by rewrite (io_bind_ok _ _ _ _ _ (transaction_step (selectStep (u8 errorRegister)) _ _)).
Qed.

(** The traffic of an authentication that never completes. *)
Definition timeout_script (challenge : list Z) (statuses : list Z) (last code : Z) : list scriptStep :=
  start_script challenge
  ++ poll_script statuses
  ++ read_script authControlStatusRegister [last]
  ++ read_script errorRegister [code].

Lemma SignChallenge_timeout challenge statuses last code rest t :
  1 <= len challenge <= maximumChallengeBytes ->
  Forall (fun s => s <> authSuccessStatus) (last :: statuses) -> len statuses = 301 ->
  SignChallenge 0x11 None challenge (Script (timeout_script challenge statuses last code ++ rest) t)
  = Some (Err (auth_failed (Some code)),
          Script rest (t + initialAuthDelay + len statuses * authPollInterval)).
Proof.
  intros Hc [Hlast Hs]%Forall_cons Hn. unfold timeout_script.
  rewrite <- !app_assoc, SignChallenge_start by done. apply io_bind_err.
  rewrite poll_pending_start by (done || lia).
  replace (301 - length statuses)%nat with 0%nat by (unfold len in Hn; lia).
  apply poll_timeout; [done|].
  rewrite Hn. unfold authTimeout, authPollInterval, Second, Millisecond. lia.
Qed.

(** ** Retries *)

(** A failing attempt to read a register: in the selection, or in the reading
    after a selection that has succeeded. *)
Inductive attempt := SelectFails (err : goerror) | ReadFails (err : goerror).

Definition attempt_error (a : attempt) : goerror := match a with SelectFails err | ReadFails err => err end.

Definition retryable (a : attempt) : Prop := isRetryableTransportError (attempt_error a) = true.

Definition attempt_script (register length : Z) (a : attempt) : list scriptStep :=
  match a with
  | SelectFails err => [ScriptStep [u8 register] 0 [] (Some err)]
  | ReadFails err => [selectStep (u8 register); ScriptStep [] length [] (Some err)]
  end.

Definition attempts_script (register length : Z) (l : list attempt) : list scriptStep :=
  concat (map (attempt_script register length) l).

Lemma read_attempt r n a rest t :
  read_register_action 0x11 r n (Script (attempt_script r n a ++ rest) t)
  = Some (Err (attempt_error a), Script rest t).
Proof.
  unfold read_register_action, selectRegisterOnce. destruct a as [err|err]; cbn [attempt_script app attempt_error].
  - erewrite io_bind_err; [reflexivity|].
    by rewrite (io_bind_err _ _ _ _ _ (transaction_step (ScriptStep [u8 r] 0 [] (Some err)) _ _)).
  - rewrite (io_bind_ok _ _ _ () (Script (ScriptStep [] n [] (Some err) :: rest) t)).
    + by rewrite (io_bind_err _ _ _ _ _ (transaction_step (ScriptStep [] n [] (Some err)) _ _)).
    + by rewrite (io_bind_ok _ _ _ _ _ (transaction_step (selectStep (u8 r)) _ _)).
Qed.

Lemma attempts_failing r n l : forall rest t,
  Forall retryable l ->
  failing (read_register_action 0x11 r n) (length l)
    (Script (attempts_script r n l ++ rest) t) (Script rest (t + len l * ioRetryDelay)).
Proof.
  induction l as [|a l IH]; intros rest t Hl.
  - rewrite Z.add_0_r. constructor.
  - apply Forall_cons in Hl as [Ha Hl]. unfold attempts_script. cbn [map concat length].
    rewrite <- app_assoc. eapply failing_more; [apply read_attempt|exact Ha|].
    cbn [sleep script_clock steps clock].
    replace (t + len (a :: l) * ioRetryDelay) with (t + ioRetryDelay + len l * ioRetryDelay)
      by (rewrite len_cons; lia).
    by apply IH.
Qed.

Lemma io_bind_clock {A B} (m : IO scriptedTransport A) (f : A -> IO scriptedTransport B) :
  (forall w r w', m w = Some (r, w') -> now w' = now w) ->
  (forall a w r w', f a w = Some (r, w') -> now w' = now w) ->
  forall w r w', io_bind m f w = Some (r, w') -> now w' = now w.
Proof.
  intros Hm Hf w r w'. unfold io_bind.
  destruct (m w) as [[[a|e] w1]|] eqn:Heq; [|intros [= <- <-]; by eapply Hm|done].
  intros H1. transitivity (now w1); [by eapply Hf|by eapply Hm].
Qed.

Lemma transaction_still d wr n w r w' :
  transaction d wr n w = Some (r, w') -> now w' = now w.
Proof.
  unfold transaction. intros [= Heq]. pose proof (scripted_clock d wr n w) as Hclk.
  simpl in Heq. by rewrite Heq in Hclk.
Qed.

Lemma read_action_still d r n w res w' :
  read_register_action d r n w = Some (res, w') -> now w' = now w.
Proof.
  assert (Hif : forall A (b : bool) (e : goerror) (a : A) w r w',
    (if b then io_fail e else io_ret a) w = Some (r, w') -> @now scriptedTransport _ w' = now w).
  { intros A [|] e a w1 r1 w1' [= _ <-]; done. }
  revert w res w'. apply io_bind_clock; [apply io_bind_clock|intros _; apply io_bind_clock];
    intros; first [eapply transaction_still; eassumption|eapply Hif; eassumption].
Qed.

(** ** Properties *)

(** C15: reading a certificate of any accepted length makes exactly this bus
    traffic: the length register, then one select-and-read per 128-byte window
    with increasing register numbers (modulo 256); the windows are assembled
    into the certificate and nothing else is transferred. *)
Theorem read_certificate_traffic certificate rest t :
  1 <= len certificate <= maximumDataBytes ->
  ReadCertificate 0x11 None (Script (certificate_script certificate ++ rest) t)
  = Some (Ok certificate, Script rest t).
Proof. apply ReadCertificate_script. Qed.

Example read_certificate_traffic_witness :
  ReadCertificate 0x11 None (Script (certificate_script (replicate 300 7) ++ []) 0)
  = Some (Ok (replicate 300 7), Script [] 0).
Proof. apply (read_certificate_traffic (replicate 300 7) [] 0). split; vm_compute; discriminate. Defined.

(** C16: signing writes the challenge length, the challenge and the start
    command, waits, polls the status register every 10 ms (here [statuses] are
    the polls that were not yet successful, 301 at most), then reads the
    signature's length and the signature, which it returns. *)
Theorem sign_challenge_traffic challenge statuses signature rest t :
  1 <= len challenge <= maximumChallengeBytes ->
  Forall (fun s => s <> authSuccessStatus) statuses -> len statuses <= 301 ->
  1 <= len signature <= maximumDataBytes ->
  SignChallenge 0x11 None challenge (Script (sign_script challenge statuses signature ++ rest) t)
  = Some (Ok signature,
          Script rest (t + initialAuthDelay + len statuses * authPollInterval)).
Proof. apply SignChallenge_script. Qed.

Example sign_challenge_traffic_witness :
  SignChallenge 0x11 None (replicate 20 1)
    (Script (sign_script (replicate 20 1) [0; 0x80] (replicate 128 0xa0) ++ []) 0)
  = Some (Ok (replicate 128 0xa0), Script [] (0 + initialAuthDelay + len [0; 0x80] * authPollInterval)).
Proof.
  apply (sign_challenge_traffic (replicate 20 1) [0; 0x80] (replicate 128 0xa0) [] 0);
    [vm_compute; split; discriminate|repeat constructor; vm_compute; discriminate|
     vm_compute; discriminate|vm_compute; split; discriminate].
Defined.

(** C35: over a transport whose transactions take no time, with exact sleeps, a
    chip whose status stays unsuccessful is polled 302 times, 10 ms apart; then the
    driver reads the error register and fails with [auth_failed] carrying the
    chip's code.  (Over the CH341 a transaction takes time, so there are fewer polls
    before the same deadline of 3 s; that it ends is [driver_operations_terminate].) *)
Theorem sign_challenge_timeout challenge statuses last code rest t :
  1 <= len challenge <= maximumChallengeBytes ->
  Forall (fun s => s <> authSuccessStatus) (last :: statuses) -> len statuses = 301 ->
  SignChallenge 0x11 None challenge (Script (timeout_script challenge statuses last code ++ rest) t)
  = Some (Err (auth_failed (Some code)),
          Script rest (t + initialAuthDelay + len statuses * authPollInterval)).
Proof. apply SignChallenge_timeout. Qed.

Example sign_challenge_timeout_witness :
  SignChallenge 0x11 None [1] (Script (timeout_script [1] (replicate 301 0) 0 7 ++ []) 0)
  = Some (Err (auth_failed (Some 7)),
          Script [] (0 + initialAuthDelay + len (replicate 301 0) * authPollInterval)).
Proof.
  apply (sign_challenge_timeout [1] (replicate 301 0) 0 7 [] 0);
    [vm_compute; split; discriminate| |reflexivity].
  apply Forall_cons; split; [discriminate|]. by apply Forall_replicate.
Defined.

(** The register read after at most 101 failed attempts. *)
Lemma readRegister_attempts r n l rest t :
  1 <= n <= maximumDataBytes -> Forall retryable l -> len l <= 101 ->
  readRegister 0x11 r n (Script (attempts_script r n l ++ rest) t)
  = retry_loop (102 - length l) (t + ioRetryTimeout) (register_text "read" r) (read_register_action 0x11 r n)
      (Script rest (t + len l * ioRetryDelay)).
Proof.
  intros Hn Hl Hlen. unfold readRegister.
  destruct (Z.ltb_spec n 1), (Z.ltb_spec maximumDataBytes n); try lia. cbn [orb]. unfold retryIO.
  change retry_fuel with 102%nat. cbn [now script_clock clock].
  apply (retry_loop_failing (length l)); [by apply attempts_failing|unfold len in *; lia|done|apply read_action_still|].
  unfold ioRetryTimeout, ioRetryDelay, Second, Millisecond, len in *. cbn [now script_clock clock]. lia.
Qed.

(** C36: a register read retries selection and reading together.  Where the
    transport takes no time, up to 101 attempts in a row that fail with a
    transport error of any kind, in the selection or in the reading, are each
    repeated from the selection on after 20 ms, and the read still ends in the
    register's data; the 102nd failure is the read's. *)
Theorem read_register_retries r data attempts rest t :
  1 <= len data <= maximumDataBytes ->
  Forall (fun a => isRetryableTransportError (attempt_error a) = true) attempts -> len attempts <= 101 ->
  readRegister 0x11 r (len data) (Script (attempts_script r (len data) attempts ++ read_script r data ++ rest) t)
  = Some (Ok data, Script rest (t + len attempts * ioRetryDelay)) /\
  forall last, isRetryableTransportError (attempt_error last) = true -> len attempts = 101 ->
    readRegister 0x11 r (len data)
      (Script (attempts_script r (len data) attempts ++ attempt_script r (len data) last ++ rest) t)
    = Some (Err (WrapError (register_text "read" r +:+ ": ") (attempt_error last) ""),
        Script rest (t + 101 * ioRetryDelay)).
Proof.
  intros Hlen Hall Hn. rewrite readRegister_attempts by done. split.
  - set (u := t + len attempts * ioRetryDelay). pose proof (readRegister_script r data rest u Hlen) as Hok.
    unfold readRegister in Hok. destruct (Z.ltb_spec (len data) 1), (Z.ltb_spec maximumDataBytes (len data)); try lia.
    destruct (102 - length attempts)%nat as [|fuel] eqn:Hf; [unfold len in *; lia|]. cbn [retry_loop].
    assert (Hread : read_register_action 0x11 r (len data) (Script (read_script r data ++ rest) u) = Some (Ok data, Script rest u)).
    { unfold read_register_action, selectRegisterOnce. cbn [read_script app].
      rewrite (io_bind_ok _ _ _ () (Script (readStep data :: rest) u)).
      - rewrite (io_bind_ok _ _ _ _ _ (transaction_step (readStep data) _ _)). cbn. by rewrite Z.eqb_refl.
      - by rewrite (io_bind_ok _ _ _ _ _ (transaction_step (selectStep (u8 r)) _ _)). }
    by rewrite Hread.
  - intros last Hlast Hfull. rewrite readRegister_attempts by done.
    replace (102 - length attempts)%nat with 1%nat by (unfold len in *; lia). cbn [retry_loop].
    rewrite read_attempt, Hlast, Hfull. cbn [negb orb now script_clock clock].
    destruct (Z.ltb_spec (t + ioRetryTimeout) (t + 101 * ioRetryDelay)) as [|Hlt]; [done|].
    unfold ioRetryTimeout, ioRetryDelay, Second, Millisecond in Hlt. lia.
Qed.

Definition demo_attempts : list attempt :=
  replicate 50 (SelectFails (TransportError ErrorNACK "test" None)) ++
  replicate 51 (ReadFails (TransportError ErrorIO "test" None)).

Example read_register_retries_witness :
  readRegister 0x11 0x02 (len [3]) (Script (attempts_script 0x02 (len [3]) demo_attempts ++ read_script 0x02 [3] ++ []) 0)
  = Some (Ok [3], Script [] (0 + len demo_attempts * ioRetryDelay)).
Proof.
  refine (proj1 (read_register_retries 0x02 [3] demo_attempts [] 0 _ _ _)); [split; vm_compute; discriminate| |done].
  unfold demo_attempts. apply Forall_app. split; by apply Forall_replicate.
Defined.

(** C26: on every transport whose transactions end, each driver operation ends:
    no retry or polling loop runs out of its bound, no slice index panics, and
    time does not go back. *)
Theorem driver_operations_terminate {W} `{Clock W, I2CTransport W, !ClockLaws W, !TransportLaws W}
    (d : Z) (ctx : option goerror) (challenge : list Z) :
  live (ProtocolMajor d ctx) /\ live (ReadCertificate d ctx) /\ live (SignChallenge d ctx challenge).
Proof.
  split_and!; [apply ProtocolMajor_live|apply ReadCertificate_live|apply SignChallenge_live].
Qed.

Example driver_operations_terminate_witness :
  live (W := scriptedTransport) (ProtocolMajor 0x11 None) /\
  live (W := scriptedTransport) (ReadCertificate 0x11 None) /\
  live (W := scriptedTransport) (SignChallenge 0x11 None [1]).
Proof. apply (driver_operations_terminate 0x11 None [1]). Defined.

(** Whatever the chip answers, a certificate or a signature the driver
    returns has 1 to 65525 bytes. *)
Theorem driver_result_bounds {W} `{Clock W, I2CTransport W} (d : Z) (ctx : option goerror)
    (challenge : list Z) :
  returns (ReadCertificate d ctx) (fun c => 1 <= len c <= maximumDataBytes) /\
  returns (SignChallenge d ctx challenge) (fun s => 1 <= len s <= maximumDataBytes).
Proof. split; [apply ReadCertificate_returns|apply SignChallenge_returns]. Qed.

(** Only transport errors are retried: a chip-level error (such as a reply
    of the wrong length) ends the first attempt and is returned wrapped, with
    its kind still visible. *)
Theorem chip_errors_are_final {W} `{Clock W, I2CTransport W} {A} operation (action : IO W A)
    (w w' : W) (e : goerror) :
  action w = Some (Err e, w') -> isRetryableTransportError e = false ->
  exists e', retryIO operation action w = Some (Err e', w') /\
    (forall k, chip_IsKind e' k = chip_IsKind e k) /\ isRetryableTransportError e' = false.
Proof.
  intros Heq He. eexists. split; [by apply retryIO_final|]. split; [done|].
  unfold isRetryableTransportError in *. by rewrite errors_As_wrap.
Qed.

Example chip_errors_are_final_witness :
  let w := Script [selectStep 2; ScriptStep [] 2 [1] None] 0 in
  exists e', retryIO "op" (read_register_action 0x11 2 2) w = Some (Err e', Script [] 0) /\
    (forall k, chip_IsKind e' k = chip_IsKind (invalid_data "read register 0x02"
       "returned 1 bytes; expected 2") k) /\ isRetryableTransportError e' = false.
Proof.
  apply (chip_errors_are_final "op" (read_register_action 0x11 2 2)
    (Script [selectStep 2; ScriptStep [] 2 [1] None] 0) (Script [] 0)); vm_compute; reflexivity.
Defined.

(** The steps of the [i]-th window. *)
Lemma window_script_lookup certificate i : forall fuel register offset,
  0 <= offset -> offset + 128 * Z.of_nat i < len certificate ->
  len certificate - offset < Z.of_nat fuel ->
  let start := offset + 128 * Z.of_nat i in
  window_script fuel register offset certificate !! (2 * i)%nat = Some (selectStep (u8 (register + Z.of_nat i))) /\
  window_script fuel register offset certificate !! (2 * i + 1)%nat
  = Some (readStep (slice start (Z.min (start + 128) (len certificate)) certificate)).
Proof.
  induction i as [|i IH]; intros [|fuel] register offset Ho Hi Hfuel; try lia;
    cbn [window_script]; destruct (Z.ltb_spec offset (len certificate)); try lia.
  - by rewrite !Z.add_0_r.
  - replace (2 * S i + 1)%nat with (S (S (2 * i + 1))) by lia. replace (2 * S i)%nat with (S (S (2 * i))) by lia.
    cbn [read_script app lookup list_lookup]. unfold certificateWindowBytes.
    rewrite Z.min_l by lia. destruct (IH fuel (register + 1) (offset + 128)) as [Hs Hr]; [lia..|].
    cbv zeta in *. split; [etransitivity; [exact Hs|do 3 f_equal; lia]|].
    by replace (offset + 128 + 128 * Z.of_nat i) with (offset + 128 * Z.of_nat (S i)) in Hr by lia.
Qed.

(** C38: [ReadCertificate] reads a certificate of any accepted length in windows of
    128 bytes.  The traffic [script] is all it needs for the certificate, and there
    the window [i] is read after the selection of register [0x31 + i] as one byte:
    that is a certificate register for the first 207 windows (26496 bytes) only,
    and the 208th window is read from register 0x00. *)
Theorem certificate_window_registers certificate t :
  1 <= len certificate <= maximumDataBytes ->
  exists script,
    ReadCertificate 0x11 None (Script script t) = Some (Ok certificate, Script [] t) /\
    forall i, 128 * Z.of_nat i < len certificate ->
      exists register,
        script !! (2 + 2 * i)%nat = Some (selectStep register) /\
        script !! (3 + 2 * i)%nat
        = Some (readStep (slice (128 * Z.of_nat i) (Z.min (128 * Z.of_nat i + 128) (len certificate)) certificate)) /\
        (Z.of_nat i <= 206 -> register = certificateDataRegister + Z.of_nat i) /\
        (Z.of_nat i = 207 -> register = 0x00).
Proof.
  intros Hlen. exists (certificate_script certificate). split.
  { rewrite <- (app_nil_r (certificate_script certificate)). by apply ReadCertificate_script. }
  intros i Hi. exists (u8 (certificateDataRegister + Z.of_nat i)).
  destruct (window_script_lookup certificate i (S (length certificate)) certificateDataRegister 0) as [Hs Hr];
    [lia|lia|unfold len; lia|]. unfold certificate_script. split_and!.
  - by replace (2 + 2 * i)%nat with (S (S (2 * i))) by lia.
  - by replace (3 + 2 * i)%nat with (S (S (2 * i + 1))) by lia.
  - intros. apply u8_small. unfold certificateDataRegister. lia.
  - by intros ->.
Qed.

Definition long_certificate : list Z := replicate (Z.to_nat 26500) 0.

Example certificate_window_registers_witness :
  128 * Z.of_nat 207 < len long_certificate /\
  exists script,
    ReadCertificate 0x11 None (Script script 0) = Some (Ok long_certificate, Script [] 0) /\
    forall i, 128 * Z.of_nat i < len long_certificate ->
      exists register,
        script !! (2 + 2 * i)%nat = Some (selectStep register) /\
        script !! (3 + 2 * i)%nat
        = Some (readStep (slice (128 * Z.of_nat i) (Z.min (128 * Z.of_nat i + 128) (len long_certificate)) long_certificate)) /\
        (Z.of_nat i <= 206 -> register = certificateDataRegister + Z.of_nat i) /\
        (Z.of_nat i = 207 -> register = 0x00).
Proof.
  assert (Hlen : len long_certificate = 26500) by (unfold long_certificate; rewrite len_replicate; lia).
  split; [rewrite Hlen; lia|].
  apply (certificate_window_registers long_certificate 0). rewrite Hlen. unfold maximumDataBytes. lia.
Defined.
