(* ===== verification/Service.v ===== *)
(** * The service: chip gate, signature cache, certificate cache

    [internal/biz/service.go] as a system of concurrent calls.  Each goroutine
    that serves a call is a thread with a program counter; one [Run] step is one
    atomic action of the Go code (a critical section of a mutex, an atomic
    pointer access, a channel operation, the start or the end of a driver call),
    and steps of different threads interleave freely.  The step function is
    executable; what the code does not control (which [select] branch is taken,
    when a context is cancelled, what the chip answers, how much time passes) is
    in the step's label. *)

From S2P Require Import Prelude Errors Effects Codec.

Open Scope string_scope.
Open Scope list_scope.
Open Scope Z_scope.

(** ** Data *)

Definition chipWaitDeadline : Z := 8 * Second.
Definition cacheTTL : Z := 60 * Second.

Record Certificate := MkCertificate {
  ProtocolMajor : Z;
  Data : list Z;
  Base64 : string;
  SHA256Hex : string;
  Cached : bool;
  WaitDuration : Z;
  ChipDuration : Z;
}.

Record SignResult := MkSignResult {
  Signature : list Z;
  sign_Cached : bool;
  sign_WaitDuration : Z;
  sign_ChipDuration : Z;
}.

Record signatureEntry := MkEntry {
  challengeDigest : list Z;
  signature : list Z;
  expiresAt : Z;
}.

(** The calls a goroutine may serve, with the name [acquire] records. *)
Inductive call :=
  | CallCertificate
  | CallSign (requestID : string) (challenge : list Z)
  | CallProbe.

Definition holder_name (c : call) : string :=
  match c with
  | CallCertificate => "certificate"
  | CallSign requestID _ => requestID
  | CallProbe => "startup-probe"
  end.

Inductive response :=
  | RCertificate (r : result Certificate)
  | RSign (r : result SignResult)
  | RProbe (r : result Z).

Definition fail_response (c : call) (e : goerror) : response :=
  match c with
  | CallCertificate => RCertificate (Err e)
  | CallSign _ _ => RSign (Err e)
  | CallProbe => RProbe (Err e)
  end.

(** Where a goroutine is.  From [Acquired] to [Unlocking] it owns the gate's
    token. *)
Inductive pc :=
  | Called (c : call)
  | Acquiring (c : call) (started : Z)
  | Acquired (c : call) (started : Z)
  | Locked (c : call) (waitDuration : Z)
  | ChipMajor (c : call) (waitDuration chipStarted : Z)
  | ChipCertificate (waitDuration chipStarted protocolMajor : Z)
  | Storing (waitDuration chipStarted protocolMajor : Z) (data : list Z)
  | ChipSign (requestID : string) (challenge : list Z) (waitDuration chipStarted : Z)
  | Putting (requestID : string) (challenge : list Z) (waitDuration chipStarted : Z) (sig : list Z)
  | Releasing (c : call) (r : response)
  | Unlocking (c : call) (r : response)
  | Done (c : call) (r : response).

(** ** The signature cache *)

Abbreviation cache := (gmap string signatureEntry).

(** [signatureCache.get], at the time [t]. *)
Definition cache_get (t : Z) (requestID : string) (entries : cache) : option signatureEntry * cache :=
  match entries !! requestID with
  | None => (None, entries)
  | Some entry =>
      if expiresAt entry <? t then (None, delete requestID entries)
      else (Some entry, entries)
  end.

(** [signatureCache.put]. *)
Definition cache_put (requestID : string) (entry : signatureEntry) (entries : cache) : cache :=
  <[requestID := entry]> entries.

(** [signatureCache.len]. *)
Definition cache_len (entries : cache) : Z := Z.of_nat (size entries).

Definition cachedResult (entry : signatureEntry) (digest : list Z) : result SignResult :=
  if bool_decide (challengeDigest entry = digest)
  then Ok (MkSignResult (signature entry) true 0 0)
  else Err (SentinelError ErrRequestIDReuse).

(** ** Errors of the driver *)

Definition normalizeHardwareError `{GousbText} (err : goerror) : goerror :=
  if transport_IsKind err ErrorDeviceMissing
  then WrapError "" (SentinelError ErrChipMissing) (": " +:+ error_text err)
  else err.

(** ** The shared state

    [token] is the channel [gate.token]: full or empty.  [history] is a ghost
    record of the chip calls, of the signatures the chip has answered
    ([EvSigned], when [SignChallenge] returns) and of the cache's contents, newest
    first. *)
Inductive event :=
  | EvChipSign (requestID : string) (challenge : list Z) (at_time : Z)
  | EvSigned (requestID : string) (challenge sig : list Z)
  | EvPut (requestID : string) (challenge : list Z) (entry : signatureEntry)
  | EvStore (c : Certificate).

Record shared := Shared {
  clock : Z;
  token : bool;
  holder : string;
  acquired : Z;
  entries : cache;
  certificate : option Certificate;
  history : list event;
}.

Definition set_gate (t : bool) (h : string) (a : Z) (s : shared) : shared :=
  Shared (clock s) t h a (entries s) (certificate s) (history s).
Definition set_entries (c : cache) (s : shared) : shared :=
  Shared (clock s) (token s) (holder s) (acquired s) c (certificate s) (history s).
Definition set_certificate (c : Certificate) (s : shared) : shared :=
  Shared (clock s) (token s) (holder s) (acquired s) (entries s) (Some c) (history s).
Definition record (e : event) (s : shared) : shared :=
  Shared (clock s) (token s) (holder s) (acquired s) (entries s) (certificate s) (e :: history s).
Definition advance (d : Z) (s : shared) : shared :=
  Shared (clock s + d) (token s) (holder s) (acquired s) (entries s) (certificate s) (history s).

(** [gate.status] and [Runtime]. *)
Definition gate_status (s : shared) : string * Z :=
  if bool_decide (holder s = "") then ("", 0) else (holder s, clock s - acquired s).

Record RuntimeStatus := MkRuntimeStatus { CacheEntries : Z; LockHolder : string; LockHeld : Z }.

Definition Runtime (s : shared) : RuntimeStatus :=
  let '(holder, held) := gate_status s in MkRuntimeStatus (cache_len (entries s)) holder held.

(** [Reset] does nothing. *)
Definition Reset (s : shared) : option goerror * shared := (None, s).

(** ** One action of a goroutine

    The label: the [select] branch, or what the driver returned. *)
Inductive branch := BranchToken | BranchTimer | BranchDone (cancelled : bool).

(** [ctx.Err()] of a finished context. *)
Definition context_error (cancelled : bool) : goerror :=
  SentinelError (if cancelled then Canceled else DeadlineExceeded).

Inductive input :=
  | InNone
  | InSelect (b : branch)
  | InMajor (r : result Z)
  | InData (r : result (list Z)).

Section Actions.
Context `{GousbText} (uuid_valid : string -> bool).

(** [cached hit] of the certificate. *)
Definition cached_certificate (c : Certificate) (wait : Z) : Certificate :=
  MkCertificate (ProtocolMajor c) (Data c) (Base64 c) (SHA256Hex c) true wait (ChipDuration c).

Definition stored_certificate (protocolMajor : Z) (data : list Z) : Certificate :=
  MkCertificate protocolMajor data (base64_EncodeToString data) (hex_encode (sha256 data)) false 0 0.

Definition fresh_certificate (c : Certificate) (wait chip : Z) : Certificate :=
  MkCertificate (ProtocolMajor c) (Data c) (Base64 c) (SHA256Hex c) (Cached c) wait chip.

(** From the call to the gate. *)
Definition enter (s : shared) (c : call) : shared * pc :=
  match c with
  | CallCertificate =>
      match certificate s with
      | Some cached => (s, Done c (RCertificate (Ok (cached_certificate cached (WaitDuration cached)))))
      | None => (s, Acquiring c (clock s))
      end
  | CallSign requestID challenge =>
      if negb (uuid_valid requestID) then (s, Done c (RSign (Err (SentinelError ErrRequestIDFormat))))
      else if (len challenge <? 1) || (128 <? len challenge)
      then (s, Done c (RSign (Err (SentinelError ErrChallengeSize))))
      else
        let '(hit, entries) := cache_get (clock s) requestID (entries s) in
        let s := set_entries entries s in
        match hit with
        | Some entry => (s, Done c (RSign (cachedResult entry (sha256 challenge))))
        | None => (s, Acquiring c (clock s))
        end
  | CallProbe => (s, Acquiring c (clock s))
  end.

(** With the gate: the second look at the caches, then the chip. *)
Definition inside (s : shared) (c : call) (wait : Z) : shared * pc :=
  match c with
  | CallCertificate =>
      match certificate s with
      | Some cached => (s, Releasing c (RCertificate (Ok (cached_certificate cached wait))))
      | None => (s, ChipMajor c wait (clock s))
      end
  | CallSign requestID challenge =>
      let '(hit, entries) := cache_get (clock s) requestID (entries s) in
      let s := set_entries entries s in
      match hit with
      | Some entry => (s, Releasing c (RSign (cachedResult entry (sha256 challenge))))
      | None => (record (EvChipSign requestID challenge (clock s)) s,
                 ChipSign requestID challenge wait (clock s))
      end
  | CallProbe => (s, ChipMajor c wait (clock s))
  end.

Definition run (i : input) (s : shared) (p : pc) : option (shared * pc) :=
  match p, i with
  | Called c, InNone => Some (enter s c)
  | Acquiring c started, InSelect BranchToken =>
      if token s then None else Some (set_gate true (holder s) (acquired s) s, Acquired c started)
  | Acquiring c started, InSelect BranchTimer =>
      if started + chipWaitDeadline <=? clock s
      then Some (s, Done c (fail_response c (SentinelError ErrChipBusy))) else None
  | Acquiring c _, InSelect (BranchDone cancelled) =>
      Some (s, Done c (fail_response c (context_error cancelled)))
  | Acquired c started, InNone =>
      Some (set_gate (token s) (holder_name c) (clock s) s, Locked c (clock s - started))
  | Locked c wait, InNone => Some (inside s c wait)
  | ChipMajor c _ _, InMajor (Err e) =>
      Some (s, Releasing c (fail_response c (normalizeHardwareError e)))
  | ChipMajor CallCertificate wait chipStarted, InMajor (Ok major) =>
      Some (s, ChipCertificate wait chipStarted major)
  | ChipMajor c _ _, InMajor (Ok major) => Some (s, Releasing c (RProbe (Ok major)))
  | ChipCertificate _ _ _, InData (Err e) =>
      Some (s, Releasing CallCertificate (RCertificate (Err (normalizeHardwareError e))))
  | ChipCertificate wait chipStarted major, InData (Ok data) =>
      Some (s, Storing wait chipStarted major data)
  | Storing wait chipStarted major data, InNone =>
      let stored := stored_certificate major data in
      let s := record (EvStore stored) (set_certificate stored s) in
      Some (s, Releasing CallCertificate (RCertificate (Ok (fresh_certificate stored wait (clock s - chipStarted)))))
  | ChipSign requestID challenge _ _, InData (Err e) =>
      Some (s, Releasing (CallSign requestID challenge) (RSign (Err (normalizeHardwareError e))))
  | ChipSign requestID challenge wait chipStarted, InData (Ok sig) =>
      Some (record (EvSigned requestID challenge sig) s, Putting requestID challenge wait chipStarted sig)
  | Putting requestID challenge wait chipStarted sig, InNone =>
      let entry := MkEntry (sha256 challenge) sig (clock s + cacheTTL) in
      let s := record (EvPut requestID challenge entry)
                 (set_entries (cache_put requestID entry (entries s)) s) in
      Some (s, Releasing (CallSign requestID challenge) (RSign (Ok (MkSignResult sig false wait (clock s - chipStarted)))))
  | Releasing c r, InNone => Some (set_gate (token s) "" 0 s, Unlocking c r)
  | Unlocking c r, InNone =>
      if token s then Some (set_gate false (holder s) (acquired s) s, Done c r) else None
  | _, _ => None
  end.

(** ** The system *)

Record state := State { sh : shared; threads : gmap nat pc }.

Inductive label :=
  | Spawn (tid : nat) (c : call)
  | Run (tid : nat) (i : input)
  | Tick (d : Z).

Definition step (l : label) (st : state) : option state :=
  match l with
  | Spawn tid c =>
      match threads st !! tid with
      | None => Some (State (sh st) (<[tid := Called c]> (threads st)))
      | Some _ => None
      end
  | Run tid i =>
      match threads st !! tid with
      | Some p =>
          match run i (sh st) p with
          | Some (s, p) => Some (State s (<[tid := p]> (threads st)))
          | None => None
          end
      | None => None
      end
  | Tick d => if 0 <=? d then Some (State (advance d (sh st)) (threads st)) else None
  end.

(** [NewService]: nothing cached, the gate free. *)
Definition init (t : Z) : state := State (Shared t false "" 0 ∅ None []) ∅.

Definition label_ok (l : label) : bool :=
  match l with
  | Run _ (InMajor (Err e)) | Run _ (InData (Err e)) => hardware_error e
  | _ => true
  end.

Inductive reachable : state -> Prop :=
  | reachable_init t : reachable (init t)
  | reachable_step st l st' :
      reachable st -> label_ok l = true -> step l st = Some st' -> reachable st'.

(** Running a schedule. *)
Fixpoint exec (ls : list label) (st : state) : option state :=
  match ls with
  | [] => Some st
  | l :: ls => match step l st with Some st => exec ls st | None => None end
  end.
End Actions.
