(* ===== verification/ServiceInv.v ===== *)
(** * Invariants of the service

    The invariant of every reachable state of [Service.v]: the gate admits one
    goroutine, the caches agree with the history of chip calls, and every
    response a goroutine carries is justified by that history. *)

From S2P Require Import Prelude Errors Effects Codec Service.

Open Scope string_scope.
Open Scope list_scope.
Open Scope Z_scope.

(** The goroutine owns the gate's token. *)
Definition critical (p : pc) : bool :=
  match p with
  | Called _ | Acquiring _ _ | Done _ _ => false
  | _ => true
  end.

(** The goroutine is inside a driver call. *)
Definition in_chip (p : pc) : bool :=
  match p with
  | ChipMajor _ _ _ | ChipCertificate _ _ _ | ChipSign _ _ _ _ => true
  | _ => false
  end.

Lemma in_chip_critical p : in_chip p = true -> critical p = true.
Proof. by destruct p. Qed.

(** The name [gate.status] shows while the goroutine is at [p]. *)
Definition shown_holder (p : pc) : string :=
  match p with
  | Locked c _ | ChipMajor c _ _ | Releasing c _ => holder_name c
  | ChipCertificate _ _ _ | Storing _ _ _ _ => "certificate"
  | ChipSign requestID _ _ _ | Putting requestID _ _ _ _ => requestID
  | _ => ""
  end.

Section Invariant.
Context `{GousbText} (uuid_valid : string -> bool).

Definition call_ok (c : call) : Prop :=
  match c with
  | CallSign requestID challenge => uuid_valid requestID = true /\ 1 <= len challenge <= 128
  | _ => True
  end.

(** What justifies a response to [c]. *)
Definition response_ok (h : list event) (c : call) (r : response) : Prop :=
  match c, r with
  | CallSign requestID challenge, RSign (Ok res) =>
      exists challenge' entry, EvPut requestID challenge' entry ∈ h /\
        sha256 challenge' = sha256 challenge /\ signature entry = Signature res /\
        EvSigned requestID challenge' (Signature res) ∈ h
  | CallSign requestID challenge, RSign (Err e) =>
      e = SentinelError ErrRequestIDReuse ->
      exists challenge' entry, EvPut requestID challenge' entry ∈ h /\
        sha256 challenge' <> sha256 challenge
  | CallCertificate, RCertificate (Ok cert) =>
      exists major data, EvStore (stored_certificate major data) ∈ h /\
        ProtocolMajor cert = major /\ Data cert = data /\
        Base64 cert = base64_EncodeToString data /\ SHA256Hex cert = hex_encode (sha256 data)
  | CallCertificate, RCertificate (Err _) => True
  | CallProbe, RProbe _ => True
  | _, _ => False
  end.

Definition pc_ok (s : shared) (p : pc) : Prop :=
  match p with
  | Called _ => True
  | Acquiring c _ | Acquired c _ | Locked c _ => call_ok c
  | ChipMajor CallCertificate _ _ | ChipCertificate _ _ _ | Storing _ _ _ _ => certificate s = None
  | ChipMajor CallProbe _ _ => True
  | ChipMajor (CallSign _ _) _ _ => False
  | ChipSign requestID challenge _ _ =>
      call_ok (CallSign requestID challenge) /\ entries s !! requestID = None
  | Putting requestID challenge _ _ sig =>
      call_ok (CallSign requestID challenge) /\ entries s !! requestID = None /\
      EvSigned requestID challenge sig ∈ history s
  | Releasing c r | Unlocking c r | Done c r => response_ok (history s) c r
  end.

(** The caches and the history. *)
Record shared_ok (s : shared) : Prop := {
  (** an entry that has not expired is in the cache *)
  put_cached : forall requestID challenge entry,
    EvPut requestID challenge entry ∈ history s -> clock s <= expiresAt entry ->
    entries s !! requestID = Some entry;
  (** cache entries were put there *)
  cached_put : forall requestID entry, entries s !! requestID = Some entry ->
    exists challenge, EvPut requestID challenge entry ∈ history s;
  put_digest : forall requestID challenge entry,
    EvPut requestID challenge entry ∈ history s -> challengeDigest entry = sha256 challenge;
  (** what was put there is what the chip answered *)
  put_signed : forall requestID challenge entry,
    EvPut requestID challenge entry ∈ history s -> EvSigned requestID challenge (signature entry) ∈ history s;
  (** a chip call for a request starts after every earlier entry has expired *)
  chip_after_expiry : forall newer older requestID challenge t,
    history s = newer ++ EvChipSign requestID challenge t :: older ->
    forall challenge' entry, EvPut requestID challenge' entry ∈ older -> expiresAt entry < t;
  (** the certificate is what was stored, once *)
  stored_once : forall c c', EvStore c ∈ history s -> EvStore c' ∈ history s -> c = c';
  stored_history : forall c, certificate s = Some c <-> EvStore c ∈ history s;
  stored_shape : forall c, certificate s = Some c -> exists major data, c = stored_certificate major data
}.

Record gate_ok (st : state) : Prop := {
  one_critical : forall t1 t2 p1 p2,
    threads st !! t1 = Some p1 -> threads st !! t2 = Some p2 ->
    critical p1 = true -> critical p2 = true -> t1 = t2;
  critical_token : forall t p, threads st !! t = Some p -> critical p = true ->
    token (sh st) = true /\ holder (sh st) = shown_holder p;
  token_critical : token (sh st) = true ->
    exists t p, threads st !! t = Some p /\ critical p = true;
  free_holder : token (sh st) = false -> holder (sh st) = ""
}.

Record inv (st : state) : Prop := {
  inv_gate : gate_ok st;
  inv_shared : shared_ok (sh st);
  inv_threads : forall t p, threads st !! t = Some p -> pc_ok (sh st) p
}.

(** ** One action *)

Lemma response_ok_mono h h' c r :
  (forall e, e ∈ h -> e ∈ h') -> response_ok h c r -> response_ok h' c r.
Proof.
  intros Hsub. destruct c, r as [[]|[]|[]]; simpl; try done.
  - intros (major & data & ? & ?). eauto 10.
  - intros (challenge' & entry & ? & ? & ? & ?). exists challenge', entry. auto.
  - intros Hr He. destruct (Hr He) as (challenge' & entry & ? & ?). eauto.
Qed.

(** [cache_get] only removes an expired entry. *)
Lemma cache_get_spec t rid es hit es' :
  cache_get t rid es = (hit, es') ->
  hit = es' !! rid /\
  (forall e, hit = Some e -> es !! rid = Some e /\ t <= expiresAt e) /\
  (forall rid' e, es' !! rid' = Some e -> es !! rid' = Some e) /\
  (forall rid' e, es !! rid' = Some e -> t <= expiresAt e -> es' !! rid' = Some e).
Proof.
  unfold cache_get. destruct (es !! rid) as [e|] eqn:He.
  - destruct (Z.ltb_spec (expiresAt e) t); intros [= <- <-].
    + split_and!; [by rewrite lookup_delete_eq|done|..].
      * intros rid' e' Hl. by apply lookup_delete_Some in Hl as [_ ?].
      * intros rid' e' Hl Ht. rewrite lookup_delete_ne; [done|]. intros ->.
        rewrite He in Hl. simplify_eq. lia.
    + split_and!; [done|by intros ? [= <-]|done|done].
  - intros [= <- <-]. by split_and!.
Qed.

Lemma shared_ok_gate s t h a : shared_ok s -> shared_ok (set_gate t h a s).
Proof. intros [H1 H2 H3 H8 H4 H5 H6 H7]. by constructor. Qed.

Lemma shared_ok_advance s d : 0 <= d -> shared_ok s -> shared_ok (advance d s).
Proof.
  intros Hd [H1 H2 H3 H8 H4 H5 H6 H7]. constructor; simpl; try done.
  intros rid ch e He Hexp. eapply H1; [done|lia].
Qed.

Lemma shared_ok_get s rid hit es :
  shared_ok s -> cache_get (clock s) rid (entries s) = (hit, es) -> shared_ok (set_entries es s).
Proof.
  intros [H1 H2 H3 H8 H4 H5 H6 H7] (_ & _ & Hsub & Hlive)%cache_get_spec.
  constructor; simpl; eauto.
Qed.

(** Recording an event that is neither a put nor a store. *)
Lemma shared_ok_chip s rid ch :
  shared_ok s -> entries s !! rid = None -> shared_ok (record (EvChipSign rid ch (clock s)) s).
Proof.
  intros [H1 H2 H3 H8 H4 H5 H6 H7] Hnone.
  assert (Hput : forall r c e, EvPut r c e ∈ EvChipSign rid ch (clock s) :: history s <->
    EvPut r c e ∈ history s) by (intros; rewrite elem_of_cons; split; [by intros [[=]|]|by right]).
  assert (Hstore : forall c, EvStore c ∈ EvChipSign rid ch (clock s) :: history s <->
    EvStore c ∈ history s) by (intros; rewrite elem_of_cons; split; [by intros [[=]|]|by right]).
  constructor; cbn [history entries clock certificate record].
  - intros r c e. rewrite Hput. apply H1.
  - intros r e Hl. destruct (H2 r e Hl) as [c Hc]. exists c. by rewrite Hput.
  - intros r c e. rewrite Hput. apply H3.
  - intros r c e. rewrite Hput. intros He%H8. by right.
  - intros newer older rid' ch' t Hh ch'' e He. destruct newer as [|ev newer]; simplify_eq/=.
    + destruct (Z.ltb_spec (expiresAt e) (clock s)) as [|Hle]; [done|].
      by rewrite (H1 _ _ _ He Hle) in Hnone.
    + by eapply H4.
  - intros c c'. rewrite !Hstore. apply H5.
  - intros c. rewrite Hstore. apply H6.
  - apply H7.
Qed.

Lemma shared_ok_signed s rid ch sig : shared_ok s -> shared_ok (record (EvSigned rid ch sig) s).
Proof.
  intros [H1 H2 H3 H8 H4 H5 H6 H7].
  assert (Hput : forall r c e, EvPut r c e ∈ EvSigned rid ch sig :: history s <->
    EvPut r c e ∈ history s) by (intros; rewrite elem_of_cons; split; [by intros [[=]|]|by right]).
  assert (Hstore : forall c, EvStore c ∈ EvSigned rid ch sig :: history s <->
    EvStore c ∈ history s) by (intros; rewrite elem_of_cons; split; [by intros [[=]|]|by right]).
  constructor; cbn [history entries clock certificate record].
  - intros r c e. rewrite Hput. apply H1.
  - intros r e Hl. destruct (H2 r e Hl) as [c Hc]. exists c. by rewrite Hput.
  - intros r c e. rewrite Hput. apply H3.
  - intros r c e. rewrite Hput. intros He%H8. by right.
  - intros newer older rid' ch' t Hh ch'' e He. destruct newer as [|ev newer]; simplify_eq/=.
    by eapply H4.
  - intros c c'. rewrite !Hstore. apply H5.
  - intros c. rewrite Hstore. apply H6.
  - apply H7.
Qed.

Lemma shared_ok_put s rid ch sig :
  shared_ok s -> entries s !! rid = None -> EvSigned rid ch sig ∈ history s ->
  let entry := MkEntry (sha256 ch) sig (clock s + cacheTTL) in
  shared_ok (record (EvPut rid ch entry) (set_entries (cache_put rid entry (entries s)) s)).
Proof.
  intros [H1 H2 H3 H8 H4 H5 H6 H7] Hnone Hsig entry. unfold cache_put.
  assert (Hstore : forall c, EvStore c ∈ EvPut rid ch entry :: history s <->
    EvStore c ∈ history s) by (intros; rewrite elem_of_cons; split; [by intros [[=]|]|by right]).
  constructor; cbn [history entries clock certificate record set_entries].
  - intros r c e [[= -> -> ->]|He]%elem_of_cons Hexp; [by rewrite lookup_insert_eq|].
    rewrite lookup_insert_ne; [by eapply H1|]. intros ->. by rewrite (H1 _ _ _ He Hexp) in Hnone.
  - intros r e Hl. apply lookup_insert_Some in Hl as [[-> <-]|[_ Hl]].
    + exists ch. by left.
    + destruct (H2 _ _ Hl) as [c Hc]. exists c. by right.
  - by intros r c e [[= -> -> ->]|He]%elem_of_cons; [|eapply H3].
  - intros r c e [[= -> -> ->]|He]%elem_of_cons; right; [done|by apply H8].
  - intros newer older rid' ch' t Hh ch'' e He. destruct newer as [|ev newer]; simplify_eq/=.
    by eapply H4.
  - intros c c'. rewrite !Hstore. apply H5.
  - intros c. rewrite Hstore. apply H6.
  - apply H7.
Qed.

Lemma shared_ok_store s major data :
  shared_ok s -> certificate s = None ->
  let stored := stored_certificate major data in
  shared_ok (record (EvStore stored) (set_certificate stored s)).
Proof.
  intros [H1 H2 H3 H8 H4 H5 H6 H7] Hnone stored.
  assert (Hno : forall c, EvStore c ∉ history s) by (intros c Hc%H6; congruence).
  assert (Hput : forall r c e, EvPut r c e ∈ EvStore stored :: history s <->
    EvPut r c e ∈ history s) by (intros; rewrite elem_of_cons; split; [by intros [[=]|]|by right]).
  constructor; cbn [history entries clock certificate record set_certificate].
  - intros r c e. rewrite Hput. apply H1.
  - intros r e Hl. destruct (H2 r e Hl) as [c Hc]. exists c. by rewrite Hput.
  - intros r c e. rewrite Hput. apply H3.
  - intros r c e. rewrite Hput. intros He%H8. by right.
  - intros newer older rid' ch' t Hh ch'' e He. destruct newer as [|ev newer]; simplify_eq/=.
    by eapply H4.
  - by intros c c' [[= ->]|Hc%Hno]%elem_of_cons [[= ->]|Hc'%Hno]%elem_of_cons.
  - intros c. rewrite elem_of_cons. split; [by intros [= ->]; left|].
    by intros [[= ->]|Hc%Hno].
  - intros c [= <-]. by exists major, data.
Qed.

(** ** One action preserves the invariant *)

Lemma cachedResult_ok s rid ch e :
  shared_ok s -> entries s !! rid = Some e ->
  response_ok (history s) (CallSign rid ch) (RSign (cachedResult e (sha256 ch))).
Proof.
  intros Hs He. destruct (cached_put s Hs _ _ He) as [ch' Hput].
  pose proof (put_digest s Hs _ _ _ Hput) as Hdig.
  pose proof (put_signed s Hs _ _ _ Hput) as Hsig.
  unfold cachedResult. case_bool_decide as Heq; simpl; [|intros _]; exists ch', e; by rewrite <- Hdig.
Qed.

Lemma cached_certificate_ok s c wait :
  shared_ok s -> certificate s = Some c ->
  response_ok (history s) CallCertificate (RCertificate (Ok (cached_certificate c wait))).
Proof.
  intros Hs Hc. destruct (stored_shape s Hs c Hc) as (major & data & ->).
  exists major, data. split; [by apply (stored_history s Hs)|done].
Qed.

Lemma enter_ok s c s' p' :
  shared_ok s -> enter uuid_valid s c = (s', p') -> shared_ok s' /\ pc_ok s' p'.
Proof.
  intros Hs. unfold enter. destruct c as [|rid ch|].
  - destruct (certificate s) eqn:Hc; intros [= <- <-]; split; try done.
    by apply cached_certificate_ok.
  - destruct (uuid_valid rid) eqn:Hid; simpl; [|by intros [= <- <-]].
    destruct (_ || _) eqn:Hsz; [by intros [= <- <-]|].
    apply orb_false_iff in Hsz as [H1%Z.ltb_ge H2%Z.ltb_ge].
    destruct (cache_get _ _ _) as [hit es] eqn:Hget.
    pose proof (shared_ok_get s rid hit es Hs Hget) as Hs1.
    pose proof (cache_get_spec _ _ _ _ _ Hget) as (Hhit & _).
    destruct hit as [e|]; intros [= <- <-]; split; try done.
    by apply (cachedResult_ok (set_entries es s)).
  - by intros [= <- <-].
Qed.

Lemma inside_ok s c wait s' p' :
  shared_ok s -> call_ok c -> inside s c wait = (s', p') -> shared_ok s' /\ pc_ok s' p'.
Proof.
  intros Hs Hok. unfold inside. destruct c as [|rid ch|].
  - destruct (certificate s) eqn:Hc; intros [= <- <-]; split; try done.
    by apply cached_certificate_ok.
  - destruct (cache_get _ _ _) as [hit es] eqn:Hget.
    pose proof (shared_ok_get s rid hit es Hs Hget) as Hs1.
    pose proof (cache_get_spec _ _ _ _ _ Hget) as (Hhit & _).
    destruct hit as [e|]; intros [= <- <-].
    + split; [done|]. by apply (cachedResult_ok (set_entries es s)).
    + split; [by apply (shared_ok_chip (set_entries es s))|done].
  - by intros [= <- <-].
Qed.

Lemma fail_response_ok h c e :
  e <> SentinelError ErrRequestIDReuse -> response_ok h c (fail_response c e).
Proof. intros Hne. by destruct c; simpl; intros. Qed.

Lemma hardware_not_reuse e :
  hardware_error e = true -> normalizeHardwareError e <> SentinelError ErrRequestIDReuse.
Proof.
  unfold hardware_error, normalizeHardwareError. intros He. destruct (transport_IsKind _ _); [done|].
  intros ->. done.
Qed.

Lemma run_ok i s p s' p' :
  shared_ok s -> pc_ok s p -> label_ok (Run 0 i) = true -> run uuid_valid i s p = Some (s', p') ->
  shared_ok s' /\ pc_ok s' p'.
Proof.
  intros Hs Hp Hl Hrun.
  destruct p as [c|c t|c t|c wt|c wt st|wt st mj|wt st mj dt|rid ch wt st|rid ch wt st sg|c r|c r|c r].
  - destruct i; simplify_eq/=. by eapply enter_ok.
  - destruct i as [|[| |[]]| |]; simplify_eq/=; [destruct (token s)|destruct (_ <=? _)|..];
      simplify_eq; split; try done; try (by apply shared_ok_gate); by apply fail_response_ok.
  - destruct i; simplify_eq/=. split; [by apply shared_ok_gate|done].
  - destruct i; simplify_eq/=. by eapply inside_ok.
  - destruct c; [| |]; destruct i as [| |[mj|e]|]; simplify_eq/=; try done.
  - destruct i as [| | |[dt|e]]; simplify_eq/=; done.
  - destruct i; simplify_eq/=. split; [by apply shared_ok_store|].
    exists mj, dt. split; [by left|done].
  - destruct i as [| | |[dt|e]]; simplify_eq/=.
    + destruct Hp. split; [by apply shared_ok_signed|]. split; [done|]. split; [done|by left].
    + split; [done|]. intros He. by apply hardware_not_reuse in He.
  - destruct i; simplify_eq/=. destruct Hp as (Hc & Hnone & Hsig).
    split; [by apply shared_ok_put|]. eexists ch, _. split; [by left|]. split_and!; [done..|by right].
  - destruct i; simplify_eq/=. split; [by apply shared_ok_gate|done].
  - destruct i; simplify_eq/=. destruct (token s); simplify_eq. split; [by apply shared_ok_gate|done].
  - by destruct i.
Qed.

(** ** What one action does to the others *)

Lemma run_history i s p s' p' e :
  run uuid_valid i s p = Some (s', p') -> e ∈ history s -> e ∈ history s'.
Proof.
  intros Hrun He. destruct p, i; simplify_eq/=; try done;
    unfold enter, inside in *; repeat case_match; simplify_eq/=; try done; by right.
Qed.

(** A goroutine without the token leaves the certificate alone and adds no
    signature. *)
Lemma run_quiet i s p s' p' :
  critical p = false -> run uuid_valid i s p = Some (s', p') ->
  certificate s' = certificate s /\
  forall rid, entries s !! rid = None -> entries s' !! rid = None.
Proof.
  intros Hp Hrun. destruct p as [c|c t| | | | | | | | | |c r]; try done.
  - destruct i; simplify_eq/=. destruct c as [|rid ch|]; simpl in *; [by case_match; simplify_eq| |by simplify_eq].
    destruct (negb _); [by simplify_eq|]. destruct (_ || _); [by simplify_eq|].
    destruct (cache_get _ _ _) as [hit es] eqn:Hget.
    apply cache_get_spec in Hget as (_ & _ & Hsub & _).
    assert (Hnone : forall rid', entries s !! rid' = None -> es !! rid' = None).
    { intros rid' Hn. destruct (es !! rid') eqn:He; [|done]. apply Hsub in He. congruence. }
    destruct hit; simplify_eq; done.
  - destruct i as [|[| |]| |]; simplify_eq/=; repeat case_match; by simplify_eq/=.
Qed.

Lemma pc_ok_frame s s' q :
  (forall e, e ∈ history s -> e ∈ history s') ->
  (critical q = true -> certificate s' = certificate s /\
    forall rid, entries s !! rid = None -> entries s' !! rid = None) ->
  pc_ok s q -> pc_ok s' q.
Proof.
  intros Hh Hc Hq.
  destruct q as [c|c t|c t|c wt|c wt st|wt st mj|wt st mj dt|rid ch wt st|rid ch wt st sg|c r|c r|c r];
    simpl in *; try done; try (by eapply response_ok_mono);
    destruct (Hc eq_refl) as [Hcert Hn].
  - destruct c; try done. by rewrite Hcert.
  - by rewrite Hcert.
  - by rewrite Hcert.
  - split; [apply Hq|]. apply Hn, Hq.
  - split; [apply Hq|]. split; [apply Hn, Hq|apply Hh, Hq].
Qed.

(** How an action moves the token and the recorded holder. *)
Inductive gate_move (s s' : shared) (p p' : pc) : Prop :=
  | move_none : critical p' = critical p -> token s' = token s -> holder s' = holder s ->
      (critical p = true -> shown_holder p' = shown_holder p) -> gate_move s s' p p'
  | move_record : critical p = true -> critical p' = true -> token s' = token s ->
      holder s' = shown_holder p' -> gate_move s s' p p'
  | move_acquire : critical p = false -> critical p' = true -> token s = false -> token s' = true ->
      holder s' = holder s -> shown_holder p' = "" -> gate_move s s' p p'
  | move_release : critical p = true -> critical p' = false -> token s' = false ->
      holder s' = holder s -> shown_holder p = "" -> gate_move s s' p p'.

Lemma enter_gate s c s' p' : enter uuid_valid s c = (s', p') ->
  critical p' = false /\ token s' = token s /\ holder s' = holder s.
Proof. unfold enter. intros. destruct c; simpl in *; repeat case_match; by simplify_eq/=. Qed.

Lemma inside_gate s c wait s' p' : inside s c wait = (s', p') ->
  critical p' = true /\ token s' = token s /\ holder s' = holder s /\ shown_holder p' = holder_name c.
Proof. unfold inside. intros. destruct c; simpl in *; repeat case_match; by simplify_eq/=. Qed.

Lemma run_gate i s p s' p' :
  pc_ok s p -> run uuid_valid i s p = Some (s', p') -> gate_move s s' p p'.
Proof.
  intros Hp Hrun.
  destruct p as [c|c t|c t|c wt|c wt st|wt st mj|wt st mj dt|rid ch wt st|rid ch wt st sg|c r|c r|c r].
  - destruct i; simplify_eq/=. apply enter_gate in Hrun as (? & ? & ?). by apply move_none.
  - destruct i as [|[| |]| |]; simplify_eq/=.
    + destruct (token s) eqn:Ht; simplify_eq. by apply move_acquire.
    + case_match; simplify_eq. by apply move_none.
    + by apply move_none.
  - destruct i; simplify_eq/=. by apply move_record.
  - destruct i; simplify_eq/=. apply inside_gate in Hrun as (? & ? & ? & ?). by apply move_none.
  - destruct c; [| |]; destruct i as [| |[mj|e]|]; simplify_eq/=; try done; by apply move_none.
  - destruct i as [| | |[dt|e]]; simplify_eq/=; by apply move_none.
  - destruct i; simplify_eq/=. by apply move_none.
  - destruct i as [| | |[dt|e]]; simplify_eq/=; by apply move_none.
  - destruct i; simplify_eq/=. by apply move_none.
  - destruct i; simplify_eq/=. by apply move_record.
  - destruct i; simplify_eq/=. destruct (token s); simplify_eq. by apply move_release.
  - by destruct i.
Qed.

(** ** Steps of the system *)

(** The gate while the same goroutine keeps, or does not take, the token. *)
Lemma gate_ok_keep st tid p s' p' :
  gate_ok st -> threads st !! tid = Some p -> critical p' = critical p ->
  token s' = token (sh st) ->
  (critical p = true -> holder s' = shown_holder p') ->
  (critical p = false -> holder s' = holder (sh st)) ->
  gate_ok (State s' (<[tid := p']> (threads st))).
Proof.
  intros [H1 H2 H3 H4] Hp Hc Ht Hown Hnot.
  assert (Hback : forall t q, <[tid := p']> (threads st) !! t = Some q -> critical q = true ->
    exists q0, threads st !! t = Some q0 /\ critical q0 = true /\
      ((t = tid /\ q = p') \/ (t <> tid /\ q = q0))).
  { intros t q Hq Hk. apply lookup_insert_Some in Hq as [[<- <-]|[Hne Hq]].
    - exists p. split_and!; [done|congruence|by left].
    - exists q. split_and!; [done..|right; split; [congruence|done]]. }
  constructor; cbn [sh threads]; rewrite ?Ht.
  - intros t1 t2 p1 p2 Hq1 Hq2 Hk1 Hk2.
    destruct (Hback _ _ Hq1 Hk1) as (q1 & ? & ? & _), (Hback _ _ Hq2 Hk2) as (q2 & ? & ? & _). eauto.
  - intros t q Hq Hk. destruct (Hback _ _ Hq Hk) as (q0 & Hq0 & Hk0 & Hcase).
    destruct (H2 _ _ Hq0 Hk0) as [Htok Hhold]. split; [done|].
    destruct Hcase as [[-> ->]|[Hne ->]]; [apply Hown; congruence|].
    rewrite Hnot; [done|]. destruct (critical p) eqn:Hcp; [|done]. destruct Hne. eauto.
  - intros (t & q & Hq & Hk)%H3. destruct (decide (t = tid)) as [->|Hne].
    + exists tid, p'. rewrite lookup_insert_eq. split; [done|congruence].
    + exists t, q. by rewrite lookup_insert_ne.
  - intros Htok. rewrite Hnot; [by apply H4|].
    destruct (critical p) eqn:Hcp; [|done]. destruct (H2 _ _ Hp Hcp). congruence.
Qed.

(** The gate when the token is taken: nobody had it. *)
Lemma gate_ok_acquire st tid p s' p' :
  gate_ok st -> threads st !! tid = Some p -> critical p' = true -> token (sh st) = false ->
  token s' = true -> holder s' = holder (sh st) -> shown_holder p' = "" ->
  gate_ok (State s' (<[tid := p']> (threads st))).
Proof.
  intros [H1 H2 H3 H4] Hp Hc Ht Ht' Hh Hsh.
  assert (Honly : forall t q, <[tid := p']> (threads st) !! t = Some q -> critical q = true ->
    t = tid /\ q = p').
  { intros t q Hq Hk. apply lookup_insert_Some in Hq as [[<- <-]|[Hne Hq]]; [done|].
    destruct (H2 _ _ Hq Hk). congruence. }
  constructor; cbn [sh threads].
  - intros t1 t2 p1 p2 Hq1 Hq2 Hk1 Hk2.
    destruct (Honly _ _ Hq1 Hk1) as [-> _]. by destruct (Honly _ _ Hq2 Hk2) as [-> _].
  - intros t q Hq Hk. destruct (Honly _ _ Hq Hk) as [-> ->]. split; [done|].
    rewrite Hh, Hsh. by apply H4.
  - intros _. exists tid, p'. by rewrite lookup_insert_eq.
  - congruence.
Qed.

(** The gate when the token is given back: nobody has it. *)
Lemma gate_ok_release st tid p s' p' :
  gate_ok st -> threads st !! tid = Some p -> critical p = true -> critical p' = false ->
  token s' = false -> holder s' = holder (sh st) -> shown_holder p = "" ->
  gate_ok (State s' (<[tid := p']> (threads st))).
Proof.
  intros [H1 H2 H3 H4] Hp Hc Hc' Ht' Hh Hsh.
  assert (Hnone : forall t q, <[tid := p']> (threads st) !! t = Some q -> critical q = false).
  { intros t q Hq. apply lookup_insert_Some in Hq as [[<- <-]|[Hne Hq]]; [done|].
    destruct (critical q) eqn:Hk; [|done]. destruct Hne. eauto. }
  constructor; cbn [sh threads].
  - intros t1 t2 p1 p2 Hq1 _ Hk1. apply Hnone in Hq1. congruence.
  - intros t q Hq Hk. apply Hnone in Hq. congruence.
  - congruence.
  - intros _. rewrite Hh. destruct (H2 _ _ Hp Hc) as [_ ->]. done.
Qed.

Lemma gate_ok_run i st tid p s' p' :
  gate_ok st -> threads st !! tid = Some p -> pc_ok (sh st) p ->
  run uuid_valid i (sh st) p = Some (s', p') ->
  gate_ok (State s' (<[tid := p']> (threads st))).
Proof.
  intros Hg Hp Hok Hrun.
  destruct (run_gate _ _ _ _ _ Hok Hrun) as [Hc Ht Hh Hsh|Hc Hc' Ht Hh|Hc Hc' Ht Ht' Hh Hsh|Hc Hc' Ht' Hh Hsh].
  - eapply gate_ok_keep; try done. intros Hk. rewrite Hh, Hsh by done.
    by eapply critical_token.
  - eapply gate_ok_keep; try done; congruence.
  - by eapply gate_ok_acquire.
  - by eapply gate_ok_release.
Qed.

Lemma label_ok_run tid i : label_ok (Run tid i) = label_ok (Run 0 i).
Proof. done. Qed.

Lemma inv_run i st tid p s' p' :
  inv st -> threads st !! tid = Some p -> label_ok (Run tid i) = true ->
  run uuid_valid i (sh st) p = Some (s', p') -> inv (State s' (<[tid := p']> (threads st))).
Proof.
  intros [Hg Hs Ht] Hp Hl Hrun. pose proof (Ht _ _ Hp) as Hok.
  destruct (run_ok _ _ _ _ _ Hs Hok Hl Hrun) as [Hs' Hok'].
  constructor; [by eapply gate_ok_run|done|].
  intros t q Hq. cbn [sh threads] in *. apply lookup_insert_Some in Hq as [[<- <-]|[Hne Hq]]; [done|].
  eapply pc_ok_frame; [intros e; by eapply run_history| |by eapply Ht].
  intros Hk. eapply run_quiet; [|done]. destruct (critical p) eqn:Hcp; [|done].
  destruct Hne. by eapply one_critical.
Qed.

Lemma inv_spawn st tid c :
  inv st -> threads st !! tid = None -> inv (State (sh st) (<[tid := Called c]> (threads st))).
Proof.
  intros [[H1 H2 H3 H4] Hs Ht] Hnone.
  assert (Hold : forall t q, <[tid := Called c]> (threads st) !! t = Some q -> critical q = true ->
    threads st !! t = Some q).
  { intros t q Hq Hk. by apply lookup_insert_Some in Hq as [[<- <-]|[_ Hq]]. }
  constructor; [constructor; cbn [sh threads]|done|]; cbn [sh threads].
  - intros t1 t2 p1 p2 Hq1 Hq2 Hk1 Hk2. eauto.
  - eauto.
  - intros (t & q & Hq & Hk)%H3. exists t, q. split; [|done].
    rewrite lookup_insert_ne; [done|congruence].
  - done.
  - intros t q Hq. apply lookup_insert_Some in Hq as [[<- <-]|[_ Hq]]; [done|eauto].
Qed.

Lemma inv_step l st st' : inv st -> label_ok l = true -> step uuid_valid l st = Some st' -> inv st'.
Proof.
  intros Hinv Hl Hstep. destruct l as [tid c|tid i|d]; simpl in Hstep.
  - destruct (threads st !! tid) eqn:Hp; simplify_eq. by apply inv_spawn.
  - destruct (threads st !! tid) as [p|] eqn:Hp; [|done].
    destruct (run _ _ _ _) as [[s' p']|] eqn:Hrun; simplify_eq. by eapply inv_run.
  - destruct (Z.leb_spec 0 d); simplify_eq. destruct Hinv as [[H1 H2 H3 H4] Hs Ht].
    constructor; [by constructor|by apply shared_ok_advance|].
    intros t q Hq. eapply pc_ok_frame; [|done|by eapply Ht]. done.
Qed.

Lemma inv_init t : inv (init t).
Proof.
  constructor; [constructor|constructor|]; cbn; try done.
  - by intros rid ch e He%elem_of_nil.
  - by intros rid ch e He%elem_of_nil.
  - by intros rid ch e He%elem_of_nil.
  - intros newer older rid ch t' Hh. by destruct newer.
  - by intros c c' Hc%elem_of_nil.
  - intros c. split; [done|]. by intros Hc%elem_of_nil.
Qed.

Lemma reachable_inv st : reachable uuid_valid st -> inv st.
Proof. induction 1 as [t|st l st' _ IH Hl Hstep]; [apply inv_init|by eapply inv_step]. Qed.
End Invariant.
