(* ===== verification/ServiceProps.v ===== *)
(** * What the service guarantees

    Safety over every interleaving (one chip operation at a time, idempotent
    signing, a single certificate, truthful status), progress, and the behaviour
    of a call that runs alone on each of its branches. *)

From S2P Require Import Prelude Errors Effects Codec Service ServiceInv.

Open Scope string_scope.
Open Scope list_scope.
Open Scope Z_scope.

(** ** A goroutine running without interruption *)

Section Alone.
Context `{GousbText} (uuid_valid : string -> bool).

Fixpoint run_seq (ins : list input) (s : shared) (p : pc) : option (shared * pc) :=
  match ins with
  | [] => Some (s, p)
  | i :: ins =>
      match run uuid_valid i s p with Some (s, p) => run_seq ins s p | None => None end
  end.

(** It is a schedule of the system. *)
Lemma exec_run_seq tid ins : forall st p s' p',
  threads st !! tid = Some p -> run_seq ins (sh st) p = Some (s', p') ->
  exec uuid_valid (map (Run tid) ins) st = Some (State s' (<[tid := p']> (threads st))).
Proof.
  induction ins as [|i ins IH]; intros [s ths] p s' p' Hp Hrun; simpl in *; simplify_eq.
  - by rewrite insert_id.
  - rewrite Hp. destruct (run _ _ _ _) as [[s1 p1]|]; [|done].
    erewrite IH; [|apply lookup_insert_eq|done]. cbn [threads]. by rewrite insert_insert_eq.
Qed.

Lemma run_seq_app ins1 ins2 s p :
  run_seq (ins1 ++ ins2) s p =
  match run_seq ins1 s p with Some (s, p) => run_seq ins2 s p | None => None end.
Proof.
  revert s p. induction ins1 as [|i ins1 IH]; intros s p; simpl; [done|].
  destruct (run _ _ _ _) as [[s1 p1]|]; [apply IH|done].
Qed.

(** From the call into the gate, when the cache has nothing for it. *)
Definition to_gate : list input := [InNone; InSelect BranchToken; InNone; InNone].

Definition free_gate (s : shared) : Prop := token s = false.

(** The shared state while the goroutine holds the gate. *)
Definition with_gate (c : call) (s : shared) : shared := set_gate true (holder_name c) (clock s) s.
Definition without_gate (s : shared) : shared := set_gate false "" 0 s.

Lemma sign_to_chip s rid ch es :
  uuid_valid rid = true -> 1 <= len ch <= 128 -> free_gate s ->
  cache_get (clock s) rid (entries s) = (None, es) ->
  run_seq to_gate s (Called (CallSign rid ch)) =
  Some (record (EvChipSign rid ch (clock s)) (with_gate (CallSign rid ch) (set_entries es s)),
        ChipSign rid ch 0 (clock s)).
Proof.
  intros Hid Hlen Htok Hget. pose proof (cache_get_spec _ _ _ _ _ Hget) as (Hnone & _).
  unfold to_gate, free_gate in *. cbn [run_seq run enter]. rewrite Hid. cbn [negb].
  destruct (Z.ltb_spec (len ch) 1), (Z.ltb_spec 128 (len ch)); try lia. cbn [orb].
  rewrite Hget. cbn [run_seq run set_entries token set_gate clock]. rewrite Htok.
  cbn [run_seq run set_gate token clock inside entries set_entries].
  unfold cache_get. rewrite <- Hnone, Z.sub_diag. done.
Qed.

(** A chip call's answer, to the end of the call. *)
Lemma sign_from_chip s rid ch t r :
  token s = true ->
  run_seq (match r with
           | Ok _ => [InData r; InNone; InNone; InNone]
           | Err _ => [InData r; InNone; InNone] end) s (ChipSign rid ch 0 t)
  = match r with
    | Ok sig =>
        let entry := MkEntry (sha256 ch) sig (clock s + cacheTTL) in
        Some (without_gate (record (EvPut rid ch entry)
                (set_entries (cache_put rid entry (entries s)) (record (EvSigned rid ch sig) s))),
              Done (CallSign rid ch) (RSign (Ok (MkSignResult sig false 0 (clock s - t)))))
    | Err e => Some (without_gate s, Done (CallSign rid ch) (RSign (Err (normalizeHardwareError e))))
    end.
Proof. intros Ht. destruct r; simpl; by rewrite Ht. Qed.

(** The signing of a request on an idle service, the chip answering [r]. *)
Definition sign_inputs (r : result (list Z)) : list input :=
  to_gate ++ match r with
             | Ok _ => [InData r; InNone; InNone; InNone]
             | Err _ => [InData r; InNone; InNone] end.

Lemma sign_alone s rid ch es r :
  uuid_valid rid = true -> 1 <= len ch <= 128 -> free_gate s ->
  cache_get (clock s) rid (entries s) = (None, es) ->
  exists s' res,
    run_seq (sign_inputs r) s (Called (CallSign rid ch)) = Some (s', Done (CallSign rid ch) (RSign res)) /\
    token s' = false /\ holder s' = "" /\ clock s' = clock s /\ certificate s' = certificate s /\
    match r with
    | Ok sig => res = Ok (MkSignResult sig false 0 0) /\
        entries s' = <[rid := MkEntry (sha256 ch) sig (clock s + cacheTTL)]> es
    | Err e => res = Err (normalizeHardwareError e) /\ entries s' = es
    end.
Proof.
  intros Hid Hlen Htok Hget. unfold sign_inputs.
  rewrite run_seq_app, (sign_to_chip s rid ch es), sign_from_chip by done.
  destruct r; eexists _, _; (split; [reflexivity|]); cbn; rewrite ?Z.sub_diag; done.
Qed.

(** A request that is still cached is answered at once, without the gate. *)
Lemma sign_cached s rid ch e :
  uuid_valid rid = true -> 1 <= len ch <= 128 ->
  entries s !! rid = Some e -> clock s <= expiresAt e ->
  run_seq [InNone] s (Called (CallSign rid ch))
  = Some (s, Done (CallSign rid ch) (RSign (cachedResult e (sha256 ch)))).
Proof.
  intros Hid Hlen He Hexp. cbn [run_seq run enter]. rewrite Hid. cbn [negb].
  destruct (Z.ltb_spec (len ch) 1), (Z.ltb_spec 128 (len ch)); try lia. cbn [orb].
  unfold cache_get. rewrite He. destruct (Z.ltb_spec (expiresAt e) (clock s)); [lia|].
  by destruct s.
Qed.

(** ** The same, as schedules of the whole system *)

Lemma exec_app ls1 ls2 st :
  exec uuid_valid (ls1 ++ ls2) st =
  match exec uuid_valid ls1 st with Some st => exec uuid_valid ls2 st | None => None end.
Proof.
  revert st. induction ls1 as [|l ls1 IH]; intros st; simpl; [done|].
  destruct (step uuid_valid l st); [apply IH|done].
Qed.

Lemma exec_spawn tid c ins st s' p' :
  threads st !! tid = None -> run_seq ins (sh st) (Called c) = Some (s', p') ->
  exec uuid_valid (Spawn tid c :: map (Run tid) ins) st = Some (State s' (<[tid := p']> (threads st))).
Proof.
  intros Hp Hrun. cbn [exec step]. rewrite Hp.
  erewrite exec_run_seq; [|apply lookup_insert_eq|done]. cbn [threads]. by rewrite insert_insert_eq.
Qed.

Lemma exec_sign st tid rid ch es r :
  threads st !! tid = None -> uuid_valid rid = true -> 1 <= len ch <= 128 ->
  token (sh st) = false -> cache_get (clock (sh st)) rid (entries (sh st)) = (None, es) ->
  exists st' res,
    exec uuid_valid (Spawn tid (CallSign rid ch) :: map (Run tid) (sign_inputs r)) st = Some st' /\
    threads st' = <[tid := Done (CallSign rid ch) (RSign res)]> (threads st) /\
    token (sh st') = false /\ clock (sh st') = clock (sh st) /\
    match r with
    | Ok sig => res = Ok (MkSignResult sig false 0 0) /\
        entries (sh st') = <[rid := MkEntry (sha256 ch) sig (clock (sh st) + cacheTTL)]> es
    | Err e => res = Err (normalizeHardwareError e) /\ entries (sh st') = es
    end.
Proof.
  intros Hp Hid Hlen Htok Hget.
  destruct (sign_alone (sh st) rid ch es r Hid Hlen Htok Hget)
    as (s' & res & Hrun & ? & _ & ? & _ & Hres).
  eexists _, res. split; [by apply exec_spawn|done].
Qed.

Lemma exec_cached st tid rid ch e d :
  threads st !! tid = None -> uuid_valid rid = true -> 1 <= len ch <= 128 -> 0 <= d ->
  entries (sh st) !! rid = Some e -> clock (sh st) + d <= expiresAt e ->
  exec uuid_valid [Tick d; Spawn tid (CallSign rid ch); Run tid InNone] st
  = Some (State (advance d (sh st))
      (<[tid := Done (CallSign rid ch) (RSign (cachedResult e (sha256 ch)))]> (threads st))).
Proof.
  intros Hp Hid Hlen Hd He Hexp. cbn [exec]. unfold step at 1. destruct (Z.leb_spec 0 d); [|lia].
  apply (exec_spawn tid _ [InNone] (State (advance d (sh st)) (threads st))); [done|]. by apply sign_cached.
Qed.

Lemma exec_to_chip st tid rid ch es d :
  threads st !! tid = None -> uuid_valid rid = true -> 1 <= len ch <= 128 -> 0 <= d ->
  token (sh st) = false -> cache_get (clock (sh st) + d) rid (entries (sh st)) = (None, es) ->
  exec uuid_valid ([Tick d; Spawn tid (CallSign rid ch)] ++ map (Run tid) to_gate) st
  = Some (State (record (EvChipSign rid ch (clock (sh st) + d))
                   (with_gate (CallSign rid ch) (set_entries es (advance d (sh st)))))
      (<[tid := ChipSign rid ch 0 (clock (sh st) + d)]> (threads st))).
Proof.
  intros Hp Hid Hlen Hd Htok Hget. cbn [app exec]. unfold step at 1. destruct (Z.leb_spec 0 d); [|lia].
  apply (exec_spawn tid _ to_gate (State (advance d (sh st)) (threads st))); [done|]. by apply sign_to_chip.
Qed.
End Alone.

(** ** Progress *)

(** Actions left before the call is done, at most. *)
Definition rank (p : pc) : nat :=
  match p with
  | Called _ => 9 | Acquiring _ _ => 8 | Acquired _ _ => 7 | Locked _ _ => 6
  | ChipMajor _ _ _ => 5 | ChipCertificate _ _ _ => 4 | Storing _ _ _ _ => 3
  | ChipSign _ _ _ _ => 5 | Putting _ _ _ _ _ => 4
  | Releasing _ _ => 2 | Unlocking _ _ => 1 | Done _ _ => 0
  end.

Section Progress.
Context `{GousbText} (uuid_valid : string -> bool).

Lemma run_rank i s p s' p' : run uuid_valid i s p = Some (s', p') -> (rank p' < rank p)%nat.
Proof.
  intros Hrun.
  destruct p as [c|c t|c t|c wt|c wt st|wt st mj|wt st mj dt|rid ch wt st|rid ch wt st sg|c r|c r|c r].
  all: try (destruct c; [| |]).
  all: destruct i as [|[| |]|[]|[]]; simplify_eq/=; unfold inside in *;
    repeat case_match; simplify_eq/=; lia.
Qed.

(** What the next action of a goroutine may get, when no time runs out and nothing
    is cancelled: the token, or any answer of the chip. *)
Definition accepts (p : pc) (i : input) : bool :=
  match p, i with
  | Acquiring _ _, InSelect BranchToken => true
  | ChipMajor _ _ _, InMajor _ => true
  | ChipCertificate _ _ _, InData _ | ChipSign _ _ _ _, InData _ => true
  | Called _, InNone | Acquired _ _, InNone | Locked _ _, InNone | Storing _ _ _ _, InNone
  | Putting _ _ _ _ _, InNone | Releasing _ _, InNone | Unlocking _ _, InNone => true
  | _, _ => false
  end.

Lemma accepts_some p : rank p <> 0%nat -> exists i, accepts p i = true.
Proof.
  intros Hr. destruct p; try done; try (by exists InNone).
  - by exists (InSelect BranchToken).
  - by exists (InMajor (Ok 0)).
  - by exists (InData (Ok [])).
  - by exists (InData (Ok [])).
Qed.

(** A goroutine can go on when it has the token, or the gate is free. *)
Lemma accepted_runs i s p : accepts p i = true -> token s = critical p -> is_Some (run uuid_valid i s p).
Proof.
  intros Ha Ht.
  destruct p as [c|c t|c t|c wt|c wt st|wt st mj|wt st mj dt|rid ch wt st|rid ch wt st sg|c r|c r|c r];
    destruct i as [|[| |]|[mj'|e]|[dt'|e]]; try done; cbn [run]; cbn in Ht; rewrite ?Ht; try by eexists.
  all: by destruct c; eexists.
Qed.

Lemma can_run st tid p :
  reachable uuid_valid st -> threads st !! tid = Some p -> rank p <> 0%nat ->
  exists tid' q, threads st !! tid' = Some q /\ rank q <> 0%nat /\ token (sh st) = critical q.
Proof.
  intros Hreach Hp Hr. apply reachable_inv in Hreach as [Hg _ _].
  destruct (token (sh st)) eqn:Ht.
  - destruct (token_critical _ Hg Ht) as (t & q & Hq & Hk). exists t, q. split_and!; [done|by destruct q|done].
  - exists tid, p. split_and!; [done..|]. destruct (critical p) eqn:Hk; [|done].
    destruct (critical_token _ Hg _ _ Hp Hk). congruence.
Qed.
End Progress.

(** Deciding that every call of a state is done. *)
Definition is_done (p : pc) : bool := match p with Done _ _ => true | _ => false end.
Definition all_done (ths : gmap nat pc) : bool :=
  forallb (fun kp => is_done (snd kp)) (map_to_list ths).

Lemma all_done_correct ths :
  all_done ths = true -> forall tid p, ths !! tid = Some p -> exists c r, p = Done c r.
Proof.
  unfold all_done. rewrite forallb_forall. intros Hall tid p Hp%elem_of_map_to_list%list_elem_of_In.
  apply Hall in Hp. destruct p; try done. by eexists _, _.
Qed.

(** ** A concrete run, for the examples *)

#[export] Instance plain_text : GousbText := {
  usb_error_text _ := "libusb error";
  transfer_status_text _ := "transfer failed";
}.

(** Any 36-character identifier. *)
Definition length36 (s : string) : bool := Nat.eqb (String.length s) 36.

Lemma exec_reachable `{GousbText} uuid_valid ls : forall st st',
  reachable uuid_valid st -> forallb label_ok ls = true -> exec uuid_valid ls st = Some st' ->
  reachable uuid_valid st'.
Proof.
  induction ls as [|l ls IH]; intros st st' Hreach Hok Hexec; simpl in *; [by simplify_eq|].
  apply andb_true_iff in Hok as [Hl Hls]. destruct (step uuid_valid l st) as [st1|] eqn:Hstep; [|done].
  eapply IH; [by eapply reachable_step|done|done].
Qed.

Definition demo_id : string := "9c5b2f14-3a4d-4f6e-8b12-84cbe9a7c0d1".
Definition demo_challenge : list Z := [1; 2; 3; 4].

(** Two goroutines sign the same request while a third reads the certificate;
    the chip answers the first, which has not returned yet. *)
Definition demo_schedule : list label :=
  [Spawn 1 (CallSign demo_id demo_challenge); Spawn 2 (CallSign demo_id demo_challenge);
   Spawn 3 CallCertificate;
   Run 3 InNone; Run 3 (InSelect BranchToken); Run 3 InNone; Run 3 InNone;
   Run 3 (InMajor (Ok 3)); Run 1 InNone; Run 3 (InData (Ok [1; 2; 3])); Tick 5;
   Run 3 InNone; Run 3 InNone; Run 3 InNone;
   Run 1 (InSelect BranchToken); Run 2 InNone; Run 1 InNone; Run 1 InNone;
   Run 1 (InData (Ok [7; 7])); Run 1 InNone; Run 1 InNone; Run 1 InNone;
   Run 2 (InSelect BranchToken); Run 2 InNone; Run 2 InNone].

Definition demo_state : state :=
  match exec length36 demo_schedule (init 0) with Some st => st | None => init 0 end.

Lemma demo_reachable : reachable length36 demo_state.
Proof.
  eapply (exec_reachable length36 demo_schedule (init 0)); [constructor|reflexivity|].
  unfold demo_state. destruct (exec length36 demo_schedule (init 0)) eqn:Hexec; [done|].
  exfalso. assert (Hsome : is_Some (exec length36 demo_schedule (init 0)) -> False)
    by (rewrite Hexec; by intros [? [=]]).
  apply Hsome. vm_compute. by eexists.
Qed.

(** ** Properties *)

(** C1: in every reachable state at most one goroutine is inside a chip
    operation, and the gate's recorded holder is that of the goroutine which
    owns the gate. *)
Theorem chip_mutual_exclusion `{GousbText} uuid_valid st t1 t2 p1 p2 :
  reachable uuid_valid st ->
  threads st !! t1 = Some p1 -> threads st !! t2 = Some p2 ->
  in_chip p1 = true -> critical p2 = true ->
  t1 = t2 /\ holder (sh st) = shown_holder p1.
Proof.
  intros Hreach Hp1 Hp2 H1%in_chip_critical H2. apply reachable_inv in Hreach as [Hg _ _].
  split; [by eapply one_critical|]. by destruct (critical_token _ Hg _ _ Hp1 H1).
Qed.

(** The demonstration run while the chip is reading the certificate. *)
Definition demo_busy : state :=
  match exec length36 (take 8 demo_schedule) (init 0) with Some st => st | None => init 0 end.

Lemma demo_busy_reachable : reachable length36 demo_busy.
Proof.
  apply (exec_reachable length36 (take 8 demo_schedule) (init 0)); [constructor|reflexivity|].
  vm_compute. reflexivity.
Qed.

Example chip_mutual_exclusion_witness :
  3%nat = 3%nat /\ holder (sh demo_busy) = "certificate".
Proof.
  apply (chip_mutual_exclusion length36 demo_busy 3 3 (ChipCertificate 0 0 3) (ChipCertificate 0 0 3));
    [exact demo_busy_reachable|reflexivity..].
Defined.

(** C2: idempotency window.  Once the chip has signed for a request, no other
    chip operation for that request starts before the cached signature has
    expired, whatever the interleaving of the callers. *)
Theorem signing_is_idempotent `{GousbText} uuid_valid st newer older requestID challenge t :
  reachable uuid_valid st ->
  history (sh st) = newer ++ EvChipSign requestID challenge t :: older ->
  forall challenge' entry, EvPut requestID challenge' entry ∈ older -> expiresAt entry < t.
Proof. intros Hreach Hh. apply reachable_inv in Hreach as [_ Hs _]. by eapply chip_after_expiry. Qed.

(** The same request signed again after its signature has expired. *)
Definition resign_schedule : list label :=
  let sign t := map (Run t) (sign_inputs (Ok [7; 7])) in
  Spawn 1 (CallSign demo_id demo_challenge) :: sign 1%nat
    ++ [Tick (cacheTTL + 1); Spawn 2 (CallSign demo_id demo_challenge)] ++ sign 2%nat.

Definition resign_state : state :=
  match exec length36 resign_schedule (init 0) with Some st => st | None => init 0 end.

Lemma resign_reachable : reachable length36 resign_state.
Proof.
  apply (exec_reachable length36 resign_schedule (init 0)); [constructor|reflexivity|].
  vm_compute. reflexivity.
Qed.

Example signing_is_idempotent_witness :
  length (history (sh resign_state)) = 6%nat /\
  forall challenge' entry,
    EvPut demo_id challenge' entry ∈ drop 3 (history (sh resign_state)) ->
    expiresAt entry < cacheTTL + 1.
Proof.
  split; [vm_compute; reflexivity|].
  apply (signing_is_idempotent length36 resign_state
    (take 2 (history (sh resign_state))) (drop 3 (history (sh resign_state)))
    demo_id demo_challenge (cacheTTL + 1)); [exact resign_reachable|].
  vm_compute. reflexivity.
Defined.

(** C12: a signature that is returned for a request is one that the chip has
    answered: a [SignChallenge] of the same request identifier, for a challenge
    with the same SHA-256 digest, has returned this very signature, and it is the
    one in the cache.  A reuse error is returned only when the chip has signed the
    identifier with a challenge of another digest. *)
Theorem sign_responses_justified `{GousbText} uuid_valid st tid requestID challenge r :
  reachable uuid_valid st -> threads st !! tid = Some (Done (CallSign requestID challenge) (RSign r)) ->
  match r with
  | Ok res => exists challenge' entry, EvPut requestID challenge' entry ∈ history (sh st) /\
      sha256 challenge' = sha256 challenge /\ signature entry = Signature res /\
      EvSigned requestID challenge' (Signature res) ∈ history (sh st)
  | Err e => e = SentinelError ErrRequestIDReuse ->
      exists challenge' entry, EvPut requestID challenge' entry ∈ history (sh st) /\
        sha256 challenge' <> sha256 challenge /\ EvSigned requestID challenge' (signature entry) ∈ history (sh st)
  end.
Proof.
  intros Hreach Hp. apply reachable_inv in Hreach as [_ Hs Ht]. pose proof (Ht _ _ Hp) as Hok.
  destruct r as [res|e]; [exact Hok|]. intros He. destruct (Hok He) as (ch' & entry & Hput & Hne).
  exists ch', entry. split_and!; [done..|]. by apply put_signed.
Qed.

Example sign_responses_justified_witness :
  exists challenge' entry, EvPut demo_id challenge' entry ∈ history (sh resign_state) /\
    sha256 challenge' = sha256 demo_challenge /\ signature entry = [7; 7] /\
    EvSigned demo_id challenge' [7; 7] ∈ history (sh resign_state).
Proof.
  apply (sign_responses_justified length36 resign_state 2 demo_id demo_challenge
    (Ok (MkSignResult [7; 7] false 0 0))); [exact resign_reachable|vm_compute; reflexivity].
Defined.

(** C27: an uncached request on an idle service is signed by the chip, the reply
    carries the chip's signature, and a retry within the cache's lifetime is
    answered without the gate: with the same signature when the challenge has
    the same digest, with the reuse error otherwise. *)
Theorem sign_then_retry `{GousbText} uuid_valid st t1 t2 rid ch ch' sig es d :
  threads st !! t1 = None -> threads st !! t2 = None -> t1 <> t2 ->
  uuid_valid rid = true -> 1 <= len ch <= 128 -> 1 <= len ch' <= 128 ->
  token (sh st) = false -> cache_get (clock (sh st)) rid (entries (sh st)) = (None, es) ->
  0 <= d <= cacheTTL ->
  exists st', exec uuid_valid
    ((Spawn t1 (CallSign rid ch) :: map (Run t1) (sign_inputs (Ok sig)))
       ++ [Tick d; Spawn t2 (CallSign rid ch'); Run t2 InNone]) st = Some st' /\
    threads st' !! t1 = Some (Done (CallSign rid ch) (RSign (Ok (MkSignResult sig false 0 0)))) /\
    threads st' !! t2 = Some (Done (CallSign rid ch') (RSign
      (if bool_decide (sha256 ch = sha256 ch') then Ok (MkSignResult sig true 0 0)
       else Err (SentinelError ErrRequestIDReuse)))) /\
    token (sh st') = false.
Proof.
  intros Ht1 Ht2 Hne Hid Hch Hch' Htok Hget Hd.
  destruct (exec_sign uuid_valid st t1 rid ch es (Ok sig) Ht1 Hid Hch Htok Hget)
    as (st1 & res & Hexec & Hths & Htok1 & Hclk & -> & Hes).
  set (entry := MkEntry (sha256 ch) sig (clock (sh st) + cacheTTL)) in *.
  assert (He : entries (sh st1) !! rid = Some entry) by (rewrite Hes; apply lookup_insert_eq).
  assert (Hexp : clock (sh st1) + d <= expiresAt entry) by (rewrite Hclk; cbn; lia).
  assert (Hf : threads st1 !! t2 = None) by by rewrite Hths, lookup_insert_ne.
  eexists. rewrite exec_app, Hexec, (exec_cached uuid_valid st1 t2 rid ch' entry d) by (done || lia).
  split; [done|]. cbn [threads sh]. rewrite lookup_insert_ne, Hths, !lookup_insert_eq by done. done.
Qed.

Example sign_then_retry_witness :
  exists st', exec length36
    ((Spawn 1 (CallSign demo_id demo_challenge) :: map (Run 1) (sign_inputs (Ok [7; 7])))
       ++ [Tick 5; Spawn 2 (CallSign demo_id [9]); Run 2 InNone]) (init 0) = Some st' /\
    threads st' !! 1%nat = Some (Done (CallSign demo_id demo_challenge)
      (RSign (Ok (MkSignResult [7; 7] false 0 0)))) /\
    threads st' !! 2%nat = Some (Done (CallSign demo_id [9]) (RSign
      (if bool_decide (sha256 demo_challenge = sha256 [9]) then Ok (MkSignResult [7; 7] true 0 0)
       else Err (SentinelError ErrRequestIDReuse)))) /\
    token (sh st') = false.
Proof.
  apply (sign_then_retry length36 (init 0) 1 2 demo_id demo_challenge [9] [7; 7] ∅ 5);
    (reflexivity || discriminate || (vm_compute; intuition discriminate)).
Defined.

(** C28: a signature that the chip refuses is reported, normalised, to its
    caller and leaves no trace in the cache: a retry goes to the chip again. *)
Theorem sign_failure_then_retry `{GousbText} uuid_valid st t1 t2 rid ch ch' e es d :
  threads st !! t1 = None -> threads st !! t2 = None -> t1 <> t2 ->
  uuid_valid rid = true -> 1 <= len ch <= 128 -> 1 <= len ch' <= 128 ->
  token (sh st) = false -> cache_get (clock (sh st)) rid (entries (sh st)) = (None, es) -> 0 <= d ->
  exists st', exec uuid_valid
    ((Spawn t1 (CallSign rid ch) :: map (Run t1) (sign_inputs (Err e)))
       ++ [Tick d; Spawn t2 (CallSign rid ch')] ++ map (Run t2) to_gate) st = Some st' /\
    threads st' !! t1 = Some (Done (CallSign rid ch) (RSign (Err (normalizeHardwareError e)))) /\
    threads st' !! t2 = Some (ChipSign rid ch' 0 (clock (sh st) + d)) /\
    holder (sh st') = rid.
Proof.
  intros Ht1 Ht2 Hne Hid Hch Hch' Htok Hget Hd.
  destruct (exec_sign uuid_valid st t1 rid ch es (Err e) Ht1 Hid Hch Htok Hget)
    as (st1 & res & Hexec & Hths & Htok1 & Hclk & -> & Hes).
  pose proof (cache_get_spec _ _ _ _ _ Hget) as (Hnone & _).
  assert (Hget1 : cache_get (clock (sh st1) + d) rid (entries (sh st1)) = (None, es))
    by (unfold cache_get; by rewrite Hes, <- Hnone).
  assert (Hf : threads st1 !! t2 = None) by by rewrite Hths, lookup_insert_ne.
  eexists. rewrite exec_app, Hexec, (exec_to_chip uuid_valid st1 t2 rid ch' es d) by done.
  split; [done|]. cbn [threads sh]. rewrite lookup_insert_ne, Hths, !lookup_insert_eq, Hclk by done. done.
Qed.

Example sign_failure_then_retry_witness :
  exists st', exec length36
    ((Spawn 1 (CallSign demo_id demo_challenge) :: map (Run 1) (sign_inputs (Err (ErrorString "nack"))))
       ++ [Tick 5; Spawn 2 (CallSign demo_id [9])] ++ map (Run 2) to_gate) (init 0) = Some st' /\
    threads st' !! 1%nat = Some (Done (CallSign demo_id demo_challenge)
      (RSign (Err (normalizeHardwareError (ErrorString "nack"))))) /\
    threads st' !! 2%nat = Some (ChipSign demo_id [9] 0 5) /\
    holder (sh st') = demo_id.
Proof.
  apply (sign_failure_then_retry length36 (init 0) 1 2 demo_id demo_challenge [9] _ ∅ 5);
    (reflexivity || discriminate || (vm_compute; intuition discriminate)).
Defined.

(** C29: the certificate is read from the chip and stored once; two certificate
    responses of the process, cached or fresh, carry the same protocol version,
    certificate, base64 text and digest, which are those of the stored data. *)
Theorem certificate_responses_agree `{GousbText} uuid_valid st t1 t2 c1 c2 :
  reachable uuid_valid st ->
  threads st !! t1 = Some (Done CallCertificate (RCertificate (Ok c1))) ->
  threads st !! t2 = Some (Done CallCertificate (RCertificate (Ok c2))) ->
  ProtocolMajor c1 = ProtocolMajor c2 /\ Data c1 = Data c2 /\
  Base64 c1 = Base64 c2 /\ SHA256Hex c1 = SHA256Hex c2 /\
  Base64 c1 = base64_EncodeToString (Data c1) /\ SHA256Hex c1 = hex_encode (sha256 (Data c1)).
Proof.
  intros Hreach Hp1 Hp2. apply reachable_inv in Hreach as [_ Hs Ht].
  destruct (Ht _ _ Hp1) as (m1 & d1 & Hs1 & ? & ? & ? & ?).
  destruct (Ht _ _ Hp2) as (m2 & d2 & Hs2 & ? & ? & ? & ?).
  pose proof (stored_once _ Hs _ _ Hs1 Hs2) as Heq. injection Heq as Hm Hd. split_and!; congruence.
Qed.

Definition certificate_schedule : list label :=
  [Spawn 1 CallCertificate; Run 1 InNone; Run 1 (InSelect BranchToken); Run 1 InNone; Run 1 InNone;
   Run 1 (InMajor (Ok 3)); Run 1 (InData (Ok [1; 2; 3])); Run 1 InNone; Run 1 InNone; Run 1 InNone;
   Spawn 2 CallCertificate; Run 2 InNone].

Definition certificate_state : state :=
  match exec length36 certificate_schedule (init 0) with Some st => st | None => init 0 end.

Lemma certificate_reachable : reachable length36 certificate_state.
Proof.
  apply (exec_reachable length36 certificate_schedule (init 0)); [constructor|reflexivity|].
  vm_compute. reflexivity.
Qed.

Example certificate_responses_agree_witness :
  let c1 := stored_certificate 3 [1; 2; 3] in
  let c2 := cached_certificate (stored_certificate 3 [1; 2; 3]) 0 in
  ProtocolMajor c1 = ProtocolMajor c2 /\ Data c1 = Data c2 /\
  Base64 c1 = Base64 c2 /\ SHA256Hex c1 = SHA256Hex c2 /\
  Base64 c1 = base64_EncodeToString (Data c1) /\ SHA256Hex c1 = hex_encode (sha256 (Data c1)).
Proof.
  exact (certificate_responses_agree length36 certificate_state 1 2 _ _ certificate_reachable
    ltac:(vm_compute; reflexivity) ltac:(vm_compute; reflexivity)).
Defined.

(** C25: no deadlock and no lost gate.  While some call is not done, some goroutine
    is not held up: it takes its next action without a time-out and without a
    cancellation, with whatever the chip answers if it is in a chip operation.
    Every action brings its call closer to its end, so all calls finish. *)
Theorem service_progress `{GousbText} uuid_valid st tid p :
  reachable uuid_valid st -> threads st !! tid = Some p -> (forall c r, p <> Done c r) ->
  (exists tid' q, threads st !! tid' = Some q /\ (exists i, accepts q i = true) /\
    forall i, accepts q i = true -> exists st', step uuid_valid (Run tid' i) st = Some st') /\
  (forall i s' p', run uuid_valid i (sh st) p = Some (s', p') -> (rank p' < rank p)%nat).
Proof.
  intros Hreach Hp Hdone. split; [|intros; by eapply run_rank].
  destruct (can_run uuid_valid st tid p) as (t & q & Hq & Hr & Ht); [done..| |].
  { destruct p; try done. by destruct (Hdone c r). }
  exists t, q. split; [done|]. split; [by apply accepts_some|]. intros i Hi.
  destruct (accepted_runs uuid_valid i (sh st) q Hi Ht) as [[s' q'] Hrun].
  eexists. cbn [step]. by rewrite Hq, Hrun.
Qed.

(** Two goroutines wait for the gate while the third is reading the certificate. *)
Example service_progress_witness :
  let p := Acquiring (CallSign demo_id demo_challenge) 0 in
  let st := match exec length36 (take 9 demo_schedule) (init 0) with Some st => st | None => init 0 end in
  (exists tid' q, threads st !! tid' = Some q /\ (exists i, accepts q i = true) /\
    forall i, accepts q i = true -> exists st', step length36 (Run tid' i) st = Some st') /\
  (forall i s' p', run length36 i (sh st) p = Some (s', p') -> (rank p' < rank p)%nat).
Proof.
  apply (service_progress length36 _ 1).
  - apply (exec_reachable length36 (take 9 demo_schedule) (init 0)); [constructor|reflexivity|].
    vm_compute. reflexivity.
  - vm_compute. reflexivity.
  - discriminate.
Defined.

(** The gate is given back: once every call is done, the token is free, no
    holder is shown, and [Runtime] counts the cached signatures. *)
Theorem gate_is_released `{GousbText} uuid_valid st :
  reachable uuid_valid st ->
  (forall tid p, threads st !! tid = Some p -> exists c r, p = Done c r) ->
  token (sh st) = false /\ Runtime (sh st) = MkRuntimeStatus (cache_len (entries (sh st))) "" 0.
Proof.
  intros Hreach Hdone. apply reachable_inv in Hreach as [Hg _ _].
  assert (Htok : token (sh st) = false).
  { destruct (token (sh st)) eqn:Ht; [|done]. destruct (token_critical _ Hg Ht) as (t & p & Hp & Hk).
    destruct (Hdone _ _ Hp) as (c & r & ->). done. }
  split; [done|]. unfold Runtime, gate_status. by rewrite (free_holder _ Hg Htok).
Qed.

Example gate_is_released_witness :
  token (sh resign_state) = false /\
  Runtime (sh resign_state) = MkRuntimeStatus (cache_len (entries (sh resign_state))) "" 0.
Proof.
  apply (gate_is_released length36 resign_state resign_reachable).
  apply all_done_correct. vm_compute. reflexivity.
Defined.
