(* ===== verification/Recent.v ===== *)
(** * The list of recent requests

    [internal/httpapi/recent.go]: a ring buffer behind a mutex.  [None] is a
    panic: an index out of range or a division by zero. *)

From S2P Require Import Prelude Effects.

Open Scope string_scope.
Open Scope list_scope.
Open Scope Z_scope.

Record RecentRequest := MkRecent {
  Time : string;
  Method : string;
  Path : string;
  Status : Z;
  Millis : Z;
  Note : string;
}.

Definition zero_recent : RecentRequest := MkRecent "" "" "" 0 0 "".

Record recentStore := MkStore {
  capacity : Z;
  store_entries : list RecentRequest;
  next : Z;
  full : bool;
}.

(** [make([]T, n)] panics for a negative [n]. *)
Definition newRecentStore (capacity : Z) : option recentStore :=
  if capacity <? 0 then None
  else Some (MkStore capacity (replicate (Z.to_nat capacity) zero_recent) 0 false).

(** [time_text] is the formatted current time. *)
Definition recent_entry (time_text method path : string) (status duration : Z) (note : string) : RecentRequest :=
  MkRecent time_text method path status (Z.quot duration Millisecond) note.

(** [s.entries[i] = e]. *)
Definition store_at (l : list RecentRequest) (i : Z) (e : RecentRequest) : option (list RecentRequest) :=
  if (0 <=? i) && (i <? len l) then Some (<[Z.to_nat i := e]> l) else None.

Definition add (s : recentStore) (entry : RecentRequest) : option recentStore :=
  match store_at (store_entries s) (next s) entry with
  | None => None
  | Some entries =>
      if capacity s =? 0 then None
      else
        let next := Z.rem (next s + 1) (capacity s) in
        Some (MkStore (capacity s) entries next (if next =? 0 then true else full s))
  end.

(** The loop from [offset]; [count] rounds. *)
Fixpoint list_loop (rounds : nat) (s : recentStore) (offset : Z) (result : list RecentRequest)
    : option (list RecentRequest) :=
  match rounds with
  | O => Some result
  | S rounds =>
      let index := next s - 1 - offset in
      let index := if index <? 0 then index + capacity s else index in
      match at_index (store_entries s) index with
      | None => None
      | Some e => list_loop rounds s (offset + 1) (result ++ [e])
      end
  end.

Definition listNewestFirst (s : recentStore) : option (list RecentRequest) :=
  let count := if full s then capacity s else next s in
  list_loop (Z.to_nat count) s 0 [].

(** ** The buffer represents the newest entries

    [log] is everything that was added, newest first. *)
Record represents (s : recentStore) (log : list RecentRequest) : Prop := {
  rep_capacity : 1 <= capacity s;
  rep_len : len (store_entries s) = capacity s;
  rep_next : next s = len log mod capacity s;
  rep_full : full s = (capacity s <=? len log);
  rep_entries : forall i e, (Z.of_nat i < capacity s) -> log !! i = Some e ->
    at_index (store_entries s) ((next s - 1 - Z.of_nat i) mod capacity s) = Some e;
}.

Lemma new_represents c : 1 <= c -> exists s, newRecentStore c = Some s /\ represents s [] /\ capacity s = c.
Proof.
  intros Hc. unfold newRecentStore. destruct (Z.ltb_spec c 0); [lia|]. eexists. split; [done|].
  split; [|done]. constructor; cbn.
  - done.
  - rewrite len_replicate. lia.
  - rewrite Z.mod_0_l; [done|lia].
  - rewrite len_nil. destruct (Z.leb_spec c 0); [lia|done].
  - intros i e _ Hi. by rewrite lookup_nil in Hi.
Qed.

Lemma at_index_insert (l : list RecentRequest) i j e :
  0 <= i < len l -> 0 <= j ->
  at_index (<[Z.to_nat i := e]> l) j = if i =? j then Some e else at_index l j.
Proof.
  intros Hi Hj. unfold at_index, len in *. destruct (Z.ltb_spec j 0); [lia|].
  destruct (Z.eqb_spec i j) as [->|Hne].
  - apply list_lookup_insert_eq. lia.
  - apply list_lookup_insert_ne. lia.
Qed.

Lemma add_represents s log e :
  represents s log -> exists s', add s e = Some s' /\ represents s' (e :: log) /\ capacity s' = capacity s.
Proof.
  intros [Hc Hl Hn Hf He]. set (c := capacity s) in *.
  pose proof (Z.mod_pos_bound (len log) c ltac:(lia)) as Hb. rewrite <- Hn in Hb.
  unfold add, store_at. destruct (Z.leb_spec 0 (next s)), (Z.ltb_spec (next s) (len (store_entries s))); try lia.
  cbn [andb]. fold c. destruct (Z.eqb_spec c 0); [lia|].
  eexists. split; [done|]. split; [|done].
  rewrite Z.rem_mod_nonneg by lia.
  assert (Hn1 : (next s + 1) mod c = (1 + len log) mod c).
  { rewrite Hn, Zplus_mod_idemp_l. f_equal. lia. }
  pose proof (len_nonneg log).
  constructor; cbn [capacity store_entries next full]; fold c.
  - done.
  - unfold len in *. by rewrite length_insert.
  - by rewrite len_cons, Hn1.
  - rewrite len_cons, Hf. rewrite Hn in *.
    pose proof (Z.div_mod (len log) c ltac:(lia)) as Hdm.
    destruct (Z.eqb_spec ((len log mod c + 1) mod c) 0) as [Hz|Hz].
    + destruct (Z.leb_spec c (1 + len log)); [done|].
      rewrite Z.mod_small in Hz; [lia|]. rewrite Z.mod_small in * by lia. lia.
    + destruct (Z.leb_spec c (len log)), (Z.leb_spec c (1 + len log)); try done; [lia|].
      exfalso. apply Hz. assert (len log = c - 1) by lia. rewrite Zplus_mod_idemp_l.
      replace (len log + 1) with c by lia. by rewrite Z.mod_same by lia.
  - intros i x Hi Hx.
    pose proof (Z.mod_pos_bound ((next s + 1) mod c - 1 - Z.of_nat i) c ltac:(lia)).
    rewrite at_index_insert by lia.
    assert (Hidx : ((next s + 1) mod c - 1 - Z.of_nat i) mod c = (next s - Z.of_nat i) mod c).
    { rewrite <- Z.sub_add_distr, Zminus_mod_idemp_l. f_equal. lia. }
    rewrite Hidx. destruct i as [|i].
    + simpl in Hx. injection Hx as ->. rewrite Z.sub_0_r, (Z.mod_small (next s)) by lia. by rewrite Z.eqb_refl.
    + simpl in Hx. replace (next s - Z.of_nat (S i)) with (next s - 1 - Z.of_nat i) by lia.
      destruct (Z.eqb_spec (next s) ((next s - 1 - Z.of_nat i) mod c)) as [Heq|]; [|by apply He; [lia|]].
      exfalso. pose proof (Z.div_mod (next s - 1 - Z.of_nat i) c ltac:(lia)) as Hdm. rewrite <- Heq in Hdm.
      assert (1 + Z.of_nat i = c * - ((next s - 1 - Z.of_nat i) / c)) by lia.
      set (q := - ((next s - 1 - Z.of_nat i) / c)) in *. destruct (Z.le_gt_cases q 0); nia.
Qed.

Lemma list_loop_represents s log : represents s log -> forall rounds k,
  Z.of_nat (k + rounds) <= Z.min (capacity s) (len log) ->
  list_loop rounds s (Z.of_nat k) (take k log) = Some (take (k + rounds) log).
Proof.
  intros [Hc Hl Hn Hf He]. pose proof (Z.mod_pos_bound (len log) (capacity s) ltac:(lia)) as Hb.
  induction rounds as [|rounds IH]; intros k Hk; cbn [list_loop]; [by rewrite Nat.add_0_r|].
  destruct (lookup_lt_is_Some_2 log k) as [e Hke]; [unfold len in Hk; lia|].
  pose proof (He k e ltac:(lia) Hke) as Hat.
  assert (Hidx : (if next s - 1 - Z.of_nat k <? 0 then next s - 1 - Z.of_nat k + capacity s
    else next s - 1 - Z.of_nat k) = (next s - 1 - Z.of_nat k) mod capacity s).
  { destruct (Z.ltb_spec (next s - 1 - Z.of_nat k) 0).
    - rewrite <- (Z.mod_small (next s - 1 - Z.of_nat k + capacity s) (capacity s)) by lia.
      rewrite <- Z.add_mod_idemp_r, Z.mod_same, Z.add_0_r by lia. done.
    - rewrite Z.mod_small by lia. done. }
  rewrite Hidx, Hat. replace (k + S rounds)%nat with (S k + rounds)%nat by lia.
  replace (Z.of_nat k + 1) with (Z.of_nat (S k)) by lia.
  rewrite <- (take_S_r log k e) by done. apply IH. lia.
Qed.

Lemma list_represents s log :
  represents s log -> listNewestFirst s = Some (take (Z.to_nat (capacity s)) log).
Proof.
  intros Hr. pose proof Hr as [Hc Hl Hn Hf He]. unfold listNewestFirst. rewrite Hf.
  pose proof (len_nonneg log).
  destruct (Z.leb_spec (capacity s) (len log)).
  - rewrite (list_loop_represents s log Hr _ 0) by lia. done.
  - rewrite Hn, Z.mod_small by lia. rewrite (list_loop_represents s log Hr _ 0) by lia.
    simpl. f_equal. unfold len in *. rewrite !take_ge by lia. done.
Qed.

Fixpoint add_all (s : recentStore) (es : list RecentRequest) : option recentStore :=
  match es with
  | [] => Some s
  | e :: es => match add s e with Some s => add_all s es | None => None end
  end.

Lemma add_all_represents es : forall s log,
  represents s log -> exists s', add_all s es = Some s' /\ represents s' (rev es ++ log) /\ capacity s' = capacity s.
Proof.
  induction es as [|e es IH]; intros s log Hr; [by exists s|].
  destruct (add_represents s log e Hr) as (s1 & Hadd & Hr1 & Hc1).
  destruct (IH s1 (e :: log) Hr1) as (s2 & Hall & Hr2 & Hc2).
  exists s2. cbn [add_all]. rewrite Hadd. split; [done|]. split; [|congruence].
  cbn [rev]. by rewrite <- app_assoc.
Qed.

(** ** Properties *)

(** C32: the ring buffer refines "the newest [c] entries": after any sequence of
    additions to a store of capacity at least one, nothing panics and the list
    is the last [c] entries added, newest first. *)
Theorem recent_keeps_newest c es :
  1 <= c ->
  exists s s', newRecentStore c = Some s /\ add_all s es = Some s' /\
    listNewestFirst s' = Some (take (Z.to_nat c) (rev es)).
Proof.
  intros Hc. destruct (new_represents c Hc) as (s & Hs & Hr & Hcap).
  destruct (add_all_represents es s [] Hr) as (s' & Hs' & Hr' & Hcap').
  exists s, s'. split; [done|]. split; [done|]. rewrite (list_represents s' _ Hr'), app_nil_r.
  by rewrite Hcap', Hcap.
Qed.

(** The test of [recent_test.go]: 25 requests in a store of 20. *)
Definition demo_requests : list RecentRequest :=
  map (fun i => recent_entry "" "POST" (fmt_d (Z.of_nat i)) 200 (Z.of_nat i * Millisecond) "ok") (seq 0 25).

Example recent_keeps_newest_witness :
  exists s s', newRecentStore 20 = Some s /\ add_all s demo_requests = Some s' /\
    listNewestFirst s' = Some (take (Z.to_nat 20) (rev demo_requests)).
Proof. apply (recent_keeps_newest 20 demo_requests). lia. Defined.
