(* ===== verification/SignRequest.v ===== *)
(** * Decoding the body of a sign request

    [decodeJSON] of [internal/httpapi/server.go] for the type [signRequest] of
    [handlers.go]: the body limit, and [encoding/json] with
    [DisallowUnknownFields] for a struct of two strings.  Such a value is only
    decoded without error from [null] or from an object whose members are the two
    fields with string or [null] values; every other text, nested values
    included, is an error whatever its syntax, so the decoder below does not
    descend into other values. *)

From S2P Require Import Prelude Codec.

Open Scope string_scope.
Open Scope list_scope.
Open Scope Z_scope.

Definition maximumRequestBodyBytes : Z := 64 * 1024.

(** [Challenge] and [RequestID]. *)
Record signRequest := MkSignRequest { Challenge : string; RequestID : string }.

(** ** UTF-8 *)

Definition in_range (lo hi b : Z) : bool := (lo <=? b) && (b <=? hi).

(** [utf8.AppendRune], for code points that are not surrogates. *)
Definition utf8_encode (r : Z) : list Z :=
  if r <? 0x80 then [r]
  else if r <? 0x800 then [0xc0 + r / 64; 0x80 + r mod 64]
  else if r <? 0x10000 then [0xe0 + r / 4096; 0x80 + r / 64 mod 64; 0x80 + r mod 64]
  else [0xf0 + r / 262144; 0x80 + r / 4096 mod 64; 0x80 + r / 64 mod 64; 0x80 + r mod 64].

Definition replacement : list Z := [0xef; 0xbf; 0xbd].

(** The bytes of the rune in front, [None] when it is not valid UTF-8. *)
Definition utf8_rune (l : list Z) : option (list Z * list Z) :=
  let tail := in_range 0x80 0xbf in
  match l with
  | a :: b :: rest =>
      if in_range 0xc2 0xdf a && tail b then Some ([a; b], rest)
      else
        match rest with
        | c :: rest =>
            if ((a =? 0xe0) && in_range 0xa0 0xbf b || in_range 0xe1 0xec a && tail b
                || (a =? 0xed) && in_range 0x80 0x9f b || in_range 0xee 0xef a && tail b) && tail c
            then Some ([a; b; c], rest)
            else
              match rest with
              | d :: rest =>
                  if ((a =? 0xf0) && in_range 0x90 0xbf b || in_range 0xf1 0xf3 a && tail b
                      || (a =? 0xf4) && in_range 0x80 0x8f b) && tail c && tail d
                  then Some ([a; b; c; d], rest)
                  else None
              | [] => None
              end
        | [] => None
        end
  | _ => None
  end.

(** ** JSON strings *)

Definition hex_value (b : Z) : option Z :=
  if in_range 48 57 b then Some (b - 48)
  else if in_range 97 102 b then Some (b - 87)
  else if in_range 65 70 b then Some (b - 55)
  else None.

(** Four hexadecimal digits. *)
Definition getu4 (l : list Z) : option (Z * list Z) :=
  match l with
  | a :: b :: c :: d :: rest =>
      match hex_value a, hex_value b, hex_value c, hex_value d with
      | Some a, Some b, Some c, Some d => Some (4096 * a + 256 * b + 16 * c + d, rest)
      | _, _, _, _ => None
      end
  | _ => None
  end.

(** The simple escapes. *)
Definition simple_escape (b : Z) : option Z :=
  if b =? 34 then Some 34          (* quote *)
  else if b =? 92 then Some 92     (* backslash *)
  else if b =? 47 then Some 47     (* slash *)
  else if b =? 98 then Some 8
  else if b =? 102 then Some 12
  else if b =? 110 then Some 10
  else if b =? 114 then Some 13
  else if b =? 116 then Some 9
  else None.

(** After [\u]: a rune, or a pair of surrogates, or the replacement character
    for a lone one. *)
Definition unicode_escape (l : list Z) : option (list Z * list Z) :=
  match getu4 l with
  | None => None
  | Some (r, rest) =>
      if in_range 0xd800 0xdfff r then
        match rest with
        | 92 :: 117 :: rest' =>
            match getu4 rest' with
            | Some (r', rest'') =>
                if (r <? 0xdc00) && in_range 0xdc00 0xdfff r'
                then Some (utf8_encode (0x10000 + (r - 0xd800) * 1024 + (r' - 0xdc00)), rest'')
                else Some (replacement, rest)
            | None => None
            end
        | _ => Some (replacement, rest)
        end
      else Some (utf8_encode r, rest)
  end.

(** The text of a string after its opening quote, and what follows the closing
    one.  Every round consumes a byte. *)
Fixpoint string_loop (fuel : nat) (l : list Z) (text : list Z) : option (list Z * list Z) :=
  match fuel with
  | O => None
  | S fuel =>
      match l with
      | [] => None
      | b :: rest =>
          if b =? 34 then Some (text, rest)
          else if b <? 32 then None
          else if b =? 92 then
            match rest with
            | e :: rest' =>
                if e =? 117 then
                  match unicode_escape rest' with
                  | Some (bytes, rest'') => string_loop fuel rest'' (text ++ bytes)
                  | None => None
                  end
                else
                  match simple_escape e with
                  | Some c => string_loop fuel rest' (text ++ [c])
                  | None => None
                  end
            | [] => None
            end
          else if b <? 0x80 then string_loop fuel rest (text ++ [b])
          else
            match utf8_rune l with
            | Some (bytes, rest') => string_loop fuel rest' (text ++ bytes)
            | None => string_loop fuel rest (text ++ replacement)
            end
      end
  end.

Definition parse_string (l : list Z) : option (list Z * list Z) :=
  match l with
  | q :: rest => if q =? 34 then string_loop (length l) rest [] else None
  | [] => None
  end.

(** ** White space and literals *)

Definition json_space (b : Z) : bool := (b =? 32) || (b =? 9) || (b =? 10) || (b =? 13).

Fixpoint skip_space (l : list Z) : list Z :=
  match l with
  | b :: rest => if json_space b then skip_space rest else l
  | [] => []
  end.

Definition expect (b : Z) (l : list Z) : option (list Z) :=
  match skip_space l with c :: rest => if c =? b then Some rest else None | [] => None end.

Definition parse_null (l : list Z) : option (list Z) :=
  match l with
  | 110 :: 117 :: 108 :: 108 :: rest => Some rest
  | _ => None
  end.

(** ** Members *)

(** Upper case for the comparison of names: the long s (C5 BF) folds to S, the
    Kelvin sign (E2 84 AA) to K; no other non-ASCII rune folds to ASCII. *)
Fixpoint fold_name (l : list Z) : list Z :=
  match l with
  | 0xc5 :: 0xbf :: rest => 83 :: fold_name rest
  | 0xe2 :: 0x84 :: 0xaa :: rest => 75 :: fold_name rest
  | b :: rest => (if in_range 97 122 b then b - 32 else b) :: fold_name rest
  | [] => []
  end.

Definition same_name (key : list Z) (name : string) : bool :=
  bool_decide (fold_name key = fold_name (bytes_of_string name)).

Definition set_field (key : list Z) (value : option (list Z)) (r : signRequest) : option signRequest :=
  let assign old := match value with Some text => string_of_bytes text | None => old end in
  if same_name key "challenge" then Some (MkSignRequest (assign (Challenge r)) (RequestID r))
  else if same_name key "requestId" then Some (MkSignRequest (Challenge r) (assign (RequestID r)))
  else None.

(** A string or [null]. *)
Definition parse_member_value (l : list Z) : option (option (list Z) * list Z) :=
  match parse_null l with
  | Some rest => Some (None, rest)
  | None => match parse_string l with Some (text, rest) => Some (Some text, rest) | None => None end
  end.

(** Members up to the closing brace; each one consumes bytes. *)
Fixpoint members_loop (fuel : nat) (l : list Z) (r : signRequest) : option (signRequest * list Z) :=
  match fuel with
  | O => None
  | S fuel =>
      match parse_string (skip_space l) with
      | None => None
      | Some (key, l) =>
          match expect 58 l with
          | None => None
          | Some l =>
              match parse_member_value (skip_space l) with
              | None => None
              | Some (value, l) =>
                  match set_field key value r with
                  | None => None
                  | Some r =>
                      match skip_space l with
                      | 44 :: l => members_loop fuel l r
                      | 125 :: l => Some (r, l)
                      | _ => None
                      end
                  end
              end
          end
      end
  end.

(** The first value of the body. *)
Definition parse_request (l : list Z) : option (signRequest * list Z) :=
  let zero := MkSignRequest "" "" in
  let l := skip_space l in
  match parse_null l with
  | Some rest => Some (zero, rest)
  | None =>
      match expect 123 l with
      | None => None
      | Some l =>
          match expect 125 l with
          | Some rest => Some (zero, rest)
          | None => members_loop (length l) l zero
          end
      end
  end.

(** [decodeJSON] into a [signRequest]: one value, nothing but white space after
    it, within the limit of [http.MaxBytesReader]. *)
Definition decodeJSON (body : list Z) : option signRequest :=
  if maximumRequestBodyBytes <? len body then None
  else
    match parse_request body with
    | None => None
    | Some (r, rest) => match skip_space rest with [] => Some r | _ => None end
    end.

(** What [json.Marshal] would write for such a request whose texts need no
    escape. *)
Definition quote (s : string) : list Z := [34] ++ bytes_of_string s ++ [34].
Definition request_body (r : signRequest) : list Z :=
  bytes_of_string "{" ++ quote "challenge" ++ [58] ++ quote (Challenge r) ++ [44]
  ++ quote "requestId" ++ [58] ++ quote (RequestID r) ++ bytes_of_string "}".

(** The bodies of [server_test.go] and some more. *)
Definition q (s : string) : string := String (ascii_of_nat 34) s +:+ String (ascii_of_nat 34) "".
Definition body_of (l : list string) : list Z := bytes_of_string (fold_right String.append "" l).

Example decode_examples :
  map decodeJSON
    [body_of ["{"; q "challenge"; ":"; q "AQ=="; "}"];
     body_of ["{"; q "challenge"; ":"; q "AQ=="; ","; q "extra"; ":1}"];
     body_of [" { "; q "CHALLENGE"; " : "; q "A\u0051\/"; ", "; q "requestid"; " : null } "];
     body_of ["null"]; body_of ["[]"]; body_of ["{}{}"]; body_of ["{}"]; body_of [""]]
  = [Some (MkSignRequest "AQ==" ""); None; Some (MkSignRequest "AQ/" ""); Some (MkSignRequest "" "");
     None; None; Some (MkSignRequest "" ""); None].
Proof. vm_compute. reflexivity. Qed.

(** ** A plain request is read back *)

Definition plain_byte (b : Z) : bool := (32 <=? b) && (b <? 0x80) && negb (b =? 34) && negb (b =? 92).
Definition plain (s : string) : bool := forallb plain_byte (bytes_of_string s).

Lemma string_loop_plain bytes rest : forall fuel text,
  forallb plain_byte bytes = true -> (length bytes < fuel)%nat ->
  string_loop fuel (bytes ++ 34 :: rest) text = Some (text ++ bytes, rest).
Proof.
  induction bytes as [|b bytes IH]; intros [|fuel] text Hp Hfuel; simpl in Hfuel; try lia.
  { cbn. by rewrite app_nil_r. }
  apply andb_true_iff in Hp as [Hb Hp]. unfold plain_byte in Hb.
  destruct (Z.leb_spec 32 b), (Z.ltb_spec b 0x80), (Z.eqb_spec b 34), (Z.eqb_spec b 92); try done.
  cbn [app string_loop]. destruct (Z.eqb_spec b 34); [lia|]. destruct (Z.ltb_spec b 32); [lia|].
  destruct (Z.eqb_spec b 92); [lia|]. destruct (Z.ltb_spec b 0x80); [|lia].
  rewrite IH by (done || lia). by rewrite <- app_assoc.
Qed.

Lemma parse_quote s rest : plain s = true -> parse_string (quote s ++ rest) = Some (bytes_of_string s, rest).
Proof.
  intros Hs. unfold parse_string, quote. cbn [app]. change (34 =? 34) with true. cbv iota.
  rewrite <- app_assoc. cbn [app]. rewrite string_loop_plain; [done|done|].
  cbn [length]. rewrite length_app. simpl. lia.
Qed.

Lemma parse_request_object k :
  parse_request (123 :: 34 :: k) = members_loop (S (length k)) (34 :: k) (MkSignRequest "" "").
Proof. reflexivity. Qed.

(** One member with a string value. *)
Lemma member_plain fuel name value r l :
  plain name = true -> plain value = true ->
  members_loop (S fuel) (quote name ++ 58 :: quote value ++ l) r =
  match set_field (bytes_of_string name) (Some (bytes_of_string value)) r with
  | None => None
  | Some r =>
      match skip_space l with
      | 44 :: l => members_loop fuel l r
      | 125 :: l => Some (r, l)
      | _ => None
      end
  end.
Proof.
  intros Hn Hv. cbn [members_loop].
  change (skip_space (quote name ++ ?x)) with (quote name ++ x). rewrite parse_quote by done.
  change (expect 58 (58 :: ?x)) with (Some x). cbv beta iota.
  unfold parse_member_value.
  change (skip_space (quote value ++ l)) with (quote value ++ l).
  change (parse_null (quote value ++ l)) with (@None (list Z)). cbv iota.
  by rewrite parse_quote.
Qed.

Lemma parse_request_plain r :
  plain (Challenge r) = true -> plain (RequestID r) = true ->
  parse_request (request_body r) = Some (r, []).
Proof.
  intros Hc Hr.
  assert (Hbody : request_body r = 123 :: 34 :: (bytes_of_string "challenge" ++ [34])
    ++ 58 :: quote (Challenge r) ++ 44 :: quote "requestId" ++ 58 :: quote (RequestID r) ++ [125]).
  { reflexivity. }
  rewrite Hbody, parse_request_object.
  change (34 :: (bytes_of_string "challenge" ++ [34]) ++ ?x) with (quote "challenge" ++ x).
  rewrite member_plain by done. cbn [length app bytes_of_string].
  change (set_field (bytes_of_string "challenge") (Some ?v) _) with (Some (MkSignRequest (string_of_bytes v) "")).
  cbv beta iota. cbn [skip_space]. change (json_space 44) with false. cbv beta iota.
  rewrite length_app. cbn [length].
  match goal with |- context [members_loop ?n (quote _ ++ _) _] => set (fuel := n) end.
  assert (Hfuel : exists n, fuel = S n).
  { exists (fuel - 1)%nat. subst fuel. rewrite ?length_app. simpl. lia. }
  destruct Hfuel as [n ->]. rewrite member_plain by done.
  change (set_field (bytes_of_string "requestId") (Some ?v) ?r)
    with (Some (MkSignRequest (Challenge r) (string_of_bytes v))).
  cbv beta iota. cbn [skip_space]. change (json_space 125) with false. cbv beta iota.
  cbn [Challenge]. rewrite !string_of_bytes_of_string. by destruct r.
Qed.

Lemma decodeJSON_plain r :
  plain (Challenge r) = true -> plain (RequestID r) = true ->
  len (request_body r) <= maximumRequestBodyBytes -> decodeJSON (request_body r) = Some r.
Proof.
  intros Hc Hr Hlen. unfold decodeJSON.
  destruct (Z.ltb_spec maximumRequestBodyBytes (len (request_body r))); [lia|].
  by rewrite parse_request_plain.
Qed.

(** Base64 text is plain. *)
Lemma b64_char_plain d : 0 <= d < 64 -> plain_byte (ascii_byte (b64_char d)) = true.
Proof.
  intros Hd.
  assert (Hall : forallb (fun i => plain_byte (ascii_byte (b64_char (Z.of_nat i)))) (seq 0 64) = true)
    by (vm_compute; reflexivity).
  rewrite forallb_forall in Hall. specialize (Hall (Z.to_nat d)).
  rewrite Z2Nat.id, in_seq in Hall by lia. apply Hall. lia.
Qed.

Lemma b64_encode_plain l :
  bytes_ok l -> forallb plain_byte (map ascii_byte (b64_encode l)) = true.
Proof.
  induction l as [|a|a b|a b c l IH] using triples_ind; intros Hok; [done|..];
    rewrite ?bytes_ok_cons in Hok; cbn [b64_encode map forallb]; destruct_and!;
    rewrite ?b64_char_plain by (Z.div_mod_to_equations; lia); auto.
Qed.

Lemma base64_plain l : bytes_ok l -> plain (base64_EncodeToString l) = true.
Proof.
  intros Hok. unfold plain, bytes_of_string, base64_EncodeToString.
  rewrite list_ascii_of_string_of_list_ascii. by apply b64_encode_plain.
Qed.

Lemma b64_encode_length l : (length (b64_encode l) <= 2 * length l + 4)%nat.
Proof. induction l using triples_ind; simpl in *; lia. Qed.
