(* ===== verification/Health.v ===== *)
(** * The service's view of the USB device

    [HealthStatus], [inspectUSB], [Health] and [Diagnostics] of
    [internal/biz/service.go], over the interface [USBInspector] of
    [internal/transport/transport.go], which the CH341 transport implements. *)

From S2P Require Import Prelude Errors Effects Usb Ch341 Ch341Link.

Open Scope string_scope.
Open Scope Z_scope.

Record HealthStatus := MkHealth {
  Chip : string;
  health_Reason : string;
  health_VIDPID : string;
  health_Devices : list USBDeviceInfo;
}.

Class USBInspector (W : Type) := {
  inspect : bool -> W -> USBStatus * W;
}.

(** The devices are copied; a Rocq list is never shared. *)
Definition health_of (status : USBStatus) : HealthStatus :=
  MkHealth (State status) (Reason status) (VIDPID status) (Devices status).

Section Health.
Context {W : Type} `{USBInspector W}.

Definition inspectUSB (includeDeviceStrings : bool) (w : W) : HealthStatus * W :=
  let '(status, w) := inspect includeDeviceStrings w in
  (health_of status, w).

Definition Health (w : W) : HealthStatus * W := inspectUSB false w.
Definition Diagnostics (w : W) : HealthStatus * W := inspectUSB true w.
End Health.

(** The CH341 transport; [InspectUSB_wp] excludes the last case. *)
#[export] Instance ch341_inspector {E} `{Clock E, Gousb E, MapOrder, GousbText} :
  USBInspector (Ch341Transport E) := {
  inspect b t :=
    match InspectUSB b t with
    | Some (Ok status, t') => (status, t')
    | _ => (MkUSBStatus "panic" "" "" [], t)
    end;
}.
