(* ===== verification/Http.v ===== *)
(** * The HTTP interface

    [internal/httpapi/handlers.go] and [server.go]: the handlers, bearer
    authentication, the observing wrapper with the recent-request list, and the
    mapping of service errors to responses.  JSON and HTML responses are kept as
    values; their text is the encoders'.  [None] is a panic. *)

From S2P Require Import Prelude Errors Codec Text Effects Usb Ch341 Service Recent SignRequest.
From S2P Require Import Health.

Open Scope string_scope.
Open Scope list_scope.
Open Scope Z_scope.

(** ** Requests and responses *)

(** [Authorization] and [Accept] are the header's first value, [query_token] is
    [r.URL.Query().Get("token")]. *)
Record request := MkRequest {
  req_Method : string;
  req_Path : string;
  Authorization : string;
  Accept : string;
  query_token : string;
  req_Body : list Z;
}.

Inductive json :=
  | JNull
  | JBool (b : bool)
  | JInt (n : Z)
  | JString (s : string)
  | JArray (l : list json)
  | JObject (members : list (string * json)).

(** The data of the debug page. *)
Record debugData := MkDebug {
  debug_Status : string;
  debug_Reason : string;
  debug_VIDPID : string;
  StartedAt : string;
  Seconds : Z;
  USBDevices : list USBDeviceInfo;
  debug_CacheEntries : Z;
  debug_LockHolder : option string;
  LockHeldMS : Z;
  RecentRequests : list RecentRequest;
  CurrentTime : string;
}.

Inductive body := JSON (v : json) | DebugPage (d : debugData) | AuthPage.

Definition StatusOK : Z := 200.
Definition StatusBadRequest : Z := 400.
Definition StatusUnauthorized : Z := 401.
Definition StatusMethodNotAllowed : Z := 405.
Definition StatusInternalServerError : Z := 500.
Definition StatusServiceUnavailable : Z := 503.

(** [statusRecorder] with the writer it wraps: the header map, what was sent
    with the status line, and the body. *)
Record statusRecorder := MkRecorder {
  header : gmap string string;
  sent : option (Z * gmap string string);
  rec_status : Z;
  payload : list body;
}.

Definition new_recorder : statusRecorder := MkRecorder ∅ None 0 [].

Definition set_header (k v : string) (r : statusRecorder) : statusRecorder :=
  MkRecorder (<[k := v]> (header r)) (sent r) (rec_status r) (payload r).

(** The wrapped writer sends the status line once. *)
Definition WriteHeader (status : Z) (r : statusRecorder) : statusRecorder :=
  if negb (rec_status r =? 0) then r
  else MkRecorder (header r)
         (match sent r with Some s => Some s | None => Some (status, header r) end) status (payload r).

Definition Write (b : body) (r : statusRecorder) : statusRecorder :=
  let r := if rec_status r =? 0 then WriteHeader StatusOK r else r in
  MkRecorder (header r) (sent r) (rec_status r) (payload r ++ [b]).

Definition statusOrOK (r : statusRecorder) : Z := if rec_status r =? 0 then StatusOK else rec_status r.

Record requestState := MkRequestState {
  note : string;
  requestID : string;
  chipWait : Z;
  chipTime : Z;
}.

Inductive log_entry :=
  | LogServiceError (path : string) (status : Z) (note request_id err : string)
  | LogRequest (method path : string) (status duration_ms : Z) (note request_id : string) (wait_ms chip_ms : Z).

(** ** The service, as the handlers see it *)

Class BizService (W : Type) := {
  svc_Certificate : W -> result Certificate * W;
  svc_Sign : string -> list Z -> W -> result SignResult * W;
  svc_Reset : W -> option goerror * W;
  svc_Health : W -> HealthStatus * W;
  svc_Diagnostics : W -> HealthStatus * W;
  svc_Runtime : W -> RuntimeStatus;
}.

(** Texts of times, in the server's location. *)
Class TimeText := {
  rfc3339 : Z -> string;
  rfc3339_millis : Z -> string;
}.

(** ** [serviceErrorResponse] *)

Definition chip_auth_detail (err : goerror) : string :=
  match errors_As as_chip err with
  | Some (_, Some code) => "chip auth failed: 0x" +:+ fmt_hex 2 code
  | _ => "chip auth timeout"
  end.

Definition serviceErrorResponse `{GousbText} (err : goerror) : Z * string * string :=
  if errors_Is err ErrChallengeSize || errors_Is err ErrRequestIDFormat || errors_Is err ErrRequestIDReuse
  then (StatusBadRequest, error_text err, "bad request")
  else if errors_Is err ErrChipBusy then (StatusServiceUnavailable, sentinel_text ErrChipBusy, "chip busy")
  else if errors_Is err ErrChipMissing then (StatusServiceUnavailable, sentinel_text ErrChipMissing, "error")
  else if errors_Is err Canceled || errors_Is err DeadlineExceeded
  then (StatusServiceUnavailable, "request cancelled", "error")
  else if transport_IsKind err ErrorPermission
  then (StatusServiceUnavailable, "chip unavailable: permission denied", "error")
  else if transport_IsKind err ErrorBusy
  then (StatusServiceUnavailable, "chip unavailable: USB device busy", "error")
  else if transport_IsKind err ErrorTimeout
  then (StatusInternalServerError, "chip operation timed out", "error")
  else if transport_IsKind err ErrorNACK then (StatusInternalServerError, "I2C NACK", "error")
  else if chip_IsKind err ErrorAuthFailed then (StatusInternalServerError, chip_auth_detail err, "error")
  else if chip_IsKind err ErrorInvalidData
  then (StatusInternalServerError, "invalid data returned by MFi chip", "error")
  else (StatusInternalServerError, "MFi hardware operation failed", "error").

Definition defaultNote (status : Z) : string :=
  if status =? StatusUnauthorized then "unauthorized"
  else if (400 <=? status) && (status <? 500) then "bad request"
  else if 500 <=? status then "error"
  else "ok".

Definition isBusinessPath (path : string) : bool :=
  String.eqb path "/mfi/certificate" || String.eqb path "/mfi/sign" || String.eqb path "/mfi/reset".

Definition acceptsJSON (r : request) : bool := Contains (ToLower (Accept r)) "application/json".

Definition optionalString (value : string) : option string := if String.eqb value "" then None else Some value.

(** ** The handlers *)

(** What a request works on: the service, its response, its state, and the
    server's log and recent list. *)
Record exchange (W : Type) := MkExchange {
  svc : W;
  writer : statusRecorder;
  rstate : requestState;
  log : list log_entry;
  recent : recentStore;
}.
Arguments MkExchange {W} _ _ _ _ _.
Arguments svc {W} _.
Arguments writer {W} _.
Arguments rstate {W} _.
Arguments log {W} _.
Arguments recent {W} _.

Section Handlers.
Context {W : Type} `{Clock W, BizService W, GousbText, TimeText}.

Abbreviation X := (exchange W).

Definition set_svc (w : W) (x : X) : X := MkExchange w (writer x) (rstate x) (log x) (recent x).
Definition on_writer (f : statusRecorder -> statusRecorder) (x : X) : X :=
  MkExchange (svc x) (f (writer x)) (rstate x) (log x) (recent x).
Definition on_state (f : requestState -> requestState) (x : X) : X :=
  MkExchange (svc x) (writer x) (f (rstate x)) (log x) (recent x).
Definition add_log (e : log_entry) (x : X) : X :=
  MkExchange (svc x) (writer x) (rstate x) (log x ++ [e]) (recent x).
Definition set_recent (s : recentStore) (x : X) : X :=
  MkExchange (svc x) (writer x) (rstate x) (log x) s.

Definition set_note (n : string) : X -> X :=
  on_state (fun s => MkRequestState n (requestID s) (chipWait s) (chipTime s)).
Definition set_requestID (id : string) : X -> X :=
  on_state (fun s => MkRequestState (note s) id (chipWait s) (chipTime s)).
Definition set_times (wait chip : Z) : X -> X :=
  on_state (fun s => MkRequestState (note s) (requestID s) wait chip).

Definition writeJSON (status : Z) (b : json) : X -> X :=
  on_writer (fun r =>
    Write (JSON b) (WriteHeader status
      (set_header "Cache-Control" "no-store"
        (set_header "Content-Type" "application/json; charset=utf-8" r)))).

Definition detail (d : string) : json := JObject [("detail", JString d)].

Definition bad_request (d : string) (x : X) : X :=
  writeJSON StatusBadRequest (detail d) (set_note "bad request" x).

(** [requireMethod]; [k] is the rest of the handler. *)
Definition requireMethod (r : request) (method : string) (k : X -> option X) (x : X) : option X :=
  if String.eqb (req_Method r) method then k x
  else Some (writeJSON StatusMethodNotAllowed (detail "method not allowed")
         (set_note "bad request" (on_writer (set_header "Allow" method) x))).

Definition writeServiceError (r : request) (err : goerror) (x : X) : X :=
  let '(status, d, n) := serviceErrorResponse err in
  let x := set_note n x in
  let x := add_log (LogServiceError (req_Path r) status n (requestID (rstate x)) (error_text err)) x in
  writeJSON status (detail d) x.

Definition hit_note (cached : bool) : string := if cached then "idempotent-hit" else "chip".

Definition certificateResponse (c : Certificate) : json :=
  JObject [("type", JString "mfi"); ("protocolMajor", JInt (ProtocolMajor c));
           ("certificate", JString (Base64 c)); ("certificateSha256", JString (SHA256Hex c))].

Definition signature_json (s : SignResult) : json :=
  JObject [("signature", JString (base64_EncodeToString (Signature s)))].

Definition handleCertificate (r : request) : X -> option X :=
  requireMethod r "GET" (fun x =>
    let '(res, w) := svc_Certificate (svc x) in
    let x := set_svc w x in
    match res with
    | Err err => Some (writeServiceError r err x)
    | Ok c =>
        let x := set_note (hit_note (Cached c)) x in
        let x := set_times (WaitDuration c) (ChipDuration c) x in
        Some (writeJSON StatusOK (certificateResponse c) x)
    end).

Definition handleSign (r : request) : X -> option X :=
  requireMethod r "POST" (fun x =>
    match decodeJSON (req_Body r) with
    | None => Some (bad_request "invalid request body" x)
    | Some q =>
        let x := set_requestID (RequestID q) x in
        if String.eqb (RequestID q) "" then Some (bad_request "requestId is required" x)
        else if String.eqb (Challenge q) "" then Some (bad_request "challenge is required" x)
        else
          match base64_DecodeString (Challenge q) with
          | None => Some (bad_request "challenge is not valid base64" x)
          | Some challenge =>
              let '(res, w) := svc_Sign (RequestID q) challenge (svc x) in
              let x := set_svc w x in
              match res with
              | Err err => Some (writeServiceError r err x)
              | Ok s =>
                  let x := set_times (sign_WaitDuration s) (sign_ChipDuration s) x in
                  let x := set_note (hit_note (sign_Cached s)) x in
                  Some (writeJSON StatusOK (signature_json s) x)
              end
          end
    end).

Definition handleReset (r : request) : X -> option X :=
  requireMethod r "POST" (fun x =>
    if (maximumRequestBodyBytes <? len (req_Body r))
       || negb (bool_decide (trim_bytes (req_Body r) = bytes_of_string "{}"))
    then Some (bad_request "body must be {}" x)
    else
      let '(err, w) := svc_Reset (svc x) in
      let x := set_svc w x in
      match err with
      | Some err => Some (writeServiceError r err x)
      | None => Some (writeJSON StatusOK (detail "") (set_note "noop" x))
      end).

Definition handleHealth (r : request) : X -> option X :=
  requireMethod r "GET" (fun x =>
    let '(health, w) := svc_Health (svc x) in
    let x := set_svc w x in
    let reason := if String.eqb (health_Reason health) "" then []
                  else [("reason", JString (health_Reason health))] in
    Some (writeJSON StatusOK
      (JObject ([("chip", JString (Chip health)); ("ok", JBool (String.eqb (Chip health) "ready"))] ++ reason)) x)).

Definition device_json (i : USBDeviceInfo) : json :=
  JObject [("bus", JInt (info_Bus i)); ("device", JInt (info_Device i)); ("vid", JString (info_Vendor i));
           ("pid", JString (info_ProductID i)); ("manufacturer", JString (Manufacturer i));
           ("product", JString (info_Product i)); ("speed", JString (info_Speed i));
           ("class", JInt (info_Class i)); ("candidate", JBool (Candidate i))].

Definition recent_json (e : RecentRequest) : json :=
  JObject [("time", JString (Time e)); ("method", JString (Method e)); ("path", JString (Path e));
           ("status", JInt (Status e)); ("ms", JInt (Millis e)); ("note", JString (Note e))].

(** [omitempty]. *)
Definition unless_empty (k v : string) : list (string * json) :=
  if String.eqb v "" then [] else [(k, JString v)].

Definition debug_json (d : debugData) : json :=
  JObject
    [("chip", JObject ([("status", JString (debug_Status d))] ++ unless_empty "reason" (debug_Reason d)
        ++ unless_empty "vidPid" (debug_VIDPID d)));
     ("uptime", JObject [("startedAt", JString (StartedAt d)); ("seconds", JInt (Seconds d))]);
     ("usbDevices", JArray (map device_json (USBDevices d)));
     ("runtime", JObject [("cacheEntries", JInt (debug_CacheEntries d));
        ("lockHolder", match debug_LockHolder d with Some h => JString h | None => JNull end);
        ("lockHeldMs", JInt (LockHeldMS d))]);
     ("recentRequests", JArray (map recent_json (RecentRequests d)))].

Definition html_headers (r : statusRecorder) : statusRecorder :=
  set_header "Referrer-Policy" "no-referrer"
    (set_header "Content-Type" "text/html; charset=utf-8" (set_header "Cache-Control" "no-store" r)).

Definition handleDebug (startedAt : Z) (r : request) : X -> option X :=
  requireMethod r "GET" (fun x =>
    let '(health, w) := svc_Diagnostics (svc x) in
    let x := set_svc w x in
    let runtime := svc_Runtime (svc x) in
    let t := now (svc x) in
    match listNewestFirst (recent x) with
    | None => None
    | Some requests =>
        let data := MkDebug (Chip health) (health_Reason health) (health_VIDPID health)
          (rfc3339 startedAt) (Z.quot (t - startedAt) Second) (health_Devices health)
          (CacheEntries runtime) (optionalString (LockHolder runtime))
          (Z.quot (LockHeld runtime) Millisecond) requests (rfc3339_millis t) in
        if acceptsJSON r then Some (writeJSON StatusOK (debug_json data) x)
        else Some (on_writer (fun r => Write (DebugPage data) (html_headers r)) x)
    end).

(** ** The server *)

Definition handler : Type := request -> X -> option X.

Definition provided_token (r : request) (allowQueryToken : bool) : string :=
  let provided :=
    if HasPrefix (Authorization r) "Bearer " then TrimPrefix (Authorization r) "Bearer " else "" in
  if String.eqb provided "" && allowQueryToken then query_token r else provided.

(** [subtle.ConstantTimeCompare] of the two digests. *)
Definition authorized (bearerToken : string) (r : request) (allowQueryToken : bool) : bool :=
  bool_decide (sha256 (bytes_of_string (provided_token r allowQueryToken))
               = sha256 (bytes_of_string bearerToken)).

Definition withAuth (bearerToken : string) (next : handler) (allowQueryToken : bool) : handler := fun r x =>
  if String.eqb bearerToken "" then next r x
  else if authorized bearerToken r allowQueryToken then next r x
  else
    let x := set_note "unauthorized" x in
    if allowQueryToken && negb (acceptsJSON r)
    then Some (on_writer (fun w => Write AuthPage (WriteHeader StatusUnauthorized (html_headers w))) x)
    else Some (writeJSON StatusUnauthorized (detail "unauthorized") x).

(** [http.ServeMux]: its answer to other paths is [other].  It matches the escaped
    path segment by segment; a request whose path only becomes one of these when it
    is unescaped ([/mfi%2Fsign]) counts as one with another path. *)
Definition mux (bearerToken : string) (startedAt : Z) (other : handler) : handler := fun r =>
  if String.eqb (req_Path r) "/mfi/certificate" then withAuth bearerToken handleCertificate false r
  else if String.eqb (req_Path r) "/mfi/sign" then withAuth bearerToken handleSign false r
  else if String.eqb (req_Path r) "/mfi/reset" then withAuth bearerToken handleReset false r
  else if String.eqb (req_Path r) "/debug/usb" then withAuth bearerToken (handleDebug startedAt) true r
  else if String.eqb (req_Path r) "/healthz" then handleHealth r
  else other r.

(** [observe] after the handler: the log line and the recent list. *)
Definition conclude (r : request) (started : Z) (x : X) : option X :=
  let t := now (svc x) in
  let duration := t - started in
  let s := rstate x in
  let status := statusOrOK (writer x) in
  let n := if String.eqb (note s) "" then defaultNote (rec_status (writer x)) else note s in
  let x := add_log (LogRequest (req_Method r) (req_Path r) status (Z.quot duration Millisecond) n
             (requestID s) (Z.quot (chipWait s) Millisecond) (Z.quot (chipTime s) Millisecond)) x in
  if isBusinessPath (req_Path r) then
    match add (recent x) (recent_entry (rfc3339_millis t) (req_Method r) (req_Path r) status duration n) with
    | None => None
    | Some s => Some (set_recent s x)
    end
  else Some x.

(** A request starts with a new recorder and no state. *)
Definition begin (x : X) : X :=
  MkExchange (svc x) new_recorder (MkRequestState "" "" 0 0) (log x) (recent x).

Definition observe (next : handler) : handler := fun r x =>
  let started := now (svc x) in
  match next r (begin x) with
  | None => None
  | Some x => conclude r started x
  end.

(** The handler [NewHandler] returns. *)
Definition serve (bearerToken : string) (startedAt : Z) (other : handler) : handler :=
  observe (mux bearerToken startedAt other).
End Handlers.
