(* ===== verification/HttpInv.v ===== *)
(** * The HTTP interface keeps the service's invariant

    Whatever property every operation of the service keeps, every request keeps,
    and no request panics.  A client of the interface needs nothing else to carry
    an invariant of the parts below through a whole session. *)

From S2P Require Import Prelude Errors Codec Effects Usb Ch341 Service Recent SignRequest Health Http.

Open Scope string_scope.
Open Scope list_scope.
Open Scope Z_scope.

(** [P] holds after an operation of the service if it holds before. *)
Class ServiceInv {W : Type} `{BizService W} (P : W -> Prop) : Prop := {
  keep_Certificate w : P w -> P (svc_Certificate w).2;
  keep_Sign id ch w : P w -> P (svc_Sign id ch w).2;
  keep_Reset w : P w -> P (svc_Reset w).2;
  keep_Health w : P w -> P (svc_Health w).2;
  keep_Diagnostics w : P w -> P (svc_Diagnostics w).2;
}.

(** The paths [NewHandler] registers. *)
Definition known_path (path : string) : bool :=
  isBusinessPath path || String.eqb path "/debug/usb" || String.eqb path "/healthz".

Section Keeps.
Context {W : Type} `{Clock W, BizService W, GousbText, TimeText}.
Context (P : W -> Prop) `{!ServiceInv P}.

Abbreviation X := (exchange W).

(** A handler's result for [x]: no panic, [P] kept, the recent list untouched. *)
Definition kept (x : X) (o : option X) : Prop :=
  exists x', o = Some x' /\ P (svc x') /\ recent x' = recent x.

Lemma kept_some (x x' : X) : P (svc x') -> recent x' = recent x -> kept x (Some x').
Proof. intros. by exists x'. Qed.

Lemma kept_service_error r err (x0 x : X) : P (svc x) -> recent x = recent x0 -> kept x0 (Some (writeServiceError r err x)).
Proof.
  intros HP Hr. unfold writeServiceError. destruct (serviceErrorResponse err) as [[status d] n]. by apply kept_some.
Qed.

Lemma kept_method r method k (x : X) : P (svc x) -> kept x (k x) -> kept x (requireMethod r method k x).
Proof. intros HP Hk. unfold requireMethod. destruct (String.eqb _ _); [done|by apply kept_some]. Qed.

(** Leads a result of the service to its branches. *)
Ltac service_result op :=
  match goal with HP : P (svc ?x) |- _ =>
    let Hop := fresh in pose proof (op (svc x) HP) as Hop;
    match type of Hop with P (snd ?c) => destruct c as [[] ?] end
  end; cbn [snd] in *.

Lemma handleCertificate_kept r (x : X) : P (svc x) -> kept x (handleCertificate r x).
Proof.
  intros HP. apply kept_method; [done|]. service_result keep_Certificate; [by apply kept_some|by apply kept_service_error].
Qed.

Lemma handleSign_kept r (x : X) : P (svc x) -> kept x (handleSign r x).
Proof.
  intros HP. apply kept_method; [done|].
  destruct (decodeJSON (req_Body r)) as [q|]; [|by apply kept_some].
  destruct (String.eqb (RequestID q) ""); [by apply kept_some|].
  destruct (String.eqb (Challenge q) ""); [by apply kept_some|].
  destruct (base64_DecodeString (Challenge q)) as [ch|]; [|by apply kept_some]. cbn [svc on_state set_requestID].
  service_result (fun w => keep_Sign (RequestID q) ch w); [by apply kept_some|by apply kept_service_error].
Qed.

Lemma handleReset_kept r (x : X) : P (svc x) -> kept x (handleReset r x).
Proof.
  intros HP. apply kept_method; [done|]. destruct (_ || _); [by apply kept_some|].
  service_result keep_Reset; [by apply kept_service_error|by apply kept_some].
Qed.

Lemma handleHealth_kept r (x : X) : P (svc x) -> kept x (handleHealth r x).
Proof.
  intros HP. apply kept_method; [done|]. pose proof (keep_Health _ HP) as Hw.
  destruct (svc_Health (svc x)) as [health w]. by apply kept_some.
Qed.

Lemma handleDebug_kept startedAt r (x : X) lg :
  P (svc x) -> represents (recent x) lg -> kept x (handleDebug startedAt r x).
Proof.
  intros HP Hr. apply kept_method; [done|]. pose proof (keep_Diagnostics _ HP) as Hw.
  destruct (svc_Diagnostics (svc x)) as [health w]. cbn [recent set_svc].
  rewrite (list_represents _ _ Hr). destruct (acceptsJSON r); by apply kept_some.
Qed.

Lemma withAuth_kept token (next : handler) allow r (x : X) :
  P (svc x) -> kept x (next r x) -> kept x (withAuth token next allow r x).
Proof.
  intros HP Hn. unfold withAuth. destruct (String.eqb token ""); [done|]. destruct (authorized _ _ _); [done|].
  destruct (_ && _); by apply kept_some.
Qed.

Lemma mux_kept token startedAt other r (x : X) lg :
  known_path (req_Path r) = true -> P (svc x) -> represents (recent x) lg ->
  kept x (mux token startedAt other r x).
Proof.
  intros Hp HP Hr. unfold mux, known_path, isBusinessPath in *.
  destruct (String.eqb _ "/mfi/certificate"); [apply withAuth_kept; [done|by apply handleCertificate_kept]|].
  destruct (String.eqb _ "/mfi/sign"); [apply withAuth_kept; [done|by apply handleSign_kept]|].
  destruct (String.eqb _ "/mfi/reset"); [apply withAuth_kept; [done|by apply handleReset_kept]|].
  destruct (String.eqb _ "/debug/usb"); [apply withAuth_kept; [done|by eapply handleDebug_kept]|].
  destruct (String.eqb _ "/healthz"); [by apply handleHealth_kept|done].
Qed.

(** A whole request: it is served, and a business request is recorded. *)
Lemma serve_kept token startedAt other r (x : X) lg :
  known_path (req_Path r) = true -> P (svc x) -> represents (recent x) lg ->
  exists x', serve token startedAt other r x = Some x' /\ P (svc x') /\
    exists e, represents (recent x') (if isBusinessPath (req_Path r) then e :: lg else lg).
Proof.
  intros Hp HP Hr. unfold serve, observe, conclude, begin.
  destruct (mux_kept token startedAt other r
    (MkExchange (svc x) new_recorder (MkRequestState "" "" 0 0) (log x) (recent x)) lg Hp HP Hr)
    as (x1 & -> & HP1 & Hr1). cbn [recent] in Hr1.
  destruct (isBusinessPath (req_Path r)).
  - cbn [recent add_log]. rewrite Hr1. set (e := recent_entry _ _ _ _ _ _).
    destruct (add_represents (recent x) lg e Hr) as (s' & -> & Hr' & _).
    eexists. split; [done|]. split; [done|]. by exists e.
  - eexists. split; [done|]. split; [done|]. exists zero_recent. cbn. by rewrite Hr1.
Qed.
End Keeps.
