(* ===== verification/HttpProps.v ===== *)
(** * Properties of the HTTP interface

    Every business request is answered once, with a documented status and note,
    and recorded; requests without the token never reach the service; a sign
    request that a client writes reaches the service unchanged; the mapping of
    hardware errors. *)

From S2P Require Import Prelude Errors Codec Text Effects Usb Ch341 Service ServiceProps Recent.
From S2P Require Import SignRequest Health Http.

Open Scope string_scope.
Open Scope list_scope.
Open Scope Z_scope.

Section Props.
Context {W : Type} `{Clock W, BizService W, GousbText, TimeText}.

Abbreviation X := (exchange W).

(** ** One JSON response *)

(** Nothing sent yet. *)
Definition unsent (r : statusRecorder) : Prop := sent r = None /\ rec_status r = 0 /\ payload r = [].

(** One status line with the JSON headers, one JSON value. *)
Definition json_response (r : statusRecorder) (status : Z) (v : json) : Prop :=
  exists h, r = MkRecorder h (Some (status, h)) status [JSON v] /\
    h !! "Content-Type" = Some "application/json; charset=utf-8" /\ h !! "Cache-Control" = Some "no-store".

Lemma writeJSON_response status v (x : X) :
  unsent (writer x) -> status <> 0 -> json_response (writer (writeJSON status v x)) status v.
Proof.
  destruct x as [w [h s st p] rs l rc]. intros (Hs & Hst & Hp) Hne. simpl in *. subst.
  unfold writeJSON, WriteHeader, Write. cbn. destruct (Z.eqb_spec status 0); [done|].
  eexists. split; [reflexivity|]. by rewrite lookup_insert_ne, !lookup_insert_eq by done.
Qed.

(** What a handler leaves of the exchange it was given. *)
Definition answers (statuses : list Z) (notes : list string) (x x' : X) : Prop :=
  (exists status v, json_response (writer x') status v /\ status ∈ statuses) /\
  note (rstate x') ∈ notes /\ recent x' = recent x.

Definition business_statuses : list Z :=
  [StatusOK; StatusBadRequest; StatusUnauthorized; StatusMethodNotAllowed;
   StatusInternalServerError; StatusServiceUnavailable].

(** The notes of [docs/01-api-contract.md]. *)
Definition business_notes : list string :=
  ["chip"; "idempotent-hit"; "noop"; "chip busy"; "unauthorized"; "bad request"; "error"].

Lemma answers_writeJSON statuses notes status v (x0 x : X) :
  unsent (writer x) -> status <> 0 -> status ∈ statuses -> note (rstate x) ∈ notes -> recent x = recent x0 ->
  answers statuses notes x0 (writeJSON status v x).
Proof.
  intros Hu Hne Hin Hn Hr. split; [|by split]. exists status, v. split; [|done]. by apply writeJSON_response.
Qed.

Ltac in_list := repeat first [apply list_elem_of_here | apply list_elem_of_further].

Lemma serviceErrorResponse_range err status d n :
  serviceErrorResponse err = (status, d, n) ->
  status ∈ [StatusBadRequest; StatusInternalServerError; StatusServiceUnavailable] /\
  n ∈ ["bad request"; "chip busy"; "error"].
Proof.
  unfold serviceErrorResponse. intros Heq.
  repeat (match type of Heq with (if ?b then _ else _) = _ => destruct b end);
    injection Heq as <- <- <-; split; in_list.
Qed.

Lemma writeServiceError_answers r err (x0 x : X) :
  unsent (writer x) -> recent x = recent x0 ->
  answers business_statuses business_notes x0 (writeServiceError r err x).
Proof.
  intros Hu Hr. unfold writeServiceError.
  destruct (serviceErrorResponse err) as [[status d] n] eqn:He.
  apply serviceErrorResponse_range in He as [Hs Hn].
  apply answers_writeJSON; [done| | |cbn|done].
  - intros ->. repeat (apply elem_of_cons in Hs as [[=]|Hs]). by apply elem_of_nil in Hs.
  - repeat (apply elem_of_cons in Hs as [->|Hs]; [in_list|]). by apply elem_of_nil in Hs.
  - repeat (apply elem_of_cons in Hn as [->|Hn]; [in_list|]). by apply elem_of_nil in Hn.
Qed.

Lemma requireMethod_answers r method k (x : X) :
  unsent (writer x) ->
  (exists x', k x = Some x' /\ answers business_statuses business_notes x x') ->
  exists x', requireMethod r method k x = Some x' /\ answers business_statuses business_notes x x'.
Proof.
  intros Hu Hk. unfold requireMethod. destruct (String.eqb _ _); [done|].
  eexists. split; [done|]. apply answers_writeJSON; [by destruct Hu as (? & ? & ?)|done|in_list|in_list|done].
Qed.

Lemma handleCertificate_answers r (x : X) :
  unsent (writer x) ->
  exists x', handleCertificate r x = Some x' /\ answers business_statuses business_notes x x'.
Proof.
  intros Hu. apply requireMethod_answers; [done|].
  destruct (svc_Certificate (svc x)) as [[c|err] w]; eexists; (split; [done|]).
  - apply answers_writeJSON; [done|done|in_list| |done]. cbn. destruct (Cached c); in_list.
  - by apply writeServiceError_answers.
Qed.

Lemma bad_request_answers d (x0 x : X) :
  unsent (writer x) -> recent x = recent x0 ->
  answers business_statuses business_notes x0 (bad_request d x).
Proof. intros Hu Hr. apply answers_writeJSON; [done|done|in_list|in_list|done]. Qed.

Lemma handleSign_answers r (x : X) :
  unsent (writer x) ->
  exists x', handleSign r x = Some x' /\ answers business_statuses business_notes x x'.
Proof.
  intros Hu. apply requireMethod_answers; [done|].
  destruct (decodeJSON (req_Body r)) as [q|]; [|eexists; split; [done|by apply bad_request_answers]].
  destruct (String.eqb (RequestID q) ""); [eexists; split; [done|by apply bad_request_answers]|].
  destruct (String.eqb (Challenge q) ""); [eexists; split; [done|by apply bad_request_answers]|].
  destruct (base64_DecodeString (Challenge q)) as [ch|]; [|eexists; split; [done|by apply bad_request_answers]].
  cbn [svc on_state set_requestID].
  destruct (svc_Sign (RequestID q) ch (svc x)) as [[s|err] w]; eexists; (split; [done|]).
  - apply answers_writeJSON; [done|done|in_list| |done]. cbn. destruct (sign_Cached s); in_list.
  - by apply writeServiceError_answers.
Qed.

Lemma handleReset_answers r (x : X) :
  unsent (writer x) ->
  exists x', handleReset r x = Some x' /\ answers business_statuses business_notes x x'.
Proof.
  intros Hu. apply requireMethod_answers; [done|].
  destruct (_ || _); [eexists; split; [done|by apply bad_request_answers]|].
  destruct (svc_Reset (svc x)) as [[err|] w]; eexists; (split; [done|]).
  - by apply writeServiceError_answers.
  - apply answers_writeJSON; [done|done|in_list|in_list|done].
Qed.

Lemma withAuth_answers token (next : handler) r (x : X) :
  unsent (writer x) ->
  (exists x', next r x = Some x' /\ answers business_statuses business_notes x x') ->
  exists x', withAuth token next false r x = Some x' /\ answers business_statuses business_notes x x'.
Proof.
  intros Hu Hk. unfold withAuth. destruct (String.eqb token ""); [done|].
  destruct (authorized _ _ _); [done|]. cbn [andb].
  eexists. split; [done|]. apply answers_writeJSON; [done|done|in_list|in_list|done].
Qed.

(** The exchange a handler is called with. *)
Definition started (x : X) : X :=
  MkExchange (svc x) new_recorder (MkRequestState "" "" 0 0) (log x) (recent x).

Lemma started_unsent (x : X) : unsent (writer (started x)).
Proof. done. Qed.

Lemma mux_answers token startedAt other r (x : X) :
  isBusinessPath (req_Path r) = true -> unsent (writer x) ->
  exists x', mux token startedAt other r x = Some x' /\ answers business_statuses business_notes x x'.
Proof.
  intros Hp Hu. unfold mux, isBusinessPath in *.
  destruct (String.eqb _ "/mfi/certificate"); [apply withAuth_answers; [done|by apply handleCertificate_answers]|].
  destruct (String.eqb _ "/mfi/sign"); [apply withAuth_answers; [done|by apply handleSign_answers]|].
  destruct (String.eqb _ "/mfi/reset"); [apply withAuth_answers; [done|by apply handleReset_answers]|done].
Qed.

(** [observe] around a handler that answers. *)
Lemma observe_business (next : handler) r (x : X) lg x1 :
  isBusinessPath (req_Path r) = true -> represents (recent x) lg ->
  next r (started x) = Some x1 -> answers business_statuses business_notes (started x) x1 ->
  exists x' e status v, observe next r x = Some x' /\ svc x' = svc x1 /\
    represents (recent x') (e :: lg) /\ json_response (writer x') status v /\ status ∈ business_statuses /\
    writer x' = writer x1 /\
    Method e = req_Method r /\ Path e = req_Path r /\ Status e = status /\ Note e = note (rstate x1) /\
    Note e ∈ business_notes.
Proof.
  intros Hp Hr Hnext ((status & v & Hj & Hst) & Hn & Hrec). unfold observe, conclude, begin.
  unfold started in Hnext. rewrite Hnext. rewrite Hp.
  pose proof Hj as (h & Hw & _). rewrite Hw.
  assert (Hnote : String.eqb (note (rstate x1)) "" = false).
  { apply String.eqb_neq. intros Heq. rewrite Heq in Hn.
    repeat (apply elem_of_cons in Hn as [[=]|Hn]). by apply elem_of_nil in Hn. }
  rewrite Hnote. cbn [recent add_log]. rewrite Hrec. cbn [recent started].
  set (e := recent_entry _ _ _ _ _ _).
  destruct (add_represents (recent x) lg e Hr) as (s' & Hadd & Hr' & _). rewrite Hadd.
  eexists _, e, status, v. split; [reflexivity|]. cbn [svc recent writer set_recent add_log].
  split_and!; try done.
  unfold e. cbn. unfold statusOrOK. cbn. destruct (Z.eqb_spec status 0) as [->|]; [|done].
  exfalso. repeat (apply elem_of_cons in Hst as [[=]|Hst]). by apply elem_of_nil in Hst.
Qed.

(** A sign request as a client writes it. *)
Definition sign_request (r : request) (rid : string) (ch : list Z) : Prop :=
  req_Method r = "POST" /\ bytes_ok ch /\ 1 <= len ch <= 128 /\
  plain rid = true /\ rid <> "" /\ (String.length rid <= 1000)%nat /\
  req_Body r = request_body (MkSignRequest (base64_EncodeToString ch) rid).

(** Such a request reaches the service as it was meant. *)
Lemma handleSign_calls r (x : X) rid ch :
  sign_request r rid ch ->
  handleSign r x =
    let '(res, w) := svc_Sign rid ch (svc x) in
    let x := set_svc w (set_requestID rid x) in
    Some match res with
    | Err err => writeServiceError r err x
    | Ok s => writeJSON StatusOK (signature_json s)
                (set_note (hit_note (sign_Cached s)) (set_times (sign_WaitDuration s) (sign_ChipDuration s) x))
    end.
Proof.
  intros (Hm & Hbytes & Hlen & Hrid & Hne & Hsize & Hbody). unfold handleSign, requireMethod.
  rewrite Hm. change (String.eqb "POST" "POST") with true. cbv iota. rewrite Hbody.
  rewrite decodeJSON_plain; [|by apply base64_plain|done|].
  2: { unfold request_body, quote, maximumRequestBodyBytes. cbn [Challenge RequestID].
       pose proof (b64_encode_length ch). unfold bytes_of_string, base64_EncodeToString.
       rewrite list_ascii_of_string_of_list_ascii. unfold len in *.
       rewrite !length_app, !length_map, !length_list_ascii_of_string. simpl. lia. }
  cbn [Challenge RequestID]. apply String.eqb_neq in Hne as ->.
  destruct (String.eqb (base64_EncodeToString ch) "") eqn:He.
  { exfalso. apply String.eqb_eq in He. pose proof (base64_round_trip ch Hbytes) as Hrt.
    rewrite He in Hrt. vm_compute in Hrt. injection Hrt as <-. rewrite len_nil in Hlen. lia. }
  rewrite base64_round_trip by done. cbn [svc on_state set_requestID].
  by destruct (svc_Sign rid ch (svc x)) as [[s|err] w].
Qed.

Lemma writeServiceError_response r err (x : X) :
  unsent (writer x) ->
  let '(status, d, n) := serviceErrorResponse err in
  json_response (writer (writeServiceError r err x)) status (detail d) /\
  note (rstate (writeServiceError r err x)) = n.
Proof.
  intros Hu. unfold writeServiceError. destruct (serviceErrorResponse err) as [[status d] n] eqn:Hse.
  apply serviceErrorResponse_range in Hse as [Hst _]. split; [|done]. apply writeJSON_response; [done|].
  intros ->. repeat (apply elem_of_cons in Hst as [[=]|Hst]). by apply elem_of_nil in Hst.
Qed.

(** A signed request through the whole server. *)
Lemma serve_signed token startedAt other r (x : X) lg rid ch s w :
  sign_request r rid ch -> req_Path r = "/mfi/sign" -> token = "" \/ authorized token r false = true ->
  represents (recent x) lg -> svc_Sign rid ch (svc x) = (Ok s, w) ->
  exists x' e, serve token startedAt other r x = Some x' /\ svc x' = w /\
    json_response (writer x') StatusOK (signature_json s) /\
    represents (recent x') (e :: lg) /\ Note e = hit_note (sign_Cached s).
Proof.
  intros Hreq Hp Hauth Hr Hs.
  set (x1 := writeJSON StatusOK (signature_json s)
    (set_note (hit_note (sign_Cached s)) (set_times (sign_WaitDuration s) (sign_ChipDuration s)
      (set_svc w (set_requestID rid (started x)))))).
  assert (Hmux : mux token startedAt other r (started x) = Some x1).
  { unfold mux. rewrite Hp. change (String.eqb "/mfi/sign" "/mfi/certificate") with false.
    change (String.eqb "/mfi/sign" "/mfi/sign") with true. cbv iota. unfold withAuth.
    pose proof (handleSign_calls r (started x) rid ch Hreq) as Hcalls. cbn [svc started] in Hcalls.
    rewrite Hs in Hcalls. destruct Hauth as [->| ->]; [done|]. by destruct (String.eqb token ""). }
  assert (Hj : json_response (writer x1) StatusOK (signature_json s)) by by apply writeJSON_response.
  destruct (observe_business (mux token startedAt other) r x lg x1)
    as (x' & e & status & v & Hobs & Hsvc & Hrep & _ & _ & Hw & _ & _ & _ & Hn & _).
  - by rewrite Hp.
  - done.
  - exact Hmux.
  - split; [exists StatusOK, (signature_json s); split; [done|in_list]|]. split; [|done].
    cbn. destruct (sign_Cached s); in_list.
  - exists x', e. rewrite Hw, Hsvc. by split_and!.
Qed.
End Props.

(** ** A small server, for the examples *)

(** The time, and how often the chip signed. *)
Record web := MkWeb { web_time : Z; sign_calls : nat }.

#[export] Instance web_clock : Clock web := {
  now := web_time;
  sleep d w := MkWeb (web_time w + d) (sign_calls w);
}.

#[export] Instance web_service : BizService web := {
  svc_Certificate w := (Ok (stored_certificate 3 [1; 2; 3]), w);
  svc_Sign id ch w := (Ok (MkSignResult (rev ch) false 0 Millisecond), MkWeb (web_time w) (S (sign_calls w)));
  svc_Reset w := (None, w);
  svc_Health w := (MkHealth "ready" "" "1a86:5512" [], w);
  svc_Diagnostics w := (MkHealth "ready" "" "1a86:5512" [], w);
  svc_Runtime w := MkRuntimeStatus 0 "" 0;
}.

#[export] Instance web_times : TimeText := { rfc3339 := fmt_d; rfc3339_millis := fmt_d }.

Definition web_exchange : exchange web :=
  MkExchange (MkWeb 0 0) new_recorder (MkRequestState "" "" 0 0) []
    (MkStore 20 (replicate 20 zero_recent) 0 false).

Lemma web_recent : represents (recent web_exchange) [].
Proof. destruct (new_represents 20) as (s & [= <-] & Hr & _); [lia|]. exact Hr. Qed.

Definition no_page : handler (W := web) := fun r x => Some x.

(** ** Properties *)

(** C22: a request that does not carry the token (compared through its SHA-256)
    never reaches the service: each protected path answers 401 and leaves the
    service's state alone. *)
Theorem unauthorized_requests_refused {W} `{Clock W, BizService W, GousbText, TimeText}
    token startedAt other r (x : exchange W) lg :
  req_Path r ∈ ["/mfi/certificate"; "/mfi/sign"; "/mfi/reset"; "/debug/usb"] ->
  token <> "" -> authorized token r (String.eqb (req_Path r) "/debug/usb") = false ->
  represents (recent x) lg ->
  exists x', serve token startedAt other r x = Some x' /\ svc x' = svc x /\
    rec_status (writer x') = StatusUnauthorized /\
    (isBusinessPath (req_Path r) = true ->
      payload (writer x') = [JSON (detail "unauthorized")] /\
      exists e, represents (recent x') (e :: lg) /\ Note e = "unauthorized").
Proof.
  intros Hp Htok%String.eqb_neq Hauth Hr. unfold serve.
  assert (Hbusiness : forall (h : handler) , isBusinessPath (req_Path r) = true ->
    authorized token r false = false -> mux token startedAt other r = withAuth token h false r ->
    exists x', observe (mux token startedAt other) r x = Some x' /\ svc x' = svc x /\
      rec_status (writer x') = StatusUnauthorized /\
      (isBusinessPath (req_Path r) = true ->
        payload (writer x') = [JSON (detail "unauthorized")] /\
        exists e, represents (recent x') (e :: lg) /\ Note e = "unauthorized")).
  { intros h Hb Ha Hmux.
    destruct (observe_business (mux token startedAt other) r x lg
      (writeJSON StatusUnauthorized (detail "unauthorized") (set_note "unauthorized" (started x))))
      as (x' & e & status & v & Hobs & Hsvc & Hrep & _ & _ & Hw & _ & _ & _ & Hn & _); [done|done| | |].
    - rewrite Hmux. unfold withAuth. by rewrite Htok, Ha.
    - apply answers_writeJSON; [done|done| | |done]; repeat first [apply list_elem_of_here | apply list_elem_of_further].
    - exists x'. rewrite Hobs, Hsvc, Hw. split_and!; [done..|]. intros _. split; [done|]. by exists e. }
  repeat (apply elem_of_cons in Hp as [Hp|Hp]); try (by apply elem_of_nil in Hp); rewrite Hp in Hauth.
  - apply (Hbusiness handleCertificate); [by rewrite Hp|done|unfold mux; by rewrite Hp].
  - apply (Hbusiness handleSign); [by rewrite Hp|done|unfold mux; by rewrite Hp].
  - apply (Hbusiness handleReset); [by rewrite Hp|done|unfold mux; by rewrite Hp].
  - unfold observe, conclude, begin, mux. rewrite Hp. cbn [String.eqb]. change (String.eqb "/debug/usb" "/debug/usb") with true in Hauth.
    cbv beta iota delta [String.eqb Ascii.eqb Bool.eqb]. unfold withAuth. rewrite Htok, Hauth.
    destruct (acceptsJSON r); cbn [andb negb]; eexists; (split; [reflexivity|]); by split_and!.
Qed.

Example unauthorized_requests_refused_witness :
  let r := MkRequest "POST" "/mfi/sign" "Bearer wrong" "" "" [] in
  exists x', serve "secret" 0 no_page r web_exchange = Some x' /\ svc x' = svc web_exchange /\
    rec_status (writer x') = StatusUnauthorized /\
    (isBusinessPath (req_Path r) = true ->
      payload (writer x') = [JSON (detail "unauthorized")] /\
      exists e, represents (recent x') [e] /\ Note e = "unauthorized").
Proof.
  apply (unauthorized_requests_refused "secret" 0 no_page
    (MkRequest "POST" "/mfi/sign" "Bearer wrong" "" "" []) web_exchange []).
  - apply list_elem_of_further, list_elem_of_here.
  - discriminate.
  - vm_compute. reflexivity.
  - exact web_recent.
Defined.

(** C24: every request on a business path, whatever its method, headers, body
    and whatever the service answers, gets exactly one JSON response with a
    documented status, and is added to the recent requests with its method, path,
    status and one of the documented notes. *)
Theorem business_requests_answered {W} `{Clock W, BizService W, GousbText, TimeText}
    token startedAt other r (x : exchange W) lg :
  isBusinessPath (req_Path r) = true -> represents (recent x) lg ->
  exists x' e status v, serve token startedAt other r x = Some x' /\
    json_response (writer x') status v /\ status ∈ business_statuses /\
    represents (recent x') (e :: lg) /\
    Method e = req_Method r /\ Path e = req_Path r /\ Status e = status /\ Note e ∈ business_notes.
Proof.
  intros Hp Hr.
  destruct (mux_answers token startedAt other r (started x) Hp (started_unsent x)) as (x1 & Hmux & Hans).
  destruct (observe_business _ r x lg x1 Hp Hr Hmux Hans)
    as (x' & e & status & v & ? & _ & ? & ? & ? & _ & ? & ? & ? & _ & ?).
  by exists x', e, status, v.
Qed.

Example business_requests_answered_witness :
  let r := MkRequest "DELETE" "/mfi/reset" "" "" "" [] in
  exists x' e status v, serve "" 0 no_page r web_exchange = Some x' /\
    json_response (writer x') status v /\ status ∈ business_statuses /\
    represents (recent x') [e] /\
    Method e = req_Method r /\ Path e = req_Path r /\ Status e = status /\ Note e ∈ business_notes.
Proof.
  apply (business_requests_answered "" 0 no_page (MkRequest "DELETE" "/mfi/reset" "" "" "" []) web_exchange []);
    [reflexivity|exact web_recent].
Defined.

(** C23: a well-formed sign request arrives unchanged: the challenge that a client
    encodes in base64 and sends in the documented JSON object is the challenge
    the service signs, once, under the client's request identifier; the response
    carries the signature in base64, or the mapped error. *)
Theorem sign_request_round_trip {W} `{Clock W, BizService W, GousbText, TimeText}
    (r : request) (x : exchange W) rid ch :
  unsent (writer x) -> sign_request r rid ch ->
  exists x', handleSign r x = Some x' /\ svc x' = (svc_Sign rid ch (svc x)).2 /\
    match (svc_Sign rid ch (svc x)).1 with
    | Ok s => json_response (writer x') StatusOK (signature_json s)
    | Err err => let '(status, d, n) := serviceErrorResponse err in
        json_response (writer x') status (detail d) /\ note (rstate x') = n
    end.
Proof.
  intros Hu Hreq. rewrite (handleSign_calls r x rid ch Hreq).
  destruct (svc_Sign rid ch (svc x)) as [[s|err] w]; eexists; (split; [done|]); cbn [fst snd].
  - split; [done|]. by apply writeJSON_response.
  - split; [|by apply writeServiceError_response].
    unfold writeServiceError. by destruct (serviceErrorResponse err) as [[status d] n].
Qed.

Example sign_request_round_trip_witness :
  let r := MkRequest "POST" "/mfi/sign" "" "" ""
    (request_body (MkSignRequest (base64_EncodeToString [1; 2; 3; 4]) demo_id)) in
  exists x', handleSign r web_exchange = Some x' /\
    svc x' = (svc_Sign demo_id [1; 2; 3; 4] (svc web_exchange)).2 /\
    match (svc_Sign demo_id [1; 2; 3; 4] (svc web_exchange)).1 with
    | Ok s => json_response (writer x') StatusOK (signature_json s)
    | Err err => let '(status, d, n) := serviceErrorResponse err in
        json_response (writer x') status (detail d) /\ note (rstate x') = n
    end.
Proof.
  apply (sign_request_round_trip (MkRequest "POST" "/mfi/sign" "" "" ""
    (request_body (MkSignRequest (base64_EncodeToString [1; 2; 3; 4]) demo_id))) web_exchange demo_id [1; 2; 3; 4]).
  - done.
  - unfold sign_request. split_and!; try reflexivity; try discriminate.
    + repeat constructor; discriminate.
    + vm_compute. repeat constructor.
Defined.

(** ** Errors of the hardware *)

(** The table of [docs/01-api-contract.md], by the kind of the error the
    transport or the driver reported. *)
Definition hardware_response (e : goerror) : Z * string * string :=
  match errors_As as_transport e with
  | Some ErrorDeviceMissing => (StatusServiceUnavailable, "chip missing", "error")
  | Some ErrorPermission => (StatusServiceUnavailable, "chip unavailable: permission denied", "error")
  | Some ErrorBusy => (StatusServiceUnavailable, "chip unavailable: USB device busy", "error")
  | Some ErrorTimeout => (StatusInternalServerError, "chip operation timed out", "error")
  | Some ErrorNACK => (StatusInternalServerError, "I2C NACK", "error")
  | _ =>
      match errors_As as_chip e with
      | Some (ErrorAuthFailed, Some code) =>
          (StatusInternalServerError, "chip auth failed: 0x" +:+ fmt_hex 2 code, "error")
      | Some (ErrorAuthFailed, None) => (StatusInternalServerError, "chip auth timeout", "error")
      | Some (ErrorInvalidData, _) =>
          (StatusInternalServerError, "invalid data returned by MFi chip", "error")
      | None => (StatusInternalServerError, "MFi hardware operation failed", "error")
      end
  end.

(** C30: what the hardware reports is answered as the contract's table says: an
    error of the transport or of the driver that is not a cancellation, after
    the service has normalised it, gets the status and the detail of its kind. *)
Theorem hardware_errors_as_documented `{GousbText} e :
  hardware_error e = true -> errors_Is e Canceled = false -> errors_Is e DeadlineExceeded = false ->
  serviceErrorResponse (normalizeHardwareError e) = hardware_response e.
Proof.
  intros Hhw Hc Hd. unfold hardware_error in Hhw. simpl in Hhw.
  apply andb_prop in Hhw as [H1%negb_true_iff Hhw]. apply andb_prop in Hhw as [H2%negb_true_iff Hhw].
  apply andb_prop in Hhw as [H3%negb_true_iff Hhw]. apply andb_prop in Hhw as [H4%negb_true_iff Hhw].
  apply andb_prop in Hhw as [H5%negb_true_iff _].
  unfold hardware_response, normalizeHardwareError, transport_IsKind.
  destruct (errors_As as_transport e) as [k|] eqn:Hk; [destruct k|].
  2: by rewrite bool_decide_eq_true_2.
  all: rewrite ?bool_decide_eq_false_2 by done.
  all: unfold serviceErrorResponse, transport_IsKind, chip_IsKind, chip_auth_detail.
  all: rewrite ?H1, ?H2, ?H3, ?H4, ?H5, ?Hc, ?Hd, ?Hk.
  all: destruct (errors_As as_chip e) as [[[] [code|]]|]; reflexivity.
Qed.

Example hardware_errors_as_documented_witness :
  serviceErrorResponse (normalizeHardwareError
    (WrapError "read register 0x02: " (classifyUSBError "CH341 bulk read" (GousbError UsbErrorNoDevice)) ""))
  = hardware_response
    (WrapError "read register 0x02: " (classifyUSBError "CH341 bulk read" (GousbError UsbErrorNoDevice)) "").
Proof. apply hardware_errors_as_documented; reflexivity. Defined.

(** C39: a transport error that wraps [context.DeadlineExceeded], which
    [classifyUSBError] gives the timeout kind, is not answered as a timeout:
    [serviceErrorResponse] looks for [context.DeadlineExceeded] before it looks at
    the kind, so the client gets 503 "request cancelled" instead of the documented
    500 "chip operation timed out". *)
Theorem deadline_reported_as_cancelled `{GousbText} operation e :
  hardware_error e = true -> errors_Is e DeadlineExceeded = true ->
  transport_IsKind (classifyUSBError operation e) ErrorTimeout = true /\
  serviceErrorResponse (normalizeHardwareError (classifyUSBError operation e))
  = (StatusServiceUnavailable, "request cancelled", "error").
Proof.
  intros Hhw Hd. unfold hardware_error in Hhw. simpl in Hhw.
  apply andb_prop in Hhw as [H1%negb_true_iff Hhw]. apply andb_prop in Hhw as [H2%negb_true_iff Hhw].
  apply andb_prop in Hhw as [H3%negb_true_iff Hhw]. apply andb_prop in Hhw as [H4%negb_true_iff Hhw].
  apply andb_prop in Hhw as [H5%negb_true_iff _].
  assert (Hkind : classify_kind e = ErrorTimeout) by (unfold classify_kind; by rewrite Hd).
  unfold classifyUSBError. rewrite Hkind. split; [done|].
  unfold normalizeHardwareError. rewrite transport_IsKind_outer, bool_decide_eq_false_2 by done.
  unfold serviceErrorResponse.
  assert (Hin : forall s, errors_Is (TransportError ErrorTimeout operation (Some e)) s = errors_Is e s) by done.
  rewrite !Hin, H1, H2, H3, H4, H5, Hd. by rewrite orb_true_r.
Qed.

Example deadline_reported_as_cancelled_witness :
  transport_IsKind (classifyUSBError "CH341 bulk read" (SentinelError DeadlineExceeded)) ErrorTimeout = true /\
  serviceErrorResponse (normalizeHardwareError (classifyUSBError "CH341 bulk read" (SentinelError DeadlineExceeded)))
  = (StatusServiceUnavailable, "request cancelled", "error").
Proof. apply deadline_reported_as_cancelled; reflexivity. Defined.
