(* ===== verification/Stack.v ===== *)
(** * The service on its driver and transport

    [NewService(driver, ch341)] as a client sees it that sends one request at a
    time: each call runs as a goroutine of [Service], alone, with the answers the
    driver computes on the transport and the transport's clock.  Such a run is a
    schedule of the concurrent service, so the service's theorems hold of it.
    [Engine] has calls at the same time. *)

From S2P Require Import Prelude Errors Effects Codec Ch341 Ch341Link Driver DriverErrors DriverSim.
From S2P Require Import Service ServiceInv ServiceProps Health Http HttpInv.

Open Scope list_scope.
Open Scope Z_scope.

(** [uuid.Validate] accepts. *)
Class UUID := uuid_valid : string -> bool.

(** [drv] is the driver's address, [hw] the transport with what it drives. *)
Record stack (W : Type) := MkStack { biz : state; drv : Z; hw : W }.
Arguments MkStack {W} _ _ _.
Arguments biz {W} _.
Arguments drv {W} _.
Arguments hw {W} _.

Section Stack.
Context {W : Type} `{Clock W, I2CTransport W, GousbText, UUID}.

#[export] Instance stack_clock : Clock (stack W) := {
  now s := now (hw s);
  sleep d s := MkStack (biz s) (drv s) (sleep d (hw s));
}.

(** What the goroutine at [p] goes on with: the branch [b] of its [select], or the
    driver's answer, under a context that is never done ([context.WithoutCancel]). *)
Definition next_input (b : branch) (d : Z) (p : pc) (w : W) : option (input * W) :=
  match p with
  | Acquiring _ _ => Some (InSelect b, w)
  | ChipMajor _ _ _ =>
      match Driver.ProtocolMajor d None w with Some (r, w) => Some (InMajor r, w) | None => None end
  | ChipCertificate _ _ _ =>
      match ReadCertificate d None w with Some (r, w) => Some (InData r, w) | None => None end
  | ChipSign _ challenge _ _ =>
      match SignChallenge d None challenge w with Some (r, w) => Some (InData r, w) | None => None end
  | _ => Some (InNone, w)
  end.

(** One action of goroutine [tid], at the time the hardware has then. *)
Definition serve_thread (tid : nat) (b : branch) (s : stack W) : option (stack W) :=
  match threads (biz s) !! tid with
  | None => None
  | Some p =>
      match next_input b (drv s) p (hw s) with
      | None => None
      | Some (i, w) =>
          match exec uuid_valid [Tick (now w - clock (sh (biz s))); Run tid i] (biz s) with
          | None => None
          | Some st => Some (MkStack st (drv s) w)
          end
      end
  end.

Definition start_thread (tid : nat) (c : call) (s : stack W) : option (stack W) :=
  match exec uuid_valid [Tick (now (hw s) - clock (sh (biz s))); Spawn tid c] (biz s) with
  | None => None
  | Some st => Some (MkStack st (drv s) (hw s))
  end.

(** A call that gets the gate and is not cancelled. *)
Fixpoint drive (fuel : nat) (tid : nat) (s : stack W) : option (response * stack W) :=
  match fuel, threads (biz s) !! tid with
  | O, _ | _, None => None
  | S _, Some (Done _ r) => Some (r, s)
  | S fuel, Some _ =>
      match serve_thread tid BranchToken s with
      | None => None
      | Some s => drive fuel tid s
      end
  end.

Definition new_thread (s : stack W) : nat := fresh (dom (threads (biz s))).

(** A call has ten states at most ([rank]). *)
Definition serve_call (c : call) (s : stack W) : option (response * stack W) :=
  let tid := new_thread s in
  match start_thread tid c s with
  | None => None
  | Some s => drive 10 tid s
  end.

(** The service the handlers call. *)
#[export] Instance stack_service `{USBInspector W} : BizService (stack W) := {
  svc_Certificate s :=
    match serve_call CallCertificate s with
    | Some (RCertificate r, s) => (r, s)
    | _ => (Err panicked, s)
    end;
  svc_Sign requestID challenge s :=
    match serve_call (CallSign requestID challenge) s with
    | Some (RSign r, s) => (r, s)
    | _ => (Err panicked, s)
    end;
  svc_Reset s := let '(err, shared) := Reset (sh (biz s)) in
    (err, MkStack (State shared (threads (biz s))) (drv s) (hw s));
  svc_Health s := let '(health, w) := Health (hw s) in (health, MkStack (biz s) (drv s) w);
  svc_Diagnostics s := let '(health, w) := Diagnostics (hw s) in (health, MkStack (biz s) (drv s) w);
  svc_Runtime s := Runtime (advance (now (hw s) - clock (sh (biz s))) (sh (biz s)));
}.
End Stack.

(** ** What a world must keep *)

(** [I] holds of the transport whatever the driver does. *)
Class WorldInv {W : Type} `{Clock W, I2CTransport W} (I : W -> Prop) : Prop := {
  world_sleep d w : 0 <= d -> I w -> I (sleep d w);
  world_transaction a wr n w : I w -> I (Transaction a wr n w).2;
}.

Class InspectorInv {W : Type} `{Clock W, USBInspector W} (I : W -> Prop) : Prop := {
  world_inspect b w : I w -> I (inspect b w).2 /\ now w <= now (inspect b w).2;
}.

Section World.
Context {W : Type} `{Clock W, I2CTransport W, !ClockLaws W, !TransportLaws W, !TransportErrors W}.
Context (I : W -> Prop) `{!WorldInv I}.

(** An invariant is a simulation of the world by itself. *)
Definition same_world (w1 w2 : W) : Prop := w1 = w2 /\ I w1.

#[export] Instance same_world_simulation : Simulation same_world.
Proof.
  constructor.
  - by intros w1 w2 [-> _].
  - intros d w1 w2 Hd [-> HI]. split; [done|]. by apply world_sleep.
  - intros a wr n w1 w2 _ [-> HI]. split; [done|]. split; [done|]. by apply world_transaction.
Qed.

(** What a driver operation leaves. *)
Definition safe {A} (m : IO W A) : Prop := forall w, I w ->
  exists r w', m w = Some (r, w') /\ now w <= now w' /\ I w' /\ hardware r.

Lemma safe_intro {A} (m : IO W A) : live m -> raises m hw_error -> sim same_world m m -> safe m.
Proof.
  intros Hl Hr Hs w HI. destruct (Hl w) as (r & w' & Heq & Hle). exists r, w'.
  pose proof (Hs w w (conj eq_refl HI)) as Hsim. rewrite Heq in Hsim. destruct Hsim as [_ [_ HI']].
  split_and!; [done..|]. destruct r as [a|e]; [done|]. exact (Hr _ _ _ Heq).
Qed.

Lemma ProtocolMajor_safe d : 0 <= d -> safe (Driver.ProtocolMajor d None).
Proof.
  intros Hd. apply safe_intro; [apply ProtocolMajor_live|apply ProtocolMajor_raises|apply (sim_ProtocolMajor same_world d Hd)].
Qed.

Lemma ReadCertificate_safe d : 0 <= d -> safe (ReadCertificate d None).
Proof.
  intros Hd.
  apply safe_intro; [apply ReadCertificate_live|apply ReadCertificate_raises|apply (sim_ReadCertificate same_world d Hd)].
Qed.

Lemma SignChallenge_safe d ch : 0 <= d -> safe (SignChallenge d None ch).
Proof.
  intros Hd.
  apply safe_intro; [apply SignChallenge_live|apply SignChallenge_raises|apply (sim_SignChallenge same_world d Hd)].
Qed.

Lemma answer_safe b d p w : 0 <= d -> I w ->
  exists i w', next_input b d p w = Some (i, w') /\ now w <= now w' /\ I w' /\ label_ok (Run 0 i) = true.
Proof.
  intros Hd HI. assert (Hplain : forall i, label_ok (Run 0 i) = true -> exists i' w',
    Some (i, w) = Some (i', w') /\ now w <= now w' /\ I w' /\ label_ok (Run 0 i') = true).
  { intros i Hi. exists i, w. split_and!; (done || lia). }
  destruct p as [c|c t|c t|c wt|c wt st|wt st mj|wt st mj dt|rid ch wt st|rid ch wt st sg|c r|c r|c r];
    cbn [next_input]; try by apply Hplain.
  - destruct (ProtocolMajor_safe d Hd w HI) as (r & w' & -> & ? & ? & Hr).
    exists (InMajor r), w'. by destruct r.
  - destruct (ReadCertificate_safe d Hd w HI) as (r & w' & -> & ? & ? & Hr).
    exists (InData r), w'. by destruct r.
  - destruct (SignChallenge_safe d ch Hd w HI) as (r & w' & -> & ? & ? & Hr).
    exists (InData r), w'. by destruct r.
Qed.
End World.

(** ** The service's actions at the hardware's time *)

Section Ticking.
Context `{GousbText, UUID}.

Lemma run_keeps_clock i s p s' p' : run uuid_valid i s p = Some (s', p') -> clock s' = clock s.
Proof.
  intros Hrun.
  destruct p, i; simplify_eq/=; unfold enter, inside in *; repeat case_match; by simplify_eq/=.
Qed.

(** The call a goroutine serves. *)
Definition call_of (p : pc) : call :=
  match p with
  | Called c | Acquiring c _ | Acquired c _ | Locked c _ | ChipMajor c _ _ | Releasing c _ | Unlocking c _
  | Done c _ => c
  | ChipCertificate _ _ _ | Storing _ _ _ _ => CallCertificate
  | ChipSign requestID challenge _ _ | Putting requestID challenge _ _ _ => CallSign requestID challenge
  end.

Lemma run_keeps_call i s p s' p' : run uuid_valid i s p = Some (s', p') -> call_of p' = call_of p.
Proof.
  intros Hrun.
  destruct p, i; simplify_eq/=; unfold enter, inside in *; repeat case_match; by simplify_eq/=.
Qed.

(** The time moves on to [t], then goroutine [k] acts. *)
Lemma exec_at t k i st st' :
  reachable uuid_valid st -> clock (sh st) <= t -> label_ok (Run 0 i) = true ->
  exec uuid_valid [Tick (t - clock (sh st)); Run k i] st = Some st' ->
  exists p p', threads st !! k = Some p /\ threads st' = <[k := p']> (threads st) /\
    run uuid_valid i (advance (t - clock (sh st)) (sh st)) p = Some (sh st', p') /\
    (rank p' < rank p)%nat /\ call_of p' = call_of p /\ reachable uuid_valid st' /\ clock (sh st') = t /\
    forall e, e ∈ history (sh st) -> e ∈ history (sh st').
Proof.
  intros Hreach Hclk Hl. set (dt := t - clock (sh st)).
  assert (Htick : step uuid_valid (Tick dt) st = Some (State (advance dt (sh st)) (threads st))).
  { unfold step. destruct (Z.leb_spec 0 dt); [done|]. subst dt. lia. }
  cbn [exec]. rewrite Htick. cbn [step sh threads].
  destruct (threads st !! k) as [p|] eqn:Hp; [|done].
  destruct (run uuid_valid i (advance dt (sh st)) p) as [[s' p']|] eqn:Hrun; [|done].
  intros [= <-]. exists p, p'. cbn [sh threads]. split_and!; try done.
  - by eapply run_rank.
  - by eapply run_keeps_call.
  - eapply (reachable_step _ _ (Run k i)); [eapply (reachable_step _ _ (Tick dt)); [exact Hreach|done|exact Htick]|exact Hl|].
    cbn [step sh threads]. by rewrite Hp, Hrun.
  - rewrite (run_keeps_clock _ _ _ _ _ Hrun). cbn. subst dt. lia.
  - intros e He. by eapply run_history.
Qed.

Lemma exec_at_ready t k i st p :
  clock (sh st) <= t -> threads st !! k = Some p ->
  is_Some (run uuid_valid i (advance (t - clock (sh st)) (sh st)) p) ->
  is_Some (exec uuid_valid [Tick (t - clock (sh st)); Run k i] st).
Proof.
  intros Hclk Hp [[s' p'] Hrun]. cbn [exec step]. destruct (Z.leb_spec 0 (t - clock (sh st))); [|lia].
  cbn [threads sh]. rewrite Hp, Hrun. by eexists.
Qed.

Lemma exec_spawn_at t k c st :
  reachable uuid_valid st -> clock (sh st) <= t -> threads st !! k = None ->
  exists st', exec uuid_valid [Tick (t - clock (sh st)); Spawn k c] st = Some st' /\
    threads st' = <[k := Called c]> (threads st) /\ history (sh st') = history (sh st) /\
    token (sh st') = token (sh st) /\ reachable uuid_valid st' /\ clock (sh st') = t.
Proof.
  intros Hreach Hclk Hnew. set (dt := t - clock (sh st)).
  assert (Htick : step uuid_valid (Tick dt) st = Some (State (advance dt (sh st)) (threads st))).
  { unfold step. destruct (Z.leb_spec 0 dt); [done|]. subst dt. lia. }
  assert (Hspawn : step uuid_valid (Spawn k c) (State (advance dt (sh st)) (threads st))
    = Some (State (advance dt (sh st)) (<[k := Called c]> (threads st)))).
  { cbn [step sh threads]. by rewrite Hnew. }
  cbn [exec]. rewrite Htick, Hspawn. eexists. split; [done|]. cbn [sh threads]. split_and!; try done.
  - eapply (reachable_step _ _ (Spawn k c)); [|done|exact Hspawn].
    eapply (reachable_step _ _ (Tick dt)); [exact Hreach|done|exact Htick].
  - cbn. subst dt. lia.
Qed.
End Ticking.

(** ** A call runs to its end *)

Section Calls.
Context {W : Type} `{Clock W, I2CTransport W, GousbText, UUID, !ClockLaws W, !TransportLaws W, !TransportErrors W}.
Context (I : W -> Prop) `{!WorldInv I}.

(** The parts of the stack fit: the service is in a reachable state whose clock
    is not ahead, and the hardware keeps its invariant. *)
Record fits (s : stack W) : Prop := {
  fit_reach : reachable uuid_valid (biz s);
  fit_clock : clock (sh (biz s)) <= now (hw s);
  fit_address : 0 <= drv s;
  fit_world : I (hw s);
}.

(** No call is being served. *)
Record idle (s : stack W) : Prop := {
  idle_fits : fits s;
  idle_done : forall tid p, threads (biz s) !! tid = Some p -> is_done p = true;
}.

(** Only [tid], at [p], is. *)
Record running (tid : nat) (p : pc) (s : stack W) : Prop := {
  run_fits : fits s;
  run_here : threads (biz s) !! tid = Some p;
  run_others : forall t q, threads (biz s) !! t = Some q -> t <> tid -> is_done q = true;
}.

Lemma done_not_critical q : is_done q = true -> critical q = false.
Proof. by destruct q. Qed.

Lemma running_token tid p s : running tid p s -> token (sh (biz s)) = critical p.
Proof.
  intros [[Hreach _ _ _] Hp Ho]. apply reachable_inv in Hreach as [Hg _ _].
  destruct (critical p) eqn:Hk; [by destruct (critical_token _ Hg _ _ Hp Hk)|].
  destruct (token (sh (biz s))) eqn:Ht; [|done].
  destruct (token_critical _ Hg Ht) as (t & q & Hq & Hkq). destruct (decide (t = tid)) as [->|Hne].
  - congruence.
  - rewrite (done_not_critical q) in Hkq; [done|by eapply Ho].
Qed.

(** The goroutine can use what it gets. *)
Lemma answer_runs d p w i w' s :
  next_input BranchToken d p w = Some (i, w') -> is_done p = false -> token s = critical p ->
  exists s' p', run uuid_valid i s p = Some (s', p').
Proof.
  intros Ha Hd Ht.
  destruct p as [c|c t|c t|c wt|c wt st|wt st mj|wt st mj dt|rid ch wt st|rid ch wt st sg|c r|c r|c r];
    cbn [next_input critical fmap option_fmap option_map] in *; try done; simplify_eq.
  - cbn. destruct (enter uuid_valid s c). by eexists _, _.
  - cbn. rewrite Ht. by eexists _, _.
  - by eexists _, _.
  - cbn. destruct (inside s c wt). by eexists _, _.
  - destruct (Driver.ProtocolMajor d None w) as [[[mj|e] w1]|]; simplify_eq; destruct c; by eexists _, _.
  - destruct (ReadCertificate d None w) as [[[dt|e] w1]|]; simplify_eq; by eexists _, _.
  - by eexists _, _.
  - destruct (SignChallenge d None ch w) as [[[sg|e] w1]|]; simplify_eq; by eexists _, _.
  - by eexists _, _.
  - by eexists _, _.
  - cbn. rewrite Ht. by eexists _, _.
Qed.

(** One action, of whichever goroutine. *)
Lemma serve_thread_spec tid b s s2 :
  fits s -> serve_thread tid b s = Some s2 ->
  exists p p', threads (biz s) !! tid = Some p /\ threads (biz s2) = <[tid := p']> (threads (biz s)) /\
    (rank p' < rank p)%nat /\ call_of p' = call_of p /\ drv s2 = drv s /\ fits s2 /\
    now (hw s) <= now (hw s2) /\
    forall e, e ∈ history (sh (biz s)) -> e ∈ history (sh (biz s2)).
Proof.
  intros [Hreach Hclk Haddr HI]. unfold serve_thread.
  destruct (threads (biz s) !! tid) as [p|] eqn:Hp; [|done].
  destruct (answer_safe I b (drv s) p (hw s) Haddr HI) as (i & w & -> & Hle & HI' & Hl).
  destruct (exec _ _ _) as [st|] eqn:Hexec; [|done]. intros [= <-].
  assert (Hlate : clock (sh (biz s)) <= now w) by lia.
  destruct (exec_at (now w) tid i (biz s) st Hreach Hlate Hl Hexec)
    as (q & p' & Hq & Hth & _ & Hrank & Hcall & Hreach' & Hclk' & Hhist).
  rewrite Hp in Hq. injection Hq as <-. exists p, p'. cbn [biz hw drv]. split_and!; try done.
  constructor; cbn [biz hw drv]; (done || lia).
Qed.

(** A goroutine that waits for no other can act. *)
Lemma serve_thread_ready tid p s :
  fits s -> threads (biz s) !! tid = Some p -> is_done p = false -> token (sh (biz s)) = critical p ->
  exists s2, serve_thread tid BranchToken s = Some s2.
Proof.
  intros [Hreach Hclk Haddr HI] Hp Hd Htok.
  destruct (answer_safe I BranchToken (drv s) p (hw s) Haddr HI) as (i & w & Ha & Hle & HI' & Hl).
  destruct (answer_runs (drv s) p (hw s) i w (advance (now w - clock (sh (biz s))) (sh (biz s))) Ha Hd Htok)
    as (s' & p' & Hrun).
  assert (Hlate : clock (sh (biz s)) <= now w) by lia.
  destruct (exec_at_ready (now w) tid i (biz s) p Hlate Hp ltac:(by eexists)) as [st Hst].
  exists (MkStack st (drv s) w). unfold serve_thread. by rewrite Hp, Ha, Hst.
Qed.

(** The only goroutine that is not done can act. *)
Lemma drive_step tid p s :
  running tid p s -> is_done p = false ->
  exists s2 p', serve_thread tid BranchToken s = Some s2 /\
    (rank p' < rank p)%nat /\ call_of p' = call_of p /\ drv s2 = drv s /\ running tid p' s2.
Proof.
  intros Hr Hd. pose proof Hr as [Hf Hp Ho].
  destruct (serve_thread_ready tid p s Hf Hp Hd (running_token tid p s Hr)) as [s2 Hs2].
  destruct (serve_thread_spec _ _ _ _ Hf Hs2) as (q & q' & Hq & Hth & Hrank & Hcall & Hdrv & Hf2 & _).
  rewrite Hp in Hq. injection Hq as <-. exists s2, q'. split_and!; try done. constructor; [done|..]; rewrite Hth.
  - apply lookup_insert_eq.
  - intros t q Hq Hne. rewrite lookup_insert_ne in Hq by done. by eapply Ho.
Qed.

Lemma drive_total fuel : forall tid p s,
  running tid p s -> (rank p < fuel)%nat ->
  exists r s', drive fuel tid s = Some (r, s') /\ running tid (Done (call_of p) r) s' /\ drv s' = drv s.
Proof.
  induction fuel as [|fuel IH]; intros tid p s Hr Hf; [lia|].
  cbn [drive]. rewrite (run_here _ _ _ Hr). destruct (is_done p) eqn:Hd.
  { destruct p; try done. by eexists _, s. }
  destruct (drive_step tid p s Hr Hd) as (s2 & p' & -> & Hrank & Hcall & Hdrv & Hr').
  destruct (IH tid p' _ Hr' ltac:(lia)) as (r & s' & Hdr & Hr'' & Hdrv').
  rewrite Hcall in Hr''. exists r, s'. rewrite <- Hdrv. split; [|done]. by destruct p.
Qed.

(** A new goroutine. *)
Lemma start_thread_spec tid c s :
  fits s -> threads (biz s) !! tid = None ->
  exists s2, start_thread tid c s = Some s2 /\ threads (biz s2) = <[tid := Called c]> (threads (biz s)) /\
    drv s2 = drv s /\ hw s2 = hw s /\ fits s2 /\ history (sh (biz s2)) = history (sh (biz s)).
Proof.
  intros [Hreach Hclk Haddr HI] Hnew.
  destruct (exec_spawn_at (now (hw s)) tid c (biz s) Hreach Hclk Hnew) as (st & Hst & Hth & Hh & _ & Hr & Hc).
  exists (MkStack st (drv s) (hw s)). unfold start_thread. rewrite Hst. split_and!; try done.
  constructor; cbn [biz hw drv]; (done || lia).
Qed.

Lemma running_idle tid c r s : running tid (Done c r) s -> idle s.
Proof.
  intros [Hf Hp Ho]. constructor; [done|]. intros t q Hq.
  destruct (decide (t = tid)) as [->|]; [|by eapply Ho]. by rewrite Hp in Hq; simplify_eq.
Qed.

Lemma idle_token s : idle s -> token (sh (biz s)) = false.
Proof.
  intros [[Hreach _ _ _] Hd]. apply reachable_inv in Hreach as [Hg _ _].
  destruct (token (sh (biz s))) eqn:Ht; [|done]. destruct (token_critical _ Hg Ht) as (t & q & Hq & Hk).
  rewrite (done_not_critical q) in Hk; [done|by eapply Hd].
Qed.

(** A call on an idle stack ends, with a response the service's invariant
    justifies, and leaves the stack idle. *)
Lemma serve_call_total c s : idle s ->
  exists r s', serve_call c s = Some (r, s') /\ idle s' /\ drv s' = drv s /\
    response_ok (history (sh (biz s'))) c r.
Proof.
  intros [Hf Hdone]. unfold serve_call. set (tid := new_thread s).
  assert (Hnew : threads (biz s) !! tid = None) by apply not_elem_of_dom, is_fresh.
  destruct (start_thread_spec tid c s Hf Hnew) as (s1 & -> & Hth & Hdrv1 & _ & Hf1 & _).
  destruct (drive_total 10 tid (Called c) s1) as (r & s' & Hdr & Hr & Hdrv).
  - constructor; [done|..]; rewrite Hth; [apply lookup_insert_eq|].
    intros t q Hq Hne. rewrite lookup_insert_ne in Hq by done. by eapply Hdone.
  - cbn. lia.
  - exists r, s'. split; [done|]. split; [by eapply running_idle|]. split; [by rewrite Hdrv|].
    destruct Hr as [[Hreach' _ _ _] Hp _]. apply reachable_inv in Hreach' as [_ _ Ht]. exact (Ht _ _ Hp).
Qed.

(** The service's operations keep the stack idle. *)
Context `{USBInspector W, !InspectorInv I}.

Lemma fits_world st d w w' :
  fits (MkStack st d w) -> now w <= now w' -> I w' -> fits (MkStack st d w').
Proof. intros [Hr Hc Ha HI] Hle HI'. cbn in *. constructor; cbn; (done || lia). Qed.

Lemma fits_inspect b s :
  fits s -> fits (let '(health, w) := inspectUSB b (hw s) in (health, MkStack (biz s) (drv s) w)).2.
Proof.
  intros Hf. destruct s as [st d w]. pose proof Hf as [_ _ _ HI].
  destruct (world_inspect b w HI) as [HI' Hle]. unfold inspectUSB. cbn [hw biz drv] in *.
  destruct (inspect b w) as [status w']. by eapply fits_world.
Qed.

Lemma idle_inspect b s :
  idle s -> idle (let '(health, w) := inspectUSB b (hw s) in (health, MkStack (biz s) (drv s) w)).2.
Proof.
  intros [Hf Hd]. pose proof (fits_inspect b s Hf) as Hf'. constructor; [done|].
  by destruct (inspectUSB b (hw s)).
Qed.

#[export] Instance stack_service_inv : ServiceInv idle.
Proof.
  constructor.
  - intros s Hs. cbn. destruct (serve_call_total CallCertificate s Hs) as (r & s' & -> & Hi & _). by destruct r.
  - intros id ch s Hs. cbn. destruct (serve_call_total (CallSign id ch) s Hs) as (r & s' & -> & Hi & _). by destruct r.
  - intros s [[Hr Hc Ha HI] Hd]. cbn. destruct (biz s). by constructor; [constructor|].
  - intros s. apply idle_inspect.
  - intros s. apply idle_inspect.
Qed.
End Calls.

(** For the examples. *)
#[export] Instance any_uuid : UUID := length36.
