(* ===== verification/Engine.v ===== *)
(** * The service at work on the CH341 transport

    The goroutines of [Service] with the driver of [DriverProg] and the transport
    of [Ch341Steps] below them: [NewService(driver, ch341)] under concurrent calls.
    A goroutine in a chip operation goes through the driver's code call by call,
    and through each transaction by the transport's own steps, with its two
    mutexes; between any two of these actions other goroutines act, [InspectUSB]
    and [Close] among them, and the device changes.  A pause is one action, at the
    end of which the clock has moved on. *)

From S2P Require Import Prelude Errors Effects Config Usb Codec Ch341 Ch341Prog Ch341Steps Ch341Link Driver DriverProg.
From S2P Require Import Service Health Stack.

Open Scope list_scope.
Open Scope Z_scope.

(** A transaction with its answer: address, bytes written, bytes asked for. *)
Abbreviation transfer := (Z * list Z * Z * result (list Z))%type.

(** [jobs]: what is left of the driver's code of a goroutine in a chip operation.
    [wire] is a ghost: the transactions that have been answered, newest first, with
    the goroutines they were for. *)
Record engine (E : Type) := MkEngine {
  core : state;
  target : Z;
  bus : tstate E;
  jobs : gmap nat (driver_prog input);
  wire : list (nat * transfer);
}.
Arguments MkEngine {E} _ _ _ _ _.
Arguments core {E} _.
Arguments target {E} _.
Arguments bus {E} _.
Arguments jobs {E} _.
Arguments wire {E} _.

Section Engine.
Context {E : Type} `{Clock E, Gousb E, MapOrder, GousbText, UUID}.

Implicit Types g : engine E.

Definition at_time g : Z := now (context (tr (bus g))).
Definition set_core (st : state) g : engine E := MkEngine st (target g) (bus g) (jobs g) (wire g).
Definition set_bus (b : tstate E) g : engine E := MkEngine (core g) (target g) b (jobs g) (wire g).
Definition set_job (k : nat) (m : driver_prog input) g : engine E :=
  MkEngine (core g) (target g) (bus g) (<[k := m]> (jobs g)) (wire g).
Definition end_job (k : nat) g : engine E :=
  MkEngine (core g) (target g) (bus g) (delete k (jobs g)) (wire g).
Definition answered_by (k : nat) (x : transfer) g : engine E :=
  MkEngine (core g) (target g) (bus g) (jobs g) ((k, x) :: wire g).

(** The driver call a goroutine makes at [p], under a context that is never done
    ([context.WithoutCancel]); its result is what the service goes on with. *)
Definition chip_call (d : Z) (p : pc) : option (driver_prog input) :=
  match p with
  | ChipMajor _ _ _ => Some (prog_then (ProtocolMajor_calls d None) (fun r => DDone (InMajor r)))
  | ChipCertificate _ _ _ => Some (prog_then (ReadCertificate_calls d None) (fun r => DDone (InData r)))
  | ChipSign _ challenge _ _ => Some (prog_then (SignChallenge_calls d None challenge) (fun r => DDone (InData r)))
  | _ => None
  end.

(** One action of the service's own code, at the present time. *)
Definition core_run (k : nat) (i : input) g : option (engine E) :=
  match exec uuid_valid [Tick (at_time g - clock (sh (core g))); Run k i] (core g) with
  | Some st => Some (set_core st g)
  | None => None
  end.

(** One action of goroutine [k] in the driver or below. *)
Definition job_step (k : nat) (m : driver_prog input) g : option (engine E) :=
  match m with
  | DDone i => match core_run k i g with Some g => Some (end_job k g) | None => None end
  | DTransaction a data n next =>
      match calls (bus g) !! k with
      | None =>
          match tstep (TSpawn k (TStart a data n)) (bus g) with Some b => Some (set_bus b g) | None => None end
      | Some (TDone r) =>
          match tstep (TReturn k) (bus g) with
          | Some b => Some (answered_by k (a, data, n, r) (set_job k (next r) (set_bus b g)))
          | None => None
          end
      | Some _ => match tstep (TAct k) (bus g) with Some b => Some (set_bus b g) | None => None end
      end
  | DSleep d next =>
      match tstep (TEnv (sleep (Z.of_N d) (context (tr (bus g))))) (bus g) with
      | Some b => Some (set_job k next (set_bus b g))
      | None => None
      end
  | DNow next => Some (set_job k (next (at_time g)) g)
  | DPanic => None
  end.

(** One action of goroutine [k]; [b] is what its [select] chooses. *)
Definition engine_step (k : nat) (b : branch) g : option (engine E) :=
  match threads (core g) !! k with
  | None => None
  | Some p =>
      match chip_call (target g) p with
      | None => core_run k (match p with Acquiring _ _ => InSelect b | _ => InNone end) g
      | Some m => match jobs g !! k with Some m => job_step k m g | None => Some (set_job k m g) end
      end
  end.

(** A call of the service by a new goroutine. *)
Definition engine_start (k : nat) (c : call) g : option (engine E) :=
  match exec uuid_valid [Tick (at_time g - clock (sh (core g))); Spawn k c] (core g) with
  | Some st => Some (set_core st g)
  | None => None
  end.

(** [Health] and [Diagnostics]: one inspection, which waits for [sessionMu]. *)
Definition engine_inspect (includeDeviceStrings : bool) g : option (HealthStatus * engine E) :=
  match sessionMu (mu (bus g)), InspectUSB includeDeviceStrings (tr (bus g)) with
  | None, Some (Ok status, t) =>
      Some (health_of status, set_bus (MkTState t (mu (bus g)) (calls (bus g))) g)
  | _, _ => None
  end.

(** [Close] waits for both mutexes. *)
Definition engine_close g : option (option goerror * engine E) :=
  match mu (bus g), Close (tr (bus g)) with
  | Mutexes None None, Some (Ok err, t) => Some (err, set_bus (MkTState t (mu (bus g)) (calls (bus g))) g)
  | _, _ => None
  end.

(** [Runtime], at the present time. *)
Definition engine_runtime g : RuntimeStatus := Runtime (advance (at_time g - clock (sh (core g))) (sh (core g))).
End Engine.
