(* ===== verification/EngineInv.v ===== *)
(** * The invariant of the engine

    Under any interleaving the service keeps its invariant, the transport its own,
    and what a driver call returns to the service follows from the answers that the
    transport gave to this call.  Every action brings its goroutine closer to its
    end, and while a call is not done, some goroutine can act. *)

From S2P Require Import Prelude Errors Effects Config Usb Codec Ch341 Ch341Prog Ch341Own Ch341Ops Ch341Steps Ch341Inter.
From S2P Require Import Ch341Link Driver DriverProg DriverLive Ch341Errors Service ServiceInv ServiceProps Health Stack.
From S2P Require Import Engine.
From Stdlib Require Import Relation_Operators Lexicographic_Product.

Open Scope list_scope.
Open Scope Z_scope.

#[local] Opaque ProtocolMajor_calls ReadCertificate_calls SignChallenge_calls.

(** ** What is left to do *)

Definition job_below (x y : option (driver_prog input)) : Prop :=
  match x, y with
  | Some _, None => True
  | Some m', Some m => child m' m
  | None, _ => False
  end.

Lemma job_below_wf : well_founded job_below.
Proof.
  assert (Hsome : forall m, Acc job_below (Some m)).
  { intros m. induction (child_wf m) as [m _ IH]. constructor. intros [m'|]; [apply IH|done]. }
  intros [m|]; [done|]. constructor. intros [m|]; done.
Qed.

Section Calls.
Context {E : Type} `{Clock E, Gousb E, MapOrder, GousbText}.

Definition call_below (x y : option (tpc E)) : Prop :=
  match x, y with
  | Some _, None => True
  | Some p', Some p => follows p' p
  | None, _ => False
  end.

Lemma call_below_wf : well_founded call_below.
Proof.
  assert (Hsome : forall p, Acc call_below (Some p)).
  { intros p. induction (follows_wf p) as [p _ IH]. constructor. intros [p'|]; [apply IH|done]. }
  intros [p|]; [done|]. constructor. intros [p|]; done.
Qed.

(** A goroutine's place in the driver's code and in the transport's. *)
Definition place (g : engine E) (k : nat) : option (driver_prog input) * option (tpc E) :=
  (jobs g !! k, calls (bus g) !! k).

Definition place_below := slexprod (option (driver_prog input)) (option (tpc E)) job_below call_below.

Lemma place_below_wf : well_founded place_below.
Proof. apply wf_slexprod; [apply job_below_wf|apply call_below_wf]. Qed.
End Calls.

(** ** The invariant *)

Section Invariant.
Context {E : Type} `{Clock E, Gousb E, UsbHandles E, !ClockLaws E, !GousbLaws E, !GousbErrors E}.
Context `{MapOrder, GousbText, UUID}.

Implicit Types g : engine E.

Definition input_ok (i : input) : Prop := label_ok (Run 0 i) = true.

(** The signature of [rid] and [ch] is what [SignChallenge] makes of the
    transport's answers to it. *)
Definition chip_signed (d : Z) (w : list (nat * transfer)) (ch sig : list Z) : Prop :=
  exists k l, reaches (SignChallenge_calls d None ch) l (DDone (Ok sig)) /\ forall x, x ∈ l -> (k, x) ∈ w.

Record job_ok g (k : nat) (m : driver_prog input) : Prop := {
  j_lives : lives m (at_time g) input_ok;
  j_from : exists p m0 l, threads (core g) !! k = Some p /\ chip_call (target g) p = Some m0 /\ reaches m0 l m /\
    forall x, x ∈ l -> (k, x) ∈ wire g;
}.

Record engine_ok g : Prop := {
  g_reach : reachable uuid_valid (core g);
  g_clock : clock (sh (core g)) <= at_time g;
  g_bus : tinv no_devices (bus g);
  g_calls k p : calls (bus g) !! k = Some p -> transacting p = true /\ call_hw p /\
    exists a data n next, jobs g !! k = Some (DTransaction a data n next);
  g_jobs k m : jobs g !! k = Some m -> job_ok g k m;
  g_signed rid ch sig : EvSigned rid ch sig ∈ history (sh (core g)) -> chip_signed (target g) (wire g) ch sig;
}.

Lemma chip_call_critical d p m : chip_call d p = Some m -> critical p = true.
Proof. by destruct p. Qed.

Lemma chip_call_lives d p m t : chip_call d p = Some m -> lives m t input_ok.
Proof.
  destruct p; try done; intros Hm; apply (inj Some) in Hm as <-.
  - eapply lives_then; [apply ProtocolMajor_settles|]. by intros [mj|e].
  - eapply lives_then; [apply ReadCertificate_settles|]. by intros [mj|e].
  - eapply lives_then; [apply SignChallenge_settles|]. by intros [mj|e].
Qed.

(** Only [SignChallenge]'s return records a signature. *)
Lemma run_signed i s p s' p' rid ch sig :
  run uuid_valid i s p = Some (s', p') -> EvSigned rid ch sig ∈ history s' ->
  EvSigned rid ch sig ∈ history s \/ (exists wt st, p = ChipSign rid ch wt st /\ i = InData (Ok sig)).
Proof.
  intros Hrun Hin.
  destruct p as [c|c t|c t|c wt|c wt st|wt st mj|wt st mj dt|rid' ch' wt st|rid' ch' wt st sg|c r|c r|c r];
    destruct i as [|[| |]|[|]|[|]]; simplify_eq/=; unfold enter, inside in *; repeat case_match; simplify_eq/=; auto;
    apply elem_of_cons in Hin as [Heq|Hin]; auto; simplify_eq. right. by eexists _, _.
Qed.

(** [NewService] on a driver and a transport that nobody uses. *)
Definition engine_new g : Prop :=
  exists t, core g = init t /\ t <= at_time g /\ transport_inv (tr (bus g)) /\ mu (bus g) = unlocked /\
    calls (bus g) = ∅ /\ jobs g = ∅ /\ wire g = [].

Lemma engine_new_ok g : engine_new g -> engine_ok g.
Proof.
  intros (t & Hc & Ht & Hinv & Hm & Hcalls & Hj & _). constructor; rewrite ?Hc, ?Hcalls, ?Hj; cbn; try done.
  - constructor.
  - destruct (bus g) as [tt mm cc]. cbn in *. subst. constructor; cbn; try done. by apply shares_new.
  - by intros rid ch sig ?%elem_of_nil.
Qed.

(** ** One action *)

(** What an action of goroutine [k] does to the rest. *)
Record moved (k : nat) g g' : Prop := {
  m_time : at_time g <= at_time g';
  m_target : target g' = target g;
  m_closed : closed (tr (bus g)) = true -> closed (tr (bus g')) = true;
  m_history e : e ∈ history (sh (core g)) -> e ∈ history (sh (core g'));
  m_wire x : x ∈ wire g -> x ∈ wire g';
  m_threads j : j <> k -> threads (core g') !! j = threads (core g) !! j;
  m_places j : j <> k -> place g' j = place g j;
}.

Lemma job_ok_frame g g' k m : job_ok g k m -> threads (core g') !! k = threads (core g) !! k ->
  at_time g <= at_time g' -> target g' = target g -> (forall x, x ∈ wire g -> x ∈ wire g') -> job_ok g' k m.
Proof.
  intros [Hl (p & m0 & l & Hp & Hc & Hr & Hw)] Hth Ht Hd Hsub. constructor; [by eapply lives_later|].
  exists p, m0, l. rewrite Hth, Hd. split_and!; auto.
Qed.

Lemma chip_signed_frame d w w' ch sig : (forall x, x ∈ w -> x ∈ w') -> chip_signed d w ch sig -> chip_signed d w' ch sig.
Proof. intros Hsub (k & l & Hr & Hw). exists k, l. auto. Qed.

(** The jobs after an action of [k], which has the job [m'] now, or none. *)
Lemma jobs_moved k g g' (mo : option (driver_prog input)) :
  engine_ok g -> moved k g g' -> jobs g' !! k = mo -> (forall m, mo = Some m -> job_ok g' k m) ->
  forall j m, jobs g' !! j = Some m -> job_ok g' j m.
Proof.
  intros Hg [Ht Hd _ _ Hw Hth Hpl] Hk Hok j m Hj. destruct (decide (j = k)) as [->|Hne]; [apply Hok; congruence|].
  specialize (Hpl j Hne). unfold place in Hpl. simplify_eq.
  apply (job_ok_frame g); [apply (g_jobs g Hg); congruence|by apply Hth|done..].
Qed.

(** One action of the service's code. *)
Lemma core_run_spec k i g g' :
  engine_ok g -> input_ok i -> core_run k i g = Some g' ->
  exists p p' s', threads (core g) !! k = Some p /\ g' = set_core (State s' (<[k := p']> (threads (core g)))) g /\
    run uuid_valid i (advance (at_time g - clock (sh (core g))) (sh (core g))) p = Some (s', p') /\
    (rank p' < rank p)%nat /\ call_of p' = call_of p /\ reachable uuid_valid (core g') /\
    clock (sh (core g')) = at_time g /\ (forall e, e ∈ history (sh (core g)) -> e ∈ history s') /\ moved k g g'.
Proof.
  intros Hg Hi. unfold core_run. destruct (exec _ _ _) as [[s' ths]|] eqn:Hexec; [|done]. intros [= <-].
  destruct (exec_at _ _ _ _ _ (g_reach g Hg) (g_clock g Hg) Hi Hexec) as (p & p' & Hp & Hth & Hrun & Hr & Hc & Hre & Hcl & Hh).
  cbn [threads sh] in *. subst ths. exists p, p', s'. split_and!; try done. constructor; cbn; try done.
  intros j Hj. by rewrite lookup_insert_ne.
Qed.

Lemma engine_service k i g g' :
  engine_ok g -> input_ok i -> jobs g !! k = None -> core_run k i g = Some g' ->
  (forall p, threads (core g) !! k = Some p -> chip_call (target g) p = None) ->
  engine_ok g'.
Proof.
  intros Hg Hi Hjob Hrun Hno.
  destruct (core_run_spec k i g g' Hg Hi Hrun) as (p & p' & s' & Hp & -> & Hr & _ & _ & Hre & Hcl & Hh & Hm).
  constructor; cbn; try apply Hg; try done.
  - cbn in Hcl. rewrite Hcl. done.
  - intros j m Hj. eapply (jobs_moved k g _ None); try done.
  - intros rid ch sig Hin. destruct (run_signed _ _ _ _ _ _ _ _ Hr Hin) as [Hin'|(wt & st & -> & _)].
    + cbn in Hin'. by apply (g_signed g Hg rid).
    + by specialize (Hno _ Hp).
Qed.

(** The driver's call returns to the service. *)
Lemma engine_returns k i g g' :
  engine_ok g -> jobs g !! k = Some (DDone i) -> job_step k (DDone i) g = Some g' ->
  engine_ok g' /\ moved k g g' /\
  exists p p', threads (core g) !! k = Some p /\ threads (core g') = <[k := p']> (threads (core g)) /\
    (rank p' < rank p)%nat /\ call_of p' = call_of p.
Proof.
  intros Hg Hjob. cbn [job_step]. pose proof (g_jobs g Hg k _ Hjob) as [Hlive (q & m0 & l & Hq & Hc & Hreach & Hw)].
  destruct (core_run k i g) as [g1|] eqn:Hrun; [|done]. intros [= <-].
  destruct (core_run_spec k i g g1 Hg Hlive Hrun) as (p & p' & s' & Hp & -> & Hr & Hrank & Hcall & Hre & Hcl & Hh & Hm).
  rewrite Hq in Hp. injection Hp as <-.
  set (g2 := end_job k _). assert (Hmoved : moved k g g2).
  { constructor; cbn; try done.
    - intros j Hj. by rewrite lookup_insert_ne.
    - intros j Hj. unfold place. cbn. by rewrite lookup_delete_ne. }
  split; [|split; [done|]; by exists q, p'].
  constructor; cbn; try apply Hg; try done.
  - cbn in Hcl. rewrite Hcl. done.
  - intros j q' Hq'. destruct (g_calls g Hg j q' Hq') as (? & ? & a & data & n & next & Hj). split_and!; [done..|].
    destruct (decide (j = k)) as [->|Hne]; [congruence|]. exists a, data, n, next. by rewrite lookup_delete_ne.
  - apply (jobs_moved k g g2 None); try done. cbn. apply lookup_delete_eq.
  - intros rid ch sig Hin. destruct (run_signed _ _ _ _ _ _ _ _ Hr Hin) as [Hin'|(wt & st & -> & ->)].
    + cbn in Hin'. by apply (g_signed g Hg rid).
    + cbn in Hc. apply (inj Some) in Hc as <-. apply reaches_result in Hreach as (r & Hreach & [= <-]). by exists k, l.
Qed.

(** The driver's code and the transport below it, the service untouched. *)
Lemma engine_working k m g b mo w :
  engine_ok g -> jobs g !! k = Some m -> at_time g <= now (context (tr b)) -> tinv no_devices b ->
  (closed (tr (bus g)) = true -> closed (tr b) = true) ->
  (forall j, j <> k -> calls b !! j = calls (bus g) !! j) ->
  (forall p, calls b !! k = Some p -> transacting p = true /\ call_hw p /\
    exists a data n next, mo = DTransaction a data n next) ->
  (forall x, x ∈ wire g -> x ∈ w) ->
  (forall m0 l, reaches m0 l m -> (forall x, x ∈ l -> (k, x) ∈ wire g) ->
    exists l', reaches m0 l' mo /\ forall x, x ∈ l' -> (k, x) ∈ w) ->
  lives mo (now (context (tr b))) input_ok ->
  let g' := MkEngine (core g) (target g) b (<[k := mo]> (jobs g)) w in engine_ok g' /\ moved k g g'.
Proof.
  intros Hg Hjob Ht Hb Hcl Hother Hcall Hw Hgo Hlive g'.
  assert (Hm : moved k g g').
  { constructor; cbn; try done. intros j Hj. unfold place. cbn. by rewrite lookup_insert_ne, Hother. }
  split; [|done]. constructor; cbn; try done.
  - apply (g_reach g Hg).
  - pose proof (g_clock g Hg). unfold at_time in *. cbn. lia.
  - intros j p Hp. destruct (decide (j = k)) as [->|Hne].
    + rewrite lookup_insert_eq. destruct (Hcall p Hp) as (? & ? & a & data & n & next & ->).
      split_and!; [done..|]. by eexists _, _, _, _.
    + rewrite lookup_insert_ne by done. apply (g_calls g Hg). by rewrite <- Hother.
  - apply (jobs_moved k g g' (Some mo)); [done|done|apply lookup_insert_eq|]. intros m' [= <-].
    destruct (g_jobs g Hg k m Hjob) as [_ (p & m0 & l & Hp & Hc & Hr & Hl)].
    destruct (Hgo m0 l Hr Hl) as (l' & Hr' & Hl'). constructor; [done|]. by exists p, m0, l'.
  - intros rid ch sig Hin. eapply chip_signed_frame; [exact Hw|]. by apply (g_signed g Hg rid).
Qed.

Lemma set_job_same k m g : jobs g !! k = Some m -> set_job k m g = g.
Proof. intros Hm. unfold set_job. rewrite insert_id by done. by destruct g. Qed.

(** An action inside the driver's call. *)
Lemma engine_job k m g g' :
  engine_ok g -> jobs g !! k = Some m -> (forall i, m <> DDone i) -> job_step k m g = Some g' ->
  engine_ok g' /\ moved k g g' /\ threads (core g') = threads (core g) /\ place_below (place g' k) (place g k).
Proof.
  intros Hg Hjob Hnot Hs. pose proof (g_jobs g Hg k m Hjob) as [Hlive Hfrom]. pose proof (g_bus g Hg) as Hb.
  destruct m as [i|a data n next|d next|next|]; cbn [job_step] in Hs; [by destruct (Hnot i)| | | |done].
  - destruct (calls (bus g) !! k) as [p|] eqn:Hp.
    + destruct (g_calls g Hg k p Hp) as (Htr & Hhw & _).
      destruct (finished p) eqn:Hf.
      * assert (exists r, p = TDone r) as [r ->] by (destruct p; try done; by eexists).
        cbn [tstep] in Hs. rewrite Hp in Hs. cbn [finished] in Hs. injection Hs as <-.
        destruct (engine_working k (DTransaction a data n next) g
          (MkTState (tr (bus g)) (mu (bus g)) (delete k (calls (bus g)))) (next r) ((k, (a, data, n, r)) :: wire g))
          as [Hok Hm]; try done; [by eapply tinv_return|..].
        -- intros j Hj. cbn. by rewrite lookup_delete_ne.
        -- intros q. cbn. by rewrite lookup_delete_eq.
        -- intros x Hx. by right.
        -- intros m0 l Hr Hl. exists (l ++ [(a, data, n, r)]). split.
           ++ eapply reaches_app; [exact Hr|]. apply reaches_transaction, reaches_here.
           ++ intros x [Hx|Hx%list_elem_of_singleton]%elem_of_app; [right; by apply Hl|subst x; by left].
        -- apply Hlive; [unfold at_time; cbn; lia|exact Hhw].
        -- split_and!; [done..|]. left. unfold place. cbn. rewrite Hjob, lookup_insert_eq. constructor.
      * assert (Hact : exists b, tstep (TAct k) (bus g) = Some b /\ g' = set_bus b g).
        { destruct p; try done; destruct (tstep (TAct k) (bus g)) as [b|]; simplify_eq; by exists b. }
        destruct Hact as (b & Hact & ->). cbn [tstep] in Hact. rewrite Hp in Hact.
        destruct (act k (tr (bus g)) (mu (bus g)) p) as [[[t m'] p']|] eqn:Ha; [|done]. injection Hact as <-.
        destruct (tinv_act _ _ _ _ _ _ _ Hb Hp Ha) as [[_ _ _ _ _ Htime Hclosed] _].
        destruct (engine_working k (DTransaction a data n next) g
          (MkTState t m' (<[k := p']> (calls (bus g)))) (DTransaction a data n next) (wire g)) as [Hok Hm]; try done.
        -- by eapply tinv_transacting.
        -- intros j Hj. cbn. by rewrite lookup_insert_ne.
        -- intros q. cbn. rewrite lookup_insert_eq. intros [= <-].
           split; [by eapply act_transacting|]. split; [by eapply act_hw|]. by eexists _, _, _, _.
        -- intros m0 l Hr Hl. by exists l.
        -- intros r t' Ht'. apply Hlive. unfold at_time. cbn in *. lia.
        -- rewrite (insert_id (jobs g)) in Hok, Hm by done. split_and!; [done..|].
           right. cbn. rewrite Hp, lookup_insert_eq. by eexists _, _, _, _, _.
    + cbn [tstep starting] in Hs. rewrite Hp in Hs. injection Hs as <-.
      destruct (engine_working k (DTransaction a data n next) g
        (MkTState (tr (bus g)) (mu (bus g)) (<[k := TStart a data n]> (calls (bus g)))) (DTransaction a data n next) (wire g))
        as [Hok Hm]; try done; [by eapply tinv_spawn|..].
      * intros j Hj. cbn. by rewrite lookup_insert_ne.
      * intros q. cbn. rewrite lookup_insert_eq. intros [= <-]. split_and!; [done..|]. by eexists _, _, _, _.
      * intros m0 l Hr Hl. by exists l.
      * rewrite (insert_id (jobs g)) in Hok, Hm by done. split_and!; [done..|].
        right. cbn. by rewrite Hp, lookup_insert_eq.
  - cbn [tstep] in Hs. injection Hs as <-. set (e := sleep _ _).
    assert (He : at_time g + Z.of_N d <= now e) by (apply sleep_advances; lia).
    destruct (engine_working k (DSleep d next) g (MkTState (set_context e (tr (bus g))) (mu (bus g)) (calls (bus g)))
      next (wire g)) as [Hok Hm]; try done.
    + cbn. lia.
    + apply tinv_env; [done|]. apply sleep_same.
    + intros p Hp. destruct (g_calls g Hg k p Hp) as (_ & _ & ? & ? & ? & ? & ?). congruence.
    + intros m0 l Hr Hl. exists l. split; [|done]. rewrite <- (app_nil_r l). eapply reaches_app; [exact Hr|].
      apply reaches_sleep, reaches_here.
    + by apply Hlive.
    + split_and!; [done..|]. left. unfold place. cbn. rewrite Hjob, lookup_insert_eq. constructor.
  - injection Hs as <-.
    destruct (engine_working k (DNow next) g (bus g) (next (at_time g)) (wire g)) as [Hok Hm]; try done.
    + intros p Hp. destruct (g_calls g Hg k p Hp) as (_ & _ & ? & ? & ? & ? & ?). congruence.
    + intros m0 l Hr Hl. exists l. split; [|done]. rewrite <- (app_nil_r l). eapply reaches_app; [exact Hr|].
      eapply reaches_now, reaches_here.
    + by apply Hlive.
    + split_and!; [done..|]. left. unfold place. cbn. rewrite Hjob, lookup_insert_eq. constructor.
Qed.

(** The call of the driver. *)
Lemma engine_begins k p m g :
  engine_ok g -> threads (core g) !! k = Some p -> chip_call (target g) p = Some m -> jobs g !! k = None ->
  engine_ok (set_job k m g) /\ moved k g (set_job k m g) /\ place_below (place (set_job k m g) k) (place g k).
Proof.
  intros Hg Hp Hc Hnone.
  assert (Hm : moved k g (set_job k m g)).
  { constructor; cbn; try done. intros j Hj. unfold place. cbn. by rewrite lookup_insert_ne. }
  split_and!; [|done|left; cbn; by rewrite Hnone, lookup_insert_eq].
  constructor; cbn; try apply Hg.
  - intros j q Hq. destruct (g_calls g Hg j q Hq) as (? & ? & a & data & n & next & Hj). split_and!; [done..|].
    rewrite lookup_insert_ne by congruence. by eexists _, _, _, _.
  - apply (jobs_moved k g (set_job k m g) (Some m)); [done..|apply lookup_insert_eq|]. intros m' [= <-].
    constructor; [by eapply chip_call_lives|]. exists p, m, []. split_and!; [done..|constructor|].
    by intros x ?%elem_of_nil.
Qed.

(** ** The engine's operations *)

Lemma engine_step_spec k b g g' :
  engine_ok g -> engine_step k b g = Some g' ->
  engine_ok g' /\ moved k g g' /\
  ((threads (core g') = threads (core g) /\ place_below (place g' k) (place g k)) \/
   exists p p', threads (core g) !! k = Some p /\ threads (core g') = <[k := p']> (threads (core g)) /\
     (rank p' < rank p)%nat /\ call_of p' = call_of p).
Proof.
  intros Hg. unfold engine_step. destruct (threads (core g) !! k) as [p|] eqn:Hp; [|done].
  destruct (chip_call (target g) p) as [m0|] eqn:Hc.
  - destruct (jobs g !! k) as [m|] eqn:Hj.
    + intros Hs. destruct m as [i| | | |].
      1: { destruct (engine_returns k i g g' Hg Hj Hs) as (? & ? & p0 & p' & ? & ? & ? & ?). split_and!; [done..|].
           right. exists p0, p'. by rewrite Hp in *. }
      all: destruct (engine_job k _ g g' Hg Hj ltac:(done) Hs) as (? & ? & ? & ?); split_and!; [done..|by left].
    + intros [= <-]. destruct (engine_begins k p m0 g Hg Hp Hc Hj) as (? & ? & ?). split_and!; [done..|by left].
  - intros Hs.
    assert (Hno : jobs g !! k = None).
    { destruct (jobs g !! k) as [m|] eqn:Hj; [|done].
      destruct (j_from _ _ _ (g_jobs g Hg k m Hj)) as (q & m0 & l & Hq & Hcq & _). congruence. }
    assert (Hi : input_ok (match p with Acquiring _ _ => InSelect b | _ => InNone end)) by by destruct p.
    destruct (core_run_spec k _ g g' Hg Hi Hs) as (q & p' & s' & Hq & -> & _ & Hrank & Hcall & _ & _ & _ & Hm).
    split_and!; [|done|right; exists q, p'; by rewrite Hp in *].
    eapply engine_service; [done|exact Hi|done|exact Hs|]. intros p0 Hp0. congruence.
Qed.

Lemma engine_thread k b g g' : engine_step k b g = Some g' -> is_Some (threads (core g) !! k).
Proof. unfold engine_step. destruct (threads (core g) !! k) as [p|]; [by exists p|done]. Qed.

(** The device, the library or an inspection, between the actions. *)
Lemma engine_replace t' g :
  engine_ok g -> transport_inv t' -> at_time g <= now (context t') ->
  (forall k p s, calls (bus g) !! k = Some p -> in_use p = Some s -> session (tr (bus g)) = Some s -> session t' = Some s) ->
  engine_ok (set_bus (MkTState t' (mu (bus g)) (calls (bus g))) g).
Proof.
  intros Hg Ht' Hle Hs. pose proof (g_bus g Hg) as Hb. constructor; cbn; try apply Hg.
  - pose proof (g_clock g Hg). unfold at_time. cbn. lia.
  - apply tinv_replace; [done..|]. intros k p s Hp Hu. apply (Hs k p s Hp Hu). by apply (t_session _ _ Hb k p s).
  - intros k m Hj. by apply (job_ok_frame g); [apply (g_jobs g Hg)|..].
Qed.

Lemma engine_change e g :
  engine_ok g -> handles e = handles (context (tr (bus g))) -> at_time g <= now e ->
  engine_ok (set_bus (MkTState (set_context e (tr (bus g))) (mu (bus g)) (calls (bus g))) g).
Proof.
  intros Hg He Hle. apply engine_replace; [done| |done|done].
  apply inv_context; [|done]. apply tinv_transport, Hg.
Qed.

(** What leaves the service, the driver and the transfers alone. *)
Record same_work g g' : Prop := {
  w_core : core g' = core g;
  w_target : target g' = target g;
  w_jobs : jobs g' = jobs g;
  w_calls : calls (bus g') = calls (bus g);
  w_wire : wire g' = wire g;
  w_time : at_time g <= at_time g';
  w_mu : mu (bus g') = mu (bus g);
}.

Lemma engine_inspect_ok b g :
  engine_ok g -> sessionMu (mu (bus g)) = None ->
  exists health g', engine_inspect b g = Some (health, g') /\ engine_ok g' /\ same_work g g' /\
    closed (tr (bus g')) = closed (tr (bus g)).
Proof.
  intros Hg Hmu. unfold engine_inspect. rewrite Hmu.
  destruct (InspectUSB_wp b (tr (bus g)) (tinv_transport _ (g_bus g Hg))) as (r & t & -> & Hle & Ht & _ & Hc & Hs & [status ->]).
  eexists _, _. split; [done|]. split; [|split; [by constructor|done]].
  apply engine_replace; [done..|]. intros k p s Hp Hu. apply Hs.
Qed.

Lemma engine_inspect_spec b g health g' :
  engine_ok g -> engine_inspect b g = Some (health, g') ->
  engine_ok g' /\ same_work g g' /\ closed (tr (bus g')) = closed (tr (bus g)).
Proof.
  intros Hg Hs. assert (Hmu : sessionMu (mu (bus g)) = None).
  { unfold engine_inspect in Hs. by destruct (sessionMu (mu (bus g))). }
  destruct (engine_inspect_ok b g Hg Hmu) as (h & g1 & Heq & ? & ? & ?). by simplify_eq.
Qed.

Lemma engine_close_ok g :
  engine_ok g -> mu (bus g) = unlocked ->
  exists err g', engine_close g = Some (err, g') /\ engine_ok g' /\ same_work g g' /\ closed (tr (bus g')) = true.
Proof.
  intros Hg Hmu. unfold engine_close. rewrite Hmu. cbn [unlocked].
  destruct (Close_wp ∅ (tr (bus g)) (tinv_transport _ (g_bus g Hg))) as (r & t & -> & Hle & [err ->] & Ht & _ & Hc & _).
  eexists _, _. split; [done|]. rewrite <- Hmu. split; [|split; [by constructor|done]].
  apply engine_replace; [done..|]. intros k p s Hp Hu.
  by rewrite (tinv_unlocked _ _ k p (g_bus g Hg) Hp) in Hu by by rewrite Hmu.
Qed.

Lemma engine_start_ok k c g :
  engine_ok g -> threads (core g) !! k = None ->
  exists g', engine_start k c g = Some g' /\ engine_ok g' /\ moved k g g' /\ place g' k = place g k /\
    threads (core g') = <[k := Called c]> (threads (core g)) /\ history (sh (core g')) = history (sh (core g)) /\
    bus g' = bus g.
Proof.
  intros Hg Hnew. unfold engine_start.
  destruct (exec_spawn_at (at_time g) k c (core g) (g_reach g Hg) (g_clock g Hg) Hnew) as (st & -> & Hth & Hh & _ & Hr & Hc).
  assert (Hm : moved k g (set_core st g)).
  { constructor; cbn; try done; [by rewrite Hh|]. intros j Hj. by rewrite Hth, lookup_insert_ne. }
  eexists. split; [done|]. split; [|by split_and!]. constructor; cbn; try apply Hg; try done.
  - rewrite Hc. done.
  - intros j m Hj. destruct (decide (j = k)) as [->|Hne].
    + destruct (j_from _ _ _ (g_jobs g Hg k m Hj)) as (q & m0 & l & Hq & _). congruence.
    + apply (job_ok_frame g); [by apply (g_jobs g Hg)|by apply (m_threads _ _ _ Hm)|done..].
  - rewrite Hh. apply Hg.
Qed.

Lemma moved_refl k g : moved k g g.
Proof. by constructor. Qed.

Lemma same_work_moved k g g' :
  same_work g g' -> closed (tr (bus g')) = closed (tr (bus g)) -> moved k g g'.
Proof.
  intros [Hc Ht Hj Hcalls Hw Htime _] Hcl. constructor; rewrite ?Hc, ?Hw, ?Hcl; try done.
  intros j _. unfold place. by rewrite Hj, Hcalls.
Qed.

(** ** Someone can act *)

(** A goroutine at work in the transport. *)
Lemma bus_acts g k p b :
  engine_ok g -> calls (bus g) !! k = Some p -> is_Some (tstep (TAct k) (bus g)) -> is_Some (engine_step k b g).
Proof.
  intros Hg Hp [b' Hb]. destruct (g_calls g Hg k p Hp) as (_ & _ & a & data & n & next & Hj).
  destruct (j_from _ _ _ (g_jobs g Hg k _ Hj)) as (q & m0 & l & Hq & Hc & _).
  unfold engine_step. rewrite Hq, Hc, Hj. cbn [job_step]. rewrite Hp, Hb.
  assert (Hnd : forall r, p <> TDone r).
  { intros r ->. cbn [tstep] in Hb. by rewrite Hp in Hb. }
  destruct p; try (by eexists). by destruct (Hnd r).
Qed.

(** [k] is not done, and the gate does not hold it up. *)
Lemma engine_acts g k p :
  engine_ok g -> threads (core g) !! k = Some p -> is_done p = false -> token (sh (core g)) = critical p ->
  exists j, is_Some (threads (core g) !! j) /\ is_Some (engine_step j BranchToken g).
Proof.
  intros Hg Hp Hd Htok.
  assert (Hhere : is_Some (engine_step k BranchToken g) ->
    exists j, is_Some (threads (core g) !! j) /\ is_Some (engine_step j BranchToken g)).
  { intros Hk. exists k. split; [by exists p|done]. }
  assert (Hrun : forall i, accepts p i = true -> is_Some (core_run k i g)).
  { intros i Hi. pose proof (accepted_runs uuid_valid i (advance (at_time g - clock (sh (core g))) (sh (core g))) p Hi Htok) as Hr.
    destruct (exec_at_ready (at_time g) k i (core g) p (g_clock g Hg) Hp Hr) as [st Hst].
    unfold core_run. rewrite Hst. by eexists. }
  destruct (chip_call (target g) p) as [m0|] eqn:Hc.
  2: { apply Hhere. unfold engine_step. rewrite Hp, Hc. apply Hrun. by destruct p. }
  destruct (jobs g !! k) as [m|] eqn:Hj.
  2: { apply Hhere. unfold engine_step. rewrite Hp, Hc, Hj. by eexists. }
  pose proof (g_jobs g Hg k m Hj) as [Hlive (q & m1 & l & Hq & Hc1 & Hr & _)].
  destruct m as [i|a data n next|d next|next|]; [| | | |done].
  - apply Hhere. unfold engine_step. rewrite Hp, Hc, Hj. cbn [job_step].
    assert (Ha : accepts p i = true).
    { rewrite Hp in Hq. injection Hq as <-. rewrite Hc in Hc1. injection Hc1 as <-.
      destruct p; try done; apply (inj Some) in Hc; subst m0; by apply reaches_result in Hr as (x & _ & ->). }
    destruct (Hrun i Ha) as [g1 ->]. by eexists.
  - destruct (calls (bus g) !! k) as [c|] eqn:Hcall.
    + destruct (finished c) eqn:Hf.
      * apply Hhere. destruct (g_calls g Hg k c Hcall) as (Htr & _).
        assert (exists r, c = TDone r) as [r ->] by (destruct c; try done; by eexists).
        unfold engine_step. rewrite Hp, Hc, Hj. cbn [job_step tstep]. rewrite Hcall. by eexists.
      * destruct (tinv_goes no_devices (bus g) k c (g_bus g Hg) Hcall Hf) as (j & c' & Hc' & Hact & _). exists j.
        destruct (g_calls g Hg j c' Hc') as (_ & _ & ? & ? & ? & ? & Hjj).
        destruct (j_from _ _ _ (g_jobs g Hg j _ Hjj)) as (pj & _ & _ & Hpj & _).
        split; [by exists pj|]. by eapply bus_acts.
    + apply Hhere. unfold engine_step. rewrite Hp, Hc, Hj. cbn [job_step tstep starting]. rewrite Hcall. by eexists.
  - apply Hhere. unfold engine_step. rewrite Hp, Hc, Hj. cbn [job_step tstep]. by eexists.
  - apply Hhere. unfold engine_step. rewrite Hp, Hc, Hj. by eexists.
Qed.

(** A mutex is held for a while only. *)
Lemma locked_acts g :
  engine_ok g -> mu (bus g) <> unlocked ->
  exists j, has_mutex j (mu (bus g)) /\ is_Some (threads (core g) !! j) /\ forall b, is_Some (engine_step j b g).
Proof.
  intros Hg Hmu. pose proof (g_bus g Hg) as Hb. pose proof Hb as [_ _ [_ Hil] [_ Hml] _].
  assert (Hheld : exists k p, calls (bus g) !! k = Some p /\ finished p = false).
  { destruct (mu (bus g)) as [[k|] [k'|]] eqn:Heq; cbn in *.
    - destruct (Hil k eq_refl) as (p & Hp & Hh). exists k, p. split; [done|by destruct p].
    - destruct (Hil k eq_refl) as (p & Hp & Hh). exists k, p. split; [done|by destruct p].
    - destruct (Hml k' eq_refl) as (p & Hp & Hh). exists k', p. split; [done|by destruct p].
    - done. }
  destruct Hheld as (k & p & Hp & Hf).
  destruct (tinv_goes no_devices (bus g) k p Hb Hp Hf) as (j & q & Hq & Hact & [?|Hhas]); [done|]. exists j.
  destruct (g_calls g Hg j q Hq) as (_ & _ & ? & ? & ? & ? & Hjj).
  destruct (j_from _ _ _ (g_jobs g Hg j _ Hjj)) as (pj & _ & _ & Hpj & _).
  split_and!; [done|by exists pj|]. intros b. by eapply bus_acts.
Qed.
End Invariant.
