(* ===== verification/Machine.v ===== *)
(** * The service on the CH341 transport

    The transport keeps its invariant under everything the driver and the handlers
    do, so the stack of [Stack] can stand on it.  For the examples there is a small
    authentication chip behind a bridge. *)

From S2P Require Import Prelude Errors Config Stream Effects Usb Ch341 Ch341Ops Ch341Link Ch341Errors Bus Bridge.
From S2P Require Import BridgeLaws Ch341Props Ch341Steps Driver Service ServiceProps Health Stack Engine EngineInv.

Open Scope string_scope.
Open Scope list_scope.
Open Scope Z_scope.

Section Machine.
Context {E : Type} `{Clock E, Gousb E, UsbHandles E, !ClockLaws E, !GousbLaws E, !GousbErrors E}.
Context `{MapOrder, GousbText}.

#[export] Instance transport_world : WorldInv (W := Ch341Transport E) transport_inv.
Proof.
  constructor.
  - intros d t _ Hinv. apply (inv_context t); [done|]. apply sleep_same.
  - intros a wr n t Hinv. cbn. by destruct (transact_wp t a wr n Hinv) as (r & t' & -> & _ & ? & _).
Qed.

#[export] Instance transport_inspector : InspectorInv (W := Ch341Transport E) transport_inv.
Proof.
  constructor. intros b t Hinv. cbn.
  by destruct (InspectUSB_wp b t Hinv) as (r & t' & -> & Hle & Hinv' & _ & _ & _ & [status ->]).
Qed.
End Machine.

(** ** A chip, for the examples

    It answers reads from a table of registers, and takes every write for done. *)
Record toy_chip := ToyChip { chip_phase : nat; chip_register : Z; chip_reply : list Z }.

Definition chip_table (register : Z) : list Z :=
  if register =? protocolMajorRegister then [3]
  else if register =? authControlStatusRegister then [authSuccessStatus]
  else if register =? responseLengthRegister then [0; 3]
  else if register =? responseDataRegister then [0xa1; 0xa2; 0xa3]
  else if register =? certificateLengthRegister then [0; 4]
  else if register =? certificateDataRegister then [0xc1; 0xc2; 0xc3; 0xc4]
  else [].

#[export] Instance toy_slave : Slave toy_chip := {
  answer ev c :=
    match ev, chip_phase c with
    | BusStart, _ | BusStop, _ => (0, ToyChip 0 (chip_register c) [])
    | BusWrite v, O =>
        if Z.testbit v 0 then (0, ToyChip 3 (chip_register c) (chip_table (chip_register c)))
        else (0, ToyChip 1 (chip_register c) [])
    | BusWrite v, S O => (0, ToyChip 2 v [])
    | BusWrite _, _ => (0, c)
    | BusRead _, _ =>
        match chip_reply c with
        | [] => (0, c)
        | b :: rest => (b, ToyChip (chip_phase c) (chip_register c) rest)
        end
    end;
}.

Definition toy_transport (faults : list (option fault)) : Ch341Transport (host toy_chip) :=
  MkCh341 (Host 0 ∅ faults [] (ToyChip 0 0 []) [bridge_desc; hub_desc]) [MkUSBID 0x1a86 0x5512] 100 None false.

Definition toy_stack (faults : list (option fault)) : stack (Ch341Transport (host toy_chip)) :=
  MkStack (init 0) 0x11 (toy_transport faults).

Lemma toy_fits faults : fits transport_inv (toy_stack faults).
Proof. constructor; [constructor|done|done|]. by apply no_session_inv. Qed.

(** The same for concurrent calls. *)
Definition toy_engine (faults : list (option fault)) : engine (host toy_chip) :=
  MkEngine (init 0) 0x11 (MkTState (toy_transport faults) unlocked ∅) ∅ [].

Lemma toy_new faults : engine_new (toy_engine faults).
Proof. by exists 0. Qed.

Example toy_certificate :
  exists t, ReadCertificate 0x11 None (toy_transport []) = Some (Ok [0xc1; 0xc2; 0xc3; 0xc4], t).
Proof. eexists. by vm_compute. Qed.

Example toy_signature :
  exists t, SignChallenge 0x11 None [1; 2; 3] (toy_transport []) = Some (Ok [0xa1; 0xa2; 0xa3], t).
Proof. eexists. by vm_compute. Qed.
