(* ===== verification/Site.v ===== *)
(** * The HTTP server under concurrent requests

    [net/http] serves every request in a goroutine of its own.  A request runs
    its handler until the handler asks the service for something; a call of the
    service goes on as a goroutine of [Engine], action by action through the
    service, the driver and the transport, while other requests run; then the
    handler ends, and [observe] writes the log line and adds the entry of the
    recent list, which are one action (the two mutexes of the code are not held
    together, and nothing reads both).  A handler asks for one thing at most, so
    its two halves are the handler run twice: once to find the question, once with
    the answer.  An inspection of the devices is one action of its request;
    [Ch341Steps] has its calls one by one. *)

From S2P Require Import Prelude Errors Effects Config Usb Codec Ch341 Ch341Steps Ch341Link Driver.
From S2P Require Import Service ServiceInv ServiceProps Recent SignRequest Health Http HttpInv Stack Engine.

Open Scope string_scope.
Open Scope list_scope.
Open Scope Z_scope.

(** ** The service as an oracle *)

Inductive question := AskService (c : call) | AskReset | AskHealth | AskDiagnostics.

Inductive reply :=
  | GotService (r : response)
  | GotReset (err : option goerror)
  | GotHealth (health : HealthStatus)
  | GotDiagnostics (health : HealthStatus).

(** What a handler sees: the time, [Runtime], the answer if there is one; and
    what it asked. *)
Record oracle := MkOracle {
  o_now : Z;
  o_runtime : RuntimeStatus;
  o_reply : option reply;
  o_asked : option question;
}.

Definition ask (q : question) (o : oracle) : oracle := MkOracle (o_now o) (o_runtime o) (o_reply o) (Some q).

#[export] Instance oracle_clock : Clock oracle := { now := o_now; sleep _ o := o }.

Definition no_health : HealthStatus := MkHealth "" "" "" [].

#[export] Instance oracle_service : BizService oracle := {
  svc_Certificate o :=
    (match o_reply o with Some (GotService (RCertificate r)) => r | _ => Err panicked end, ask (AskService CallCertificate) o);
  svc_Sign requestID challenge o :=
    (match o_reply o with Some (GotService (RSign r)) => r | _ => Err panicked end,
     ask (AskService (CallSign requestID challenge)) o);
  svc_Reset o := (match o_reply o with Some (GotReset err) => err | _ => None end, ask AskReset o);
  svc_Health o := (match o_reply o with Some (GotHealth h) => h | _ => no_health end, ask AskHealth o);
  svc_Diagnostics o := (match o_reply o with Some (GotDiagnostics h) => h | _ => no_health end, ask AskDiagnostics o);
  svc_Runtime o := o_runtime o;
}.

(** ** Requests in progress *)

(** What [probeChip] logs. *)
Inductive probe_log := StartupProbeFailed (err : goerror) | StartupProbeSucceeded (protocolMajor : Z).

(** [Calling] and [Probing]: in the goroutine of [Service] with the same number. *)
Inductive conn :=
  | Accepted (r : request)
  | Started (r : request) (started : Z)
  | Asking (r : request) (started : Z) (q : question)
  | Calling (r : request) (started : Z)
  | Answered (r : request) (started : Z) (a : reply)
  | Returned (r : request) (started : Z) (w : statusRecorder) (s : requestState)
  | Finished (r : request) (w : statusRecorder)
  | Probing
  | Probed (outcome : probe_log).

Definition served (c : conn) : bool := match c with Finished _ _ | Probed _ => true | _ => false end.

(** [trail] is a ghost: the entries added to the recent list, newest first, with
    the requests they are for. *)
Record site (E : Type) := MkSite {
  parts : engine E;
  conns : gmap nat conn;
  lines : list log_entry;
  ring : recentStore;
  trail : list (nat * RecentRequest);
}.
Arguments MkSite {E} _ _ _ _ _.
Arguments parts {E} _.
Arguments conns {E} _.
Arguments lines {E} _.
Arguments ring {E} _.
Arguments trail {E} _.

Section Site.
Context {E : Type} `{Clock E, Gousb E, MapOrder, GousbText, TimeText, UUID}.
Context (bearerToken : string) (startedAt : Z) (other : handler (W := oracle)).

Implicit Types st : site E.

Definition set_conn (k : nat) (c : conn) st : site E :=
  MkSite (parts st) (<[k := c]> (conns st)) (lines st) (ring st) (trail st).
Definition set_parts (g : engine E) st : site E := MkSite g (conns st) (lines st) (ring st) (trail st).
Definition set_lines (l : list log_entry) st : site E := MkSite (parts st) (conns st) l (ring st) (trail st).

(** The exchange of a request, with what the site has at this time. *)
Definition exchange_at (a : option reply) (w : statusRecorder) (s : requestState) st : exchange oracle :=
  MkExchange (MkOracle (at_time (parts st)) (engine_runtime (parts st)) a None) w s (lines st) (ring st).

Definition run_handler (r : request) (a : option reply) st : option (exchange oracle) :=
  mux bearerToken startedAt other r (exchange_at a new_recorder (MkRequestState "" "" 0 0) st).

(** The handler has returned. *)
Definition return_handler (k : nat) (r : request) (started : Z) (x : exchange oracle) st : site E :=
  set_conn k (Returned r started (writer x) (rstate x)) (set_lines (log x) st).

(** What is answered at once. *)
Definition answer_now (q : question) (g : engine E) : option (reply * engine E) :=
  match q with
  | AskService _ => None
  | AskReset =>
      let '(err, s) := Reset (sh (core g)) in Some (GotReset err, set_core (State s (threads (core g))) g)
  | AskHealth => match engine_inspect false g with Some (health, g) => Some (GotHealth health, g) | None => None end
  | AskDiagnostics =>
      match engine_inspect true g with Some (health, g) => Some (GotDiagnostics health, g) | None => None end
  end.

(** The entry [conclude] makes at the time [t]. *)
Definition entry_of (r : request) (started : Z) (w : statusRecorder) (s : requestState) (t : Z) : RecentRequest :=
  recent_entry (rfc3339_millis t) (req_Method r) (req_Path r) (statusOrOK w) (t - started)
    (if String.eqb (note s) "" then defaultNote (rec_status w) else note s).

(** One action of the goroutine of request [k]; [b] is what its
    [select] chooses. *)
Definition conn_step (k : nat) (b : branch) st : option (site E) :=
  match conns st !! k with
  | Some (Accepted r) => Some (set_conn k (Started r (at_time (parts st))) st)
  | Some (Started r started) =>
      match run_handler r None st with
      | None => None
      | Some x =>
          match o_asked (svc x) with
          | None => Some (return_handler k r started x st)
          | Some (AskService c) =>
              match engine_start k c (parts st) with
              | Some s => Some (set_conn k (Calling r started) (set_parts s st))
              | None => None
              end
          | Some q => Some (set_conn k (Asking r started q) st)
          end
      end
  | Some (Asking r started q) =>
      match answer_now q (parts st) with
      | Some (a, s) => Some (set_conn k (Answered r started a) (set_parts s st))
      | None => None
      end
  | Some (Calling r started) =>
      match threads (core (parts st)) !! k with
      | Some (Done _ response) => Some (set_conn k (Answered r started (GotService response)) st)
      | _ =>
          match engine_step k b (parts st) with
          | Some s => Some (set_parts s st)
          | None => None
          end
      end
  | Some (Answered r started a) =>
      match run_handler r (Some a) st with
      | Some x => Some (return_handler k r started x st)
      | None => None
      end
  | Some (Returned r started w s) =>
      match conclude r started (exchange_at None w s st) with
      | None => None
      | Some x =>
          Some (MkSite (parts st) (<[k := Finished r w]> (conns st)) (log x) (recent x)
            (if isBusinessPath (req_Path r)
             then (k, entry_of r started w s (at_time (parts st))) :: trail st
             else trail st))
      end
  | Some Probing =>
      match threads (core (parts st)) !! k with
      | Some (Done _ (RProbe (Ok major))) => Some (set_conn k (Probed (StartupProbeSucceeded major)) st)
      | Some (Done _ (RProbe (Err err))) => Some (set_conn k (Probed (StartupProbeFailed err)) st)
      | _ =>
          match engine_step k b (parts st) with
          | Some s => Some (set_parts s st)
          | None => None
          end
      end
  | Some (Finished _ _) | Some (Probed _) | None => None
  end.

Inductive site_label :=
  | Accept (k : nat) (r : request)
  | Probe (k : nat)
  | Go (k : nat) (b : branch)
  | Change (e : E).

Definition fresh_conn (k : nat) st : bool :=
  match conns st !! k, threads (core (parts st)) !! k with None, None => true | _, _ => false end.

Definition site_step (l : site_label) st : option (site E) :=
  match l with
  | Accept k r => if fresh_conn k st then Some (set_conn k (Accepted r) st) else None
  | Probe k =>
      if fresh_conn k st then
        match engine_start k CallProbe (parts st) with
        | Some s => Some (set_conn k Probing (set_parts s st))
        | None => None
        end
      else None
  | Go k b => conn_step k b st
  | Change e =>
      match tstep (TEnv e) (bus (parts st)) with
      | Some b => Some (set_parts (set_bus b (parts st)) st)
      | None => None
      end
  end.

Fixpoint site_run (ls : list site_label) st : option (site E) :=
  match ls with
  | [] => Some st
  | l :: ls => match site_step l st with Some st => site_run ls st | None => None end
  end.
End Site.
Arguments site_label : clear implicits.
