(* ===== verification/SiteInv.v ===== *)
(** * The invariant of concurrent requests

    What a request asks the service is a function of the request alone; what it
    answers is justified by what the service has done.  The invariant of [Site]'s
    reachable states carries the service's invariant through every interleaving
    of requests. *)

From S2P Require Import Prelude Errors Text Effects Codec Ch341 Ch341Link Driver Service ServiceInv ServiceProps.
From S2P Require Import Recent SignRequest Health Http HttpInv HttpProps Stack Site.

Open Scope string_scope.
Open Scope list_scope.
Open Scope Z_scope.

(** ** What a request asks *)

Definition sign_question (r : request) : option question :=
  match decodeJSON (req_Body r) with
  | None => None
  | Some q =>
      if String.eqb (RequestID q) "" || String.eqb (Challenge q) "" then None
      else
        match base64_DecodeString (Challenge q) with
        | None => None
        | Some challenge => Some (AskService (CallSign (RequestID q) challenge))
        end
  end.

Definition reset_question (r : request) : option question :=
  if (maximumRequestBodyBytes <? len (req_Body r))
     || negb (bool_decide (trim_bytes (req_Body r) = bytes_of_string "{}"))
  then None else Some AskReset.

Definition at_method (r : request) (method : string) (q : option question) : option question :=
  if String.eqb (req_Method r) method then q else None.

Definition with_token (bearerToken : string) (r : request) (allowQueryToken : bool) (q : option question)
    : option question :=
  if String.eqb bearerToken "" || authorized bearerToken r allowQueryToken then q else None.

Definition question_of (bearerToken : string) (r : request) : option question :=
  if String.eqb (req_Path r) "/mfi/certificate"
  then with_token bearerToken r false (at_method r "GET" (Some (AskService CallCertificate)))
  else if String.eqb (req_Path r) "/mfi/sign"
  then with_token bearerToken r false (at_method r "POST" (sign_question r))
  else if String.eqb (req_Path r) "/mfi/reset"
  then with_token bearerToken r false (at_method r "POST" (reset_question r))
  else if String.eqb (req_Path r) "/debug/usb"
  then with_token bearerToken r true (at_method r "GET" (Some AskDiagnostics))
  else at_method r "GET" (Some AskHealth).

Section Questions.
Context `{GousbText, TimeText}.

Abbreviation X := (exchange oracle).

#[export] Instance oracle_inv : ServiceInv (W := oracle) (fun _ => True).
Proof. by constructor. Qed.

Lemma service_error_asked r err (x : X) : svc (writeServiceError r err x) = svc x.
Proof. unfold writeServiceError. by destruct (serviceErrorResponse err) as [[? ?] ?]. Qed.

(** Nothing asked so far. *)
Definition unasked (x : X) : Prop := o_asked (svc x) = None.

(** A handler that asks [q]. *)
Definition asks (h : handler (W := oracle)) (r : request) (q : option question) : Prop :=
  forall x y, unasked x -> h r x = Some y -> o_asked (svc y) = q.

Lemma method_asks r method k q :
  (forall x y, unasked x -> k x = Some y -> o_asked (svc y) = q) ->
  asks (fun r => requireMethod r method k) r (at_method r method q).
Proof.
  intros Hk x y Hx. unfold requireMethod, at_method. destruct (String.eqb _ _); [by apply Hk|by intros [= <-]].
Qed.

Lemma certificate_asks r : asks handleCertificate r (at_method r "GET" (Some (AskService CallCertificate))).
Proof.
  apply (method_asks r "GET"). intros x y Hx. cbn [svc_Certificate oracle_service].
  set (res := match o_reply _ with Some _ => _ | None => _ end).
  destruct res; intros [= <-]; [done|by rewrite service_error_asked].
Qed.

Lemma sign_asks r : asks handleSign r (at_method r "POST" (sign_question r)).
Proof.
  apply (method_asks r "POST"). intros x y Hx. unfold sign_question.
  destruct (decodeJSON (req_Body r)) as [q|]; [|by intros [= <-]].
  destruct (String.eqb (RequestID q) ""); [by intros [= <-]|]. cbn [orb].
  destruct (String.eqb (Challenge q) ""); [by intros [= <-]|].
  destruct (base64_DecodeString (Challenge q)) as [ch|]; [|by intros [= <-]].
  cbn [svc_Sign oracle_service]. set (res := match o_reply _ with Some _ => _ | None => _ end).
  destruct res; intros [= <-]; [done|by rewrite service_error_asked].
Qed.

Lemma reset_asks r : asks handleReset r (at_method r "POST" (reset_question r)).
Proof.
  apply (method_asks r "POST"). intros x y Hx. unfold reset_question.
  destruct (_ || _); [by intros [= <-]|]. cbn [svc_Reset oracle_service].
  set (res := match o_reply _ with Some _ => _ | None => _ end).
  destruct res; intros [= <-]; [by rewrite service_error_asked|done].
Qed.

Lemma health_asks r : asks handleHealth r (at_method r "GET" (Some AskHealth)).
Proof. apply (method_asks r "GET"). intros x y Hx. by intros [= <-]. Qed.

Lemma debug_asks startedAt r : asks (handleDebug startedAt) r (at_method r "GET" (Some AskDiagnostics)).
Proof.
  apply (method_asks r "GET"). intros x y Hx. cbn [svc_Diagnostics oracle_service].
  destruct (listNewestFirst _); [|done]. by destruct (acceptsJSON r); intros [= <-].
Qed.

Lemma auth_asks token h allow r q : asks h r q -> asks (withAuth token h allow) r (with_token token r allow q).
Proof.
  intros Hh x y Hx. unfold withAuth, with_token. destruct (String.eqb token ""); [by apply Hh|]. cbn [orb].
  destruct (authorized _ _ _); [by apply Hh|]. by destruct (_ && _); intros [= <-].
Qed.

Lemma mux_asks token startedAt other r :
  known_path (req_Path r) = true -> asks (mux token startedAt other) r (question_of token r).
Proof.
  intros Hp x y Hx. unfold mux, question_of, known_path, isBusinessPath in *.
  destruct (String.eqb _ "/mfi/certificate"); [by apply auth_asks; [apply certificate_asks|]|].
  destruct (String.eqb _ "/mfi/sign"); [by apply auth_asks; [apply sign_asks|]|].
  destruct (String.eqb _ "/mfi/reset"); [by apply auth_asks; [apply reset_asks|]|].
  destruct (String.eqb _ "/debug/usb"); [by apply auth_asks; [apply debug_asks|]|].
  destruct (String.eqb _ "/healthz"); [by apply health_asks|done].
Qed.

(** ** What it answers *)

(** The response [w], with status 200, is [v] for the answer [a] to [q]. *)
Inductive good_reply (q : option question) (a : option reply) (v : json) : Prop :=
  | good_sign rid ch s : q = Some (AskService (CallSign rid ch)) -> a = Some (GotService (RSign (Ok s))) ->
      v = signature_json s -> good_reply q a v
  | good_certificate c : q = Some (AskService CallCertificate) -> a = Some (GotService (RCertificate (Ok c))) ->
      v = certificateResponse c -> good_reply q a v
  | good_reset : q = Some AskReset -> v = detail "" -> good_reply q a v.

Definition replies (q : option question) (a : option reply) (w : statusRecorder) : Prop :=
  exists status v, json_response w status v /\ (status = StatusOK -> good_reply q a v).

Lemma refusal_replies q a status d n (x : X) :
  unsent (writer x) -> status <> 0 -> status <> StatusOK ->
  replies q a (writer (writeJSON status (detail d) (set_note n x))).
Proof. intros Hu Hz Hs. exists status, (detail d). split; [by apply writeJSON_response|done]. Qed.

Lemma service_error_replies q a r err (x : X) : unsent (writer x) -> replies q a (writer (writeServiceError r err x)).
Proof.
  intros Hu. pose proof (writeServiceError_response r err x Hu) as Hw.
  destruct (serviceErrorResponse err) as [[status d] n] eqn:He. destruct Hw as [Hw _].
  exists status, (detail d). split; [done|]. intros ->. apply serviceErrorResponse_range in He as [Hin _].
  repeat (apply elem_of_cons in Hin as [[=]|Hin]). by apply elem_of_nil in Hin.
Qed.

Definition handler_replies (h : handler (W := oracle)) (r : request) (q : option question) : Prop :=
  forall x y, unsent (writer x) -> h r x = Some y -> replies q (o_reply (svc x)) (writer y).

Lemma method_replies r method k q :
  (forall x y, unsent (writer x) -> k x = Some y -> replies q (o_reply (svc x)) (writer y)) ->
  handler_replies (fun r => requireMethod r method k) r (at_method r method q).
Proof.
  intros Hk x y Hx. unfold requireMethod, at_method. destruct (String.eqb _ _); [by apply Hk|].
  intros [= <-]. by apply refusal_replies; [destruct Hx as (? & ? & ?)|..].
Qed.

Lemma certificate_replies r :
  handler_replies handleCertificate r (at_method r "GET" (Some (AskService CallCertificate))).
Proof.
  apply (method_replies r "GET"). intros x y Hx. cbn [svc_Certificate oracle_service].
  destruct (o_reply (svc x)) as [[[[c|err]|[s|err]|p]|e|hl|hl]|]; intros [= <-]; try by apply service_error_replies.
  eexists StatusOK, _. split; [by apply writeJSON_response|]. intros _. by eapply good_certificate.
Qed.

Lemma sign_replies r : handler_replies handleSign r (at_method r "POST" (sign_question r)).
Proof.
  apply (method_replies r "POST"). intros x y Hx. unfold sign_question.
  destruct (decodeJSON (req_Body r)) as [q|]; [|intros [= <-]; by apply refusal_replies].
  destruct (String.eqb (RequestID q) ""); [intros [= <-]; by apply refusal_replies|]. cbn [orb].
  destruct (String.eqb (Challenge q) ""); [intros [= <-]; by apply refusal_replies|].
  destruct (base64_DecodeString (Challenge q)) as [ch|]; [|intros [= <-]; by apply refusal_replies].
  cbn [svc_Sign oracle_service svc on_state set_requestID].
  destruct (o_reply (svc x)) as [[[[c|err]|[s|err]|p]|e|hl|hl]|]; intros [= <-]; try by apply service_error_replies.
  eexists StatusOK, _. split; [by apply writeJSON_response|]. intros _. by eapply good_sign.
Qed.

Lemma reset_replies r : handler_replies handleReset r (at_method r "POST" (reset_question r)).
Proof.
  apply (method_replies r "POST"). intros x y Hx. unfold reset_question.
  destruct (_ || _); [intros [= <-]; by apply refusal_replies|]. cbn [svc_Reset oracle_service].
  set (res := match o_reply _ with Some _ => _ | None => _ end).
  destruct res; intros [= <-]; [by apply service_error_replies|].
  eexists StatusOK, _. split; [by apply writeJSON_response|]. intros _. by apply good_reset.
Qed.

Lemma auth_replies token h r q :
  handler_replies h r q -> handler_replies (withAuth token h false) r (with_token token r false q).
Proof.
  intros Hh x y Hx. unfold withAuth, with_token. destruct (String.eqb token ""); [by apply Hh|]. cbn [orb].
  destruct (authorized _ _ _); [by apply Hh|]. intros [= <-]. by apply refusal_replies.
Qed.

Lemma mux_replies token startedAt other r :
  isBusinessPath (req_Path r) = true -> handler_replies (mux token startedAt other) r (question_of token r).
Proof.
  intros Hp x y Hx. unfold mux, question_of, isBusinessPath in *.
  destruct (String.eqb _ "/mfi/certificate"); [by apply auth_replies; [apply certificate_replies|]|].
  destruct (String.eqb _ "/mfi/sign"); [by apply auth_replies; [apply sign_replies|]|].
  destruct (String.eqb _ "/mfi/reset"); [by apply auth_replies; [apply reset_replies|]|done].
Qed.
End Questions.
