(* ===== verification/SiteProps.v ===== *)
(** * Concurrent requests are served correctly

    Invariants of the reachable states of [Site], and the properties of the
    server that serves any number of requests at once. *)

From S2P Require Import Prelude Errors Effects Config Usb Codec Ch341 Ch341Ops Ch341Steps Ch341Link Ch341Errors.
From S2P Require Import Driver DriverProg Service ServiceInv ServiceProps.
From S2P Require Import Recent SignRequest Health Http HttpInv HttpProps Stack Engine EngineInv Site SiteInv.
From Stdlib Require Import Relation_Operators Lexicographic_Product.

Open Scope string_scope.
Open Scope list_scope.
Open Scope Z_scope.

(** ** The invariant *)

Definition immediate (q : question) : bool := match q with AskService _ => false | _ => true end.

(** An answer that the service has given for [q]. *)
Definition reply_ok (h : list event) (q : question) (a : reply) : Prop :=
  match q, a with
  | AskService c, GotService response => response_ok h c response
  | AskReset, GotReset _ | AskHealth, GotHealth _ | AskDiagnostics, GotDiagnostics _ => True
  | _, _ => False
  end.

Definition answered (h : list event) (q : option question) (a : option reply) : Prop :=
  match q, a with
  | Some q, Some a => reply_ok h q a
  | None, None => True
  | _, _ => False
  end.

(** No goroutine of the service is at work for a request. *)
Definition at_rest (th : option pc) : Prop := match th with Some p => is_done p = true | None => True end.

(** An entry of the recent list for a request and its response. *)
Definition entry_for (e : RecentRequest) (r : request) (w : statusRecorder) : Prop :=
  Method e = req_Method r /\ Path e = req_Path r /\ Status e = statusOrOK w.

(** The request's entry is in the recent list. *)
Definition recorded (c : option conn) : bool :=
  match c with Some (Finished r _) => isBusinessPath (req_Path r) | _ => false end.

Section Invariant.
Context `{GousbText, TimeText} (bearerToken : string).

Definition responded (h : list event) (r : request) (w : statusRecorder) : Prop :=
  exists a, answered h (question_of bearerToken r) a /\
    (isBusinessPath (req_Path r) = true -> replies (question_of bearerToken r) a w).

Definition conn_ok (h : list event) (th : option pc) (c : conn) : Prop :=
  match c with
  | Accepted r | Started r _ => known_path (req_Path r) = true /\ th = None
  | Asking r _ q =>
      known_path (req_Path r) = true /\ th = None /\ question_of bearerToken r = Some q /\ immediate q = true
  | Calling r _ =>
      known_path (req_Path r) = true /\
      exists p, th = Some p /\ question_of bearerToken r = Some (AskService (call_of p))
  | Answered r _ a =>
      known_path (req_Path r) = true /\ at_rest th /\ answered h (question_of bearerToken r) (Some a)
  | Returned r _ w _ | Finished r w => known_path (req_Path r) = true /\ at_rest th /\ responded h r w
  | Probing => exists p, th = Some p /\ call_of p = CallProbe
  | Probed _ => at_rest th
  end.

Lemma conn_ok_mono h h' th c : (forall e, e ∈ h -> e ∈ h') -> conn_ok h th c -> conn_ok h' th c.
Proof.
  intros Hsub.
  assert (Hans : forall q a, answered h q a -> answered h' q a).
  { intros [[c0| | |]|] [[r|e|hl|hl]|]; cbn; try done. by apply response_ok_mono. }
  destruct c; cbn; try done.
  - intros (? & ? & ?). auto.
  - intros (? & ? & a & ? & ?). split_and!; [done..|]. exists a. auto.
  - intros (? & ? & a & ? & ?). split_and!; [done..|]. exists a. auto.
Qed.
End Invariant.

Section Reach.
Context {E : Type} `{Clock E, Gousb E, UsbHandles E, !ClockLaws E, !GousbLaws E, !GousbErrors E}.
Context `{MapOrder, GousbText, TimeText, UUID}.
Context (bearerToken : string) (startedAt : Z) (other : handler (W := oracle)).

Abbreviation site := (site E).
Implicit Types (st : site) (g : engine E).

Record site_inv st : Prop := {
  v_engine : engine_ok (parts st);
  v_ring : represents (ring st) (map snd (trail st));
  v_conns k c : conns st !! k = Some c ->
    conn_ok bearerToken (history (sh (core (parts st)))) (threads (core (parts st)) !! k) c;
  v_threads k p : threads (core (parts st)) !! k = Some p -> is_Some (conns st !! k);
  v_once : NoDup (map fst (trail st));
  v_all k : recorded (conns st !! k) = true <-> k ∈ map fst (trail st);
  v_trail k e : (k, e) ∈ trail st -> exists r w, conns st !! k = Some (Finished r w) /\ entry_for e r w;
}.

(** The trail after a step of request [k] to [c]. *)
Definition trail_after (k : nat) (c : conn) (tl : list (nat * RecentRequest)) st : Prop :=
  match c with
  | Finished r w =>
      if isBusinessPath (req_Path r) then exists e, tl = (k, e) :: trail st /\ entry_for e r w else tl = trail st
  | _ => tl = trail st
  end.

(** A request changes its own part only. *)
Lemma site_inv_update k c g l rg tl st :
  site_inv st -> (forall r w, conns st !! k <> Some (Finished r w)) -> engine_ok g -> moved k (parts st) g ->
  conn_ok bearerToken (history (sh (core g))) (threads (core g) !! k) c ->
  represents rg (map snd tl) -> trail_after k c tl st ->
  site_inv (MkSite g (<[k := c]> (conns st)) l rg tl).
Proof.
  intros [Hf Hr Hc Ht Hnd Hall Htr] Hold Hs [_ _ _ Hh _ Hother _] Hok Hrep Htl.
  assert (Hgone : k ∉ map fst (trail st)).
  { rewrite <- Hall. destruct (conns st !! k) as [[]|] eqn:Hk; try done. by destruct (Hold r w). }
  assert (Htl' : (recorded (Some c) = false /\ tl = trail st) \/
    exists r w e, c = Finished r w /\ recorded (Some c) = true /\ tl = (k, e) :: trail st /\ entry_for e r w).
  { destruct c; try (left; by split). cbn in Htl |- *. destruct (isBusinessPath (req_Path r)); [|by left].
    destruct Htl as (e & -> & He). right. by exists r, w, e. }
  constructor; cbn; [done|done|..].
  - intros j c' [[<- <-]|[Hne Hj]]%lookup_insert_Some; [done|].
    rewrite Hother by done. eapply conn_ok_mono; [exact Hh|]. by apply Hc.
  - intros j p Hj. destruct (decide (j = k)) as [->|Hne]; [rewrite lookup_insert_eq; by eexists|].
    rewrite lookup_insert_ne by done. rewrite Hother in Hj by done. by eapply Ht.
  - destruct Htl' as [[_ ->]|(r & w & e & _ & _ & -> & _)]; [done|]. cbn. by apply NoDup_cons.
  - intros j. destruct (decide (j = k)) as [->|Hne].
    + rewrite lookup_insert_eq.
      destruct Htl' as [[-> ->]|(r & w & e & _ & -> & -> & _)]; [by split|]. cbn. split; [by left|done].
    + rewrite lookup_insert_ne by done. rewrite Hall.
      destruct Htl' as [[_ ->]|(r & w & e & _ & _ & -> & _)]; [done|]. cbn.
      rewrite elem_of_cons. split; [by right|]. by intros [|].
  - intros j e Hin.
    assert (Hin' : (j, e) ∈ trail st \/ exists r w, j = k /\ c = Finished r w /\ entry_for e r w).
    { destruct Htl' as [[_ ->]|(r & w & e0 & Hcf & _ & -> & He)]; [by left|].
      apply elem_of_cons in Hin as [[= -> ->]|Hin]; [right; by exists r, w|by left]. }
    destruct Hin' as [Hin'|(r & w & -> & -> & He)]; [|exists r, w; by rewrite lookup_insert_eq].
    destruct (decide (j = k)) as [->|Hne]; [|rewrite lookup_insert_ne by done; by apply Htr].
    destruct Hgone. change k with (fst (k, e)). by apply list_elem_of_fmap_2.
Qed.

(** The handler on a request in progress. *)
Lemma run_handler_spec r a st :
  site_inv st -> known_path (req_Path r) = true ->
  exists x, run_handler bearerToken startedAt other r a st = Some x /\
    o_asked (svc x) = question_of bearerToken r /\
    (isBusinessPath (req_Path r) = true -> replies (question_of bearerToken r) a (writer x)).
Proof.
  intros Hinv Hp. unfold run_handler. set (x0 := exchange_at a _ _ st).
  destruct (mux_kept (fun _ => True) bearerToken startedAt other r x0 (map snd (trail st)) Hp ltac:(done) (v_ring st Hinv))
    as (x & Hx & _ & _).
  exists x. split; [done|]. split; [exact (mux_asks bearerToken startedAt other r Hp x0 x eq_refl Hx)|].
  intros Hb. by apply (mux_replies bearerToken startedAt other r Hb x0 x).
Qed.

Lemma answer_now_spec k q g a g' :
  engine_ok g -> answer_now q g = Some (a, g') ->
  engine_ok g' /\ moved k g g' /\ core g' = core g /\ place g' k = place g k /\ forall h, reply_ok h q a.
Proof.
  intros Hg. assert (Hinspect : forall b h g1, engine_inspect b g = Some (h, g1) ->
    engine_ok g1 /\ moved k g g1 /\ core g1 = core g /\ place g1 k = place g k).
  { intros b h g1 Hi. destruct (engine_inspect_spec b g h g1 Hg Hi) as (Hg1 & Hw & Hc). split; [done|].
    split; [by apply same_work_moved|]. destruct Hw as [? _ Hj Hcalls _ _ _]. unfold place. by rewrite Hj, Hcalls. }
  destruct q; cbn [answer_now Reset]; [done|..].
  - intros [= <- <-]. destruct g as [[s ths] d b js w]. split_and!; done.
  - destruct (engine_inspect false g) as [[h g1]|] eqn:Hi; [|done]. intros [= <- <-].
    destruct (Hinspect _ _ _ Hi) as (? & ? & ? & ?). by split_and!.
  - destruct (engine_inspect true g) as [[h g1]|] eqn:Hi; [|done]. intros [= <- <-].
    destruct (Hinspect _ _ _ Hi) as (? & ? & ? & ?). by split_and!.
Qed.

Lemma conclude_site k r rstarted w s st :
  represents (ring st) (map snd (trail st)) ->
  exists x, conclude r rstarted (exchange_at None w s st) = Some x /\
    represents (recent x) (map snd (if isBusinessPath (req_Path r)
      then (k, entry_of r rstarted w s (at_time (parts st))) :: trail st else trail st)).
Proof.
  intros Hr. unfold conclude. destruct (isBusinessPath (req_Path r)); [|by eexists].
  cbn [recent add_log exchange_at]. set (e := recent_entry _ _ _ _ _ _).
  destruct (add_represents (ring st) _ e Hr) as (s' & -> & Hr' & _). eexists. split; [done|]. exact Hr'.
Qed.

(** ** What is left to do for a request *)

Definition weight (th : option pc) (c : conn) : nat :=
  match c with
  | Accepted _ => 15 | Started _ _ => 14
  | Calling _ _ => 3 + match th with Some p => rank p | None => 0 end
  | Asking _ _ _ => 3 | Answered _ _ _ => 2 | Returned _ _ _ _ => 1 | Finished _ _ => 0
  | Probing => 1 + match th with Some p => rank p | None => 0 end
  | Probed _ => 0
  end.

(** The service's code first, then the driver's, then the transport's. *)
Definition measure : Type := nat * (option (driver_prog input) * option (tpc E)).
Definition measure_below : measure -> measure -> Prop := slexprod _ _ lt place_below.

Lemma measure_below_wf : well_founded measure_below.
Proof. apply wf_slexprod; [apply lt_wf|apply place_below_wf]. Qed.

Definition measure_of g (k : nat) (c : conn) : measure := (weight (threads (core g) !! k) c, place g k).
Definition measures st : gmap nat measure := map_imap (fun k c => Some (measure_of (parts st) k c)) (conns st).

(** What an action does for the others. *)
Record site_moved st st' : Prop := {
  sm_time : at_time (parts st) <= at_time (parts st');
  sm_target : target (parts st') = target (parts st);
  sm_closed : closed (tr (bus (parts st))) = true -> closed (tr (bus (parts st'))) = true;
}.

Lemma measures_down k c0 c g l rg tl st :
  conns st !! k = Some c0 -> moved k (parts st) g ->
  measure_below (measure_of g k c) (measure_of (parts st) k c0) ->
  at_key measure_below (measures (MkSite g (<[k := c]> (conns st)) l rg tl)) (measures st).
Proof.
  intros Hk [_ _ _ _ _ Hth Hpl] Hlt. eexists k, _, _. split_and!; [|exact Hlt|].
  - unfold measures. by rewrite map_lookup_imap, Hk.
  - apply map_eq. intros j. unfold measures. rewrite map_lookup_imap. cbn.
    destruct (decide (j = k)) as [->|Hne]; [by rewrite !lookup_insert_eq|].
    rewrite !lookup_insert_ne, map_lookup_imap by done. destruct (conns st !! j); [|done].
    cbn. unfold measure_of. by rewrite Hth, Hpl.
Qed.

Definition stepped st st' : Prop :=
  site_inv st' /\ site_moved st st' /\ at_key measure_below (measures st') (measures st).

Lemma site_update k c0 c g l rg tl st :
  site_inv st -> conns st !! k = Some c0 -> (forall r w, c0 <> Finished r w) -> engine_ok g -> moved k (parts st) g ->
  conn_ok bearerToken (history (sh (core g))) (threads (core g) !! k) c ->
  represents rg (map snd tl) -> trail_after k c tl st ->
  measure_below (measure_of g k c) (measure_of (parts st) k c0) ->
  stepped st (MkSite g (<[k := c]> (conns st)) l rg tl).
Proof.
  intros Hinv Hk Hnf Hg Hm Hok Hrep Htl Hlt. split_and!; [|by destruct Hm|by eapply measures_down].
  apply site_inv_update; try done. intros r w Hf. rewrite Hk in Hf. injection Hf as ->. by destruct (Hnf r w).
Qed.

(** A step of a request that leaves the service alone. *)
Lemma site_conn k c0 c l st :
  site_inv st -> conns st !! k = Some c0 -> (forall r w, c0 <> Finished r w) -> (forall r w, c <> Finished r w) ->
  conn_ok bearerToken (history (sh (core (parts st)))) (threads (core (parts st)) !! k) c ->
  (weight (threads (core (parts st)) !! k) c < weight (threads (core (parts st)) !! k) c0)%nat ->
  stepped st (set_conn k c (set_lines l st)).
Proof.
  intros Hinv Hk Hnf Hnf' Hok Hlt.
  apply (site_update k c0 c (parts st) l (ring st) (trail st) st); try done.
  - apply Hinv.
  - apply Hinv.
  - destruct c as [| | | | | |r w| |]; try done. by destruct (Hnf' r w).
  - by left.
Qed.

Lemma set_lines_same st : set_lines (lines st) st = st.
Proof. by destruct st. Qed.

Lemma site_conn' k c0 c st :
  site_inv st -> conns st !! k = Some c0 -> (forall r w, c0 <> Finished r w) -> (forall r w, c <> Finished r w) ->
  conn_ok bearerToken (history (sh (core (parts st)))) (threads (core (parts st)) !! k) c ->
  (weight (threads (core (parts st)) !! k) c < weight (threads (core (parts st)) !! k) c0)%nat ->
  stepped st (set_conn k c st).
Proof. intros. rewrite <- (set_lines_same st) at 2. by apply (site_conn k c0). Qed.

(** A step of a request that changes the service. *)
Lemma site_parts k c0 c g st :
  site_inv st -> conns st !! k = Some c0 -> (forall r w, c0 <> Finished r w) -> (forall r w, c <> Finished r w) ->
  engine_ok g -> moved k (parts st) g ->
  conn_ok bearerToken (history (sh (core g))) (threads (core g) !! k) c ->
  (weight (threads (core g) !! k) c < weight (threads (core (parts st)) !! k) c0)%nat ->
  stepped st (set_conn k c (set_parts g st)).
Proof.
  intros Hinv Hk Hnf Hnf' Hg Hm Hok Hlt.
  apply (site_update k c0 c g (lines st) (ring st) (trail st) st); try done.
  - apply Hinv.
  - destruct c as [| | | | | |r w| |]; try done. by destruct (Hnf' r w).
  - by left.
Qed.

(** The goroutine of request [k] acts in the service or below. *)
Lemma site_engine k b g c st :
  site_inv st -> conns st !! k = Some c -> (forall r w, c <> Finished r w) -> engine_step k b (parts st) = Some g ->
  (forall p p', threads (core (parts st)) !! k = Some p -> call_of p' = call_of p ->
    conn_ok bearerToken (history (sh (core g))) (Some p') c) ->
  (forall p p', threads (core (parts st)) !! k = Some p -> (rank p' < rank p)%nat ->
    (weight (Some p') c < weight (Some p) c)%nat) ->
  stepped st (set_parts g st).
Proof.
  intros Hinv Hk Hnf Hs Hok Hw.
  destruct (engine_step_spec k b _ _ (v_engine st Hinv) Hs) as (Hg & Hm & Hcase).
  replace (set_parts g st) with (MkSite g (<[k := c]> (conns st)) (lines st) (ring st) (trail st))
    by (rewrite insert_id by done; done).
  destruct (engine_thread k b _ _ Hs) as [p Hp].
  apply (site_update k c); try done.
  - destruct Hcase as [[Hth _]|(q & p' & Hq & Hth & _ & Hcall)].
    + rewrite Hth, Hp. by eapply Hok.
    + rewrite Hth, lookup_insert_eq. by apply (Hok q).
  - apply Hinv.
  - destruct c as [| | | | | |r w| |]; try done. by destruct (Hnf r w).
  - unfold measure_of. destruct Hcase as [[Hth Hpl]|(q & p' & Hq & Hth & Hrank & _)].
    + rewrite Hth. by right.
    + left. rewrite Hth, lookup_insert_eq, Hq. by apply (Hw q).
Qed.

Lemma conn_step_spec k b st st' :
  site_inv st -> conn_step bearerToken startedAt other k b st = Some st' -> stepped st st'.
Proof.
  intros Hinv. pose proof Hinv as [Hg Hr Hc Ht _ _ _]. unfold conn_step.
  destruct (conns st !! k) as [c|] eqn:Hk; [|done]. pose proof (Hc k c Hk) as Hok.
  destruct c as [r|r t|r t q|r t|r t a|r t w s|r w| |o]; try done; cbn [conn_ok] in Hok.
  - intros [= <-]. apply (site_conn' k (Accepted r)); try done. cbn. lia.
  - destruct Hok as [Hp Hth]. destruct (run_handler_spec r None st Hinv Hp) as (x & -> & Hasked & Hrep).
    destruct (o_asked (svc x)) as [[c| | |]|].
    + destruct (engine_start_ok k c (parts st) Hg Hth) as (g & -> & Hg' & Hm & _ & Hths & Hh & _).
      intros [= <-]. apply (site_parts k (Started r t)); try done.
      * split; [done|]. exists (Called c). by rewrite Hths, lookup_insert_eq.
      * rewrite Hths, lookup_insert_eq. cbn. lia.
    + intros [= <-]. apply (site_conn' k (Started r t)); try done. cbn. lia.
    + intros [= <-]. apply (site_conn' k (Started r t)); try done. cbn. lia.
    + intros [= <-]. apply (site_conn' k (Started r t)); try done. cbn. lia.
    + intros [= <-]. apply (site_conn k (Started r t)); try done; [|cbn; lia]. split; [done|]. rewrite Hth. split; [done|].
      exists None. by rewrite <- Hasked in *.
  - destruct Hok as (Hp & Hth & Hq & Hi). destruct (answer_now q (parts st)) as [[a g]|] eqn:Ha; [|done].
    destruct (answer_now_spec k q _ _ _ Hg Ha) as (Hg' & Hm & Hcore & _ & Hrep). intros [= <-].
    apply (site_parts k (Asking r t q)); rewrite ?Hcore; try done.
    + split; [done|]. rewrite Hth, Hq. split; [done|apply Hrep].
    + cbn. lia.
  - destruct Hok as (Hp & p & Hth & Hq).
    assert (Hgo : forall g, engine_step k b (parts st) = Some g -> stepped st (set_parts g st)).
    { intros g Hs. apply (site_engine k b g (Calling r t)); try done; [|cbn; intros; lia].
      intros p0 p' Hp0 Hcall. split; [done|]. exists p'. split; [done|]. rewrite Hcall. congruence. }
    rewrite Hth. destruct p as [| | | | | | | | | | |c response];
      try (destruct (engine_step k b (parts st)) as [g|]; [|done]; intros [= <-]; by apply Hgo).
    intros [= <-]. apply (site_conn' k (Calling r t)); try done; [|rewrite Hth; cbn; lia].
    rewrite Hth. split; [done|]. split; [done|].
    rewrite Hq. destruct (reachable_inv _ _ (g_reach _ Hg)) as [_ _ Hpc]. exact (Hpc _ _ Hth).
  - destruct Hok as (Hp & Hrest & Hans). destruct (run_handler_spec r (Some a) st Hinv Hp) as (x & -> & _ & Hrep).
    intros [= <-]. apply (site_conn k (Answered r t a)); try done; [|cbn; lia]. split; [done|]. split; [done|].
    by exists (Some a).
  - destruct (conclude_site k r t w s st Hr) as (x & -> & Hrx). intros [= <-].
    apply (site_update k (Returned r t w s)); try done; [|left; cbn; lia].
    unfold trail_after. destruct (isBusinessPath (req_Path r)); [|done]. by eexists.
  - destruct Hok as (p & Hth & Hcall).
    assert (Hgo : forall g, engine_step k b (parts st) = Some g -> stepped st (set_parts g st)).
    { intros g Hs. apply (site_engine k b g Probing); try done; [|cbn; intros; lia].
      intros p0 p' Hp0 Hcall'. exists p'. split; [done|]. rewrite Hcall'. congruence. }
    rewrite Hth. destruct p as [| | | | | | | | | | |c [rc|rs|[major|err]]];
      try (destruct (engine_step k b (parts st)) as [g|]; [|done]; intros [= <-]; by apply Hgo);
      intros [= <-]; apply (site_conn' k Probing); try done; rewrite ?Hth; try done; cbn; lia.
Qed.
(** ** Reachable states *)

(** Requests come on the server's paths; what the device does by itself leaves the
    program's handles alone, and time does not go back. *)
Definition label_allowed (l : site_label E) st : Prop :=
  match l with
  | Accept _ r => known_path (req_Path r) = true
  | Change e => handles e = handles (context (tr (bus (parts st)))) /\ at_time (parts st) <= now e
  | _ => True
  end.

Inductive site_reach : site -> Prop :=
  | site_new g rg : engine_new g -> represents rg [] -> site_reach (MkSite g ∅ [] rg [])
  | site_next st l st' : site_reach st -> label_allowed l st ->
      site_step bearerToken startedAt other l st = Some st' -> site_reach st'.

Lemma fresh_conn_spec k st : fresh_conn k st = true -> conns st !! k = None /\ threads (core (parts st)) !! k = None.
Proof. unfold fresh_conn. by destruct (conns st !! k), (threads _ !! k). Qed.

(** Something outside the requests. *)
Lemma site_inv_parts g st :
  site_inv st -> engine_ok g -> core g = core (parts st) -> site_inv (set_parts g st).
Proof. intros [Hg Hr Hc Ht Ho Ha Htr] Hg' Hcore. constructor; cbn; rewrite ?Hcore; done. Qed.

Lemma site_step_spec l st st' :
  site_inv st -> label_allowed l st -> site_step bearerToken startedAt other l st = Some st' ->
  site_inv st' /\ site_moved st st'.
Proof.
  intros Hinv Hl. pose proof Hinv as [Hg Hr Hc Ht Ho Ha Htr]. destruct l as [k r|k|k b|e]; cbn [site_step].
  - destruct (fresh_conn k st) eqn:Hfr; [|done]. apply fresh_conn_spec in Hfr as [Hk Hth]. intros [= <-].
    split; [|done].
    apply (site_inv_update k (Accepted r) (parts st) (lines st) (ring st) (trail st) st); try done. by rewrite Hk.
  - destruct (fresh_conn k st) eqn:Hfr; [|done]. apply fresh_conn_spec in Hfr as [Hk Hth].
    destruct (engine_start_ok k CallProbe (parts st) Hg Hth) as (g & -> & Hg' & Hm & _ & Hths & Hh & _).
    intros [= <-]. split; [|by destruct Hm].
    apply (site_inv_update k Probing g (lines st) (ring st) (trail st) st); try done; [by rewrite Hk|].
    exists (Called CallProbe). by rewrite Hths, lookup_insert_eq.
  - intros Hs. by destruct (conn_step_spec k b st st' Hinv Hs) as (? & ? & _).
  - intros [= <-]. destruct Hl as [He Hle]. split; [|by constructor]. apply site_inv_parts; [done| |done].
    by apply engine_change.
Qed.

Lemma site_reach_inv st : site_reach st -> site_inv st.
Proof.
  induction 1 as [g rg Hnew Hr|st l st' _ IH Hl Hs]; [|by eapply site_step_spec].
  assert (Hth : threads (core g) = ∅) by by destruct Hnew as (t & -> & _).
  constructor; cbn; try done; [by apply engine_new_ok|..].
  - intros k p Hp. by rewrite Hth, lookup_empty in Hp.
  - apply NoDup_nil_2.
  - intros k. rewrite lookup_empty. cbn. split; [done|]. by intros ?%elem_of_nil.
  - by intros k e ?%elem_of_nil.
Qed.

(** ** Every request comes to its end *)

Definition site_goes st' st : Prop := exists k b, site_step bearerToken startedAt other (Go k b) st = Some st'.

(** The same without a time-out and without a cancellation. *)
Definition site_runs st' st : Prop := exists k, site_step bearerToken startedAt other (Go k BranchToken) st = Some st'.

Lemma site_runs_goes st' st : site_runs st' st -> site_goes st' st.
Proof. intros [k Hs]. by exists k, BranchToken. Qed.

Lemma site_goes_wf st : site_inv st -> Acc site_goes st.
Proof.
  remember (measures st) as m eqn:Hm. revert st Hm.
  induction (at_key_wf measure_below m measure_below_wf) as [m _ IH]. intros st -> Hinv.
  constructor. intros st' (k & b & Hs). cbn [site_step] in Hs.
  destruct (conn_step_spec k b st st' Hinv Hs) as (Hinv' & _ & Hdown). by eapply IH.
Qed.

(** A goroutine of the service acts for its request. *)
Lemma engine_runs j st :
  site_inv st -> is_Some (threads (core (parts st)) !! j) -> is_Some (engine_step j BranchToken (parts st)) ->
  exists st', site_step bearerToken startedAt other (Go j BranchToken) st = Some st'.
Proof.
  intros Hinv [p Hp] [g Hs]. destruct (v_threads st Hinv j p Hp) as [c Hj].
  pose proof (v_conns st Hinv j c Hj) as Hok. rewrite Hp in Hok.
  assert (Hnd : is_done p = false).
  { destruct p as [| | | | | | | | | | |c0 r]; try done. exfalso.
    unfold engine_step in Hs. rewrite Hp in Hs. cbn [chip_call] in Hs.
    destruct (core_run_spec j InNone _ _ (v_engine st Hinv) eq_refl Hs) as (q & p' & s' & Hq & _ & _ & Hrank & _).
    rewrite Hp in Hq. injection Hq as <-. cbn in Hrank. lia. }
  cbn [site_step]. unfold conn_step. rewrite Hj. destruct c as [r|r t|r t q|r t|r t a|r t w s|r w| |o]; cbn [conn_ok] in Hok.
  - by destruct Hok.
  - by destruct Hok.
  - by destruct Hok as (_ & ? & _).
  - rewrite Hp, Hs. destruct p; try done; by eexists.
  - destruct Hok as (_ & Hrest & _). cbn in Hrest. congruence.
  - destruct Hok as (_ & Hrest & _). cbn in Hrest. congruence.
  - destruct Hok as (_ & Hrest & _). cbn in Hrest. congruence.
  - rewrite Hp, Hs. destruct p; try done; by eexists.
  - cbn in Hok. congruence.
Qed.

Lemma some_runs j st :
  (exists st', site_step bearerToken startedAt other (Go j BranchToken) st = Some st') -> exists st', site_runs st' st.
Proof. intros [st' Hs]. by exists st', j. Qed.

(** A request that does not wait for the gate. *)
Lemma conn_ready k c st :
  site_inv st -> conns st !! k = Some c -> served c = false ->
  (forall p, threads (core (parts st)) !! k = Some p -> is_done p = false -> token (sh (core (parts st))) = critical p) ->
  exists st', site_runs st' st.
Proof.
  intros Hinv Hk Hns Htok. pose proof Hinv as [Hg Hr Hc Ht _ _ _]. pose proof (Hc k c Hk) as Hok.
  assert (Hhere : is_Some (conn_step bearerToken startedAt other k BranchToken st) -> exists st', site_runs st' st).
  { intros [st' Hs]. by exists st', k. }
  assert (Hwork : forall p, threads (core (parts st)) !! k = Some p -> is_done p = false -> exists st', site_runs st' st).
  { intros p Hp Hd. destruct (engine_acts (parts st) k p Hg Hp Hd (Htok p Hp Hd)) as (j & Hj & Hs).
    by apply (some_runs j), engine_runs. }
  unfold conn_step in Hhere. rewrite Hk in Hhere.
  destruct c as [r|r t|r t q|r t|r t a|r t w s|r w| |o]; try done; cbn [conn_ok] in Hok.
  - apply Hhere. by eexists.
  - destruct Hok as [Hp Hth]. destruct (run_handler_spec r None st Hinv Hp) as (x & Hx & _). rewrite Hx in Hhere.
    destruct (o_asked (svc x)) as [[c| | |]|]; try (apply Hhere; by eexists).
    destruct (engine_start_ok k c (parts st) Hg Hth) as (g & Heq & _). rewrite Heq in Hhere. apply Hhere. by eexists.
  - destruct Hok as (_ & _ & _ & Hi).
    assert (Hinspect : forall b, (forall h g, engine_inspect b (parts st) = Some (h, g) -> exists st', site_runs st' st) ->
      exists st', site_runs st' st).
    { intros b Hgo. destruct (sessionMu (mu (bus (parts st)))) as [j|] eqn:Hmu.
      - destruct (locked_acts (parts st) Hg) as (j' & _ & Hj & Hs); [|by apply (some_runs j'), engine_runs].
        intros Heq. by rewrite Heq in Hmu.
      - destruct (engine_inspect_ok b (parts st) Hg Hmu) as (h & g & Heq & _). by eapply Hgo. }
    destruct q; [done| | |].
    + apply Hhere. cbn. by eexists.
    + apply (Hinspect false). intros h g Heq. apply Hhere. cbn [answer_now]. rewrite Heq. by eexists.
    + apply (Hinspect true). intros h g Heq. apply Hhere. cbn [answer_now]. rewrite Heq. by eexists.
  - destruct Hok as (_ & p & Hth & _). destruct (is_done p) eqn:Hd; [|by apply (Hwork p)].
    rewrite Hth in Hhere. apply Hhere. destruct p; try done; by eexists.
  - destruct Hok as (Hp & _). destruct (run_handler_spec r (Some a) st Hinv Hp) as (x & Hx & _).
    rewrite Hx in Hhere. apply Hhere. by eexists.
  - destruct (conclude_site k r t w s st Hr) as (x & Hx & _). rewrite Hx in Hhere. apply Hhere. by eexists.
  - destruct Hok as (p & Hth & Hcall). destruct (is_done p) eqn:Hd; [|by apply (Hwork p)].
    rewrite Hth in Hhere. apply Hhere. destruct p as [| | | | | | | | | | |c resp]; try done. cbn in Hcall. subst c.
    destruct (reachable_inv _ _ (g_reach _ Hg)) as [_ _ Hpc]. specialize (Hpc _ _ Hth).
    destruct resp as [|?|[?|?]]; try done; by eexists.
Qed.

(** While a request is unanswered, some request can go on: the owner of the gate,
    or whoever waits for it. *)
Lemma site_progress k c st :
  site_inv st -> conns st !! k = Some c -> served c = false -> exists st', site_runs st' st.
Proof.
  intros Hinv Hk Hns. pose proof Hinv as [Hg Hr Hc Ht _ _ _].
  destruct (reachable_inv _ _ (g_reach _ Hg)) as [Hgate _ _].
  destruct (token (sh (core (parts st)))) eqn:Htok.
  - destruct (token_critical _ Hgate Htok) as (k2 & q & Hq & Hcrit). destruct (Ht k2 q Hq) as [c2 Hk2].
    pose proof (Hc k2 c2 Hk2) as Hok. rewrite Hq in Hok.
    apply (conn_ready k2 c2); [done|done| |intros p Hp _; rewrite Hq in Hp; injection Hp as <-; by rewrite Hcrit].
    destruct c2; try done; cbn in Hok; exfalso; [destruct Hok as (_ & Hrest & _)|]; by destruct q.
  - apply (conn_ready k c); try done. intros p Hp Hd. rewrite Htok.
    destruct (critical p) eqn:Hcrit; [|done]. destruct (critical_token _ Hgate _ _ Hp Hcrit). congruence.
Qed.

Lemma site_goes_reach st st' : site_reach st -> site_goes st' st -> site_reach st'.
Proof. intros Hr (k & b & Hs). by eapply (site_next st (Go k b)). Qed.
End Reach.
