(* ===== verification/SiteClaims.v ===== *)
(** * What the server promises under concurrent requests

    Successful responses are justified by what the service and the chip have done,
    the recent list holds what was answered, and every request is answered. *)

From S2P Require Import Prelude Errors Effects Config Usb Codec Ch341 Ch341Ops Ch341Steps Ch341Link Ch341Errors.
From S2P Require Import Bus Bridge BridgeLaws Ch341Props Driver DriverProg DriverLive.
From S2P Require Import Service ServiceInv ServiceProps Recent SignRequest Health Http HttpInv HttpProps.
From S2P Require Import Stack Engine EngineInv Machine Site SiteInv SiteProps.

Open Scope string_scope.
Open Scope list_scope.
Open Scope Z_scope.

(** ** What a question says of its request *)

Lemma with_token_some bearerToken r allow q q' :
  with_token bearerToken r allow q = Some q' ->
  (bearerToken = "" \/ authorized bearerToken r allow = true) /\ q = Some q'.
Proof.
  unfold with_token. destruct (String.eqb_spec bearerToken ""); [by auto|]. cbn [orb].
  destruct (authorized _ _ _); by auto.
Qed.

Lemma at_method_some r method q q' :
  at_method r method q = Some q' -> req_Method r = method /\ q = Some q'.
Proof. unfold at_method. by destruct (String.eqb_spec (req_Method r) method). Qed.

Lemma sign_question_some r q :
  sign_question r = Some q ->
  exists body challenge, decodeJSON (req_Body r) = Some body /\
    base64_DecodeString (Challenge body) = Some challenge /\ q = AskService (CallSign (RequestID body) challenge).
Proof.
  unfold sign_question. destruct (decodeJSON (req_Body r)) as [body|]; [|done].
  destruct (_ || _); [done|]. destruct (base64_DecodeString (Challenge body)) as [challenge|] eqn:Hb; [|done].
  intros [= <-]. by exists body, challenge.
Qed.

(** The response of a request with status 200 comes from a good reply. *)
Lemma replied_ok q a w : replies q a w -> rec_status w = StatusOK -> exists v, json_response w StatusOK v /\ good_reply q a v.
Proof.
  intros (status & v & Hj & Hg) Hst. pose proof Hj as (h & -> & _). cbn in Hst. subst status. exists v. auto.
Qed.

Section Claims.
Context {E : Type} `{Clock E, Gousb E, UsbHandles E, !ClockLaws E, !GousbLaws E, !GousbErrors E}.
Context `{MapOrder, GousbText, TimeText, UUID}.
Context (bearerToken : string) (startedAt : Z) (other : handler (W := oracle)).

Abbreviation reach := (site_reach bearerToken startedAt other).
Abbreviation goes := (site_goes bearerToken startedAt other).
Abbreviation runs := (site_runs bearerToken startedAt other).
Implicit Types st : site E.

Lemma finished_ok st k r w :
  reach st -> conns st !! k = Some (Finished r w) -> isBusinessPath (req_Path r) = true -> rec_status w = StatusOK ->
  exists a v, json_response w StatusOK v /\ good_reply (question_of bearerToken r) a v /\
    answered (history (sh (core (parts st)))) (question_of bearerToken r) a.
Proof.
  intros Hr%site_reach_inv Hk Hp Hst. destruct (v_conns _ _ Hr k _ Hk) as (_ & _ & a & Ha & Hrep).
  destruct (replied_ok _ _ _ (Hrep Hp) Hst) as (v & ? & ?). by exists a, v.
Qed.

(** A successful sign response. *)
Lemma signed_ok st k r w :
  reach st -> conns st !! k = Some (Finished r w) -> req_Path r = "/mfi/sign" -> rec_status w = StatusOK ->
  (bearerToken = "" \/ authorized bearerToken r false = true) /\ req_Method r = "POST" /\
  exists body challenge challenge' s, decodeJSON (req_Body r) = Some body /\
    base64_DecodeString (Challenge body) = Some challenge /\ sha256 challenge' = sha256 challenge /\
    EvSigned (RequestID body) challenge' (Signature s) ∈ history (sh (core (parts st))) /\
    chip_signed (target (parts st)) (wire (parts st)) challenge' (Signature s) /\
    json_response w StatusOK (signature_json s).
Proof.
  intros Hr Hk Hp Hst. destruct (finished_ok st k r w Hr Hk) as (a & v & Hj & Hg & Ha); [by rewrite Hp|done|].
  assert (Hq : forall q, question_of bearerToken r = Some q ->
    (bearerToken = "" \/ authorized bearerToken r false = true) /\ req_Method r = "POST" /\
    sign_question r = Some q).
  { intros q Hq. unfold question_of in Hq. rewrite Hp in Hq. cbn in Hq.
    apply with_token_some in Hq as [Hauth Hq]. by apply at_method_some in Hq as [? ?]. }
  assert (Hs : forall q, question_of bearerToken r = Some q -> exists body challenge,
    q = AskService (CallSign (RequestID body) challenge)).
  { intros q (_ & _ & (body & ch & _ & _ & ->)%sign_question_some)%Hq. by exists body, ch. }
  destruct Hg as [rid ch s Hqs -> ->|c Hqs|Hqs];
    [|by destruct (Hs _ Hqs) as (? & ? & [=])|by destruct (Hs _ Hqs) as (? & ? & [=])].
  destruct (Hq _ Hqs) as (Hauth & Hm & (body & ch0 & Hd & Hb & [= -> <-])%sign_question_some).
  split_and!; [done..|]. rewrite Hqs in Ha. destruct Ha as (ch' & entry & _ & Hsha & _ & Hsig).
  exists body, ch, ch', s. split_and!; try done.
  eapply g_signed; [by eapply v_engine, site_reach_inv|exact Hsig].
Qed.

(** A successful certificate response. *)
Lemma certificate_ok st k r w :
  reach st -> conns st !! k = Some (Finished r w) -> req_Path r = "/mfi/certificate" -> rec_status w = StatusOK ->
  (bearerToken = "" \/ authorized bearerToken r false = true) /\
  exists c, EvStore c ∈ history (sh (core (parts st))) /\ json_response w StatusOK (certificateResponse c).
Proof.
  intros Hr Hk Hp Hst. destruct (finished_ok st k r w Hr Hk) as (a & v & Hj & Hg & Ha); [by rewrite Hp|done|].
  assert (Hq : forall q, question_of bearerToken r = Some q ->
    (bearerToken = "" \/ authorized bearerToken r false = true) /\ q = AskService CallCertificate).
  { intros q Hq. unfold question_of in Hq. rewrite Hp in Hq. cbn in Hq.
    apply with_token_some in Hq as [Hauth Hq]. by apply at_method_some in Hq as [_ [= <-]]. }
  destruct Hg as [rid ch s Hqs|c Hqs -> ->|Hqs]; [by destruct (Hq _ Hqs) as [_ [=]]| |by destruct (Hq _ Hqs) as [_ [=]]].
  destruct (Hq _ Hqs) as [Hauth _]. split; [done|]. rewrite Hqs in Ha.
  destruct Ha as (major & data & Hst' & Hmaj & _ & Hb & Hsha).
  eexists. split; [exact Hst'|]. unfold certificateResponse, stored_certificate in *. cbn. by rewrite <- Hmaj, <- Hb, <- Hsha.
Qed.

Lemma reach_run st st' : reach st -> rtc (fun a b => goes b a) st st' -> reach st'.
Proof. intros Hr Hrun. induction Hrun as [|? ? ? ? ? IH]; [done|]. eapply IH, site_goes_reach; eassumption. Qed.

Lemma requests_to_end st : Acc goes st -> reach st ->
  exists st', rtc (fun a b => runs b a) st st' /\ forall k c, conns st' !! k = Some c -> served c = true.
Proof.
  induction 1 as [st _ IH]. intros Hr.
  destruct (decide (Exists (fun kc => served kc.2 = false) (map_to_list (conns st)))) as [Hsome|Hnone].
  2: { exists st. split; [done|]. intros k c Hk. destruct (served c) eqn:Hc; [done|]. destruct Hnone.
       apply Exists_exists. exists (k, c). by rewrite elem_of_map_to_list. }
  apply Exists_exists in Hsome as ([k c] & Hk%elem_of_map_to_list & Hc).
  destruct (site_progress bearerToken startedAt other k c st (site_reach_inv _ _ _ _ Hr) Hk Hc) as [st1 Hg].
  pose proof (site_runs_goes _ _ _ _ _ Hg) as Hg'.
  destruct (IH st1 Hg') as (st' & Hrun & Hend); [by eapply site_goes_reach|]. exists st'. split; [by eapply rtc_l|done].
Qed.
End Claims.

(** ** Claims *)

(** C3: under any interleaving of requests, with the device changing in between, a
    sign request is answered 200 only if it is authorised and for a signature that
    the chip has given: [SignChallenge] has returned it for the same identifier and
    a challenge with the same digest, and it is what the driver's code makes of the
    answers that the transport gave to this very call ([chip_signed], [wire]).  All
    requests for the certificate that are answered 200 get the same response, that
    of the one certificate read from the chip. *)
Theorem concurrent_requests_justified {E} `{Clock E, Gousb E, UsbHandles E, !ClockLaws E, !GousbLaws E, !GousbErrors E}
    `{MapOrder, GousbText, TimeText, UUID} bearerToken startedAt other (st : site E) :
  site_reach bearerToken startedAt other st ->
  reachable uuid_valid (core (parts st)) /\
  (forall k r w, conns st !! k = Some (Finished r w) -> req_Path r = "/mfi/sign" -> rec_status w = StatusOK ->
    (bearerToken = "" \/ authorized bearerToken r false = true) /\ req_Method r = "POST" /\
    exists body challenge challenge' s, decodeJSON (req_Body r) = Some body /\
      base64_DecodeString (Challenge body) = Some challenge /\ sha256 challenge' = sha256 challenge /\
      EvSigned (RequestID body) challenge' (Signature s) ∈ history (sh (core (parts st))) /\
      (exists k' l, reaches (SignChallenge_calls (target (parts st)) None challenge') l (DDone (Ok (Signature s))) /\
        forall x, x ∈ l -> (k', x) ∈ wire (parts st)) /\
      json_response w StatusOK (signature_json s)) /\
  exists c, forall k r w, conns st !! k = Some (Finished r w) -> req_Path r = "/mfi/certificate" ->
    rec_status w = StatusOK ->
    (bearerToken = "" \/ authorized bearerToken r false = true) /\
    EvStore c ∈ history (sh (core (parts st))) /\ json_response w StatusOK (certificateResponse c).
Proof.
  intros Hr. pose proof (g_reach _ (v_engine _ _ (site_reach_inv _ _ _ _ Hr))) as Hreach.
  split; [done|]. split; [intros k r w; by eapply signed_ok|].
  pose proof (reachable_inv _ _ Hreach) as [_ Hs _].
  destruct (certificate (sh (core (parts st)))) as [c|] eqn:Hc.
  - exists c. apply (stored_history _ Hs) in Hc. intros k r w Hk Hp Hst.
    destruct (certificate_ok bearerToken startedAt other st k r w Hr Hk Hp Hst) as (Hauth & c' & Hc' & Hj).
    by rewrite (stored_once _ Hs c c').
  - exists (stored_certificate 0 []). intros k r w Hk Hp Hst.
    destruct (certificate_ok bearerToken startedAt other st k r w Hr Hk Hp Hst) as (_ & c' & Hc' & _).
    apply (stored_history _ Hs) in Hc'. congruence.
Qed.

(** C19: the recent list under concurrent requests.  It shows the newest entries of
    the requests to the business paths that have been answered, each request once,
    with its method, path and status. *)
Theorem concurrent_recent_list {E} `{Clock E, Gousb E, UsbHandles E, !ClockLaws E, !GousbLaws E, !GousbErrors E}
    `{MapOrder, GousbText, TimeText, UUID} bearerToken startedAt other (st : site E) :
  site_reach bearerToken startedAt other st ->
  listNewestFirst (ring st) = Some (take (Z.to_nat (capacity (ring st))) (map snd (trail st))) /\
  NoDup (map fst (trail st)) /\
  (forall k, k ∈ map fst (trail st) <->
    exists r w, conns st !! k = Some (Finished r w) /\ isBusinessPath (req_Path r) = true) /\
  forall k e, (k, e) ∈ trail st -> exists r w, conns st !! k = Some (Finished r w) /\
    Method e = req_Method r /\ Path e = req_Path r /\ Status e = statusOrOK w.
Proof.
  intros Hr. destruct (site_reach_inv _ _ _ _ Hr) as [_ Hrep _ _ Hnd Hall Htr].
  split; [by apply list_represents|]. split; [done|]. split; [|exact Htr].
  intros k. rewrite <- Hall. unfold recorded. destruct (conns st !! k) as [[]|]; split; try done;
    try (by intros (? & ? & ? & ?)); [by eexists _, _|by intros (? & ? & [= <- <-] & ?)].
Qed.

(** C8: every request is answered.  The requests in progress cannot go on for ever
    without a new one coming.  While one of them, or the startup probe, has not
    come to its end, some goroutine can act that needs neither a time-out nor a
    cancellation: the gate is given back, and the transport's mutexes are released.
    So there is always a way, without either, to a state in which every request has
    its response. *)
Theorem all_requests_answered {E} `{Clock E, Gousb E, UsbHandles E, !ClockLaws E, !GousbLaws E, !GousbErrors E}
    `{MapOrder, GousbText, TimeText, UUID} bearerToken startedAt other (st : site E) :
  site_reach bearerToken startedAt other st ->
  Acc (site_goes bearerToken startedAt other) st /\
  (forall st', rtc (fun a b => site_goes bearerToken startedAt other b a) st st' ->
    (exists k c, conns st' !! k = Some c /\ served c = false) ->
    exists k st'', site_step bearerToken startedAt other (Go k BranchToken) st' = Some st'') /\
  exists st', rtc (fun a b => exists k, site_step bearerToken startedAt other (Go k BranchToken) a = Some b) st st' /\
    forall k c, conns st' !! k = Some c -> served c = true.
Proof.
  intros Hr. assert (Hacc : Acc (site_goes bearerToken startedAt other) st)
    by exact (site_goes_wf _ _ _ _ (site_reach_inv _ _ _ _ Hr)).
  split; [done|]. split; [|by apply requests_to_end].
  intros st' Hrun (k & c & Hk & Hs).
  destruct (site_progress bearerToken startedAt other k c st') as (st'' & j & Hj); [|done..|by exists j, st''].
  eapply site_reach_inv, reach_run; eassumption.
Qed.

(** ** Witnesses

    The startup probe, a sign request and a request for the certificate, action by
    action in turn, on the chip behind the bridge; the devices are inspected in the
    middle of a transfer. *)
Section Running.
Context {E : Type} `{Clock E, Gousb E, UsbHandles E, MapOrder, GousbText, TimeText, UUID}.
Context (bearerToken : string) (startedAt : Z) (other : handler (W := oracle)).

(** A label that needs nothing of the hardware. *)
Definition plain_label (l : site_label E) : bool :=
  match l with Accept _ r => known_path (req_Path r) | Change _ => false | _ => true end.

Lemma site_run_reach ls : forall st st' : site E, site_reach bearerToken startedAt other st ->
  forallb plain_label ls = true -> site_run bearerToken startedAt other ls st = Some st' ->
  site_reach bearerToken startedAt other st'.
Proof.
  induction ls as [|l ls IH]; intros st st' Hr Hls Hrun; cbn in Hls, Hrun; [by simplify_eq|].
  apply andb_prop in Hls as [Hl Hls]. destruct (site_step _ _ _ l st) as [st1|] eqn:Hs; [|done].
  apply (IH st1 st'); [|done|done]. apply (site_next _ _ _ st l); [done| |done]. by destruct l.
Qed.

(** Request [k] acts as long as it can. *)
Fixpoint finish (fuel : nat) (k : nat) (st : site E) : site E :=
  match fuel with
  | O => st
  | S fuel =>
      match site_step bearerToken startedAt other (Go k BranchToken) st with
      | Some st => finish fuel k st
      | None => st
      end
  end.

Lemma finish_reach fuel k : forall st, site_reach bearerToken startedAt other st ->
  site_reach bearerToken startedAt other (finish fuel k st).
Proof.
  induction fuel as [|fuel IH]; intros st Hr; cbn [finish]; [done|].
  destruct (site_step _ _ _ (Go k BranchToken) st) as [st1|] eqn:Hs; [|done].
  apply IH, (site_next _ _ _ st (Go k BranchToken)); done.
Qed.
End Running.

Definition sign_post : request :=
  MkRequest "POST" "/mfi/sign" "Bearer secret" "" ""
    (request_body (MkSignRequest (base64_EncodeToString [1; 2; 3; 4]) demo_id)).
Definition certificate_get : request := MkRequest "GET" "/mfi/certificate" "Bearer secret" "" "" [].
Definition health_get : request := MkRequest "GET" "/healthz" "" "" "" [].

Abbreviation toy_site := (site (host toy_chip)).

Definition empty_ring : recentStore := MkStore 20 (replicate 20 zero_recent) 0 false.
Definition quiet_site : toy_site := MkSite (toy_engine []) ∅ [] empty_ring [].
Definition not_found : handler (W := oracle) := fun r x => Some x.

Definition go (k : nat) : site_label (host toy_chip) := Go k BranchToken.

(** The probe and the request for the certificate wait for the gate while the chip
    signs; the device has been asked to write when the health is asked for. *)
Definition three_requests : list (site_label (host toy_chip)) :=
  [Probe 1; Accept 2 sign_post; Accept 3 certificate_get; Accept 4 health_get;
   go 2; go 3; go 2; go 3; go 2; go 2; go 3; go 1] ++ replicate 10 (go 2) ++ [go 4; go 4; go 4].

Definition after (ls : list (site_label (host toy_chip))) : toy_site :=
  match site_run "secret" 0 not_found ls quiet_site with Some st => st | None => quiet_site end.
Definition busy_site : toy_site := after three_requests.
Definition served_site : toy_site :=
  let on := finish "secret" 0 not_found 1000 in on 1%nat (on 4%nat (on 3%nat (on 2%nat busy_site))).

Abbreviation toy_reach := (site_reach "secret" 0 not_found).

Lemma after_reach ls : forallb plain_label ls = true -> toy_reach (after ls).
Proof.
  intros Hls. assert (Hq : toy_reach quiet_site).
  { constructor; [apply toy_new|].
    by destruct (new_represents 20 ltac:(lia)) as (s & [= <-] & Hr & _). }
  unfold after. destruct (site_run _ _ _ ls quiet_site) as [st|] eqn:Hrun; [|done].
  by eapply (site_run_reach _ _ _ ls).
Qed.

Lemma served_reach : toy_reach served_site.
Proof. unfold served_site. do 4 apply finish_reach. by apply after_reach. Qed.

(** What became of them. *)
Definition outcomes (st : toy_site) : list (option Z) :=
  map (fun k => match conns st !! k with
    | Some (Finished _ w) => Some (rec_status w)
    | Some (Probed (StartupProbeSucceeded major)) => Some major
    | _ => None
    end) [1%nat; 2%nat; 3%nat; 4%nat].

Example busy_outcomes :
  outcomes busy_site = [None; None; None; None] /\ token (sh (core (parts busy_site))) = true /\
  ioMu (mu (bus (parts busy_site))) = Some 2%nat.
Proof. by vm_compute. Qed.

Example served_outcomes : outcomes served_site = [Some 3; Some StatusOK; Some StatusOK; Some StatusOK].
Proof. by vm_compute. Qed.

Example concurrent_requests_justified_witness :
  outcomes served_site = [Some 3; Some StatusOK; Some StatusOK; Some StatusOK] /\
  exists c, forall k r w, conns served_site !! k = Some (Finished r w) -> req_Path r = "/mfi/certificate" ->
    rec_status w = StatusOK ->
    ("secret" = "" \/ authorized "secret" r false = true) /\
    EvStore c ∈ history (sh (core (parts served_site))) /\ json_response w StatusOK (certificateResponse c).
Proof.
  split; [by vm_compute|].
  exact (proj2 (proj2 (concurrent_requests_justified "secret" 0 not_found served_site served_reach))).
Defined.

Example concurrent_recent_list_witness :
  map fst (trail served_site) = [3%nat; 2%nat] /\
  listNewestFirst (ring served_site) = Some (take (Z.to_nat (capacity (ring served_site))) (map snd (trail served_site))).
Proof.
  split; [by vm_compute|].
  exact (proj1 (concurrent_recent_list "secret" 0 not_found served_site served_reach)).
Defined.

Example all_requests_answered_witness :
  exists st', rtc (fun a b => exists k, site_step "secret" 0 not_found (Go k BranchToken) a = Some b) busy_site st' /\
    forall k c, conns st' !! k = Some c -> served c = true.
Proof.
  exact (proj2 (proj2 (all_requests_answered "secret" 0 not_found busy_site (after_reach three_requests eq_refl)))).
Defined.
