(* ===== verification/EndToEnd.v ===== *)
(** * From an HTTP request to the registers of the chip

    A sign request through all the layers, with the scripted transport of
    [internal/chip/driver_test.go] at the bottom: what the client gets, and
    exactly which bus transactions it costs. *)

From S2P Require Import Prelude Errors Codec Effects Usb Ch341 Driver DriverScript Service ServiceInv.
From S2P Require Import ServiceProps Recent SignRequest Health Http HttpProps Stack.

Open Scope string_scope.
Open Scope list_scope.
Open Scope Z_scope.

(** ** Following one call *)

Section Following.
Context {W : Type} `{Clock W, I2CTransport W, GousbText, UUID}.

Lemma drive_next fuel tid st d (w w' : W) p i s' p' :
  threads st !! tid = Some p -> is_done p = false -> next_input BranchToken d p w = Some (i, w') ->
  clock (sh st) <= now w' ->
  run uuid_valid i (advance (now w' - clock (sh st)) (sh st)) p = Some (s', p') ->
  drive (S fuel) tid (MkStack st d w) = drive fuel tid (MkStack (State s' (<[tid := p']> (threads st))) d w').
Proof.
  intros Hp Hd Ha Hc Hrun. cbn [drive biz]. unfold serve_thread. cbn [biz drv hw]. rewrite Hp, Ha.
  assert (Hex : exec uuid_valid [Tick (now w' - clock (sh st)); Run tid i] st
    = Some (State s' (<[tid := p']> (threads st)))).
  { cbn [exec step]. destruct (Z.leb_spec 0 (now w' - clock (sh st))); [|lia].
    cbn [threads sh]. by rewrite Hp, Hrun. }
  rewrite Hex. by destruct p.
Qed.

Lemma drive_done fuel tid st d (w : W) c r :
  threads st !! tid = Some (Done c r) -> drive (S fuel) tid (MkStack st d w) = Some (r, MkStack st d w).
Proof. intros Hp. cbn [drive biz]. by rewrite Hp. Qed.

Lemma advance_0 s t : clock s = t -> advance (t - clock s) s = s.
Proof. intros <-. destruct s. unfold advance. cbn. f_equal. lia. Qed.

(** Actions between two calls of the driver take no time. *)
Definition plain_input (i : input) : Prop := i = InNone \/ i = InSelect BranchToken.

Lemma plain_answer d p (w : W) i s s' p' :
  plain_input i -> run uuid_valid i s p = Some (s', p') -> next_input BranchToken d p w = Some (i, w) /\ is_done p = false.
Proof. intros [->| ->] Hrun; destruct p as [| | | |[]| | | | | | |]; simplify_eq/=; done. Qed.

Lemma drive_run_seq fuel tid ins : forall st d (w : W) p s' p',
  Forall plain_input ins -> threads st !! tid = Some p -> clock (sh st) = now w ->
  run_seq uuid_valid ins (sh st) p = Some (s', p') ->
  drive (length ins + fuel) tid (MkStack st d w)
  = drive fuel tid (MkStack (State s' (<[tid := p']> (threads st))) d w).
Proof.
  induction ins as [|i ins IH]; intros st d w p s' p' Hins Hp Hc Hrun; cbn [run_seq] in Hrun.
  - simplify_eq. rewrite insert_id by done. by destruct st.
  - apply Forall_cons in Hins as [Hi Hins].
    destruct (run uuid_valid i (sh st) p) as [[s1 p1]|] eqn:Hr; [|done].
    destruct (plain_answer d p w i _ _ _ Hi Hr) as [Ha Hd].
    cbn [length Nat.add]. rewrite (drive_next _ tid st d w w p i s1 p1); [|done|done|done|lia|by rewrite advance_0].
    rewrite (IH (State s1 (<[tid := p1]> (threads st))) d w p1 s' p'); cbn [threads sh].
    + by rewrite insert_insert_eq.
    + done.
    + apply lookup_insert_eq.
    + by rewrite (run_keeps_clock _ _ _ _ _ Hr).
    + done.
Qed.

Lemma to_gate_plain : Forall plain_input to_gate.
Proof. repeat constructor; (by left) || (by right). Qed.

(** The stack after a call has been taken on. *)
Lemma serve_call_start c st d (w : W) :
  clock (sh st) <= now w ->
  let s0 := advance (now w - clock (sh st)) (sh st) in
  let tid := new_thread (MkStack st d w) in
  clock s0 = now w /\ threads st !! tid = None /\
  serve_call c (MkStack st d w) = drive 10 tid (MkStack (State s0 (<[tid := Called c]> (threads st))) d w).
Proof.
  intros Hc s0 tid. assert (Hnew : threads st !! tid = None) by apply not_elem_of_dom, is_fresh.
  split; [subst s0; cbn; lia|]. split; [done|].
  unfold serve_call, start_thread. fold tid. cbn [exec biz hw drv].
  assert (Htick : step uuid_valid (Tick (now w - clock (sh st))) st = Some (State s0 (threads st))).
  { unfold step. destruct (Z.leb_spec 0 (now w - clock (sh st))); [done|lia]. }
  rewrite Htick. cbn [step threads sh]. by rewrite Hnew.
Qed.

(** A sign call that the caches do not answer. *)
Lemma sign_call st d (w w' : W) rid ch sig es :
  clock (sh st) <= now w -> now w <= now w' -> token (sh st) = false ->
  uuid_valid rid = true -> 1 <= len ch <= 128 ->
  cache_get (now w) rid (entries (sh st)) = (None, es) ->
  SignChallenge d None ch w = Some (Ok sig, w') ->
  exists st', serve_call (CallSign rid ch) (MkStack st d w)
      = Some (RSign (Ok (MkSignResult sig false 0 (now w' - now w))), MkStack st' d w') /\
    clock (sh st') = now w' /\ token (sh st') = false /\
    entries (sh st') !! rid = Some (MkEntry (sha256 ch) sig (now w' + cacheTTL)).
Proof.
  intros Hc Hw Htok Hid Hlen Hget Hsign.
  destruct (serve_call_start (CallSign rid ch) st d w Hc) as (Hc0 & Hnew & ->).
  set (s0 := advance _ (sh st)) in *. set (tid := new_thread _).
  pose proof (sign_to_chip uuid_valid s0 rid ch es Hid Hlen) as Hgate.
  rewrite Hc0 in Hgate. specialize (Hgate Htok Hget).
  rewrite (drive_run_seq 6 tid to_gate (State s0 (<[tid := Called (CallSign rid ch)]> (threads st))) d w _ _ _
    to_gate_plain (lookup_insert_eq _ _ _) Hc0 Hgate).
  cbn [threads]. rewrite insert_insert_eq.
  set (s1 := record _ _). assert (Hc1 : clock s1 = now w) by (subst s1; cbn; lia).
  rewrite (drive_next 5 tid _ d w w' (ChipSign rid ch 0 (now w)) (InData (Ok sig))
    (record (EvSigned rid ch sig) (advance (now w' - clock s1) s1)) (Putting rid ch 0 (now w) sig)); [|apply lookup_insert_eq|done|cbn [next_input fmap option_fmap option_map]; by rewrite Hsign|cbn [sh]; lia|done].
  cbn [threads]. rewrite insert_insert_eq. set (s2 := record _ (advance _ s1)).
  assert (Hc2 : clock s2 = now w') by (subst s2; cbn [record advance clock]; lia).
  set (entry := MkEntry (sha256 ch) sig (clock s2 + cacheTTL)).
  set (s3 := without_gate (record (EvPut rid ch entry) (set_entries (cache_put rid entry (entries s2)) s2))).
  rewrite (drive_run_seq 2 tid [InNone; InNone; InNone] _ d w' (Putting rid ch 0 (now w) sig) s3
    (Done (CallSign rid ch) (RSign (Ok (MkSignResult sig false 0 (clock s2 - now w))))));
    [|repeat constructor; by left|apply lookup_insert_eq|exact Hc2|done].
  cbn [threads]. rewrite insert_insert_eq. eexists.
  rewrite (drive_done 1 tid _ d w' _ _ (lookup_insert_eq _ _ _)), Hc2.
  split; [reflexivity|]. split; [exact Hc2|]. split; [done|].
  unfold s3, entry. rewrite Hc2. apply lookup_insert_eq.
Qed.

(** A retry that the cache answers. *)
Lemma retry_call st d (w : W) rid ch e :
  clock (sh st) <= now w -> uuid_valid rid = true -> 1 <= len ch <= 128 ->
  entries (sh st) !! rid = Some e -> now w <= expiresAt e ->
  exists st', serve_call (CallSign rid ch) (MkStack st d w)
    = Some (RSign (cachedResult e (sha256 ch)), MkStack st' d w).
Proof.
  intros Hc Hid Hlen He Hexp.
  destruct (serve_call_start (CallSign rid ch) st d w Hc) as (Hc0 & Hnew & ->).
  set (s0 := advance _ (sh st)) in *. set (tid := new_thread _).
  rewrite (drive_run_seq 9 tid [InNone] _ d w (Called (CallSign rid ch)) s0
    (Done (CallSign rid ch) (RSign (cachedResult e (sha256 ch)))));
    [|repeat constructor; by left|apply lookup_insert_eq|exact Hc0|apply sign_cached; try done; by rewrite Hc0].
  cbn [threads]. rewrite insert_insert_eq. eexists.
  by rewrite (drive_done 8 tid _ d w _ _ (lookup_insert_eq _ _ _)).
Qed.
End Following.

(** The response that carries [sig]. *)
Definition signed (sig : list Z) : json := JObject [("signature", JString (base64_EncodeToString sig))].

(** C6: signing end to end.  A well-formed, authorised sign request for a fresh
    identifier costs exactly the documented register traffic ([sign_script]) and
    is answered with the chip's signature in base64; the same request sent again
    gets the same answer without any bus traffic, and the recent requests show
    both, the second as an idempotent hit. *)
Theorem signing_end_to_end `{GousbText, UUID, TimeText, USBInspector scriptedTransport}
    token startedAt other r (x : exchange (stack scriptedTransport)) lg st t rest rid ch statuses sig :
  svc x = MkStack st 0x11 (Script (sign_script ch statuses sig ++ rest) t) ->
  clock (sh st) <= t -> Service.token (sh st) = false -> entries (sh st) !! rid = None ->
  uuid_valid rid = true -> sign_request r rid ch -> req_Path r = "/mfi/sign" ->
  token = "" \/ authorized token r false = true -> represents (recent x) lg ->
  Forall (fun s => s <> authSuccessStatus) statuses -> len statuses <= 301 -> 1 <= len sig <= maximumDataBytes ->
  exists x1 e1 x2 e2,
    serve token startedAt other r x = Some x1 /\
    json_response (writer x1) StatusOK (signed sig) /\
    hw (svc x1) = Script rest (t + initialAuthDelay + len statuses * authPollInterval) /\
    serve token startedAt other r x1 = Some x2 /\
    json_response (writer x2) StatusOK (signed sig) /\ hw (svc x2) = hw (svc x1) /\
    represents (recent x2) (e2 :: e1 :: lg) /\ Note e1 = "chip" /\ Note e2 = "idempotent-hit".
Proof.
  intros Hx Hc Htok Hnone Hid Hreq Hp Hauth Hr Hs Hn Hsig.
  set (w := Script (sign_script ch statuses sig ++ rest) t) in *.
  set (w' := Script rest (t + initialAuthDelay + len statuses * authPollInterval)).
  change (clock (sh st) <= now w) in Hc.
  assert (Hlen : 1 <= len ch <= 128) by by destruct Hreq as (_ & _ & ? & _).
  assert (Hw : now w <= now w').
  { pose proof (len_nonneg statuses). cbn. unfold initialAuthDelay, authPollInterval, Millisecond. lia. }
  destruct (sign_call st 0x11 w w' rid ch sig (entries (sh st)) Hc Hw Htok Hid Hlen)
    as (st' & Hcall & Hc' & _ & Hentry).
  { unfold cache_get. by rewrite Hnone. }
  { by apply SignChallenge_script. }
  destruct (serve_signed token startedAt other r x lg rid ch (MkSignResult sig false 0 (now w' - now w))
    (MkStack st' 0x11 w') Hreq Hp Hauth Hr) as (x1 & e1 & Hs1 & Hx1 & Hj1 & Hr1 & Hn1).
  { rewrite Hx. cbn -[serve_call]. by rewrite Hcall. }
  destruct (retry_call st' 0x11 w' rid ch _ (Z.eq_le_incl _ _ Hc') Hid Hlen Hentry) as (st2 & Hretry).
  { cbn [expiresAt]. unfold cacheTTL, Second. lia. }
  unfold cachedResult in Hretry. cbn [challengeDigest] in Hretry. rewrite bool_decide_eq_true_2 in Hretry by done.
  destruct (serve_signed token startedAt other r x1 (e1 :: lg) rid ch (MkSignResult sig true 0 0)
    (MkStack st2 0x11 w') Hreq Hp Hauth Hr1) as (x2 & e2 & Hs2 & Hx2 & Hj2 & Hr2 & Hn2).
  { rewrite Hx1. cbn -[serve_call]. by rewrite Hretry. }
  exists x1, e1, x2, e2. rewrite Hx1, Hx2. by split_and!.
Qed.

#[export] Instance script_inspector : USBInspector scriptedTransport := {
  inspect _ t := (MkUSBStatus "missing" "no matching USB device" "" [], t);
}.

Definition demo_stack : stack scriptedTransport :=
  MkStack (init 0) 0x11 (Script (sign_script [1; 2; 3; 4] [0; 0x80] [7; 7; 7] ++ []) 0).

Definition demo_exchange : exchange (stack scriptedTransport) :=
  MkExchange demo_stack new_recorder (MkRequestState "" "" 0 0) [] (MkStore 20 (replicate 20 zero_recent) 0 false).

Definition demo_request : request :=
  MkRequest "POST" "/mfi/sign" "Bearer secret" "" ""
    (request_body (MkSignRequest (base64_EncodeToString [1; 2; 3; 4]) demo_id)).

Definition no_route : handler (W := stack scriptedTransport) := fun r x => Some x.

Example signing_end_to_end_witness :
  exists x1 e1 x2 e2,
    serve "secret" 0 no_route demo_request demo_exchange = Some x1 /\
    json_response (writer x1) StatusOK (signed [7; 7; 7]) /\
    hw (svc x1) = Script [] (0 + initialAuthDelay + len [0; 0x80] * authPollInterval) /\
    serve "secret" 0 no_route demo_request x1 = Some x2 /\
    json_response (writer x2) StatusOK (signed [7; 7; 7]) /\ hw (svc x2) = hw (svc x1) /\
    represents (recent x2) [e2; e1] /\ Note e1 = "chip" /\ Note e2 = "idempotent-hit".
Proof.
  apply (signing_end_to_end "secret" 0 no_route demo_request demo_exchange [] (init 0) 0 [] demo_id
    [1; 2; 3; 4] [0; 0x80] [7; 7; 7]).
  - reflexivity.
  - vm_compute. discriminate.
  - reflexivity.
  - reflexivity.
  - reflexivity.
  - unfold sign_request. split_and!; try reflexivity; try discriminate.
    + repeat constructor; discriminate.
    + vm_compute. repeat constructor.
  - reflexivity.
  - right. vm_compute. reflexivity.
  - destruct (new_represents 20 ltac:(lia)) as (s & [= <-] & Hr & _). exact Hr.
  - repeat constructor; discriminate.
  - vm_compute. discriminate.
  - vm_compute. split; discriminate.
Defined.
