(* ===== verification/Main.v ===== *)
(** * The program

    [cmd/remote-mfi-for-xcertplay/main.go] with the argument checks of
    [NewService] and [NewHandler]: what a command line leads to, the parts built
    from a configuration, the startup probe, and the program so built, serving
    requests while the device changes, until it stops. *)

From S2P Require Import Prelude Errors Text Encoder Config ConfigProps Effects Usb Ch341 Ch341Ops.
From S2P Require Import Ch341Link Ch341Errors Bus Bridge BridgeLaws Ch341Props Driver Service ServiceProps.
From S2P Require Import Recent SignRequest Health Http HttpInv HttpProps Stack Machine Site.

Open Scope string_scope.
Open Scope list_scope.
Open Scope Z_scope.

(** The checks for [nil] arguments. *)
Definition NewService (driver inspector : bool) (t : Z) : result state :=
  if negb driver then Err (ErrorString "chip driver is required")
  else if negb inspector then Err (ErrorString "USB inspector is required")
  else Ok (init t).

(** [None] is the panic of [make] for a negative capacity. *)
Definition NewHandler (service logger location : bool) (recentCapacity : Z) : option (result recentStore) :=
  if negb service then Some (Err (ErrorString "service is required"))
  else if negb logger then Some (Err (ErrorString "logger is required"))
  else if negb location then Some (Err (ErrorString "location is required"))
  else match newRecentStore recentCapacity with Some s => Some (Ok s) | None => None end.

Record program (E : Type) := MkProgram {
  ch341 : Ch341Transport E;
  driver_address : Z;
  service : state;
  recents : recentStore;
}.
Arguments MkProgram {E} _ _ _ _.
Arguments ch341 {E} _.
Arguments driver_address {E} _.
Arguments service {E} _.
Arguments recents {E} _.

Definition initialise {E} (e : E) (t : Z) (cfg : Config) : option (result (program E)) :=
  match NewCh341 e (Config.USBIDs cfg) (I2CSpeedKHz cfg) with
  | Err err => Some (Err (WrapError "initialize CH341 transport: " err ""))
  | Ok transport =>
      match NewDriver true (I2CAddress cfg) with
      | Err err => Some (Err (WrapError "initialize MFi driver: " err ""))
      | Ok address =>
          match NewService true true t with
          | Err err => Some (Err (WrapError "initialize service: " err ""))
          | Ok service =>
              match NewHandler true true true (RecentCapacity cfg) with
              | None => None
              | Some (Err err) => Some (Err (WrapError "initialize HTTP API: " err ""))
              | Some (Ok recents) => Some (Ok (MkProgram transport address service recents))
              end
          end
      end
  end.

(** What [main] comes to: the end of the process, or [run] serving.  What it
    prints is left out. *)
Inductive startup (E : Type) :=
  | Panicked
  | Exit (code : Z)
  | Serving (cfg : Config) (p : program E).
Arguments Panicked {E}.
Arguments Exit {E} _.
Arguments Serving {E} _ _.

Definition main {E} (e : E) (t : Z) (args : list string) : startup E :=
  match Parse args with
  | inl FlagHelp => Exit 0
  | inl _ => Exit 2
  | inr (_, true) => Exit 0
  | inr (cfg, false) =>
      match initialise e t cfg with
      | None => Panicked
      | Some (Err _) => Exit 1
      | Some (Ok p) => Serving cfg p
      end
  end.

Lemma valid_speed_command speed : validSpeed speed = true -> exists c, speed_command speed = Ok c.
Proof.
  unfold validSpeed, speed_command.
  change I2CSpeed20KHz with 20. change I2CSpeed100KHz with 100.
  change I2CSpeed400KHz with 400. change I2CSpeed750KHz with 750.
  destruct (speed =? 20), (speed =? 100), (speed =? 400), (speed =? 750); try done; by eexists.
Qed.

(** A configuration that [Parse] accepts is one every constructor accepts. *)
Lemma initialise_accepted {E} `{UsbHandles E} (e : E) t args cfg :
  Parse args = inr (cfg, false) -> handles e = ∅ ->
  exists p, initialise e t cfg = Some (Ok p) /\ transport_inv (ch341 p) /\ context (ch341 p) = e /\
    0 <= driver_address p <= 0x7f /\ service p = init t /\ represents (recents p) [].
Proof.
  intros (Hne & _ & _ & Ha & Hs & _ & _ & _ & Hc)%parse_sound He. unfold initialise, NewCh341.
  destruct (Z.eqb_spec (len (Config.USBIDs cfg)) 0) as [Hz|_]; [by apply len_zero in Hz|].
  destruct (valid_speed_command _ Hs) as [c ->].
  unfold NewDriver. cbn [negb]. destruct (Z.ltb_spec 0x7f (I2CAddress cfg)); [lia|].
  unfold NewHandler, NewService. cbn [negb]. rewrite Hc.
  destruct (new_represents defaultRecentEntries ltac:(done)) as (s & -> & Hr & _).
  eexists. split; [reflexivity|]. cbn. split_and!; try done; try lia.
Qed.

(** ** The program in service *)

(** The parts, wired as [run] wires them. *)
Definition server {E} (p : program E) : exchange (stack (Ch341Transport E)) :=
  MkExchange (MkStack (service p) (driver_address p) (ch341 p)) new_recorder (MkRequestState "" "" 0 0) []
    (recents p).

(** [probeChip], while no request is served; its time-out does not expire. *)
Definition probeChip {E} `{Clock E, Gousb E, UsbHandles E, MapOrder, GousbText, UUID}
    (s : stack (Ch341Transport E)) : option (probe_log * stack (Ch341Transport E)) :=
  match serve_call CallProbe s with
  | Some (RProbe (Ok major), s) => Some (StartupProbeSucceeded major, s)
  | Some (RProbe (Err err), s) => Some (StartupProbeFailed err, s)
  | _ => None
  end.

Definition device_changes {E} (e : E) (x : exchange (stack (Ch341Transport E))) :=
  set_svc (MkStack (biz (svc x)) (drv (svc x)) (set_context e (hw (svc x)))) x.

Section Service.
Context {E : Type} `{Clock E, Gousb E, UsbHandles E, !ClockLaws E, !GousbLaws E, !GousbErrors E}.
Context `{MapOrder, GousbText, TimeText, UUID}.

(** A life of the program: requests on its paths and the startup probe, one at a
    time, and in between the device and the time change on their own, but not the
    program's handles. *)
Inductive life (token : string) (startedAt : Z) (other : handler) (x : exchange (stack (Ch341Transport E)))
    : exchange (stack (Ch341Transport E)) -> Prop :=
  | life_start : life token startedAt other x x
  | life_request y r z : life token startedAt other x y -> known_path (req_Path r) = true ->
      serve token startedAt other r y = Some z -> life token startedAt other x z
  | life_probe y outcome s : life token startedAt other x y ->
      probeChip (svc y) = Some (outcome, s) -> life token startedAt other x (set_svc s y)
  | life_change y e : life token startedAt other x y ->
      handles e = handles (context (hw (svc y))) -> now (context (hw (svc y))) <= now e ->
      life token startedAt other x (device_changes e y).

Lemma probe_total (s : stack (Ch341Transport E)) :
  idle transport_inv s -> exists outcome s', probeChip s = Some (outcome, s') /\ idle transport_inv s'.
Proof.
  intros Hs. unfold probeChip. destruct (serve_call_total transport_inv CallProbe s Hs) as (r & s' & -> & Hi & _ & Hr).
  destruct r as [|r|[major|err]]; try done; by eexists _, _.
Qed.

Lemma life_idle token startedAt other x y lg :
  idle transport_inv (svc x) -> represents (recent x) lg -> life token startedAt other x y ->
  idle transport_inv (svc y) /\ exists lg', represents (recent y) lg'.
Proof.
  intros Hx Hr. induction 1 as [|y r z _ [IH [lg1 IHr]] Hp Hs|y outcome s _ [IH IHr] Hs|y e _ [IH IHr] Hh Ht].
  - split; [done|by exists lg].
  - destruct (serve_kept (idle transport_inv) token startedAt other r y lg1 Hp IH IHr)
      as (z' & Hs' & HP & e & Hr'). rewrite Hs in Hs'. injection Hs' as <-. split; [done|by eexists].
  - split; [|done]. destruct (probe_total (svc y) IH) as (outcome' & s' & Hs' & Hi).
    rewrite Hs in Hs'. by injection Hs' as <- <-.
  - split; [|done]. unfold device_changes. cbn [svc set_svc]. destruct IH as [Hf Hd].
    destruct (svc y) as [st d w]. cbn in *. constructor; [|done]. eapply fits_world; [exact Hf|exact Ht|].
    apply (inv_context w); [by destruct Hf|done].
Qed.

Lemma server_idle (p : program E) t :
  transport_inv (ch341 p) -> 0 <= driver_address p -> service p = init t -> t <= now (context (ch341 p)) ->
  idle transport_inv (svc (server p)).
Proof.
  intros Hinv Ha Hs Ht. unfold server. rewrite Hs. cbn. constructor; [constructor|]; cbn; try done.
  constructor.
Qed.
End Service.

(** C21: what [Parse] accepts is well typed: at least one USB identity, no two
    alike, each a pair of 16-bit numbers, a 7-bit address, a speed the bridge knows,
    a level and a format of the logger, an address with host and port; and from
    such a configuration every constructor of [run] makes its part, so the program
    never fails between [Parse] and serving. *)
Theorem accepted_configuration {E} `{UsbHandles E} args cfg :
  Parse args = inr (cfg, false) ->
  (Config.USBIDs cfg <> [] /\ NoDup (Config.USBIDs cfg) /\
   Forall (fun id => 0 <= Vendor id < 2 ^ 16 /\ 0 <= Product id < 2 ^ 16) (Config.USBIDs cfg) /\
   0 <= I2CAddress cfg < 2 ^ 7 /\ (exists command, speed_command (I2CSpeedKHz cfg) = Ok command) /\
   LogLevel cfg ∈ [LevelDebug; LevelInfo; LevelWarn; LevelError] /\
   (LogFormat cfg = "json" \/ LogFormat cfg = "text") /\
   (exists host_port, SplitHostPort (HTTPAddr cfg) = inr host_port) /\ 1 <= RecentCapacity cfg) /\
  forall (e : E) t, handles e = ∅ -> exists p, initialise e t cfg = Some (Ok p) /\
    context (ch341 p) = e /\ transport_inv (ch341 p) /\ service p = init t /\ represents (recents p) [].
Proof.
  intros Hp. pose proof (parse_sound _ _ Hp) as (Hne & Hids & Hnd & Ha & Hs & Hl & Hf & Hhp & Hc). split.
  - split_and!; try done; try lia.
    + by apply valid_speed_command.
    + by rewrite Hc.
  - intros e t He. destruct (initialise_accepted e t args cfg Hp He) as (p & Hi & Ht & Hx & _ & Hsv & Hr).
    exists p. by split_and!.
Qed.

(** C11: whatever the command line, the program ends with status 0 or 2, or it
    serves.  Serving is [life] here: the requests and the startup probe one at a
    time, the probe without its time-out, the device and the clock changing between
    two of them only ([Site] and [Process] have them all at once).  Then every
    request on one of the program's paths is answered and the probe ends, without a
    panic; between two requests the service is in a state its concurrent theorems
    speak of, with no call pending and the gate free, and the open USB handles are
    exactly those of the current session; when it stops, [Close] gives them back. *)
Theorem program_serves {E} `{Clock E, Gousb E, UsbHandles E, !ClockLaws E, !GousbLaws E, !GousbErrors E}
    `{MapOrder, GousbText, TimeText, UUID} (e : E) args startedAt other :
  handles e = ∅ ->
  match main e (now e) args with
  | Panicked => False
  | Exit code => code = 0 \/ code = 2
  | Serving cfg p => forall x, life (BearerToken cfg) startedAt other (server p) x ->
      reachable uuid_valid (biz (svc x)) /\ token (sh (biz (svc x))) = false /\
      transport_inv (hw (svc x)) /\
      (forall r, known_path (req_Path r) = true ->
        exists x', serve (BearerToken cfg) startedAt other r x = Some x') /\
      (exists outcome s, probeChip (svc x) = Some (outcome, s)) /\
      exists err t, Close (hw (svc x)) = Some (Ok err, t) /\ handles (context t) = ∅
  end.
Proof.
  intros Hh. unfold main. destruct (Parse args) as [err|[cfg [|]]] eqn:Hparse; [destruct err; auto|auto|].
  destruct (initialise_accepted e (now e) args cfg Hparse Hh) as (p & -> & Hinv & He & Ha & Hsv & Hr).
  intros x Hlife.
  assert (Hstart : idle transport_inv (svc (server p))).
  { apply (server_idle p (now e)); [done|lia|done|]. rewrite He. lia. }
  destruct (life_idle _ _ _ (server p) x [] Hstart Hr Hlife) as [Hidle [lg Hlg]].
  pose proof (fit_world _ _ (idle_fits _ _ Hidle)) as Hx.
  split_and!; [apply Hidle|by apply idle_token in Hidle|done| | |].
  - intros r Hp. destruct (serve_kept (idle transport_inv) (BearerToken cfg) startedAt other r x lg Hp Hidle Hlg)
      as (x' & -> & _). by exists x'.
  - destruct (probe_total (svc x) Hidle) as (outcome & s & -> & _). by exists outcome, s.
  - destruct (Close_wp ∅ (hw (svc x)) Hx) as (r & t & -> & _ & [o ->] & Ht & _ & _ & Hs).
    exists o, t. by rewrite (inv_handles t Ht), Hs.
Qed.

(** The default configuration, and a bridge whose first opening fails. *)
Definition demo_host : host () :=
  Host 0 ∅ [None; Some (UsbFault UsbErrorBusy)] [] () [bridge_desc; hub_desc].

Example program_serves_witness :
  match main demo_host (now demo_host) ["--bearer-token"; "secret"] with
  | Panicked => False
  | Exit code => code = 0 \/ code = 2
  | Serving cfg p => forall x, life (BearerToken cfg) 0 (fun r x => Some x) (server p) x ->
      reachable uuid_valid (biz (svc x)) /\ token (sh (biz (svc x))) = false /\
      transport_inv (hw (svc x)) /\
      (forall r, known_path (req_Path r) = true ->
        exists x', serve (BearerToken cfg) 0 (fun r x => Some x) r x = Some x') /\
      (exists outcome s, probeChip (svc x) = Some (outcome, s)) /\
      exists err t, Close (hw (svc x)) = Some (Ok err, t) /\ handles (context t) = ∅
  end.
Proof. exact (program_serves demo_host ["--bearer-token"; "secret"] 0 (fun r x => Some x) eq_refl). Defined.

Definition upper_case : list string := ["--usb-ids"; "1A86:5512,1a86:55DB"; "--i2c-address"; "0x10"].

Definition upper_config : Config := match Parse upper_case with inr (cfg, _) => cfg | inl _ => zero_config end.

Example accepted_configuration_witness :
  I2CAddress upper_config = 0x10 /\
  exists p, initialise demo_host 0 upper_config = Some (Ok p) /\
    context (ch341 p) = demo_host /\ transport_inv (ch341 p) /\ service p = init 0 /\ represents (recents p) [].
Proof.
  split; [by vm_compute|]. refine (proj2 (accepted_configuration upper_case upper_config _) demo_host 0 _); by vm_compute.
Defined.

(** It does serve. *)
Example demo_serving :
  exists cfg p, main demo_host (now demo_host) ["--bearer-token"; "secret"] = Serving cfg p /\
    BearerToken cfg = "secret".
Proof. eexists _, _. vm_compute. by split. Qed.
