(* ===== verification/Process.v ===== *)
(** * The running process

    [run] and [newLogger] of [cmd/remote-mfi-for-xcertplay/main.go] from the moment
    the parts are built: the main goroutine, the goroutine that serves HTTP, the
    startup probe and the requests, with the channel [serverError], the signal
    context, [http.Server]'s shutdown flag and the deferred calls.  [main_action]
    and [server_action] are one action of these goroutines each; what the system
    decides is in their argument. *)

From S2P Require Import Prelude Errors Text Encoder Config Effects Usb Ch341 Ch341Steps Ch341Link Driver Service.
From S2P Require Import Recent SignRequest Health Http Stack Engine Machine Site Main.

Open Scope string_scope.
Open Scope list_scope.
Open Scope Z_scope.

(** An action happens, has to wait, or panics. *)
Inductive progress (A : Type) := Blocked | Crash | Now (a : A).
Arguments Blocked {A}.
Arguments Crash {A}.
Arguments Now {A} _.

(** ** Go channels *)

Record channel (A : Type) := MkChannel { room : nat; buffer : list A; shut : bool }.
Arguments MkChannel {A} _ _ _.
Arguments room {A} _.
Arguments buffer {A} _.
Arguments shut {A} _.

Definition make_channel (A : Type) (n : nat) : channel A := MkChannel n [] false.

Definition send {A} (a : A) (c : channel A) : progress (channel A) :=
  if shut c then Crash
  else if (length (buffer c) <? room c)%nat then Now (MkChannel (room c) (buffer c ++ [a]) false)
  else Blocked.

(** [None] is the zero value of a closed channel. *)
Definition receive {A} (c : channel A) : progress (option A * channel A) :=
  match buffer c with
  | a :: rest => Now (Some a, MkChannel (room c) rest (shut c))
  | [] => if shut c then Now (None, c) else Blocked
  end.

Definition close {A} (c : channel A) : progress (channel A) :=
  if shut c then Crash else Now (MkChannel (room c) (buffer c) true).

(** ** The logger *)

Inductive log_handler := TextHandler | JSONHandler.
Record logger := MkLogger { handler_kind : log_handler; minimum_level : Z }.

Definition newLogger (cfg : Config) : logger :=
  MkLogger (if String.eqb (LogFormat cfg) "text" then TextHandler else JSONHandler) (LogLevel cfg).

Inductive run_log :=
  | AuthenticationDisabled
  | ServerStart (address usb_ids i2c_address : string) (i2c_speed_khz : Z)
  | ShutdownRequested
  | ServerStopped.

Definition log_level (m : run_log) : Z := match m with AuthenticationDisabled => LevelWarn | _ => LevelInfo end.

(** [server_start], without the linker's version and commit. *)
Definition server_start (cfg : Config) : run_log :=
  ServerStart (HTTPAddr cfg) ("[" +:+ Join " " (map usbid_String (Config.USBIDs cfg)) +:+ "]")
    ("0x" +:+ fmt_hex 2 (I2CAddress cfg)) (I2CSpeedKHz cfg).

(** ** Goroutines *)

Definition shutdownTimeout : Z := 10 * Second.
Definition probeTimeout : Z := 4 * Second.

(** What [ListenAndServe] returns; it is never [nil]. *)
Inductive serve_error := ErrServerClosed | ServeError (err : goerror).

Inductive main_pc :=
  | MNotify | MGoProbe | MGoServe | MSelect
  | MWithTimeout
  | MShutdown (deadline : Z)
  | MCloseListeners (deadline : Z)
  | MWaitServe (deadline : Z) (lnerr : option goerror)
  | MPolling (deadline : Z) (lnerr : option goerror)
  | MReturn (err : option goerror)
  | MExited (err : option goerror).

(** [sent] is a ghost: what went through [serverError]. *)
Inductive server_pc :=
  | SNone | SLogging | SListenAndServe | SListening | STracking | SAccepting
  | SServed (err : serve_error)
  | SClosing (sent : option goerror)
  | SEnd (sent : option goerror).

Inductive probe_pc := NoProbe | ProbeReady | ProbeRunning (k : nat) (deadline : Z).

Inductive deferred := DeferClose | DeferCancel | DeferShutdownCancel.

#[export] Instance deferred_eq_dec : EqDecision deferred.
Proof. solve_decision. Defined.

(** [app_done]: the signal context is done; [listening]: the server has a listener;
    [opened]: it has had one; [drained]: [Shutdown] has closed every connection.
    [signalled] is a ghost: a signal has come. *)
Record process (E : Type) := MkProcess {
  web : site E;
  at_main : main_pc;
  at_server : server_pc;
  at_probe : probe_pc;
  serverError : channel goerror;
  app_done : bool;
  inShutdown : bool;
  listening : bool;
  opened : bool;
  drained : bool;
  defers : list deferred;
  logged : list run_log;
  signalled : bool;
}.
Arguments MkProcess {E} _ _ _ _ _ _ _ _ _ _ _ _ _.
Arguments web {E} _.
Arguments at_main {E} _.
Arguments at_server {E} _.
Arguments at_probe {E} _.
Arguments serverError {E} _.
Arguments app_done {E} _.
Arguments inShutdown {E} _.
Arguments listening {E} _.
Arguments opened {E} _.
Arguments drained {E} _.
Arguments defers {E} _.
Arguments logged {E} _.
Arguments signalled {E} _.

(** What the main goroutine waits for, or what a call returns to it. *)
Inductive main_choice := Proceed | FromSignal | FromServer | FromClose (err : option goerror) | AllIdle | Expired.

Inductive process_label (E : Type) :=
  | LMain (b : main_choice)
  | LServer (outcome : option goerror)
  | LProbe
  | LSignal
  | LRequest (k : nat) (r : request)
  | LGo (k : nat) (b : branch)
  | LDevice (e : E).
Arguments LMain {E} _.
Arguments LServer {E} _.
Arguments LProbe {E}.
Arguments LSignal {E}.
Arguments LRequest {E} _ _.
Arguments LGo {E} _ _.
Arguments LDevice {E} _.

Section Process.
Context {E : Type} `{Clock E, Gousb E, UsbHandles E, MapOrder, GousbText, TimeText, UUID}.
Context (cfg : Config) (startedAt : Z) (other : handler (W := oracle)).

Abbreviation process := (process E).
Implicit Types p : process.

Definition goto (pc : main_pc) p : process :=
  MkProcess (web p) pc (at_server p) (at_probe p) (serverError p) (app_done p) (inShutdown p) (listening p)
    (opened p) (drained p) (defers p) (logged p) (signalled p).
Definition serve_to (pc : server_pc) p : process :=
  MkProcess (web p) (at_main p) pc (at_probe p) (serverError p) (app_done p) (inShutdown p) (listening p)
    (opened p) (drained p) (defers p) (logged p) (signalled p).
Definition probe_to (pc : probe_pc) p : process :=
  MkProcess (web p) (at_main p) (at_server p) pc (serverError p) (app_done p) (inShutdown p) (listening p)
    (opened p) (drained p) (defers p) (logged p) (signalled p).
Definition set_web (s : site E) p : process :=
  MkProcess s (at_main p) (at_server p) (at_probe p) (serverError p) (app_done p) (inShutdown p) (listening p)
    (opened p) (drained p) (defers p) (logged p) (signalled p).
Definition set_channel (c : channel goerror) p : process :=
  MkProcess (web p) (at_main p) (at_server p) (at_probe p) c (app_done p) (inShutdown p) (listening p)
    (opened p) (drained p) (defers p) (logged p) (signalled p).
Definition cancel_app p : process :=
  MkProcess (web p) (at_main p) (at_server p) (at_probe p) (serverError p) true (inShutdown p) (listening p)
    (opened p) (drained p) (defers p) (logged p) (signalled p).
Definition signal_app p : process :=
  MkProcess (web p) (at_main p) (at_server p) (at_probe p) (serverError p) true (inShutdown p) (listening p)
    (opened p) (drained p) (defers p) (logged p) true.
Definition set_http (down listens open drain : bool) p : process :=
  MkProcess (web p) (at_main p) (at_server p) (at_probe p) (serverError p) (app_done p) down listens
    open drain (defers p) (logged p) (signalled p).
Definition set_defers (ds : list deferred) p : process :=
  MkProcess (web p) (at_main p) (at_server p) (at_probe p) (serverError p) (app_done p) (inShutdown p) (listening p)
    (opened p) (drained p) ds (logged p) (signalled p).
Definition defer (d : deferred) p : process := set_defers (d :: defers p) p.

(** [logger.Info] and [logger.Warn]: the handler drops what is below its level. *)
Definition log_messages (m : run_log) (ms : list run_log) : list run_log :=
  if minimum_level (newLogger cfg) <=? log_level m then ms ++ [m] else ms.
Definition emit (m : run_log) p : process :=
  MkProcess (web p) (at_main p) (at_server p) (at_probe p) (serverError p) (app_done p) (inShutdown p) (listening p)
    (opened p) (drained p) (defers p) (log_messages m (logged p)) (signalled p).

Definition hardware_of p : Ch341Transport E := tr (bus (parts (web p))).
Definition time p : Z := at_time (parts (web p)).

Definition set_engine (g : engine E) p : process := set_web (set_parts g (web p)) p.

(** [run] once the parts are built. *)
Definition run_start (parts : program E) : process :=
  MkProcess
    (MkSite (MkEngine (service parts) (driver_address parts) (MkTState (ch341 parts) unlocked ∅) ∅ [])
      ∅ [] (recents parts) [])
    MNotify SNone NoProbe (make_channel goerror 1) false false false false false [DeferClose]
    (if String.eqb (BearerToken cfg) "" then log_messages AuthenticationDisabled [] else []) false.

(** The connection of a request that has been answered is idle; the probe has none. *)
Definition resting (c : conn) : bool := match c with Probing => true | c => served c end.

Definition quiescent p : bool := forallb (fun kc => resting kc.2) (map_to_list (conns (web p))).

(** [ch341.Close] waits for its two mutexes, so for a transfer in flight. *)
Definition run_deferred (d : deferred) p : progress process :=
  match d with
  | DeferShutdownCancel => Now p
  | DeferCancel => Now (cancel_app p)
  | DeferClose =>
      match mu (bus (parts (web p))) with
      | Mutexes None None =>
          match engine_close (parts (web p)) with
          | Some (_, g) => Now (set_engine g p)
          | None => Crash
          end
      | _ => Blocked
      end
  end.

Definition graceful (err : goerror) : option goerror := Some (WrapError "graceful shutdown: " err "").

(** [Shutdown] notes that the server is shutting down, closes its listener, waits
    until the loop that serves has returned, whatever the deadline, and then polls
    until all connections are idle or the deadline is over. *)
Definition main_action (b : main_choice) p : progress process :=
  match at_main p, b with
  | MNotify, Proceed => Now (goto MGoProbe (defer DeferCancel p))
  | MGoProbe, Proceed => Now (goto MGoServe (probe_to ProbeReady p))
  | MGoServe, Proceed => Now (goto MSelect (serve_to SLogging p))
  | MSelect, FromSignal =>
      if app_done p then Now (goto MWithTimeout (emit ShutdownRequested p)) else Blocked
  | MSelect, FromServer =>
      match receive (serverError p) with
      | Now (Some err, c) => Now (goto (MReturn (Some (WrapError "HTTP server: " err ""))) (set_channel c p))
      | Now (None, c) => Now (goto MWithTimeout (set_channel c p))
      | Crash => Crash
      | Blocked => Blocked
      end
  | MWithTimeout, Proceed => Now (goto (MShutdown (time p + shutdownTimeout)) (defer DeferShutdownCancel p))
  | MShutdown deadline, Proceed =>
      Now (goto (MCloseListeners deadline) (set_http true (listening p) (opened p) (drained p) p))
  | MCloseListeners deadline, FromClose err =>
      Now (goto (MWaitServe deadline (if listening p then err else None))
             (set_http (inShutdown p) false (opened p) (drained p) p))
  | MWaitServe deadline lnerr, Proceed =>
      match at_server p with
      | SAccepting => Blocked
      | _ => Now (goto (MPolling deadline lnerr) p)
      end
  | MPolling deadline lnerr, AllIdle =>
      if quiescent p then
        let p := set_http (inShutdown p) (listening p) (opened p) true p in
        match lnerr with
        | Some err => Now (goto (MReturn (graceful err)) p)
        | None => Now (goto (MReturn None) (emit ServerStopped p))
        end
      else Blocked
  | MPolling deadline lnerr, Expired =>
      if deadline <=? time p then Now (goto (MReturn (graceful (SentinelError DeadlineExceeded))) p) else Blocked
  | MReturn err, Proceed =>
      match defers p with
      | [] => Now (goto (MExited err) p)
      | d :: rest => run_deferred d (set_defers rest p)
      end
  | _, _ => Blocked
  end.

(** [outcome] is what the call of [net] in progress returns. *)
Definition server_action (outcome : option goerror) p : progress process :=
  match at_server p, outcome with
  | SLogging, None => Now (serve_to SListenAndServe (emit (server_start cfg) p))
  | SListenAndServe, None =>
      Now (serve_to (if inShutdown p then SServed ErrServerClosed else SListening) p)
  | SListening, Some err => Now (serve_to (SServed (ServeError err)) p)
  | SListening, None => Now (serve_to STracking p)
  | STracking, None =>
      if inShutdown p then Now (serve_to (SServed ErrServerClosed) p)
      else Now (serve_to SAccepting (set_http (inShutdown p) true true (drained p) p))
  | SAccepting, Some err =>
      Now (serve_to (SServed (if inShutdown p then ErrServerClosed else ServeError err))
             (set_http (inShutdown p) false (opened p) (drained p) p))
  | SServed (ServeError err), None =>
      match send err (serverError p) with
      | Now c => Now (serve_to (SClosing (Some err)) (set_channel c p))
      | Crash => Crash
      | Blocked => Blocked
      end
  | SServed ErrServerClosed, None => Now (serve_to (SClosing None) p)
  | SClosing sent, None =>
      match close (serverError p) with
      | Now c => Now (serve_to (SEnd sent) (set_channel c p))
      | Crash => Crash
      | Blocked => Blocked
      end
  | _, _ => Blocked
  end.

(** Whether the [select] of goroutine [k] can take the branch [b]: the probe's
    context is done when the signal context is, or four seconds after its start; a
    request's is cancelled when its client goes. *)
Definition branch_may_be (k : nat) (b : branch) p : bool :=
  match b with
  | BranchDone cancelled =>
      match at_probe p with
      | ProbeRunning k' deadline =>
          if (k =? k')%nat then (if cancelled then app_done p else deadline <=? time p) else cancelled
      | _ => cancelled
      end
  | _ => true
  end.

Definition on_web (o : option (site E)) p : progress process :=
  match o with Some s => Now (set_web s p) | None => Blocked end.

Abbreviation site_at := (site_step (BearerToken cfg) startedAt other).

(** Not taken by any goroutine. *)
Definition free_number p : nat := fresh (dom (conns (web p)) ∪ dom (threads (core (parts (web p))))).

(** Nothing happens after [main] has returned. *)
Definition exited p : bool := match at_main p with MExited _ => true | _ => false end.

Definition process_step (l : process_label E) p : progress process :=
  if exited p then Blocked
  else
    match l with
    | LMain b => main_action b p
    | LServer outcome => server_action outcome p
    | LProbe =>
        match at_probe p with
        | ProbeReady =>
            on_web (site_at (Probe (free_number p)) (web p))
              (probe_to (ProbeRunning (free_number p) (time p + probeTimeout)) p)
        | _ => Blocked
        end
    | LSignal => if bool_decide (DeferCancel ∈ defers p) then Now (signal_app p) else Blocked
    | LRequest k r => if opened p && negb (drained p) then on_web (site_at (Accept k r) (web p)) p else Blocked
    | LGo k b =>
        if branch_may_be k b p then on_web (site_at (Go k b) (web p)) p else Blocked
    | LDevice e => on_web (site_at (Change e) (web p)) p
    end.

Fixpoint process_run (ls : list (process_label E)) p : progress process :=
  match ls with
  | [] => Now p
  | l :: ls => match process_step l p with Now p => process_run ls p | Crash => Crash | Blocked => Blocked end
  end.

(** The status of the process, when it has ended. *)
Definition exit_status p : option Z :=
  match at_main p with MExited None => Some 0 | MExited (Some _) => Some 1 | _ => None end.
End Process.
