(* ===== verification/ProcessInv.v ===== *)
(** * The invariant of the running process

    The goroutines of [run] agree on the channel, the server and the deferred
    calls, and the requests keep their invariant; once the transport has been
    closed it stays closed, and no call opens the device any more. *)

From S2P Require Import Prelude Errors Text Config ConfigProps Effects Usb Ch341 Ch341Ops Ch341Steps Ch341Inter Ch341Link.
From S2P Require Import Ch341Errors Driver Service ServiceInv ServiceProps Recent SignRequest Health Http HttpInv HttpProps.
From S2P Require Import Stack Engine EngineInv Machine Site SiteInv SiteProps Main Process.

Open Scope string_scope.
Open Scope list_scope.
Open Scope Z_scope.

(** ** The parts of the invariant *)

(** [run] still waits in its [select], or has not come to it. *)
Definition waiting (pc : main_pc) : bool :=
  match pc with MNotify | MGoProbe | MGoServe | MSelect => true | _ => false end.

Definition returning (pc : main_pc) : bool := match pc with MReturn _ | MExited _ => true | _ => false end.

(** What the server goroutine has sent. *)
Definition reported (pc : server_pc) : option goerror :=
  match pc with SClosing sent | SEnd sent => sent | _ => None end.

(** [ListenAndServe] has returned [ErrServerClosed]. *)
Definition closed_down (pc : server_pc) : bool :=
  match pc with SServed ErrServerClosed | SClosing None | SEnd None => true | _ => false end.

Definition ended (pc : server_pc) : bool := match pc with SEnd _ => true | _ => false end.

(** The deferred calls that are left at [pc]. *)
Definition defers_at (pc : main_pc) (ds : list deferred) : Prop :=
  match pc with
  | MNotify => ds = [DeferClose]
  | MGoProbe | MGoServe | MSelect | MWithTimeout => ds = [DeferCancel; DeferClose]
  | MShutdown _ | MCloseListeners _ | MWaitServe _ _ | MPolling _ _ => ds = [DeferShutdownCancel; DeferCancel; DeferClose]
  | MReturn _ => ds `suffix_of` [DeferShutdownCancel; DeferCancel; DeferClose]
  | MExited _ => ds = []
  end.

(** The deadline of [Shutdown]'s context. *)
Definition deadline_at (pc : main_pc) : option Z :=
  match pc with
  | MShutdown deadline | MCloseListeners deadline | MWaitServe deadline _ | MPolling deadline _ => Some deadline
  | _ => None
  end.

Section Invariant.
Context {E : Type} `{Clock E, Gousb E, UsbHandles E, !ClockLaws E, !GousbLaws E, !GousbErrors E}.
Context `{MapOrder, GousbText, TimeText, UUID}.
Context (cfg : Config).

Abbreviation process := (process E).
Implicit Types p : process.

(** Why [run] returns [err]. *)
Definition reason (err : option goerror) p : Prop :=
  match err with
  | None => signalled p = true /\ drained p = true
  | Some e =>
      (exists e0, e = WrapError "HTTP server: " e0 "" /\ reported (at_server p) = Some e0) \/
      (exists e0, e = WrapError "graceful shutdown: " e0 "" /\ signalled p = true /\
        (e0 = SentinelError DeadlineExceeded \/ drained p = true))
  end.

Definition all_resting p : Prop := forall k c, conns (web p) !! k = Some c -> resting c = true.

Record process_inv p : Prop := {
  p_web : site_inv (BearerToken cfg) (web p);
  p_closed : DeferClose ∉ defers p -> closed (hardware_of p) = true;
  p_deadline deadline : deadline_at (at_main p) = Some deadline -> deadline <= time p + 10 * Second;
  p_room : room (serverError p) = 1%nat;
  p_shut : shut (serverError p) = ended (at_server p);
  p_buffer : buffer (serverError p) = option_list (reported (at_server p)) \/
    (buffer (serverError p) = [] /\ waiting (at_main p) = false);
  p_closed_down : closed_down (at_server p) = true -> inShutdown p = true;
  p_early : match at_main p with MNotify | MGoProbe | MGoServe => at_server p = SNone | _ => True end;
  p_down : match at_main p with MWithTimeout | MShutdown _ => inShutdown p = false | pc =>
    waiting pc = true -> inShutdown p = false end;
  p_defers : defers_at (at_main p) (defers p);
  p_reason : match at_main p with
    | MWithTimeout | MShutdown _ | MCloseListeners _ | MWaitServe _ _ | MPolling _ _ => signalled p = true
    | MReturn err | MExited err => reason err p
    | _ => True
    end;
  p_signalled : app_done p = true -> signalled p = true \/ returning (at_main p) = true;
  p_drained : drained p = true -> all_resting p;
}.

Lemma quiescent_spec p : quiescent p = true <-> all_resting p.
Proof.
  unfold quiescent, all_resting. rewrite forallb_forall. split.
  - intros Hall k c Hk. apply (Hall (k, c)). by apply list_elem_of_In, elem_of_map_to_list.
  - intros Hall [k c] Hin%list_elem_of_In%elem_of_map_to_list. by eapply Hall.
Qed.

(** The site moves on, and the time with it. *)
Lemma moved_on p st :
  process_inv p -> site_moved (web p) st ->
  (DeferClose ∉ defers p -> closed (hardware_of (set_web st p)) = true) /\
  (forall deadline, deadline_at (at_main p) = Some deadline -> deadline <= time (set_web st p) + 10 * Second).
Proof.
  intros Hinv [Ht _ Hc]. split; [intros Hd; by apply Hc, (p_closed p Hinv)|].
  intros deadline Hd. pose proof (p_deadline p Hinv deadline Hd). unfold time in *. cbn. lia.
Qed.

(** [Close], once no call holds a mutex. *)
Lemma close_spec p :
  site_inv (BearerToken cfg) (web p) -> mu (bus (parts (web p))) = unlocked ->
  exists err g, engine_close (parts (web p)) = Some (err, g) /\
    site_inv (BearerToken cfg) (web (set_engine g p)) /\ closed (hardware_of (set_engine g p)) = true /\
    time p <= time (set_engine g p).
Proof.
  intros Hw Hmu. destruct (engine_close_ok _ (v_engine _ _ Hw) Hmu) as (err & g & Heq & Hg & Hwork & Hc).
  exists err, g. split; [done|]. split; [by apply site_inv_parts; [|..|destruct Hwork]|]. split; [done|].
  by destruct Hwork.
Qed.

Lemma closed_no_handles p :
  site_inv (BearerToken cfg) (web p) -> closed (hardware_of p) = true -> handles (context (hardware_of p)) = ∅.
Proof.
  intros Hw Hc. pose proof (tinv_transport _ (g_bus _ (v_engine _ _ Hw))) as Ht.
  unfold hardware_of in *. rewrite (inv_handles _ Ht). by rewrite (sh_closed _ _ Ht Hc).
Qed.
End Invariant.
