(* ===== verification/ProcessProps.v ===== *)
(** * Every step of the process keeps its invariant

    [run] and the serving goroutine do not panic: [serverError] is closed once,
    after its last use, and [Close] is called once. *)

From S2P Require Import Prelude Errors Text Config ConfigProps Effects Usb Ch341 Ch341Ops Ch341Steps Ch341Link.
From S2P Require Import Ch341Errors Driver Service ServiceInv ServiceProps Recent SignRequest Health Http HttpInv HttpProps.
From S2P Require Import Stack Engine EngineInv Machine Site SiteInv SiteProps Main Process ProcessInv.

Open Scope string_scope.
Open Scope list_scope.
Open Scope Z_scope.

Section Kept.
Context {E : Type} `{Clock E, Gousb E, UsbHandles E, !ClockLaws E, !GousbLaws E, !GousbErrors E}.
Context `{MapOrder, GousbText, TimeText, UUID}.
Context (cfg : Config) (startedAt : Z) (other : handler (W := oracle)).

Abbreviation process := (process E).
Abbreviation inv := (process_inv cfg).
Implicit Types p : process.

(** An action that happens leaves the invariant; none panics. *)
Definition kept (o : progress process) : Prop :=
  match o with Now p => inv p | Blocked => True | Crash => False end.

Lemma reason_kept err p p' :
  reason err p -> at_server p' = at_server p -> signalled p' = true \/ signalled p' = signalled p ->
  drained p' = drained p -> reason err p'.
Proof.
  intros Hr Hs Ha Hd. unfold reason in *. rewrite Hs, Hd. destruct err as [e|].
  - destruct Hr as [?|(e0 & -> & Happ & Hw)]; [by left|]. right. exists e0. split_and!; try done. destruct Ha; congruence.
  - destruct Hr. split; [|done]. destruct Ha; congruence.
Qed.

Lemma suffix_defers ds :
  ds `suffix_of` [DeferShutdownCancel; DeferCancel; DeferClose] ->
  ds = [] \/ ds = [DeferClose] \/ ds = [DeferCancel; DeferClose] \/
  ds = [DeferShutdownCancel; DeferCancel; DeferClose].
Proof.
  intros [l Hl]. destruct l as [|? [|? [|? l]]]; cbn in Hl; simplify_eq; auto.
  destruct l; [|done]. by left.
Qed.

(** The fields that the action leaves alone. *)
Ltac unchanged Hpc := constructor; cbn; rewrite ?Hpc in *; try done.

Lemma deferred_inv err p :
  inv p -> at_main p = MReturn err -> kept (main_action cfg Proceed p).
Proof.
  intros Hinv Hpc. pose proof Hinv as [Hw Hopen Hdl Hroom Hshut Hbuf Hcl Hearly Hdown Hdef Hwhy Hsig Hdr].
  unfold main_action. rewrite Hpc in *. cbn [waiting] in *.
  destruct (suffix_defers _ Hdef) as [Hds|[Hds|[Hds|Hds]]]; rewrite Hds; cbn [run_deferred kept].
  - unchanged Hpc.
  - destruct (mu (bus (parts (web (set_defers [] p))))) as [[?|] [?|]] eqn:Hmu; try done.
    destruct (close_spec cfg (set_defers [] p)) as (e & g & -> & Hg & Hcg & _); [done..|].
    unchanged Hpc. apply suffix_nil.
  - unchanged Hpc.
    + intros Hno. destruct Hno. by left.
    + by exists [DeferShutdownCancel; DeferCancel].
    + intros _. by right.
  - unchanged Hpc.
    + intros Hno. destruct Hno. right. by left.
    + by exists [DeferShutdownCancel].
Qed.

(** The [select] of [run] on [serverError]. *)
Lemma select_inv p :
  inv p -> at_main p = MSelect -> kept (main_action cfg FromServer p).
Proof.
  intros Hinv Hpc. pose proof Hinv as [Hw Hopen Hdl Hroom Hshut Hbuf Hcl Hearly Hdown Hdef Hwhy Hsig Hdr].
  unfold main_action, receive. rewrite Hpc in *. cbn [waiting] in *.
  destruct Hbuf as [Hbuf|[_ ?]]; [|done].
  destruct (reported (at_server p)) as [e|] eqn:Hrep; rewrite Hbuf; cbn [option_list kept].
  - unchanged Hpc; [by right|rewrite Hdef; by exists [DeferShutdownCancel]| |by right].
    left. by exists e.
  - destruct (shut (serverError p)) eqn:Hs; [|done]. exfalso.
    assert (Hend : closed_down (at_server p) = true) by by destruct (at_server p) as [| | | | | | | |[|]].
    rewrite (Hdown eq_refl) in Hcl. by apply Hcl in Hend.
Qed.

Lemma main_inv b p : inv p -> kept (main_action cfg b p).
Proof.
  intros Hinv. destruct (at_main p) eqn:Hpc.
  10: { destruct b; try (unfold main_action; by rewrite Hpc). by eapply deferred_inv. }
  all: destruct b; try (unfold main_action; by rewrite Hpc); try by apply select_inv.
  all: pose proof Hinv as [Hw Hopen Hdl Hroom Hshut Hbuf Hcl Hearly Hdown Hdef Hwhy Hsig Hdr].
  all: unfold main_action; rewrite Hpc in *; cbn [waiting kept] in *.
  all: cbn [defers_at] in Hdef; try (unchanged Hpc; by rewrite ?Hdef).
  - (* the signal context *)
    unchanged Hpc; [|by rewrite Hdef]. intros Hno. destruct Hno. rewrite Hdef. right. by left.
  - (* the server starts *)
    rewrite Hearly in *. cbn in *. unchanged Hpc.
  - destruct (app_done p) eqn:Happ; [|done]. cbn.
    destruct Hbuf as [Hbuf|[_ ?]]; [|done]. destruct (Hsig eq_refl) as [Hs|]; [|done].
    unchanged Hpc; [by left|by apply Hdown|by left].
  - (* the deadline *)
    unchanged Hpc; [| |by rewrite Hdef].
    + intros Hno. destruct Hno. rewrite Hdef. set_solver.
    + intros deadline [= <-]. unfold time. cbn. unfold shutdownTimeout. lia.
  - (* the serving loop has returned *)
    destruct (at_server p) eqn:Hsv; cbn [kept]; try done; unchanged Hpc; by rewrite ?Hsv.
  - (* every connection is closed *)
    destruct (quiescent p) eqn:Hq; [|done]. apply quiescent_spec in Hq.
    destruct lnerr as [err|]; cbn [kept]; unchanged Hpc; try (by rewrite Hdef); try (by right).
    right. exists err. auto.
  - (* the time is over *)
    destruct (deadline <=? time p); [|done]. unchanged Hpc; [by rewrite Hdef| |by right].
    right. eexists. split_and!; [done..|]. by left.
Qed.

(** ** The goroutine that serves *)

(** Where [run] is does not matter to the server. *)
Lemma server_moves pc c down l o lg p :
  inv p -> down = inShutdown p -> at_server p <> SNone ->
  reported (at_server p) = None \/ reported pc = reported (at_server p) ->
  room c = 1%nat -> shut c = ended pc ->
  buffer c = option_list (reported pc) \/ buffer c = [] /\ waiting (at_main p) = false ->
  (closed_down pc = true -> inShutdown p = true) ->
  inv (MkProcess (web p) (at_main p) pc (at_probe p) c (app_done p) down l o (drained p) (defers p) lg (signalled p)).
Proof.
  intros Hinv -> Hne Hrep Hr Hs Hb Hc. pose proof Hinv as [Hw Hopen Hdl Hroom Hshut Hbuf Hcl Hearly Hdown Hdef Hwhy Hsig Hdr].
  constructor; cbn; try done.
  - destruct (at_main p); by (destruct (Hne Hearly) || done).
  - assert (Hreason : forall err, reason err p -> reason err
      (MkProcess (web p) (at_main p) pc (at_probe p) c (app_done p) (inShutdown p) l o (drained p) (defers p) lg (signalled p))).
    { intros [e|]; [|done]. intros [(e0 & -> & He)|?]; [|by right]. left. exists e0. split; [done|].
      cbn. destruct Hrep; congruence. }
    destruct (at_main p); auto.
Qed.

Lemma server_inv outcome p : inv p -> kept (server_action cfg outcome p).
Proof.
  intros Hinv. pose proof Hinv as [Hw Hopen Hdl Hroom Hshut Hbuf Hcl Hearly Hdown Hdef Hwhy Hsig Hdr].
  unfold server_action. destruct (at_server p) as [| | | | | |[|err]|sent|sent] eqn:Hpc, outcome as [e|]; try done;
    cbn [kept reported closed_down ended option_list] in *.
  all: try (apply (server_moves _ _ _ _ _ _ p); rewrite ?Hpc; cbn; by auto).
  - destruct (inShutdown p) eqn:Hs; apply (server_moves _ _ _ _ _ _ p); rewrite ?Hpc; cbn; by auto.
  - destruct (inShutdown p) eqn:Hs; cbn [kept]; apply (server_moves _ _ _ _ _ _ p); rewrite ?Hpc; cbn; by auto.
  - destruct (inShutdown p) eqn:Hs; cbn [kept]; apply (server_moves _ _ _ _ _ _ p); rewrite ?Hpc; cbn; by auto.
  - assert (Hempty : buffer (serverError p) = []) by by destruct Hbuf as [|[]].
    unfold send. rewrite Hshut, Hempty, Hroom. cbn. apply (server_moves _ _ _ _ _ _ p); rewrite ?Hpc; cbn; auto.
  - unfold close. rewrite Hshut. cbn. apply (server_moves _ _ _ _ _ _ p); rewrite ?Hpc; cbn; auto.
Qed.

(** ** Requests, the probe, the system *)

Definition web_resting (st : site E) : Prop := forall k c, conns st !! k = Some c -> resting c = true.

Lemma web_moves st pp p :
  inv p -> site_inv (BearerToken cfg) st -> site_moved (web p) st -> (drained p = true -> web_resting st) ->
  inv (set_web st (probe_to pp p)).
Proof.
  intros Hinv Hst Hm Hdr. destruct (moved_on cfg p st Hinv Hm) as [Hc Hd].
  destruct Hinv. by constructor.
Qed.

Lemma probe_same p : probe_to (at_probe p) p = p.
Proof. by destruct p. Qed.

(** Requests that rest go on resting; the probe may end. *)
Lemma go_resting k b st st' :
  web_resting st -> conn_step (BearerToken cfg) startedAt other k b st = Some st' -> web_resting st'.
Proof.
  intros Hr. unfold conn_step. destruct (conns st !! k) as [c|] eqn:Hk; [|done].
  pose proof (Hr k c Hk) as Hc. destruct c as [r|r t|r t q|r t|r t a|r t w s|r w| |o]; try done.
  assert (Hset : forall o, web_resting (set_conn k (Probed o) st)).
  { intros o j c'. cbn. intros [[<- <-]|[_ Hj]]%lookup_insert_Some; [done|by eapply Hr]. }
  destruct (threads (core (parts st)) !! k) as [[| | | | | | | | | | |c [rc|rs|[major|err]]]|];
    try (destruct (engine_step k b (parts st)) as [s|]; [|done]; intros [= <-]; exact Hr);
    by intros [= <-].
Qed.

Definition process_allowed (l : process_label E) p : Prop :=
  match l with
  | LRequest _ r => known_path (req_Path r) = true
  | LDevice e => handles e = handles (context (hardware_of p)) /\ now (context (hardware_of p)) <= now e
  | _ => True
  end.

(** A step of the site. *)
Lemma web_inv l pp p :
  inv p -> label_allowed l (web p) ->
  (forall st, site_step (BearerToken cfg) startedAt other l (web p) = Some st -> drained p = true ->
    web_resting (web p) -> web_resting st) ->
  kept (on_web (site_step (BearerToken cfg) startedAt other l (web p)) (probe_to pp p)).
Proof.
  intros Hinv Hl Hrest. unfold on_web. destruct (site_step _ _ _ l (web p)) as [st|] eqn:Hs; [|done].
  destruct (site_step_spec _ _ _ l _ _ (p_web _ _ Hinv) Hl Hs) as [Hst Hm].
  apply web_moves; [done..|]. intros Hd. by apply Hrest, (p_drained _ _ Hinv Hd).
Qed.

Lemma step_inv l p : inv p -> process_allowed l p -> kept (process_step cfg startedAt other l p).
Proof.
  intros Hinv Hl. unfold process_step. destruct (exited p); [done|]. destruct l as [b|outcome| | |k r|k b|e].
  - by apply main_inv.
  - by apply server_inv.
  - destruct (at_probe p); try done. apply web_inv; [done..|]. intros st Hs _ Hr.
    cbn [site_step] in Hs. destruct (fresh_conn _ _); [|done]. destruct (engine_start _ _ _); [|done].
    injection Hs as <-. intros j c. cbn. intros [[<- <-]|[_ Hj]]%lookup_insert_Some; [done|by eapply Hr].
  - destruct (bool_decide _); [|done]. destruct Hinv as [Hw Hopen Hdl Hroom Hshut Hbuf Hcl Hearly Hdown Hdef Hwhy Hsig Hdr].
    constructor; cbn; try done; [|by left].
    destruct (at_main p); try done; (eapply reason_kept; [exact Hwhy|done|by left|done]).
  - destruct (opened p && negb (drained p)) eqn:Ho; [|done]. apply andb_prop in Ho as [_ Hd%negb_true_iff].
    rewrite <- (probe_same p) at 2. apply web_inv; [done..|]. congruence.
  - destruct (branch_may_be _ _ _); [|done]. rewrite <- (probe_same p) at 2. apply web_inv; [done..|].
    intros st Hs _ Hr. by eapply go_resting.
  - rewrite <- (probe_same p) at 2. apply web_inv; [done..|]. intros st Hs _ Hr. by injection Hs as <-.
Qed.

(** The states of the process, from a start with the program's parts. *)
Inductive process_reach : process -> Prop :=
  | process_new parts t : transport_inv (ch341 parts) -> 0 <= driver_address parts ->
      Main.service parts = init t -> t <= now (context (ch341 parts)) -> represents (recents parts) [] ->
      process_reach (run_start cfg parts)
  | process_next p l p' : process_reach p -> process_allowed l p ->
      process_step cfg startedAt other l p = Now p' -> process_reach p'.

Lemma process_reach_inv p : process_reach p -> inv p.
Proof.
  induction 1 as [parts t Ht Ha Hs Hle Hr|p l p' _ IH Hl Hs].
  - unfold run_start. constructor; cbn; try done; [| |by left].
    + apply (site_reach_inv _ startedAt other). constructor; [|done]. by exists t.
    + intros Hno. destruct Hno. by left.
  - pose proof (step_inv l p IH Hl) as Hk. by rewrite Hs in Hk.
Qed.
End Kept.
