(* ===== verification/ProcessLive.v ===== *)
(** * The process comes to its end

    Left to itself, without new requests, the process cannot go on for ever, and
    once the signal context is done it only stops where [run] has returned.  To get
    there after the shutdown's deadline [run] needs nothing of the requests but
    that a transfer that holds a mutex of the transport goes on. *)

From S2P Require Import Prelude Errors Text Config ConfigProps Effects Usb Ch341 Ch341Ops Ch341Steps Ch341Inter Ch341Link.
From S2P Require Import Ch341Errors Driver Service ServiceInv ServiceProps Recent SignRequest Health Http HttpInv HttpProps.
From S2P Require Import Stack Engine EngineInv Machine Site SiteInv SiteProps Main Process ProcessInv ProcessProps.
From Stdlib Require Import Relation_Operators Lexicographic_Product.

Open Scope string_scope.
Open Scope list_scope.
Open Scope Z_scope.

Section Live.
Context {E : Type} `{Clock E, Gousb E, UsbHandles E, !ClockLaws E, !GousbLaws E, !GousbErrors E}.
Context `{MapOrder, GousbText, TimeText, UUID}.
Context (cfg : Config) (startedAt : Z) (other : handler (W := oracle)).

Abbreviation process := (process E).
Abbreviation step := (process_step cfg startedAt other).
Abbreviation inv := (process_inv cfg).
Implicit Types p : process.

(** What the process does by itself: not a new request, a signal or the device. *)
Definition own_label (l : process_label E) : bool :=
  match l with LMain _ | LServer _ | LProbe | LGo _ _ => true | LSignal | LRequest _ _ | LDevice _ => false end.

Definition process_goes p' p : Prop := exists l, own_label l = true /\ step l p = Now p'.

(** What [run] cannot do without: its own actions, the serving goroutine's, and
    those of a goroutine that holds a mutex of the transport. *)
Definition needed (l : process_label E) p : Prop :=
  match l with
  | LMain _ | LServer _ => True
  | LGo k b => b = BranchToken /\ has_mutex k (mu (bus (parts (web p))))
  | _ => False
  end.

Definition end_goes p' p : Prop := exists l, needed l p /\ step l p = Now p'.

Lemma end_process p p' : end_goes p' p -> process_goes p' p.
Proof. intros (l & Hl & Hs). exists l. split; [by destruct l|done]. Qed.

Lemma own_allowed l p : own_label l = true -> process_allowed l p.
Proof. by destruct l. Qed.

Lemma goes_inv p p' : inv p -> process_goes p' p -> inv p'.
Proof.
  intros Hinv (l & Hl & Hs). pose proof (step_inv cfg startedAt other l p Hinv (own_allowed l p Hl)) as Hk.
  by rewrite Hs in Hk.
Qed.

(** ** What is left to do *)

Definition main_rank (pc : main_pc) (ds : list deferred) : nat :=
  match pc with
  | MNotify => 13 | MGoProbe => 12 | MGoServe => 11 | MSelect => 10 | MWithTimeout => 9
  | MShutdown _ => 8 | MCloseListeners _ => 7 | MWaitServe _ _ => 6 | MPolling _ _ => 5
  | MReturn _ => 1 + length ds
  | MExited _ => 0
  end.

Definition server_rank (pc : server_pc) : nat :=
  match pc with
  | SNone => 8 | SLogging => 7 | SListenAndServe => 6 | SListening => 5 | STracking => 4 | SAccepting => 3
  | SServed _ => 2 | SClosing _ => 1 | SEnd _ => 0
  end.

Definition probe_rank (pc : probe_pc) : nat := match pc with ProbeReady => 1 | _ => 0 end.

(** [run] and the server first, then the startup probe's start, then the requests. *)
Definition process_measure p : nat * (nat * gmap nat (measure (E := E))) :=
  ((main_rank (at_main p) (defers p) + server_rank (at_server p))%nat, (probe_rank (at_probe p), measures (web p))).

Definition process_below := slexprod nat (nat * gmap nat (measure (E := E))) lt (slexprod _ _ lt (at_key measure_below)).

Lemma process_below_wf : well_founded process_below.
Proof.
  apply wf_slexprod; [apply lt_wf|]. apply wf_slexprod; [apply lt_wf|]. intros m. apply at_key_wf, measure_below_wf.
Qed.

Lemma main_down b p p' :
  inv p -> main_action cfg b p = Now p' ->
  (main_rank (at_main p') (defers p') + server_rank (at_server p')
    < main_rank (at_main p) (defers p) + server_rank (at_server p))%nat.
Proof.
  intros Hinv. pose proof (p_defers _ _ Hinv) as Hd. pose proof (p_early _ _ Hinv) as Hearly. unfold main_action.
  destruct (at_main p) eqn:Hpc, b; try done; cbn [defers_at main_rank] in *;
    try (intros [= <-]; cbn; rewrite ?Hearly; cbn; lia).
  - destruct (app_done p); [|done]. intros [= <-]. cbn. lia.
  - destruct (receive (serverError p)) as [| |[[e|] c]]; try done; intros [= <-]; cbn; rewrite ?Hd; cbn; lia.
  - destruct (at_server p) eqn:Hsv; try done; intros [= <-]; cbn; rewrite Hsv; cbn; lia.
  - destruct (quiescent p); [|done]. destruct lnerr; intros [= <-]; cbn; rewrite Hd; cbn; lia.
  - destruct (deadline <=? time p); [|done]. intros [= <-]. cbn. rewrite Hd. cbn. lia.
  - destruct (defers p) as [|[| |] rest]; cbn [run_deferred].
    + intros [= <-]. cbn. lia.
    + destruct (mu _) as [[?|] [?|]]; try done. destruct (engine_close _) as [[? ?]|]; [|done].
      intros [= <-]. cbn. rewrite Hpc. cbn. lia.
    + intros [= <-]. cbn. rewrite Hpc. cbn. lia.
    + intros [= <-]. cbn. rewrite Hpc. cbn. lia.
Qed.

(** The server's actions leave [run] and the requests alone. *)
Lemma server_down outcome p p' :
  server_action cfg outcome p = Now p' ->
  at_main p' = at_main p /\ defers p' = defers p /\ web p' = web p /\ app_done p' = app_done p /\
  (server_rank (at_server p') < server_rank (at_server p))%nat.
Proof.
  unfold server_action. destruct (at_server p) as [| | | | | |[|err]|sent|sent] eqn:Hpc, outcome as [e|]; try done;
    try (intros [= <-]; split_and!; done || (cbn; lia)).
  - intros [= <-]. destruct (inShutdown p); split_and!; done || (cbn; lia).
  - destruct (inShutdown p); intros [= <-]; split_and!; done || (cbn; lia).
  - destruct (send err (serverError p)) as [| |c]; try done. intros [= <-]. split_and!; done || (cbn; lia).
  - destruct (close (serverError p)) as [| |c]; try done. intros [= <-]. split_and!; done || (cbn; lia).
Qed.

Lemma on_web_now o p p' : on_web o p = Now p' -> exists st, o = Some st /\ p' = set_web st p.
Proof. unfold on_web. destruct o as [st|]; [|done]. intros [= <-]. by exists st. Qed.

Lemma goes_down p p' : inv p -> process_goes p' p -> process_below (process_measure p') (process_measure p).
Proof.
  intros Hinv (l & Hl & Hs). revert Hs. unfold process_step. destruct (exited p); [done|].
  destruct l as [b|outcome| | |k r|k b|e]; try done.
  - intros Hs. left. by eapply main_down.
  - intros (Hm & Hd & _ & _ & Hlt)%server_down. left. rewrite Hm, Hd. lia.
  - destruct (at_probe p) eqn:Hpr; try done. intros (st & _ & ->)%on_web_now. right. left. cbn. rewrite Hpr. cbn. lia.
  - destruct (branch_may_be k b p); [|done]. intros (st & Hs & ->)%on_web_now. right. right.
    by destruct (conn_step_spec _ _ _ k b _ _ (p_web _ _ Hinv) Hs) as (_ & _ & Hdown).
Qed.

Lemma process_goes_wf p : inv p -> Acc process_goes p.
Proof.
  remember (process_measure p) as m eqn:Hm. revert p Hm.
  induction (process_below_wf m) as [m _ IH]. intros p -> Hinv. constructor. intros p' Hg.
  eapply IH; [by apply goes_down|done|by eapply goes_inv].
Qed.

Lemma end_goes_wf p : inv p -> Acc end_goes p.
Proof.
  intros Hinv. induction (process_goes_wf p Hinv) as [p _ IH]. constructor. intros p' Hg%end_process.
  apply IH; [done|by eapply goes_inv].
Qed.

(** ** Something can be done *)

Lemma main_can b p p' : exited p = false -> main_action cfg b p = Now p' -> exists p', end_goes p' p.
Proof. intros He Ha. exists p', (LMain b). split; [done|]. unfold process_step. by rewrite He. Qed.

(** [run] polls, with time left, and a request is not answered. *)
Definition drains p : Prop :=
  exists deadline lnerr, at_main p = MPolling deadline lnerr /\ time p < deadline /\
    exists k c, conns (web p) !! k = Some c /\ resting c = false.

Lemma not_quiescent p : quiescent p = false -> exists k c, conns (web p) !! k = Some c /\ resting c = false.
Proof.
  intros Hq. destruct (decide (Exists (fun kc => resting kc.2 = false) (map_to_list (conns (web p))))) as [Hex|Hno].
  - apply Exists_exists in Hex as ([k c] & Hin%elem_of_map_to_list & Hc). by exists k, c.
  - apply not_true_iff_false in Hq. destruct Hq. apply forallb_forall. intros kc Hin.
    destruct (resting kc.2) eqn:Hr; [done|]. destruct Hno. apply Exists_exists. exists kc.
    split; [by apply list_elem_of_In|done].
Qed.

(** A goroutine that holds a mutex can go on. *)
Lemma holder_goes p :
  inv p -> exited p = false -> mu (bus (parts (web p))) <> unlocked -> exists p', end_goes p' p.
Proof.
  intros Hinv He Hmu. pose proof (p_web _ _ Hinv) as Hw.
  destruct (locked_acts _ (v_engine _ _ Hw) Hmu) as (j & Hhas & Hj & Hgo).
  destruct (engine_runs _ startedAt other j _ Hw Hj (Hgo BranchToken)) as [st Hst].
  exists (set_web st p), (LGo j BranchToken). split; [done|]. unfold process_step. rewrite He.
  cbn [branch_may_be]. unfold on_web. by rewrite Hst.
Qed.

(** The deferred calls. *)
Lemma returning_goes err p :
  inv p -> exited p = false -> at_main p = MReturn err -> exists p', end_goes p' p.
Proof.
  intros Hinv He Hpc. destruct (decide (mu (bus (parts (web p))) = unlocked)) as [Hmu|Hmu]; [|by apply holder_goes].
  pose proof (step_inv cfg startedAt other (LMain Proceed) p Hinv I) as Hk. unfold process_step in Hk. rewrite He in Hk.
  assert (Hgo : main_action cfg Proceed p <> Blocked).
  { unfold main_action. rewrite Hpc. destruct (defers p) as [|[| |] rest]; [done| |done..].
    cbn [run_deferred]. cbn. rewrite Hmu. cbn. by destruct (engine_close _) as [[? ?]|]. }
  destruct (main_action cfg Proceed p) as [| |p'] eqn:Ha; [done..|]. by eapply (main_can Proceed).
Qed.

Lemma main_ready p :
  inv p -> exited p = false -> (at_main p = MSelect -> app_done p = true) ->
  (exists p', end_goes p' p) \/ drains p.
Proof.
  intros Hinv Hex Happ. destruct (at_main p) as [| | | | |dl|dl|dl lnerr|dl lnerr|err|err] eqn:Hpc;
    try (by unfold exited in Hex; rewrite Hpc in Hex);
    try (left; eapply (main_can Proceed); [done|]; unfold main_action; by rewrite Hpc).
  - left. eapply (main_can FromSignal); [done|]. unfold main_action. by rewrite Hpc, Happ.
  - left. eapply (main_can (FromClose None)); [done|]. unfold main_action. by rewrite Hpc.
  - left. destruct (at_server p) eqn:Hsv; try (eapply (main_can Proceed); [done|]; unfold main_action; by rewrite Hpc, Hsv).
    eexists _, (LServer (Some (ErrorString "use of closed network connection"))). split; [done|].
    unfold process_step. rewrite Hex. unfold server_action. by rewrite Hsv.
  - destruct (Z.leb_spec dl (time p)) as [Hdl|Hdl].
    { left. eapply (main_can Expired); [done|]. unfold main_action. rewrite Hpc.
      by rewrite (proj2 (Z.leb_le _ _) Hdl). }
    destruct (quiescent p) eqn:Hq; [|right; exists dl, lnerr; split_and!; [done..|by apply not_quiescent]].
    left. destruct lnerr; (eapply (main_can AllIdle); [done|]; unfold main_action; by rewrite Hpc, Hq).
  - left. by eapply returning_goes.
Qed.

(** After the signal the process only stops where [run] has returned. *)
Lemma process_progress p :
  inv p -> app_done p = true -> exited p = false -> exists p', process_goes p' p.
Proof.
  intros Hinv Happ Hex. destruct (main_ready p Hinv Hex) as [[p' Hg]|(dl & ln & _ & _ & k & c & Hk & Hc)]; [done| |].
  { exists p'. by apply end_process. }
  destruct (site_progress _ startedAt other k c _ (p_web _ _ Hinv) Hk) as (st & j & Hs); [by destruct c|].
  exists (set_web st p), (LGo j BranchToken). split; [done|]. unfold process_step. rewrite Hex.
  cbn [branch_may_be]. unfold on_web. by rewrite Hs.
Qed.

Lemma goes_app_done p p' : process_goes p' p -> app_done p = true -> app_done p' = true.
Proof.
  intros (l & Hl & Hs) Happ. revert Hs. unfold process_step. destruct (exited p); [done|].
  destruct l as [b|outcome| | |k r|k b|e]; try done.
  - unfold main_action. destruct (at_main p), b; try done; try (by intros [= <-]); repeat case_match; try done;
      try (by intros [= <-]). destruct d; cbn [run_deferred]; try (by intros [= <-]).
    destruct (mu _) as [[?|] [?|]]; try done. destruct (engine_close _) as [[? ?]|]; [|done]. by intros [= <-].
  - by intros (_ & _ & _ & -> & _)%server_down.
  - destruct (at_probe p); try done. by intros (st & _ & ->)%on_web_now.
  - destruct (branch_may_be k b p); [|done]. by intros (st & _ & ->)%on_web_now.
Qed.

(** ** After the deadline *)

Definition late p : Prop :=
  returning (at_main p) = true \/ exists deadline, deadline_at (at_main p) = Some deadline /\ deadline <= time p.

Lemma late_goes p : inv p -> late p -> exited p = false -> exists p', end_goes p' p.
Proof.
  intros Hinv Hlate Hex. destruct (main_ready p Hinv Hex) as [?|(dl & ln & Hpc & Hlt & _)]; [|done|].
  - intros Hpc. destruct Hlate as [Hr|(d & Hd & _)]; rewrite Hpc in *; done.
  - destruct Hlate as [Hr|(d & Hd & Hle)]; rewrite Hpc in *; [done|]. injection Hd as <-. lia.
Qed.

Lemma late_kept p p' : inv p -> late p -> end_goes p' p -> late p'.
Proof.
  intros Hinv Hlate (l & Hl & Hs). revert Hs. unfold process_step. destruct (exited p); [done|].
  destruct l as [b|outcome| | |k r|k b|e]; try done.
  - unfold late in *. unfold main_action. destruct (at_main p) eqn:Hpc, b; try done; cbn [returning deadline_at] in Hlate;
      try (destruct Hlate as [?|(d & ? & ?)]; done);
      try (intros [= <-]; right; destruct Hlate as [?|(d & [= <-] & ?)]; [done|]; by eexists).
    + destruct (at_server p); try done; intros [= <-]; right; destruct Hlate as [?|(d & [= <-] & ?)]; try done; by eexists.
    + destruct (quiescent p); [|done]. destruct lnerr; intros [= <-]; by left.
    + destruct (deadline <=? time p); [|done]. intros [= <-]. by left.
    + destruct (defers p) as [|[| |] rest]; cbn [run_deferred]; try (intros [= <-]; left; cbn; by rewrite ?Hpc).
      destruct (mu _) as [[?|] [?|]]; try done. destruct (engine_close _) as [[? ?]|]; [|done].
      intros [= <-]; left; cbn; by rewrite ?Hpc.
  - intros (Hm & _ & Hw & _)%server_down. unfold late, time in *. by rewrite Hm, Hw.
  - destruct (branch_may_be k b p); [|done]. intros (st & Hs & ->)%on_web_now.
    destruct (conn_step_spec _ _ _ k b _ _ (p_web _ _ Hinv) Hs) as (_ & [Ht _ _] & _).
    destruct Hlate as [?|(d & Hd & Hle)]; [by left|]. right. exists d. split; [done|]. unfold time in *. cbn. lia.
Qed.

(** Whatever way it goes on, [run] has returned when it can go no further. *)
Lemma late_ends p p' :
  inv p -> late p -> rtc (fun a b => end_goes b a) p p' -> exited p' = true \/ exists p'', end_goes p'' p'.
Proof.
  intros Hinv Hlate Hrun. induction Hrun as [p|p p1 p' Hg Hrun IH].
  - destruct (exited p) eqn:Hex; [by left|right]. by apply late_goes.
  - apply IH; [by eapply goes_inv, end_process|by eapply late_kept].
Qed.

Lemma signalled_ends p p' :
  inv p -> app_done p = true -> rtc (fun a b => process_goes b a) p p' ->
  exited p' = true \/ exists p'', process_goes p'' p'.
Proof.
  intros Hinv Happ Hrun. induction Hrun as [p|p p1 p' Hg Hrun IH].
  - destruct (exited p) eqn:Hex; [by left|right]. by apply process_progress.
  - apply IH; [by eapply goes_inv|by eapply goes_app_done].
Qed.
End Live.
