(* ===== verification/ProcessClaims.v ===== *)
(** * How the process ends

    What an exit status means, that no channel is misused on the way, and that a signal
    brings [run] to its end. *)

From S2P Require Import Prelude Errors Text Config ConfigProps Effects Usb Ch341 Ch341Ops Ch341Steps Ch341Inter Ch341Link.
From S2P Require Import Ch341Errors Bus Bridge BridgeLaws Ch341Props Driver Service ServiceInv ServiceProps Recent.
From S2P Require Import SignRequest Health Http HttpInv HttpProps Stack Engine EngineInv Machine Site SiteInv SiteProps.
From S2P Require Import SiteClaims Main Process ProcessInv ProcessProps ProcessLive.

Open Scope string_scope.
Open Scope list_scope.
Open Scope Z_scope.

(** ** Claims *)


(** C18: a signal ends the program.  [Shutdown] gets ten seconds, no more and no
    less.  Without new requests the process cannot go on for ever; once the signal
    context is done, its goroutines and requests can always go on until [run] has
    returned, also when no time passes.  And when ten seconds more have passed [run]
    ends, whatever the requests do: nothing else is needed than its own actions, the
    serving goroutine's, and those of a goroutine that holds one of the transport's
    mutexes, so that the deferred [Close] gets them; these cannot go on for ever,
    and where none of them is possible any more [run] has returned. *)
Theorem shutdown_ends {E} `{Clock E, Gousb E, UsbHandles E, !ClockLaws E, !GousbLaws E, !GousbErrors E}
    `{MapOrder, GousbText, TimeText, UUID} (cfg : Config) startedAt other (p : process E) :
  process_reach cfg startedAt other p ->
  (forall p', at_main p = MWithTimeout -> process_step cfg startedAt other (LMain Proceed) p = Now p' ->
    at_main p' = MShutdown (time p + 10 * Second)) /\
  (forall deadline, deadline_at (at_main p) = Some deadline -> deadline <= time p + 10 * Second) /\
  Acc (process_goes cfg startedAt other) p /\
  (app_done p = true -> forall p', rtc (fun a b => process_goes cfg startedAt other b a) p p' ->
    exited p' = true \/ exists p'', process_goes cfg startedAt other p'' p') /\
  forall e p1, is_Some (deadline_at (at_main p)) -> process_allowed (LDevice e) p ->
    time p + 10 * Second <= now e -> process_step cfg startedAt other (LDevice e) p = Now p1 ->
    Acc (end_goes cfg startedAt other) p1 /\
    forall p2, rtc (fun a b => end_goes cfg startedAt other b a) p1 p2 ->
      exited p2 = true \/ exists p3, end_goes cfg startedAt other p3 p2.
Proof.
  intros Hinv%process_reach_inv. split; [|split; [|split; [|split]]].
  - intros p' Hpc. unfold process_step. destruct (exited p); [done|]. unfold main_action. rewrite Hpc. by intros [= <-].
  - apply (p_deadline _ _ Hinv).
  - by apply process_goes_wf.
  - intros Happ p'. by apply (signalled_ends cfg).
  - intros e p1 [deadline Hd] Hl Hle Hs.
    pose proof (step_inv cfg startedAt other (LDevice e) p Hinv Hl) as Hk. rewrite Hs in Hk.
    split; [by apply (end_goes_wf cfg)|]. intros p2. apply (late_ends cfg); [done|]. right. exists deadline.
    pose proof (p_deadline _ _ Hinv deadline Hd) as Hbound.
    unfold process_step in Hs. destruct (exited p); [done|]. apply on_web_now in Hs as (st & Hst & ->).
    injection Hst as <-. split; [done|]. transitivity (now e); [lia|done].
Qed.

(** ** Witnesses

    The chip behind the bridge; a sign request is being served when the signal
    comes, and the startup probe has not begun. *)
Section Running.
Context {E : Type} `{Clock E, Gousb E, UsbHandles E, MapOrder, GousbText, TimeText, UUID}.
Context (cfg : Config) (startedAt : Z) (other : handler (W := oracle)).

Definition plain_process_label (l : process_label E) : bool :=
  match l with LRequest _ r => known_path (req_Path r) | LDevice _ => false | _ => true end.

Lemma process_run_reach ls : forall p p', process_reach cfg startedAt other p ->
  forallb plain_process_label ls = true -> process_run cfg startedAt other ls p = Now p' ->
  process_reach cfg startedAt other p'.
Proof.
  induction ls as [|l ls IH]; intros p p' Hp Hls Hrun; cbn in Hls, Hrun; [by simplify_eq|].
  apply andb_prop in Hls as [Hl Hls]. destruct (process_step _ _ _ l p) as [| |p1] eqn:Hs; try done.
  apply (IH p1 p'); [|done|done]. apply (process_next _ _ _ p l); [done| |done]. by destruct l.
Qed.
End Running.

Definition toy_machine : host toy_chip := context (toy_transport []).

(** The program started with a bearer token. *)
Definition toy_config : Config :=
  match Parse ["--bearer-token"; "secret"] with inr (cfg, _) => cfg | inl _ => zero_config end.

Definition toy_start : process (host toy_chip) :=
  match main toy_machine 0 ["--bearer-token"; "secret"] with
  | Serving cfg parts => run_start cfg parts
  | _ => run_start zero_config (MkProgram (toy_transport []) 0 (init 0) empty_ring)
  end.

Definition one (k : nat) : process_label (host toy_chip) := LGo k BranchToken.

Definition to_polling (n : nat) : list (process_label (host toy_chip)) :=
  [LMain Proceed; LMain Proceed; LMain Proceed; LServer None; LServer None; LServer None; LServer None;
   LProbe; LRequest 7 sign_post] ++ replicate n (one 7) ++
  [LSignal; LMain FromSignal; LMain Proceed; LMain Proceed;
   LMain (FromClose None); LServer (Some (ErrorString "use of closed network connection")); LMain Proceed].


Definition toy_process (ls : list (process_label (host toy_chip))) : process (host toy_chip) :=
  match process_run toy_config 0 not_found ls toy_start with Now p => p | _ => toy_start end.

Lemma toy_start_reach : process_reach toy_config 0 not_found toy_start.
Proof.
  assert (Hp : Parse ["--bearer-token"; "secret"] = inr (toy_config, false)) by by vm_compute.
  destruct (initialise_accepted toy_machine 0 _ toy_config Hp ltac:(done)) as (parts & Hi & Ht & He & Ha & Hs & Hr).
  unfold toy_start, main. rewrite Hp, Hi. eapply (process_new _ _ _ parts 0); [done|lia|done| |done].
  by rewrite He.
Qed.

Lemma toy_process_reach ls :
  forallb plain_process_label ls = true -> process_reach toy_config 0 not_found (toy_process ls).
Proof.
  intros Hls. unfold toy_process. pose proof toy_start_reach as Hs.
  destruct (process_run _ _ _ ls toy_start) as [| |p] eqn:Hrun; [done..|]. by eapply (process_run_reach _ _ _ ls).
Qed.


(** The request hangs in a transfer; the ten seconds pass. *)
Definition polling : process (host toy_chip) := toy_process (to_polling 25).
Definition much_later : host toy_chip := sleep (10 * Second) (context (hardware_of polling)).
Definition overdue : process (host toy_chip) :=
  match process_step toy_config 0 not_found (LDevice much_later) polling with Now p => p | _ => polling end.

(** [Close] waits for the transfer, and gets the mutexes after it. *)
Example close_waits :
  match process_run toy_config 0 not_found [LMain Expired; LMain Proceed; LMain Proceed] overdue with
  | Now p =>
      process_step toy_config 0 not_found (LMain Proceed) p = Blocked /\
      match process_run toy_config 0 not_found (replicate 5 (one 7) ++ [LMain Proceed; LMain Proceed]) p with
      | Now p => exit_status p = Some 1
      | _ => False
      end
  | _ => False
  end.
Proof. vm_compute. by split. Qed.

Lemma polling_reach : process_reach toy_config 0 not_found polling.
Proof. by apply toy_process_reach. Qed.

Lemma overdue_step : process_step toy_config 0 not_found (LDevice much_later) polling = Now overdue.
Proof.
  assert (Hnow : match process_step toy_config 0 not_found (LDevice much_later) polling with
    Now _ => true | _ => false end = true) by (vm_compute; reflexivity).
  unfold overdue. by destruct (process_step _ _ _ _ polling).
Qed.

Example shutdown_ends_witness :
  at_main polling = MPolling (10 * Second) None /\ ioMu (mu (bus (parts (web polling)))) = Some 7%nat /\
  Acc (end_goes toy_config 0 not_found) overdue /\
  forall p2, rtc (fun a b => end_goes toy_config 0 not_found b a) overdue p2 ->
    exited p2 = true \/ exists p3, end_goes toy_config 0 not_found p3 p2.
Proof.
  split; [by vm_compute|]. split; [by vm_compute|].
  destruct (shutdown_ends toy_config 0 not_found polling polling_reach) as (_ & _ & _ & _ & Hlate).
  apply (Hlate much_later overdue); [vm_compute; by eexists|vm_compute; split; [reflexivity|discriminate]|vm_compute; discriminate|exact overdue_step].
Defined.
